(* ===== verification/_CoqProject ===== *)
-Q . S2P
Prelude.v
Text.v
AsyncWaiter.v
Heap.v
SessionMap.v
RouteTarget.v
RouteLayer.v
RouteTable.v
RouteMount.v
RouteEquiv.v
MessageQueue.v
HttpFields.v
ServerCookie.v
ClientCookie.v
CookieExchange.v
Lifecycle.v
RouteResult.v
Sse.v
MultipartParser.v
MultipartGenerator.v
FormExchange.v
Connection.v
QueueView.v
Closing.v
StreamBuilder.v
PoolIndex.v
ClientPipeline.v
ClientTask.v
SseTask.v
ServerRuntime.v
Futures.v
AcceptLoop.v
WebSocketClient.v
WebSocketServer.v
ConfigLoader.v
ServerRoutes.v
Launcher.v
FileTransfer.v
ServerTask.v
JsonExchange.v
Allocator.v
CBinding.v
ClientSession.v
PluginString.v
ClientTls.v
SessionAttribute.v
FormUpload.v
Serving.v
Streaming.v
