(* ===== verification/Prelude.v ===== *)
(** * bsrvcore, a verification development

    bsrvcore is an asynchronous HTTP server and client library in C++ on
    Boost.Asio and Boost.Beast.  This library models its core logic as Rocq
    functions and transition systems and proves the properties that make it
    correct.  Paths below are relative to src/ in the repository.

    ** The program and the files

    A server opens acceptors on its endpoints, runs I/O threads and a worker
    pool, and accepts connections up to a limit.  A connection reads a request
    header, looks the target up in the route table, reads the body under the
    limits of the route, and hands the request to a task that runs aspects and
    the handler; the task writes the response through the connection, in one
    piece or streamed through the message queue, or turns it into a WebSocket,
    and the connection starts over.  Handlers use sessions, cookies and form
    parsing.  The client side assembles requests (with a cookie jar, through a
    proxy), gets a stream for them from a stack of builders, and runs a task on
    it: one request and response, an event stream, or a WebSocket.  The launcher
    bsrvrun makes a server from a configuration file and plugins.

    - [Prelude]: byte strings, machine integers with their wrap-around, the
      tactics and hint databases, generic lemmas.
    - [Text]: the [std::string_view] operations and the small text helpers.
    - [AsyncWaiter]: include/bsrvcore/core/async_waiter.h, the join of several
      asynchronous results; one step per call, since each holds the mutex.
    - [Heap]: session/detail/heap.h, the binary heap in an array.
    - [SessionMap]: session/session_map.cc and session_map_cleaner.cc; the
      record [SessionMap] is the class, an execution is a list of [op]s with
      their clock readings.
    - [RouteTarget], [RouteLayer], [RouteTable], [RouteMount]: src/route.  The
      tree of layers is a value; [data_at] maps paths of edges to the data of
      layers and is the abstraction the operations are specified against.
      [RouteEquiv]: trees and tables up to what they denote, with what respects
      that; [RouteResult]: results of routing at the public interface, and tasks
      made from them.
    - [MessageQueue]: stream_server_connection_message_queue.h as a transition
      system over the handlers of one executor.
    - [HttpFields]: an interface (type class) for the header container of
      Boost.Beast, with its documented laws and an instance.
    - [ServerCookie], [ClientCookie], [CookieExchange]: server_set_cookie.cc
      and the Cookie parsing of the server, the jar of request_assembler.cc,
      and the two together.
    - [Lifecycle]: http_server_task_lifecycle.cc and http_server_task_detail.h,
      the phases of one request with user code as a parameter.
    - [Sse]: sse_event_parser.cc.
    - [MultipartParser], [MultipartGenerator], [FormExchange]: multipart forms
      on the server, on the client (through [AsyncWaiter]), and together.
    - [Connection]: http_server_connection.cc and the HTTP part of
      stream_server_connection_impl.h, the request cycle with its timers, and the
      message queue's writes beside it.  [QueueView]: [MessageQueue] implements
      what [Connection] sees of the queue.
    - [Closing]: the rest of stream_server_connection_impl.h, how the stream of a
      connection is closed.
    - [Serving]: a connection with the tasks of its requests: [Connection],
      [RouteTable] and [Lifecycle] together.
    - [Streaming]: the message queue, the tasks that write to it and the threads
      that send.
    - [StreamBuilder], [ClientPipeline]: stream_builder.cc, the builders of client
      streams as instances of a type class with its laws, their network
      operations as trees of continuations, and the clients of any stack of
      direct, pooling and proxy builders as a transition system; the request
      assemblers of request_assembler.cc, and both together.  [PoolIndex]: the
      pool as a hash table, and the hash of its keys.
    - [ClientTask]: http_client_task.cc, http_client_task_flow.cc and
      http_client_task_callbacks.cc, a request from Start to its last callback.
      What comes back from a stream builder is handled beside the strand, in
      pieces between which a cancellation can come; so in [SseTask].
    - [SseTask]: the event stream task (http_sse_client_task*.cc), which feeds
      the parser of [Sse].
    - [WebSocketClient], [WebSocketServer]: websocket_client_task*.cc;
      websocket_server_task.cc with the WebSocket operations of a connection.
    - [ServerRuntime], [AcceptLoop]: http_server.cc, http_server_accept.cc and
      http_server_runtime.cc: starting, stopping, threads and executors as
      functions on a record, with the threads started and joined as a history;
      accepting, the connection limit and the threads and handlers that wait for
      the server's mutex as a transition system over it.
    - [Futures]: the templates of http_server.h that give a future.
    - [ServerRoutes]: http_server_route_config.cc, blue_print.cc and
      computing_route_handler.cc, a server with its route table.
    - [FileTransfer]: file_reader.cc, file_writer.cc, put_generator.cc and
      put_processor.cc, as jobs on executors over any disk.
    - [FormUpload]: the files of a form, from the client's generator to the
      server's disk.
    - [ConfigLoader], [Launcher]: bsrvrun, the configuration parsers over YAML
      trees with the meaning of a document as a relation, and the plugin loader, server builder and main program in a monad
      of exceptions over the state of the process.
    - [ServerTask]: http_server_task_base.cc and context.cc, what a handler calls
      on its task, and how a session lives on between requests through
      [SessionMap], [Lifecycle], [ServerCookie] and [ClientCookie].
    - [JsonExchange]: the JSON calls of the client, and a JSON call through the
      server's.
    - [Allocator]: allocator.cc and allocator.h, over a memory of bytes and any
      system heap with its laws.
    - [CBinding]: c_binding, the C interface over [ServerRoutes] and [Lifecycle], in
      a monad with exceptions and a store of objects.
    - [ClientSession]: http_client_session.cc, the tasks that share a jar, and the
      calls of the session itself that fill it;
      [SessionAttribute]: client sessions kept in a context, by several threads.
    - [PluginString]: bsrvrun/string.cc over a heap of blocks.
    - [ClientTls]: default_client_ssl_context.cc, the default TLS context.

    The tasks, the connection, the queue and the accept loop are transition
    systems: a state holds the operations under way and the calls posted, and a
    step is one completion, one posted call or one call of the user, with any
    outcome.  Components meet at interfaces: [HttpFields], the builders of
    [StreamBuilder] and the disk of [FileTransfer] are type classes with laws and
    instances.

    ** What the theorems show

    - Sessions (C1 to C4): the queue always covers the map, cleaning removes
      exactly the expired sessions, live sessions are kept, and a client that got
      a session is in it again in its next request.
    - Routing (C5 to C10): matching computes one walk of the tree, registered
      routes are served, mounting is accepted and merges exactly as specified,
      teardown frees each layer once, the order of registrations is irrelevant.
    - Streaming (C11, C12): the stream carries a prefix of the messages in
      order, one write at a time, with no lost wake-up.
    - Requests and connections (C13 to C18): the order of hooks and the single
      final action; one operation of the cycle at a time, under the limits of its
      phase and, as long as no flush of the queue interferes, under its timeout;
      bounded buffers, and nothing of one request left for the next;
      connection and tasks together serve requests in order, each with the response
      its own task ended with, and requests are answered.
    - The server (C19 to C22): threads, acceptors and executors in every
      sequence of calls on any system; the connection limit; who keeps stopping
      from returning, and that it returns otherwise; what a WebSocket handler is told.
    - Cookies (C23 to C26): the header has exactly the eligible cookies, cookies
      do not leak, a cookie that is set survives the wire, the tasks of a session
      share one jar, and what fills it.
    - Client tasks (C27 to C29): callbacks follow their protocol, chunks are the
      body, no connection is shared and each was made for the key it is held under.
    - Event streams (C30, C31): independence of chunk boundaries, each call
      answered once, a start by the last callback given for it.
    - WebSocket clients (C32): what a handler is told, and closing.
    - Forms and files (C33, C34): form parsing is total, forms with their files
      arrive on the server's disk.
    - bsrvrun (C35 to C37): a configuration is loaded exactly when the document
      spells it and it is sound, the server made from one has for every entry what
      the entry's own factory made, in its place, and everything is taken down in
      order however the launcher ends.
    - The C interface (C38, C39): the functions on a server handle forward to the
      server and turn refusals and exceptions into codes, and handles own what
      they stand for.
    - Memory (C40): the allocator is sound.
    - Theorems without a number show further behaviour and limits: heap order,
      leases, cloning, the language of targets, starting a server, the routes of a
      running one, round-robin selection, joins, the end of tasks and transfers,
      URL parsing, strings that own their blocks, the completion of a
      request that is left alone, uploads, JSON calls, futures, the closing of
      streams, streaming and I/O threads, pool lookups, queue draining, the Cookie header, the form generator, the pool
      and proxies, truncated bodies, cancelled tasks, C callbacks, one session per
      request, the default TLS context, and more.

    ** Conventions, fuel and bounds

    Strings are lists of [ascii].  Sizes and times that can overflow are [Z]
    with [to_size_t] and [to_int64] (64-bit targets); positions and counts that
    are bounded by a container in memory are [nat].  Clock readings, user code
    and the completions of asynchronous operations are arguments.  Loops that
    are not structural take fuel: the size of the heap's vector ([Heap]), the
    length of the view ([MultipartParser], [ClientCookie]), the 20 digits of a
    64-bit number ([ServerCookie]), the number of layers ([RouteMount]), the
    size of the queue ([SessionMap]); the theorems are about the results with
    the fuel the definitions give, so stopping early would falsify them, and
    [multipart_parse_total], [destroy_frees_each_once] and [thorough_clean_exact] say that it is enough.
    Boost.URL, Boost.Beast fields, [std::get_time], [std::sort], file readers,
    the cloning of user objects, socket calls, yaml-cpp conversions, OpenSSL, the
    system heap, the dynamic linker and plugin code are parameters with what is documented of them.

    ** Not modelled

    Sockets, TLS, DNS and the file system themselves; logging, which has no
    state here; the templates of the public headers that only wrap a callable
    into a handler or forward their arguments; the calls of a connection that
    forward to its server; what Boost.Beast's containers allocate beyond what is
    reserved for them. *)

From Stdlib Require Export Ascii.
From stdpp Require Export base strings list gmap fin_maps sorting.
From Stdlib Require Export ZArith Lia.

(** Byte strings.  [std::string], [std::string_view] and the allocator-backed
    strings of the sources are all sequences of [char]. *)
Abbreviation str := (list ascii).

Definition lit (s : string) : str := String.list_ascii_of_string s.

Declare Scope bsrv_scope.
Delimit Scope bsrv_scope with bsrv.
Open Scope bsrv_scope.

(** [c =c d] and [s =s t] are the [==] of [char] and of strings, as booleans. *)
Infix "=c" := Ascii.eqb (at level 70, no associativity) : bsrv_scope.

Definition str_eqb (s t : str) : bool := bool_decide (s = t).
Infix "=s" := str_eqb (at level 70, no associativity) : bsrv_scope.

(** ** Machine integers *)

(** [std::size_t] is 64 bits wide on the supported targets.  [std::int64_t] is
    the representation type of the [std::chrono] durations used. *)
Definition size_t_mod : Z := 2 ^ 64.
Definition int64_min : Z := - 2 ^ 63.
Definition int64_max : Z := 2 ^ 63 - 1.

(** Conversion to [std::size_t]: reduction modulo 2^64. *)
Definition to_size_t (z : Z) : Z := z mod size_t_mod.

(** Conversion of an unsigned 64-bit value to [std::int64_t] is modular
    (C++20); arithmetic that leaves the range is modelled by the same
    wrap-around. *)
Definition to_int64 (z : Z) : Z := (z + 2 ^ 63) mod 2 ^ 64 - 2 ^ 63.

Definition is_size_t (z : Z) : Prop := (0 <= z < size_t_mod)%Z.
Definition is_int64 (z : Z) : Prop := (int64_min <= z <= int64_max)%Z.

(** ** Tactics of the development *)


(** Split every [if] and [match] of the goal, keeping the equations. *)
Ltac split_ifs :=
  repeat (case_match; simplify_eq/=).

(** Reflect the boolean tests in the context into propositions. *)
Ltac reflect_bools :=
  repeat match goal with
  | H : (_ && _) = true |- _ => apply andb_true_iff in H as [? ?]
  | H : (_ || _) = false |- _ => apply orb_false_iff in H as [? ?]
  | H : negb _ = true |- _ => apply negb_true_iff in H
  | H : negb _ = false |- _ => apply negb_false_iff in H
  | H : bool_decide _ = true |- _ => apply bool_decide_eq_true in H
  | H : bool_decide _ = false |- _ => apply bool_decide_eq_false in H
  | H : str_eqb _ _ = true |- _ => apply bool_decide_eq_true in H
  | H : str_eqb _ _ = false |- _ => apply bool_decide_eq_false in H
  | H : Ascii.eqb _ _ = true |- _ => apply Ascii.eqb_eq in H
  | H : Ascii.eqb _ _ = false |- _ => apply Ascii.eqb_neq in H
  | H : Z.ltb _ _ = true |- _ => apply Z.ltb_lt in H
  | H : Z.ltb _ _ = false |- _ => apply Z.ltb_ge in H
  | H : Z.leb _ _ = true |- _ => apply Z.leb_le in H
  | H : Z.leb _ _ = false |- _ => apply Z.leb_gt in H
  | H : Z.eqb _ _ = true |- _ => apply Z.eqb_eq in H
  | H : Z.eqb _ _ = false |- _ => apply Z.eqb_neq in H
  | H : Nat.ltb _ _ = true |- _ => apply Nat.ltb_lt in H
  | H : Nat.ltb _ _ = false |- _ => apply Nat.ltb_ge in H
  | H : Nat.leb _ _ = true |- _ => apply Nat.leb_le in H
  | H : Nat.leb _ _ = false |- _ => apply Nat.leb_gt in H
  | H : Nat.eqb _ _ = true |- _ => apply Nat.eqb_eq in H
  | H : Nat.eqb _ _ = false |- _ => apply Nat.eqb_neq in H
  end.

(** Evaluate a closed decidable goal: equations and comparisons. *)
Ltac vm_decide :=
  vm_compute; repeat split; first [reflexivity | intro; discriminate].

Create HintDb bsrv.
Create Rewrite HintDb bsrv.

(** ** Generic lemmas *)

Lemma to_int64_small (z : Z) : is_int64 z -> to_int64 z = z.
Proof.
  unfold is_int64, int64_min, int64_max, to_int64. intros Hz.
  rewrite Z.mod_small; lia.
Qed.

Lemma to_int64_range (z : Z) : is_int64 (to_int64 z).
Proof.
  unfold is_int64, int64_min, int64_max, to_int64.
  pose proof (Z.mod_pos_bound (z + 2 ^ 63) (2 ^ 64) eq_refl). lia.
Qed.

Lemma to_size_t_small (z : Z) : is_size_t z -> to_size_t z = z.
Proof. unfold is_size_t, to_size_t. intros. by rewrite Z.mod_small. Qed.

Lemma to_size_t_range (z : Z) : is_size_t (to_size_t z).
Proof. apply Z.mod_pos_bound. reflexivity. Qed.

#[export] Hint Resolve to_int64_range to_size_t_range : bsrv.

Lemma str_eqb_eq (s t : str) : (s =s t) = true <-> s = t.
Proof. apply bool_decide_eq_true. Qed.

Lemma str_eqb_refl (s : str) : (s =s s) = true.
Proof. by apply str_eqb_eq. Qed.

Lemma str_eqb_neq (s t : str) : (s =s t) = false <-> s <> t.
Proof. apply bool_decide_eq_false. Qed.

#[export] Hint Rewrite str_eqb_refl Ascii.eqb_refl : bsrv.

Lemma str_eqb_spec (s t : str) : reflect (s = t) (s =s t).
Proof. apply bool_decide_reflect. Qed.

(** A reachable-state invariant: it holds initially and every step keeps it. *)
Lemma rtc_invariant {A} (R : relation A) (P : A -> Prop) x y :
  (forall a b, P a -> R a b -> P b) -> rtc R x y -> P x -> P y.
Proof. intros Hstep Hxy. induction Hxy; eauto. Qed.

Lemma elem_of_snoc {A} (x y : A) l : x ∈ l ++ [y] <-> x ∈ l \/ x = y.
Proof. rewrite elem_of_app, list_elem_of_singleton. done. Qed.

Lemma last_snoc_eq {A} (l : list A) x : last (l ++ [x]) = Some x.
Proof. by rewrite last_snoc. Qed.
