(* ===== verification/Text.v ===== *)
(** * Text: the operations of [std::string_view] the sources use

    Positions are [nat]; [std::string_view::npos] is [None].  [find_char] and
    [find_str] are the two overloads of [find], [substr] is [substr(pos, n)] at
    a position inside the view, [compare_at] is [compare(pos, n, t) == 0] with
    the [std::out_of_range] exception as [None].  [TrimView], [ToLowerString]
    and [IEquals] are the helpers the server, the client and the request-body
    code each define once more under src/connection. *)

From S2P Require Import Prelude.

(** ** Searching *)

Fixpoint find_char (c : ascii) (s : str) : option nat :=
  match s with
  | [] => None
  | d :: s' => if d =c c then Some 0 else S <$> find_char c s'
  end.

Definition find_char_from (c : ascii) (s : str) (pos : nat) : option nat :=
  Nat.add pos <$> find_char c (drop pos s).

Fixpoint starts_with (s p : str) {struct p} : bool :=
  match p, s with
  | [], _ => true
  | _, [] => false
  | c :: p', d :: s' => (d =c c) && starts_with s' p'
  end.

Fixpoint find_str (p s : str) : option nat :=
  if starts_with s p then Some 0 else
  match s with
  | [] => None
  | _ :: s' => S <$> find_str p s'
  end.

Definition find_str_from (p s : str) (pos : nat) : option nat :=
  Nat.add pos <$> find_str p (drop pos s).

Definition substr (s : str) (pos n : nat) : str := take n (drop pos s).

(** [s.substr(0, pos)] where [pos] may be [npos]. *)
Definition prefix_upto (s : str) (pos : option nat) : str :=
  match pos with Some i => take i s | None => s end.

Definition compare_at (s : str) (pos n : nat) (t : str) : option bool :=
  if decide (pos <= length s) then Some (substr s pos n =s t) else None.

(** ** Character classes and trimming *)

Definition is_ws (c : ascii) : bool :=
  (c =c " "%char) || (c =c "009"%char) || (c =c "013"%char) || (c =c "010"%char).

(** [find_first_not_of(ws)]. *)
Fixpoint find_first_not_ws (s : str) : option nat :=
  match s with
  | [] => None
  | c :: s' => if is_ws c then S <$> find_first_not_ws s' else Some 0
  end.

(** [find_last_not_of(ws)]. *)
Fixpoint find_last_not_ws (s : str) : option nat :=
  match s with
  | [] => None
  | c :: s' =>
      match find_last_not_ws s' with
      | Some i => Some (S i)
      | None => if is_ws c then None else Some 0
      end
  end.

Definition TrimView (sv : str) : str :=
  match find_first_not_ws sv with
  | None => []
  | Some first =>
      match find_last_not_ws sv with
      | None => []
      | Some last_ => substr sv first (last_ - first + 1)
      end
  end.

(** [std::tolower] in the C locale. *)
Definition tolower (c : ascii) : ascii :=
  let n := nat_of_ascii c in
  if (65 <=? n) && (n <=? 90) then ascii_of_nat (n + 32) else c.

Definition ToLowerString (sv : str) : str := tolower <$> sv.

Fixpoint IEquals (a b : str) : bool :=
  match a, b with
  | [], [] => true
  | c :: a', d :: b' => (tolower c =c tolower d) && IEquals a' b'
  | _, _ => false
  end.

(** [front() == '"' && back() == '"' && size() >= 2], then both removed. *)
Definition strip_quotes (s : str) : str :=
  match s with
  | c :: s' =>
      if (c =c "034"%char) && (2 <=? length s)
         && bool_decide (last s = Some "034"%char)
      then removelast s' else s
  | [] => s
  end.

(** ** Lemmas: searching for a character *)

Lemma find_char_Some c s i :
  find_char c s = Some i <->
  exists l r, s = l ++ c :: r /\ c ∉ l /\ length l = i.
Proof.
  revert i. induction s as [|d s IH]; intros i; simpl.
  { split; [done|]. intros (l & r & H & _). by destruct l. }
  destruct (Ascii.eqb_spec d c) as [->|Hne].
  - split.
    + intros [= <-]. exists [], s. split_and!; [done|apply not_elem_of_nil|done].
    + intros ([|e l] & r & Hs & Hni & Hlen); simplify_eq/=; [done|].
      set_solver.
  - rewrite fmap_Some. setoid_rewrite IH. split.
    + intros (j & (l & r & -> & Hni & Hlen) & ->).
      exists (d :: l), r. split_and!; [done| |simpl; lia]. set_solver.
    + intros ([|e l] & r & Hs & Hni & Hlen); simplify_eq/=.
      exists (length l). split; [|done]. exists l, r.
      split_and!; [done|set_solver|done].
Qed.

Lemma find_char_None c s : find_char c s = None <-> c ∉ s.
Proof.
  induction s as [|d s IH]; simpl.
  - split; [|done]. intros _. apply not_elem_of_nil.
  - destruct (Ascii.eqb_spec d c) as [->|Hne].
    + split; [done|]. set_solver.
    + rewrite fmap_None, IH. set_solver.
Qed.

Lemma find_char_app c l r : c ∉ l -> find_char c (l ++ c :: r) = Some (length l).
Proof. intros. apply find_char_Some. eauto 6. Qed.

Lemma find_char_app_r c l r :
  c ∉ l -> find_char c (l ++ r) = Nat.add (length l) <$> find_char c r.
Proof.
  intros Hl. induction l as [|d l IH]; simpl.
  - by destruct (find_char c r).
  - apply not_elem_of_cons in Hl as [Hd Hl].
    rewrite (proj2 (Ascii.eqb_neq d c)) by congruence.
    rewrite IH by done. by destruct (find_char c r).
Qed.

Lemma find_char_lt c s i : find_char c s = Some i -> i < length s.
Proof.
  intros (l & r & -> & _ & <-)%find_char_Some. rewrite length_app. simpl. lia.
Qed.

(** ** Lemmas: searching for a string *)

Lemma starts_with_spec s p : starts_with s p = true <-> exists r, s = p ++ r.
Proof.
  revert s. induction p as [|c p IH]; intros s; simpl.
  { split; [by eexists|done]. }
  destruct s as [|d s].
  { split; [done|]. intros [r Hr]. done. }
  rewrite andb_true_iff, IH, Ascii.eqb_eq. split.
  - intros [-> [r ->]]. by exists r.
  - intros [r Hr]. simplify_eq/=. eauto.
Qed.

Lemma starts_with_app p r : starts_with (p ++ r) p = true.
Proof. apply starts_with_spec. eauto. Qed.

Lemma starts_with_app_l s r p :
  length p <= length s -> starts_with (s ++ r) p = starts_with s p.
Proof.
  revert s. induction p as [|c p IH]; intros [|d s] Hlen; simpl in *; try done.
  - lia.
  - rewrite IH by lia. done.
Qed.

Lemma find_str_cons p d s :
  find_str p (d :: s) = if starts_with (d :: s) p then Some 0 else S <$> find_str p s.
Proof. done. Qed.

Lemma find_str_here p r : find_str p (p ++ r) = Some 0.
Proof.
  pose proof (starts_with_app p r) as H.
  destruct (p ++ r); simpl; by rewrite H.
Qed.

Lemma find_str_Some p s i :
  find_str p s = Some i -> exists l r, s = l ++ p ++ r /\ length l = i.
Proof.
  revert i. induction s as [|d s IH]; intros i; simpl.
  - destruct (starts_with [] p) eqn:E; [|done]. intros [= <-].
    apply starts_with_spec in E as [r ->]. by exists [], r.
  - destruct (starts_with (d :: s) p) eqn:E.
    + intros [= <-]. apply starts_with_spec in E as [r ->]. by exists [], r.
    + intros (j & Hj & ->)%fmap_Some.
      destruct (IH _ Hj) as (l & r & -> & <-). by exists (d :: l), r.
Qed.

Lemma starts_with_cut d a p r :
  starts_with (d :: a ++ p ++ r) p = starts_with (d :: a ++ p) p.
Proof.
  rewrite <- (starts_with_app_l (d :: a ++ p) r p).
  - f_equal. simpl. by rewrite <- app_assoc.
  - simpl. rewrite length_app. lia.
Qed.

(** The first occurrence does not depend on what follows it. *)
Lemma find_str_extend p a r :
  find_str p (a ++ p) = Some (length a) <-> find_str p (a ++ p ++ r) = Some (length a).
Proof.
  induction a as [|d a IH].
  - simpl app. rewrite find_str_here. rewrite <- (app_nil_r p) at 2. by rewrite find_str_here.
  - simpl app. cbn [find_str length]. rewrite starts_with_cut.
    destruct (starts_with (d :: a ++ p) p); [done|]. rewrite !fmap_Some. naive_solver.
Qed.

(** The text before the first occurrence, and that it is the first. *)
Lemma find_str_split p s i :
  find_str p s = Some i ->
  exists r, s = take i s ++ p ++ r /\ length (take i s) = i /\
            find_str p (take i s ++ p) = Some (length (take i s)).
Proof.
  intros Hf. destruct (find_str_Some _ _ _ Hf) as (l & r & -> & <-). exists r.
  rewrite take_app_length. split_and!; [done|done|]. by eapply find_str_extend.
Qed.

(** ** Lemmas: trimming *)

Definition trimmed (s : str) : Prop :=
  match s with
  | [] => True
  | c :: _ => is_ws c = false /\ (exists l d, s = l ++ [d] /\ is_ws d = false)
  end.

Lemma find_last_not_ws_snoc l d :
  is_ws d = false -> find_last_not_ws (l ++ [d]) = Some (length l).
Proof.
  intros Hd. induction l as [|c l IH]; simpl; [by rewrite Hd|]. by rewrite IH.
Qed.

Lemma find_first_not_ws_cons c s :
  is_ws c = false -> find_first_not_ws (c :: s) = Some 0.
Proof. intros Hc. simpl. by rewrite Hc. Qed.

Lemma TrimView_trimmed_id s : trimmed s -> TrimView s = s.
Proof.
  destruct s as [|c s]; [done|]. intros [Hc (l & d & Hs & Hd)].
  unfold TrimView. rewrite find_first_not_ws_cons by done.
  rewrite Hs, find_last_not_ws_snoc by done.
  unfold substr. rewrite drop_0. apply take_ge. rewrite length_app. simpl. lia.
Qed.

Lemma find_first_not_ws_Some s i :
  find_first_not_ws s = Some i ->
  exists l c r, s = l ++ c :: r /\ is_ws c = false /\ length l = i
                /\ Forall (fun x => is_ws x = true) l.
Proof.
  revert i. induction s as [|c s IH]; intros i; simpl; [done|].
  destruct (is_ws c) eqn:Hc.
  - intros (j & Hj & ->)%fmap_Some.
    destruct (IH _ Hj) as (l & d & r & -> & Hd & <- & HF).
    exists (c :: l), d, r. split_and!; try done. by constructor.
  - intros [= <-]. exists [], c, s. done.
Qed.

Lemma find_last_not_ws_Some s i :
  find_last_not_ws s = Some i ->
  exists l c r, s = l ++ c :: r /\ is_ws c = false /\ length l = i
                /\ Forall (fun x => is_ws x = true) r.
Proof.
  revert i. induction s as [|c s IH]; intros i; simpl; [done|].
  destruct (find_last_not_ws s) as [j|] eqn:Hj.
  - intros [= <-]. destruct (IH _ eq_refl) as (l & d & r & -> & Hd & <- & HF).
    by exists (c :: l), d, r.
  - destruct (is_ws c) eqn:Hc; [done|]. intros [= <-].
    exists [], c, s. split_and!; try done.
    clear IH. induction s as [|d s IH]; [constructor|]. simpl in Hj.
    destruct (find_last_not_ws s); [done|]. destruct (is_ws d) eqn:Hd; [|done].
    constructor; [done|]. by apply IH.
Qed.

Lemma ws_prefix_split (l l' : str) c c' r r' :
  l ++ c :: r = l' ++ c' :: r' ->
  is_ws c' = false -> Forall (fun x => is_ws x = true) l -> is_ws c = false ->
  length l <= length l'.
Proof.
  revert l'. induction l as [|x l IH]; intros [|y l'] Heq Hc' HF Hc;
    simplify_eq/=; inv HF; try lia; try congruence.
  apply le_n_S. eauto.
Qed.

(** The result of [TrimView] starts and ends with a non-blank character. *)
Lemma TrimView_trimmed s : trimmed (TrimView s).
Proof.
  unfold TrimView. destruct (find_first_not_ws s) as [i|] eqn:Hi; [|done].
  destruct (find_last_not_ws s) as [j|] eqn:Hj; [|done].
  destruct (find_first_not_ws_Some _ _ Hi) as (l & c & r & Hs & Hc & <- & HF).
  destruct (find_last_not_ws_Some _ _ Hj) as (l' & c' & r' & Hs' & Hc' & <- & HF').
  assert (exists k, l' = l ++ k) as [k ->].
  { assert (length l <= length l') as Hle
      by (eapply (ws_prefix_split l l' c c' r r'); congruence).
    rewrite Hs in Hs'. apply app_eq_inv in Hs' as [(k & -> & _)|(k & -> & _)]; [|eauto].
    rewrite length_app in Hle. destruct k; [exists []; by rewrite !app_nil_r|].
    simpl in Hle. lia. }
  assert (substr s (length l) (length (l ++ k) - length l + 1) = k ++ [c']) as ->.
  { unfold substr. rewrite Hs', <- app_assoc, drop_app_length, length_app.
    change (c' :: r') with ([c'] ++ r'). rewrite app_assoc.
    rewrite take_app_length'; [done|]. rewrite length_app. simpl. lia. }
  rewrite Hs, <- app_assoc in Hs'. apply app_inv_head in Hs'.
  destruct k as [|d k]; simplify_eq/=; split; try done.
  - by exists [], c'.
  - by exists (d :: k), c'.
Qed.

Lemma TrimView_idemp s : TrimView (TrimView s) = TrimView s.
Proof. apply TrimView_trimmed_id, TrimView_trimmed. Qed.

#[export] Hint Rewrite TrimView_idemp : bsrv.
#[export] Hint Resolve TrimView_trimmed : bsrv.

(** ** Lemmas: case folding *)

Lemma IEquals_ToLower a b : IEquals a b = (ToLowerString a =s ToLowerString b).
Proof.
  apply eq_true_iff_eq. rewrite str_eqb_eq. revert b.
  induction a as [|c a IH]; intros [|d b]; simpl; try done.
  rewrite andb_true_iff, Ascii.eqb_eq, IH. split.
  - by intros [-> ->].
  - by intros [= -> ->].
Qed.

Lemma tolower_idemp c : tolower (tolower c) = tolower c.
Proof. destruct c as [[] [] [] [] [] [] [] []]; reflexivity. Qed.

Lemma ToLowerString_idemp s : ToLowerString (ToLowerString s) = ToLowerString s.
Proof.
  unfold ToLowerString. rewrite <- list_fmap_compose.
  apply list_fmap_ext. intros. apply tolower_idemp.
Qed.

Lemma length_ToLowerString s : length (ToLowerString s) = length s.
Proof. apply length_fmap. Qed.

#[export] Hint Rewrite ToLowerString_idemp length_ToLowerString : bsrv.

Lemma find_char_snoc_notin c s : c ∉ s -> find_char c s = None.
Proof. by rewrite find_char_None. Qed.
