(* ===== verification/AsyncWaiter.v ===== *)
(** * Async waiters

    The join of several asynchronous results
    ([src/include/bsrvcore/core/async_waiter.h]): [AsyncSameTypeWaiter<T>], its
    specialisation [AsyncSameTypeWaiter<void>] (module [Barrier]) and
    [AsyncTemplateWaiter<Ts...>] (module [Typed], the slot types erased).  Every
    member function runs under the mutex, so an execution is a sequence of
    calls; the completion a call returns is what it runs after unlocking. *)

From stdpp Require Import base list option.
From S2P Require Import Prelude.

(** The calls on a waiter; [None] is an empty [std::function]. *)
Inductive waiter_op (K T : Type) :=
  | CallOnReady (callback : option K)
  | CallFulfill (index : nat) (value : T).
Arguments CallOnReady {_ _} _.
Arguments CallFulfill {_ _} _ _.

(** What a call does after unlocking: nothing, or run the callback on the
    collected values, [None] standing for reading an empty [std::optional]. *)
Definition ReadyCompletion (K T : Type) : Type := option (K * option (list T)).

(** Run the calls one after the other and collect the completions. *)
Definition run_calls {S Op C} (call : Op -> S -> S * option C) (s : S) (ops : list Op) :
    S * list C :=
  foldl (fun sc o => let '(s', c) := call o sc.1 in (s', sc.2 ++ option_list c)) (s, []) ops.

(** ** [AsyncSameTypeWaiter<T>] *)

Section waiter.
Context {K T : Type}.

Record AsyncSameTypeWaiter := mkWaiter {
  fired_ : bool;
  remaining_ : nat;
  slot_ready_ : list bool;
  values_ : list (option T);
  callback_ : option K;
}.

Definition Create (wait_count : nat) : AsyncSameTypeWaiter :=
  mkWaiter false wait_count (replicate wait_count false) (replicate wait_count None) None.

Definition TakeCompletionLocked (w : AsyncSameTypeWaiter) :
    AsyncSameTypeWaiter * ReadyCompletion K T :=
  match callback_ w with
  | Some callback =>
      if fired_ w || negb (remaining_ w =? 0)%nat then (w, None)
      else (mkWaiter true (remaining_ w) (slot_ready_ w) (values_ w) None,
            Some (callback, mapM (fun item => item) (values_ w)))
  | None => (w, None)
  end.

Definition OnReadyAllocated (callback : option K) (w : AsyncSameTypeWaiter) :
    AsyncSameTypeWaiter * ReadyCompletion K T :=
  if fired_ w then (w, None)
  else TakeCompletionLocked
         (mkWaiter (fired_ w) (remaining_ w) (slot_ready_ w) (values_ w) callback).

Definition Fulfill (index : nat) (value : T) (w : AsyncSameTypeWaiter) :
    AsyncSameTypeWaiter * ReadyCompletion K T :=
  if fired_ w || (length (slot_ready_ w) <=? index) || default false (slot_ready_ w !! index)
  then (w, None)
  else TakeCompletionLocked
         (mkWaiter (fired_ w)
            (if (remaining_ w =? 0)%nat then remaining_ w else remaining_ w - 1)
            (<[index := true]> (slot_ready_ w)) (<[index := Some value]> (values_ w))
            (callback_ w)).

Definition call (o : waiter_op K T) (w : AsyncSameTypeWaiter) :
    AsyncSameTypeWaiter * ReadyCompletion K T :=
  match o with
  | CallOnReady callback => OnReadyAllocated callback w
  | CallFulfill index value => Fulfill index value w
  end.
End waiter.
Arguments AsyncSameTypeWaiter : clear implicits.

(** [MakeCallbacksAllocated]: one call per slot. *)
Definition MakeCallbacksAllocated {K T} (w : AsyncSameTypeWaiter K T) :
    list (T -> waiter_op K T) :=
  (fun i value => CallFulfill i value) <$> seq 0 (length (slot_ready_ w)).

(** ** [AsyncSameTypeWaiter<void>] *)

Module Barrier.
Section barrier.
Context {K : Type}.

Record AsyncSameTypeWaiter := mkWaiter {
  fired_ : bool;
  remaining_ : nat;
  slot_ready_ : list bool;
  callback_ : option K;
}.

Definition Create (wait_count : nat) : AsyncSameTypeWaiter :=
  mkWaiter false wait_count (replicate wait_count false) None.

Definition TakeCompletionLocked (w : AsyncSameTypeWaiter) : AsyncSameTypeWaiter * option K :=
  match callback_ w with
  | Some callback =>
      if fired_ w || negb (remaining_ w =? 0)%nat then (w, None)
      else (mkWaiter true (remaining_ w) (slot_ready_ w) None, Some callback)
  | None => (w, None)
  end.

Definition OnReady (callback : option K) (w : AsyncSameTypeWaiter) :
    AsyncSameTypeWaiter * option K :=
  if fired_ w then (w, None)
  else TakeCompletionLocked (mkWaiter (fired_ w) (remaining_ w) (slot_ready_ w) callback).

Definition Fulfill (index : nat) (w : AsyncSameTypeWaiter) : AsyncSameTypeWaiter * option K :=
  if fired_ w || (length (slot_ready_ w) <=? index) || default false (slot_ready_ w !! index)
  then (w, None)
  else TakeCompletionLocked
         (mkWaiter (fired_ w)
            (if (remaining_ w =? 0)%nat then remaining_ w else remaining_ w - 1)
            (<[index := true]> (slot_ready_ w)) (callback_ w)).

Definition call {T} (o : waiter_op K T) (w : AsyncSameTypeWaiter) :
    AsyncSameTypeWaiter * option K :=
  match o with
  | CallOnReady callback => OnReady callback w
  | CallFulfill index _ => Fulfill index w
  end.
End barrier.
End Barrier.

(** ** [AsyncTemplateWaiter<Ts...>]

    [Fulfill<Index>] has no range check: the index is a constant below
    [sizeof...(Ts)].  Reading or writing outside the arrays is impossible then,
    so the operations are those of a waiter with [sizeof...(Ts)] slots; [T] is
    the union of the slot types. *)

Module Typed.
Section typed.
Context {K T : Type}.

Definition OnTupleReady (callback : option K) (w : AsyncSameTypeWaiter K T) :
    AsyncSameTypeWaiter K T * ReadyCompletion K T :=
  if fired_ w then (w, None)
  else TakeCompletionLocked
         (mkWaiter (fired_ w) (remaining_ w) (slot_ready_ w) (values_ w) callback).

Definition Fulfill (Index : nat) (value : T) (w : AsyncSameTypeWaiter K T) :
    AsyncSameTypeWaiter K T * ReadyCompletion K T :=
  if fired_ w || default false (slot_ready_ w !! Index) then (w, None)
  else TakeCompletionLocked
         (mkWaiter (fired_ w)
            (if (remaining_ w =? 0)%nat then remaining_ w else remaining_ w - 1)
            (<[Index := true]> (slot_ready_ w)) (<[Index := Some value]> (values_ w))
            (callback_ w)).

Definition call (o : waiter_op K T) (w : AsyncSameTypeWaiter K T) :
    AsyncSameTypeWaiter K T * ReadyCompletion K T :=
  match o with
  | CallOnReady callback => OnTupleReady callback w
  | CallFulfill index value => Fulfill index value w
  end.
End typed.
End Typed.

(** ** What a waiter promises

    The values of the slots and the callback after some calls: each slot keeps
    the first value it was given, the last callback registered counts.  The
    waiter completes at the first moment when every slot has a value and there
    is a callback. *)

Section spec.
Context {K T : Type}.
Implicit Types ops : list (waiter_op K T).

Definition value_for (i : nat) (o : waiter_op K T) : option T :=
  match o with
  | CallFulfill j v => if decide (j = i) then Some v else None
  | CallOnReady _ => None
  end.

Definition first_value (i : nat) ops : option T := head (omap (value_for i) ops).

Definition slot_values (n : nat) ops : list (option T) :=
  (fun i => first_value i ops) <$> seq 0 n.

Definition current_callback ops : option K :=
  foldl (fun cb o => match o with CallOnReady c => c | CallFulfill _ _ => cb end) None ops.

Definition ready (n : nat) ops : option (K * option (list T)) :=
  cb ← current_callback ops;
  vs ← mapM (fun item => item) (slot_values n ops);
  Some (cb, Some vs).

Definition op_prefixes {X} (ops : list X) : list (list X) :=
  (fun k => take k ops) <$> seq 0 (S (length ops)).

(** The completion of the first prefix that is ready, if any. *)
Definition first_ready (n : nat) ops : option (K * option (list T)) :=
  head (omap (ready n) (op_prefixes ops)).

Lemma op_prefixes_snoc {X} (ops : list X) o :
  op_prefixes (ops ++ [o]) = op_prefixes ops ++ [ops ++ [o]].
Proof.
  unfold op_prefixes. rewrite length_app. cbn [length].
  replace (S (length ops + 1)) with (S (length ops) + 1) by lia.
  rewrite seq_app, fmap_app. f_equal.
  - apply list_fmap_ext. intros i k Hk. apply lookup_seq in Hk as [-> Hk].
    rewrite take_app_le by lia. done.
  - cbn. rewrite firstn_all2; [done|]. rewrite length_app. cbn. lia.
Qed.

Lemma head_omap_snoc {X Y} (f : X -> option Y) (l : list X) x :
  head (omap f (l ++ [x])) = match head (omap f l) with Some y => Some y | None => f x end.
Proof.
  rewrite omap_app. destruct (omap f l); [|done]. cbn. by destruct (f x).
Qed.

Lemma first_ready_snoc n ops o :
  first_ready n (ops ++ [o]) =
  match first_ready n ops with Some c => Some c | None => ready n (ops ++ [o]) end.
Proof. unfold first_ready. by rewrite op_prefixes_snoc, head_omap_snoc. Qed.

Lemma current_callback_snoc ops o :
  current_callback (ops ++ [o]) =
  match o with CallOnReady c => c | CallFulfill _ _ => current_callback ops end.
Proof. unfold current_callback. rewrite foldl_app. by destruct o. Qed.

Lemma slot_values_on_ready n ops c : slot_values n (ops ++ [CallOnReady c]) = slot_values n ops.
Proof.
  apply list_fmap_ext. intros i k _. unfold first_value. rewrite head_omap_snoc. cbn.
  by destruct (head _).
Qed.

Lemma slot_values_fulfill n ops i v :
  slot_values n (ops ++ [CallFulfill i v]) =
  match first_value i ops with
  | Some _ => slot_values n ops
  | None => <[i := Some v]> (slot_values n ops)
  end.
Proof.
  apply list_eq. intros j. unfold slot_values.
  destruct (decide (j < n)) as [Hj|Hj].
  2:{ rewrite (lookup_ge_None_2 _ j) by (rewrite length_fmap, length_seq; lia).
      destruct (first_value i ops); symmetry; apply lookup_ge_None_2;
        rewrite ?length_insert, length_fmap, length_seq; lia. }
  rewrite list_lookup_fmap, lookup_seq_lt by done. cbn.
  assert (first_value j (ops ++ [CallFulfill i v]) =
          match first_value j ops with
          | Some w => Some w | None => if decide (i = j) then Some v else None end) as ->
    by (unfold first_value; by rewrite head_omap_snoc).
  destruct (decide (i = j)) as [->|Hij].
  - destruct (first_value j ops) as [w|] eqn:E.
    + rewrite list_lookup_fmap, lookup_seq_lt by done. cbn. by rewrite E.
    + rewrite list_lookup_insert_eq; [done|]. rewrite length_fmap, length_seq. lia.
  - assert (((fun i0 => first_value i0 ops) <$> seq 0 n) !! j = Some (first_value j ops)) as Hl
      by by rewrite list_lookup_fmap, lookup_seq_lt.
    destruct (first_value i ops);
      [rewrite Hl|rewrite list_lookup_insert_ne, Hl by done]; by destruct (first_value j ops).
Qed.

Definition filled (v : option T) : bool := match v with Some _ => true | None => false end.

(** Slots still waiting. *)
Definition waiting (values : list (option T)) : nat := length (filter (fun v => v = None) values).

Lemma waiting_zero values : waiting values = 0 <-> is_Some (mapM (fun item => item) values).
Proof.
  unfold waiting. rewrite mapM_is_Some. induction values as [|v values IH].
  { cbn. split; [constructor|done]. }
  rewrite filter_cons, Forall_cons. destruct v as [v|].
  - destruct (decide (Some v = None)); [done|]. rewrite IH. cbn. naive_solver.
  - destruct (decide (None = None)); [|done]. cbn. split; [done|]. by intros [[? ?] _].
Qed.

Lemma waiting_insert values i v :
  values !! i = Some None -> waiting values = S (waiting (<[i := Some v]> values)).
Proof.
  unfold waiting. revert i. induction values as [|u values IH]; intros [|i] Hi; try done; cbn in Hi.
  - injection Hi as ->. cbn [insert list_insert]. rewrite !filter_cons.
    destruct (decide (None = None)); [|done]. by destruct (decide (Some v = None)).
  - cbn [insert list_insert]. rewrite !filter_cons. specialize (IH i Hi).
    destruct (decide (u = None)); cbn [length]; by rewrite IH.
Qed.
End spec.

(** ** The waiters keep the promise *)

Lemma run_calls_snoc {S Op C} (call : Op -> S -> S * option C) s ops o :
  run_calls call s (ops ++ [o]) =
  let '(s1, cs) := run_calls call s ops in
  let '(s2, c) := call o s1 in (s2, cs ++ option_list c).
Proof. unfold run_calls. rewrite foldl_app. cbn. by destruct (foldl _ _ ops). Qed.

Section refinement.
Context {K T : Type}.
Implicit Types ops : list (waiter_op K T).

(** The state after some calls: as the specification says, or fired. *)
Definition waiter_inv (n : nat) ops (wc : AsyncSameTypeWaiter K T * list (K * option (list T))) :
    Prop :=
  match first_ready n ops with
  | Some c => fired_ wc.1 = true /\ wc.2 = [c]
  | None =>
      wc.2 = [] /\
      wc.1 = mkWaiter false (waiting (slot_values n ops))
               (filled <$> slot_values n ops) (slot_values n ops)
               (current_callback ops)
  end.

(** [TakeCompletionLocked] on an updated state that matches the calls so far. *)
Lemma take_completion_inv n ops o :
  first_ready n ops = None ->
  let vs := slot_values n (ops ++ [o]) in
  let '(w, c) := TakeCompletionLocked
    (mkWaiter false (waiting vs) (filled <$> vs) vs (current_callback (ops ++ [o]))) in
  waiter_inv n (ops ++ [o]) (w, option_list c).
Proof.
  intros Hnone vs. unfold TakeCompletionLocked, waiter_inv. cbn [callback_ fired_ remaining_ values_].
  rewrite first_ready_snoc, Hnone. unfold ready. fold vs.
  destruct (current_callback (ops ++ [o])) as [cb|]; cbn [orb mbind option_bind]; [|done].
  destruct (mapM _ vs) as [l|] eqn:Hm.
  - assert (waiting vs = 0) as -> by (apply waiting_zero; by rewrite Hm). done.
  - destruct (Nat.eqb_spec (waiting vs) 0) as [H0|H0]; [|done].
    apply waiting_zero in H0. rewrite Hm in H0. by destruct H0.
Qed.

Lemma call_fired o (w : AsyncSameTypeWaiter K T) : fired_ w = true -> call o w = (w, None).
Proof. intros Hf. destruct o; unfold call, OnReadyAllocated, Fulfill; by rewrite Hf. Qed.

Lemma slot_values_lookup n ops i :
  i < n -> slot_values n ops !! i = Some (first_value i ops).
Proof. intros Hi. unfold slot_values. by rewrite list_lookup_fmap, lookup_seq_lt. Qed.

Lemma length_slot_values n ops : length (slot_values n ops) = n.
Proof. unfold slot_values. by rewrite length_fmap, length_seq. Qed.

(** A call that changes nothing keeps the invariant. *)
Lemma waiter_inv_idle n ops o :
  first_ready n ops = None ->
  slot_values n (ops ++ [o]) = slot_values n ops ->
  current_callback (ops ++ [o]) = current_callback ops ->
  forall wc, waiter_inv n ops wc -> waiter_inv n (ops ++ [o]) wc.
Proof.
  intros Hn Hv Hc wc. unfold waiter_inv. rewrite first_ready_snoc, Hn.
  assert (ready n (ops ++ [o]) = None) as ->; [|by rewrite Hv, Hc].
  unfold ready. rewrite Hv, Hc. change (ready n ops = None).
  unfold first_ready in Hn. destruct (ready n ops) as [c|] eqn:E; [|done].
  destruct ops as [|o' ops' _] using rev_ind.
  - discriminate E.
  - rewrite op_prefixes_snoc, head_omap_snoc, E in Hn. by destruct (head _).
Qed.

Lemma call_inv n ops o wc :
  waiter_inv n ops wc ->
  waiter_inv n (ops ++ [o])
    (let '(w, c) := call o wc.1 in (w, wc.2 ++ option_list c)).
Proof.
  intros Hinv. destruct (first_ready n ops) as [c|] eqn:Hfr.
  { unfold waiter_inv in *. rewrite first_ready_snoc, Hfr in *. destruct Hinv as [Hf Hc].
    rewrite call_fired by done. cbn. by rewrite app_nil_r. }
  pose proof Hinv as Hinv0. unfold waiter_inv in Hinv. rewrite Hfr in Hinv.
  destruct wc as [w cs]. cbn [fst snd] in *. destruct Hinv as [-> Hw].
  pose proof (take_completion_inv n ops o Hfr) as Htake. cbn zeta in Htake.
  destruct o as [cb|i v]; cbn [call].
  - rewrite slot_values_on_ready, current_callback_snoc in Htake.
    rewrite Hw. unfold OnReadyAllocated. cbn [fired_ remaining_ slot_ready_ values_].
    by destruct (TakeCompletionLocked _).
  - rewrite slot_values_fulfill, current_callback_snoc in Htake.
    rewrite Hw. unfold Fulfill. cbn [fired_ remaining_ slot_ready_ values_ callback_ orb].
    rewrite length_fmap, length_slot_values.
    destruct (Nat.leb_spec n i) as [Hi|Hi]; cbn [orb].
    { rewrite <- Hw. eapply waiter_inv_idle; [done| |by rewrite current_callback_snoc|exact Hinv0].
      rewrite slot_values_fulfill. destruct (first_value i ops); [done|].
      apply list_insert_ge. by rewrite length_slot_values. }
    rewrite list_lookup_fmap, slot_values_lookup by done. cbn [fmap option_fmap option_map default].
    destruct (first_value i ops) as [u|] eqn:Hfv; cbn [filled].
    { rewrite <- Hw. eapply waiter_inv_idle; [done| |by rewrite current_callback_snoc|exact Hinv0].
      by rewrite slot_values_fulfill, Hfv. }
    assert (slot_values n ops !! i = Some None) as Hsv
      by (by rewrite slot_values_lookup, Hfv).
    rewrite (waiting_insert _ i v Hsv). cbn [Nat.eqb]. rewrite Nat.sub_1_r. cbn [Nat.pred].
    rewrite list_fmap_insert in Htake. by destruct (TakeCompletionLocked _).
Qed.

Lemma slot_values_nil n : slot_values n ([] : list (waiter_op K T)) = replicate n None.
Proof.
  symmetry. apply replicate_as_elem_of. split; [by rewrite length_slot_values|].
  by intros x (i & -> & _)%list_elem_of_fmap.
Qed.

Lemma waiting_replicate n : waiting (replicate n (None : option T)) = n.
Proof.
  induction n as [|n IH]; [done|]. unfold waiting in *. cbn [replicate].
  rewrite filter_cons. destruct (decide (None = None)); [|done]. cbn [length]. by rewrite IH.
Qed.

Lemma run_calls_inv n ops : waiter_inv n ops (run_calls call (Create n) ops).
Proof.
  induction ops as [|o ops IH] using rev_ind.
  - unfold waiter_inv, first_ready, op_prefixes. cbn. split; [done|]. unfold Create.
    by rewrite slot_values_nil, waiting_replicate, fmap_replicate.
  - rewrite run_calls_snoc. apply (call_inv n ops o) in IH.
    destruct (run_calls call (Create n) ops) as [w cs]. exact IH.
Qed.

Lemma run_calls_completions n ops :
  (run_calls call (Create n) ops).2 = option_list (first_ready n ops).
Proof.
  pose proof (run_calls_inv n ops) as Hinv. unfold waiter_inv in Hinv.
  destruct (first_ready n ops); by destruct Hinv.
Qed.

(** The barrier runs as the waiter does, without the values. *)
Definition erase (w : AsyncSameTypeWaiter K T) : Barrier.AsyncSameTypeWaiter (K := K) :=
  Barrier.mkWaiter (fired_ w) (remaining_ w) (slot_ready_ w) (callback_ w).

Lemma barrier_call o w :
  Barrier.call o (erase w) = (erase (call o w).1, fst <$> (call o w).2).
Proof.
  destruct w as [f r sr vs cb], o as [c|i v]; cbn.
  - unfold Barrier.OnReady, OnReadyAllocated. cbn. destruct f; [done|].
    unfold Barrier.TakeCompletionLocked, TakeCompletionLocked. cbn.
    destruct c; [|done]. by destruct (r =? 0).
  - unfold Barrier.Fulfill, Fulfill. cbn. destruct (f || _ || _) eqn:E; [done|].
    unfold Barrier.TakeCompletionLocked, TakeCompletionLocked. cbn.
    destruct cb; [|done]. by destruct (f || negb _).
Qed.

Lemma barrier_run n ops :
  run_calls Barrier.call (Barrier.Create n) ops =
  (erase (run_calls call (Create n) ops).1, fst <$> (run_calls call (Create n) ops).2).
Proof.
  induction ops as [|o ops IH] using rev_ind; [done|]. rewrite !run_calls_snoc, IH.
  destruct (run_calls call (Create n) ops) as [w cs]. cbn [fst snd].
  rewrite barrier_call. destruct (call o w) as [w' c]. cbn [fst snd].
  rewrite fmap_app. by destruct c.
Qed.

(** With indices below the number of slots the unchecked [Fulfill] is the
    checked one. *)
Definition index_ok (n : nat) (o : waiter_op K T) : Prop :=
  match o with CallOnReady _ => True | CallFulfill i _ => i < n end.

Lemma call_slots o (w : AsyncSameTypeWaiter K T) :
  length (slot_ready_ (call o w).1) = length (slot_ready_ w).
Proof.
  destruct o; cbn; unfold OnReadyAllocated, Fulfill, TakeCompletionLocked;
    repeat case_match; cbn in *; rewrite ?length_insert; done.
Qed.

Lemma run_calls_slots n ops : length (slot_ready_ (run_calls call (Create n) ops).1) = n.
Proof.
  induction ops as [|o ops IH] using rev_ind.
  - apply length_replicate.
  - rewrite run_calls_snoc. destruct (run_calls call (Create n) ops) as [w cs].
    cbn [fst] in IH. pose proof (call_slots o w) as Hs. destruct (call o w). cbn in *. congruence.
Qed.

Lemma typed_run n ops :
  Forall (index_ok n) ops -> run_calls Typed.call (Create n) ops = run_calls call (Create n) ops.
Proof.
  induction ops as [|o ops IH] using rev_ind; [done|]. intros [Hops Ho]%Forall_app.
  rewrite !run_calls_snoc, IH by done. apply Forall_cons in Ho as [Ho _].
  pose proof (run_calls_slots n ops) as Hn.
  destruct (run_calls call (Create n) ops) as [w cs]. cbn [fst] in Hn.
  assert (Typed.call o w = call o w) as ->; [|done].
  destruct o as [c|i v]; [done|]. cbn [index_ok Typed.call call] in *. unfold Typed.Fulfill, Fulfill.
  destruct (Nat.leb_spec (length (slot_ready_ w)) i); [lia|]. by rewrite orb_false_r.
Qed.

(** A waiter completes exactly once, at the first moment when it can.
    Whatever the order in which the slots are fulfilled, repeatedly or out of
    range included, and callbacks registered or replaced, the completions that
    run are that of the first prefix of the calls after which every slot has a
    value and a callback is set, with that callback and the first value of each
    slot in slot order, and none after it; an empty slot is never read.  The
    barrier runs the same callback at the same moment, and so does the typed
    waiter. *)
Theorem waiter_fires_once n ops :
  (run_calls call (Create n) ops).2 = option_list (first_ready n ops) /\
  (run_calls Barrier.call (Barrier.Create n) ops).2 = fst <$> option_list (first_ready n ops) /\
  (Forall (index_ok n) ops ->
   (run_calls Typed.call (Create n) ops).2 = option_list (first_ready n ops)).
Proof.
  split_and!; [apply run_calls_completions| |].
  - by rewrite barrier_run, <- run_calls_completions.
  - intros Hok. by rewrite typed_run, run_calls_completions.
Qed.

(** ** The callback registered first *)

Lemma first_value_stable i ops o v :
  first_value i ops = Some v -> first_value i (ops ++ [o]) = Some v.
Proof. unfold first_value. rewrite head_omap_snoc. by intros ->. Qed.

Lemma ready_stable n ops i v c :
  ready n ops = Some c -> ready n (ops ++ [CallFulfill i v]) = Some c.
Proof.
  unfold ready. rewrite current_callback_snoc.
  intros (cb & -> & (vs & Hm & Hc)%bind_Some)%bind_Some. cbn [mbind option_bind].
  assert (slot_values n (ops ++ [CallFulfill i v]) = slot_values n ops) as Hs; [|by rewrite Hs, Hm].
  apply list_fmap_ext. intros j k Hk.
  apply mapM_Some in Hm.
  assert (slot_values n ops !! j = Some (first_value k ops)) as Hj
    by (unfold slot_values; by rewrite list_lookup_fmap, Hk).
  destruct (Forall2_lookup_l _ _ _ _ _ Hm Hj) as (x & _ & Hx). rewrite Hx.
  by apply first_value_stable.
Qed.

Definition fulfil_call (r : nat * T) : waiter_op K T := CallFulfill r.1 r.2.

Lemma first_ready_registered n k (rs : list (nat * T)) :
  first_ready n (CallOnReady (Some k) :: (fulfil_call <$> rs)) =
  vs ← mapM (fun i => snd <$> head (filter (fun r => r.1 = i) rs)) (seq 0 n);
  Some (k, Some vs).
Proof.
  assert (first_ready n (CallOnReady (Some k) :: (fulfil_call <$> rs)) =
          ready n (CallOnReady (Some k) :: (fulfil_call <$> rs))) as ->.
  { induction rs as [|r rs IH] using rev_ind; [by apply (first_ready_snoc n [])|].
    rewrite fmap_app. cbn [fmap list_fmap].
    rewrite app_comm_cons, first_ready_snoc, IH. destruct (ready n _) as [c|] eqn:Hr; [|done].
    symmetry. by apply ready_stable. }
  assert (forall l, current_callback (CallOnReady (Some k) :: (fulfil_call <$> l)) = Some k) as Hcb.
  { intros l. induction l as [|r l IH] using rev_ind; [done|].
    rewrite fmap_app, app_comm_cons. cbn [fmap list_fmap]. by rewrite current_callback_snoc. }
  unfold ready. rewrite Hcb. cbn [mbind option_bind].
  assert (mapM (fun item => item) (slot_values n (CallOnReady (Some k) :: (fulfil_call <$> rs)))
          = mapM (fun i => snd <$> head (filter (fun r => r.1 = i) rs)) (seq 0 n)) as ->; [|done].
  unfold slot_values. generalize (seq 0 n). intros l. induction l as [|i l IH]; [done|].
  rewrite fmap_cons. cbn [mapM]. rewrite IH. f_equal.
  unfold first_value. cbn [omap list_omap value_for].
  clear IH. induction rs as [|[j v] rs IHr]; [done|]. rewrite fmap_cons. cbn [omap list_omap value_for fulfil_call fst snd].
  rewrite filter_cons. cbn [fst]. destruct (decide (j = i)); [done|]. apply IHr.
Qed.
End refinement.

Lemma waiter_fires_once_witness :
  (run_calls Typed.call (Create 2)
     [CallFulfill 1 7; CallOnReady (Some 0); CallFulfill 1 9; CallFulfill 0 5; CallOnReady (Some 1)]).2
  = [(0, Some [5; 7])].
Proof.
  refine (eq_trans (proj2 (proj2 (waiter_fires_once 2 _)) _) _); [|reflexivity].
  repeat apply Forall_cons_2; try apply Forall_nil_2; cbn; lia.
Defined.
