(* ===== verification/Heap.v ===== *)
(** * Heap: the 1-indexed binary heap of the session module

    Source: src/session/include_exported/bsrvcore/internal/session/detail/heap.h.
    [container_] is the vector, with the default-constructed sentinel at index
    0; [comp_] is the comparator, by which the top is a greatest element.  The
    two [while] loops are functions with fuel; the fuel given by [Push] and
    [Pop] is the size of the vector, and the loop lemmas show that the heap
    property and the permutation statement hold for the value they return, so
    the loops never stop early.  [IsHeap] is what the heap promises to its
    client: [Push] and [Pop] keep it, the elements are a permutation of the old
    ones with the new one added (the top one removed), and the top is
    extremal. *)

From S2P Require Import Prelude.

(** What [std::less<T>] has to be for the heap to work. *)
Class StrictWeakOrder {T} (comp : T -> T -> bool) : Prop := {
  comp_asym a b : comp a b = true -> comp b a = false;
  comp_incomp_trans a b c :
    comp b a = false -> comp c b = false -> comp c a = false;
}.

Section heap.
Context {T : Type} `{!Inhabited T} (comp_ : T -> T -> bool).
Implicit Types l : list T.

(** ** Operations *)

(** [Heap() : container_(1)] *)
Definition Heap_empty : list T := [inhabitant].

Fixpoint Push_loop (fuel : nat) (container_ : list T) (tmp : T)
    (child parent : nat) : list T * nat :=
  match fuel with
  | 0 => (container_, child)
  | S fuel =>
      if parent =? 0 then (container_, child)
      else if comp_ (container_ !!! parent) tmp then
        Push_loop fuel (<[child := container_ !!! parent]> container_) tmp
          parent (parent / 2)
      else (container_, child)
  end.

Definition Push (container_ : list T) (val : T) : list T :=
  let curr_idx := length container_ in
  let container_ := container_ ++ [val] in
  let '(container_, child) :=
    Push_loop (length container_) container_ val curr_idx (curr_idx / 2) in
  <[child := val]> container_.

Fixpoint Pop_loop (fuel : nat) (container_ : list T) (tmp : T)
    (last_idx curr : nat) : list T * nat :=
  match fuel with
  | 0 => (container_, curr)
  | S fuel =>
      if curr * 2 <=? last_idx then
        let left := curr * 2 in
        let right := left + 1 in
        if last_idx <? right then
          if comp_ tmp (container_ !!! left) then
            Pop_loop fuel (<[curr := container_ !!! left]> container_) tmp
              last_idx left
          else (container_, curr)
        else
          let to_comp :=
            if comp_ (container_ !!! left) (container_ !!! right)
            then right else left in
          if comp_ tmp (container_ !!! to_comp) then
            Pop_loop fuel (<[curr := container_ !!! to_comp]> container_) tmp
              last_idx to_comp
          else (container_, curr)
      else (container_, curr)
  end.

Definition Pop (container_ : list T) : T * list T :=
  let last_idx := length container_ - 1 in
  let result := container_ !!! 1 in
  let tmp := container_ !!! last_idx in
  let container_ := removelast container_ in
  let last_idx := last_idx - 1 in
  if last_idx <? 1 then (result, container_)
  else
    let '(container_, curr) :=
      Pop_loop (length container_) container_ tmp last_idx 1 in
    (result, <[curr := tmp]> container_).

Definition Top (container_ : list T) : T := container_ !!! 1.
Definition GetSize (container_ : list T) : nat := length container_ - 1.
Definition IsEmpty (container_ : list T) : bool := length container_ <=? 1.

(** ** Specification *)

(** The elements: everything but the sentinel. *)
Definition elems (container_ : list T) : list T := tail container_.

Definition heap_ordered (container_ : list T) : Prop :=
  forall i, 2 <= i < length container_ ->
    comp_ (container_ !!! (i / 2)) (container_ !!! i) = false.

Definition IsHeap (container_ : list T) : Prop :=
  1 <= length container_ /\ heap_ordered container_.

(** ** Lists with one hole *)

Lemma insert_hole_perm l i x y :
  l !! i = Some x -> x :: <[i := y]> l ≡ₚ y :: l.
Proof.
  revert i. induction l as [|a l IH]; intros [|i] Hx; simplify_eq/=.
  - apply perm_swap.
  - rewrite perm_swap, (IH i) by done. apply perm_swap.
Qed.

(** Moving the hole from [i] to [j]: the list with [tmp] in the hole keeps its
    elements. *)
Lemma move_hole_perm l i j tmp :
  i < length l -> j < length l -> i <> j ->
  <[j := tmp]> (<[i := l !!! j]> l) ≡ₚ <[i := tmp]> l.
Proof.
  intros Hi Hj Hij.
  destruct (lookup_lt_is_Some_2 l i Hi) as [o Ho].
  destruct (lookup_lt_is_Some_2 l j Hj) as [x Hx].
  rewrite (list_lookup_total_correct _ _ _ Hx).
  pose proof (insert_hole_perm l i o tmp Ho) as P1.
  pose proof (insert_hole_perm l i o x Ho) as P2.
  assert (<[i:=x]> l !! j = Some x) as Hx' by (by rewrite list_lookup_insert_ne).
  pose proof (insert_hole_perm _ j x tmp Hx') as P3.
  apply (Permutation_app_inv_l [o; x]). simpl.
  rewrite P3, (perm_swap tmp o), P2, (perm_swap x tmp), <- P1.
  apply perm_swap.
Qed.

Lemma lookup_total_insert_eq l i x : i < length l -> <[i := x]> l !!! i = x.
Proof. intros. by rewrite list_lookup_total_insert_eq. Qed.

Lemma lookup_total_insert_ne l i j x : i <> j -> <[i := x]> l !!! j = l !!! j.
Proof. intros. by apply list_lookup_total_insert_ne. Qed.

Lemma lookup_total_hole l i j x :
  i < length l -> <[i := x]> l !!! j = if decide (i = j) then x else l !!! j.
Proof.
  intros. case_decide; subst.
  - by apply lookup_total_insert_eq.
  - by apply lookup_total_insert_ne.
Qed.

Context {Hord : StrictWeakOrder comp_}.

Lemma comp_irrefl a : comp_ a a = false.
Proof.
  destruct (comp_ a a) eqn:E; [|done].
  pose proof (comp_asym a a E). congruence.
Qed.

(** ** Sifting up *)

(** Everything is ordered except possibly the pair (child/2, child), and the
    children of [child] are below its parent. *)
Definition up_inv (L : list T) (child : nat) : Prop :=
  1 <= child < length L /\
  (forall i, 2 <= i < length L -> i <> child ->
     comp_ (L !!! (i / 2)) (L !!! i) = false) /\
  (forall i, 2 <= i < length L -> i / 2 = child -> 2 <= child ->
     comp_ (L !!! (child / 2)) (L !!! i) = false).

Lemma half_lt n : 1 <= n -> n / 2 < n.
Proof. intros. apply Nat.div_lt; lia. Qed.

Lemma half_pos n : 2 <= n -> 1 <= n / 2.
Proof. intros. apply Nat.div_le_lower_bound; lia. Qed.

Lemma up_inv_step l tmp child :
  2 <= child ->
  up_inv (<[child := tmp]> l) child ->
  comp_ (l !!! (child / 2)) tmp = true ->
  up_inv (<[child / 2 := tmp]> (<[child := l !!! (child / 2)]> l)) (child / 2).
Proof.
  intros Hc (Hr & H1 & H2) Hcmp. set (p := child / 2) in *.
  pose proof (half_lt child ltac:(lia)). pose proof (half_pos child Hc).
  rewrite length_insert in Hr, H1, H2.
  set (L1 := <[p := tmp]> (<[child := l !!! p]> l)).
  assert (forall i, i <> p -> i <> child -> L1 !!! i = l !!! i) as Hn
    by (intros; unfold L1; by rewrite !lookup_total_insert_ne).
  assert (L1 !!! p = tmp) as Ep
    by (apply lookup_total_insert_eq; rewrite length_insert; lia).
  assert (L1 !!! child = l !!! p) as Ec.
  { unfold L1. rewrite lookup_total_insert_ne, lookup_total_insert_eq by lia. done. }
  assert (forall i, i <> child -> <[child := tmp]> l !!! i = l !!! i) as HL0
    by (intros; by rewrite lookup_total_insert_ne).
  assert (length L1 = length l) as Hlen by (unfold L1; by rewrite !length_insert).
  split_and!; rewrite ?Hlen; try lia.
  - intros i Hi Hip. destruct (decide (i = child)) as [->|Hic].
    { fold p. rewrite Ep, Ec. by apply comp_asym. }
    rewrite (Hn i) by done. pose proof (H1 i Hi Hic) as Hi1.
    rewrite (HL0 i) in Hi1 by done.
    destruct (decide (i / 2 = p)) as [E|].
    { rewrite E, Ep. rewrite E, HL0 in Hi1 by lia.
      eapply comp_incomp_trans; [exact Hi1|]. by apply comp_asym. }
    destruct (decide (i / 2 = child)) as [E|].
    { pose proof (H2 i Hi E Hc) as Hi2. fold p in Hi2.
      rewrite E, Ec. rewrite !HL0 in Hi2 by lia. done. }
    rewrite Hn by done. by rewrite HL0 in Hi1.
  - intros i Hi Hip Hp.
    pose proof (half_lt p ltac:(lia)). pose proof (half_pos p Hp).
    assert (i <> p) by (intros ->; pose proof (half_lt p); lia).
    pose proof (H1 p ltac:(lia) ltac:(lia)) as Hpp. rewrite !HL0 in Hpp by lia.
    rewrite (Hn (p / 2)) by lia.
    destruct (decide (i = child)) as [->|Hic]; [by rewrite Ec|].
    pose proof (H1 i Hi ltac:(lia)) as Hpi. rewrite Hip, !HL0 in Hpi by lia.
    rewrite (Hn i) by done. eapply comp_incomp_trans; done.
Qed.

Lemma up_inv_done L child :
  up_inv L child ->
  (child = 1 \/ comp_ (L !!! (child / 2)) (L !!! child) = false) ->
  heap_ordered L.
Proof.
  intros (Hr & H1 & _) Hd i Hi. destruct (decide (i = child)) as [->|]; [|auto].
  destruct Hd as [->|Hd]; [lia|done].
Qed.

(** What a sifting loop that starts with the hole at [hole] returns: a vector
    and a hole which, filled with [tmp], is an ordered permutation. *)
Definition sifted (l : list T) (tmp : T) (hole : nat) (r : list T * nat) : Prop :=
  heap_ordered (<[r.2 := tmp]> r.1) /\ <[r.2 := tmp]> r.1 ≡ₚ <[hole := tmp]> l /\
  length r.1 = length l /\ <[r.2 := tmp]> r.1 !! 0 = l !! 0.

Lemma sifted_stop l tmp hole :
  1 <= hole -> heap_ordered (<[hole := tmp]> l) -> sifted l tmp hole (l, hole).
Proof. intros ? Ho. split_and!; try done. simpl. apply list_lookup_insert_ne. lia. Qed.

Lemma sifted_move l tmp hole next r :
  1 <= hole < length l -> 1 <= next < length l -> hole <> next ->
  sifted (<[hole := l !!! next]> l) tmp next r -> sifted l tmp hole r.
Proof.
  intros Hh Hn Hne (Ho & Hp & Hl & H0). split_and!; [done|..].
  - etrans; [exact Hp|]. apply move_hole_perm; lia.
  - by rewrite Hl, length_insert.
  - by rewrite H0, list_lookup_insert_ne by lia.
Qed.

Lemma Push_loop_spec fuel l tmp child :
  child <= fuel -> 1 <= child < length l ->
  up_inv (<[child := tmp]> l) child ->
  sifted l tmp child (Push_loop fuel l tmp child (child / 2)).
Proof.
  revert l child. induction fuel as [|fuel IH]; intros l child Hf Hr Hinv; [lia|].
  cbn [Push_loop]. destruct (Nat.eqb_spec (child / 2) 0) as [E|E].
  { apply sifted_stop; [lia|]. apply (up_inv_done _ child Hinv). left.
    destruct (decide (child = 1)); [done|]. pose proof (half_pos child). lia. }
  assert (2 <= child) as Hc2.
  { destruct (decide (child = 1)) as [->|]; [done|lia]. }
  pose proof (half_lt child ltac:(lia)). pose proof (half_pos child Hc2).
  destruct (comp_ (l !!! (child / 2)) tmp) eqn:Ecmp.
  - apply (sifted_move _ _ _ (child / 2)); [lia..|].
    apply IH; [lia|rewrite length_insert; lia|by apply up_inv_step].
  - apply sifted_stop; [lia|]. apply (up_inv_done _ child Hinv). right.
    rewrite lookup_total_insert_eq, lookup_total_insert_ne by lia. done.
Qed.

(** ** Sifting down *)

(** Everything is ordered except possibly [curr] with its children, and the
    children of [curr] are below its parent. *)
Definition down_inv (L : list T) (curr : nat) : Prop :=
  1 <= curr < length L /\
  (forall i, 2 <= i < length L -> i / 2 <> curr ->
     comp_ (L !!! (i / 2)) (L !!! i) = false) /\
  (forall i, 2 <= i < length L -> i / 2 = curr -> 2 <= curr ->
     comp_ (L !!! (curr / 2)) (L !!! i) = false).

Lemma half_children i curr : i / 2 = curr -> i = curr * 2 \/ i = curr * 2 + 1.
Proof.
  intros <-. pose proof (Nat.div_mod_eq i 2).
  pose proof (Nat.mod_upper_bound i 2). lia.
Qed.

Lemma half_double c : c * 2 / 2 = c.
Proof. by apply Nat.div_mul. Qed.

Lemma half_double_1 c : (c * 2 + 1) / 2 = c.
Proof. symmetry. apply (Nat.div_unique _ 2 c 1); lia. Qed.

(** One step down to the child [ch], which is not below its sibling. *)
Lemma down_inv_step l tmp curr ch :
  ch < length l -> ch / 2 = curr ->
  down_inv (<[curr := tmp]> l) curr ->
  comp_ tmp (l !!! ch) = true ->
  (forall i, i < length l -> i / 2 = curr -> comp_ (l !!! ch) (l !!! i) = false) ->
  down_inv (<[ch := tmp]> (<[curr := l !!! ch]> l)) ch.
Proof.
  intros Hch Hhalf (Hr & H1 & H2) Hcmp Hsib. rewrite length_insert in Hr, H1, H2.
  assert (2 <= ch) as Hch2.
  { destruct (decide (ch = 0)) as [->|]; [simpl in Hhalf; lia|].
    destruct (decide (ch = 1)) as [->|]; [simpl in Hhalf; lia|lia]. }
  pose proof (half_lt ch ltac:(lia)).
  set (L1 := <[ch := tmp]> (<[curr := l !!! ch]> l)).
  assert (forall i, i <> ch -> i <> curr -> L1 !!! i = l !!! i) as Hn
    by (intros; unfold L1; by rewrite !lookup_total_insert_ne).
  assert (L1 !!! ch = tmp) as Ech
    by (apply lookup_total_insert_eq; rewrite length_insert; lia).
  assert (L1 !!! curr = l !!! ch) as Ec.
  { unfold L1. rewrite lookup_total_insert_ne, lookup_total_insert_eq by lia. done. }
  assert (forall i, i <> curr -> <[curr := tmp]> l !!! i = l !!! i) as HL0
    by (intros; by rewrite lookup_total_insert_ne).
  assert (length L1 = length l) as Hlen by (unfold L1; by rewrite !length_insert).
  split_and!; rewrite ?Hlen; try lia.
  - intros i Hi Hic. destruct (decide (i / 2 = curr)) as [E|Ei].
    { rewrite E, Ec. destruct (decide (i = ch)) as [->|].
      - rewrite Ech. by apply comp_asym.
      - rewrite Hn by (try done; intros ->; pose proof (half_lt curr); lia).
        apply Hsib; [lia|done]. }
    rewrite (Hn (i / 2)) by done. pose proof (H1 i Hi Ei) as Hi1.
    rewrite HL0 in Hi1 by done.
    assert (i <> ch) by (intros ->; lia).
    destruct (decide (i = curr)) as [->|]; [|by rewrite Hn; [rewrite HL0 in Hi1|..]].
    rewrite Ec. pose proof (H2 ch ltac:(lia) Hhalf ltac:(lia)) as Hg.
    rewrite !HL0 in Hg by lia. done.
  - intros i Hi Hic _. rewrite Hhalf, Ec.
    pose proof (half_lt i ltac:(lia)).
    rewrite Hn by lia. pose proof (H1 i Hi ltac:(lia)) as Hi1.
    rewrite Hic, !HL0 in Hi1 by lia. done.
Qed.

Lemma down_inv_done L curr :
  down_inv L curr ->
  (forall i, i < length L -> i / 2 = curr -> comp_ (L !!! curr) (L !!! i) = false) ->
  heap_ordered L.
Proof.
  intros (Hr & H1 & _) Hd i Hi.
  destruct (decide (i / 2 = curr)) as [E|]; [|auto]. rewrite E. apply Hd; [lia|done].
Qed.

(** The loop stops where no child beats [tmp]. *)
Lemma Pop_stop l tmp curr :
  1 <= curr < length l -> down_inv (<[curr := tmp]> l) curr ->
  (forall i, i < length l -> i / 2 = curr -> comp_ tmp (l !!! i) = false) ->
  sifted l tmp curr (l, curr).
Proof.
  intros Hr Hinv Hch. apply sifted_stop; [lia|].
  apply (down_inv_done _ curr Hinv). intros i Hi Hhalf. rewrite length_insert in Hi.
  assert (i <> curr)
    by (intros ->; destruct (decide (curr = 0)); [lia|pose proof (half_lt curr); lia]).
  rewrite lookup_total_insert_eq, lookup_total_insert_ne by lia. auto.
Qed.

Lemma Pop_loop_spec fuel l tmp curr :
  length l <= fuel + curr -> 1 <= curr < length l ->
  down_inv (<[curr := tmp]> l) curr ->
  sifted l tmp curr (Pop_loop fuel l tmp (length l - 1) curr).
Proof.
  revert l curr. induction fuel as [|fuel IH]; intros l curr Hf Hr Hinv; [lia|].
  (* the loop goes on at the child [ch] *)
  assert (forall ch, ch < length l -> ch / 2 = curr -> comp_ tmp (l !!! ch) = true ->
    (forall i, i < length l -> i / 2 = curr -> comp_ (l !!! ch) (l !!! i) = false) ->
    sifted l tmp curr
      (Pop_loop fuel (<[curr := l !!! ch]> l) tmp (length l - 1) ch)) as Hgo.
  { intros ch Hch Hhalf Hcmp Hsib.
    assert (curr < ch).
    { rewrite <- Hhalf. destruct (decide (ch = 0)) as [->|]; [simpl in Hhalf; lia|].
      apply half_lt. lia. }
    apply (sifted_move _ _ _ ch); [lia..|].
    specialize (IH (<[curr := l !!! ch]> l) ch). rewrite length_insert in IH.
    apply IH; [lia|lia|by apply down_inv_step]. }
  cbn [Pop_loop]. destruct (Nat.leb_spec (curr * 2) (length l - 1)); cbn iota zeta.
  2:{ apply (Pop_stop _ _ _ Hr Hinv). intros i Hi Hhalf. apply half_children in Hhalf. lia. }
  destruct (Nat.ltb_spec (length l - 1) (curr * 2 + 1)).
  - destruct (comp_ tmp (l !!! (curr * 2))) eqn:E.
    + apply Hgo; [lia|by apply half_double|done|].
      intros i Hi Hhalf. apply half_children in Hhalf as [-> | ->]; [|lia].
      apply comp_irrefl.
    + apply (Pop_stop _ _ _ Hr Hinv). intros i Hi Hhalf. apply half_children in Hhalf as [-> | ->]; [done|lia].
  - destruct (comp_ (l !!! (curr * 2)) (l !!! (curr * 2 + 1))) eqn:Elr.
    + destruct (comp_ tmp (l !!! (curr * 2 + 1))) eqn:E.
      * apply Hgo; [lia|by apply half_double_1|done|].
        intros i Hi Hhalf. apply half_children in Hhalf as [-> | ->].
        -- by apply comp_asym.
        -- apply comp_irrefl.
      * apply (Pop_stop _ _ _ Hr Hinv). intros i Hi Hhalf. apply half_children in Hhalf as [-> | ->]; [|done].
        eapply comp_incomp_trans; [|exact E]. by apply comp_asym.
    + destruct (comp_ tmp (l !!! (curr * 2))) eqn:E.
      * apply Hgo; [lia|by apply half_double|done|].
        intros i Hi Hhalf. apply half_children in Hhalf as [-> | ->]; [|done].
        apply comp_irrefl.
      * apply (Pop_stop _ _ _ Hr Hinv). intros i Hi Hhalf. apply half_children in Hhalf as [-> | ->]; [done|].
        eapply comp_incomp_trans; [exact Elr|exact E].
Qed.

(** ** The contract of the heap *)

Lemma tail_perm (l l' : list T) :
  l ≡ₚ l' -> l !! 0 = l' !! 0 -> tail l ≡ₚ tail l'.
Proof.
  intros Hp H0. destruct l as [|a l], l' as [|b l']; simplify_eq/=; try done.
  by apply Permutation_cons_inv in Hp.
Qed.

Lemma IsHeap_empty : IsHeap Heap_empty.
Proof. split; [done|]. intros i Hi. simpl in Hi. lia. Qed.

Lemma elems_empty : elems Heap_empty = [].
Proof. done. Qed.

Lemma Push_spec l val :
  IsHeap l ->
  IsHeap (Push l val) /\ elems (Push l val) ≡ₚ val :: elems l /\
  length (Push l val) = S (length l).
Proof.
  intros [Hlen Hho].
  assert (<[length l := val]> (l ++ [val]) = l ++ [val]) as Hid.
  { apply list_insert_id. by rewrite lookup_app_r, Nat.sub_diag by lia. }
  assert (up_inv (<[length l := val]> (l ++ [val])) (length l)) as Hup.
  { rewrite Hid. unfold up_inv. rewrite length_app. cbn [length]. split_and!; [lia|lia|..].
    - intros i Hi Hne. pose proof (half_lt i ltac:(lia)).
      rewrite !lookup_total_app_l by lia. apply Hho. lia.
    - intros i Hi Hhalf. pose proof (half_lt i ltac:(lia)). lia. }
  unfold Push.
  pose proof (Push_loop_spec (length (l ++ [val])) (l ++ [val]) val (length l)) as HP.
  rewrite length_app in HP |- *. cbn [length] in HP |- *.
  specialize (HP ltac:(lia) ltac:(lia) Hup).
  destruct (Push_loop _ _ _ _ _) as [l' c].
  destruct HP as (Ho & Hp & Hl & H0). cbn [fst snd] in *.
  rewrite Hid in Hp. split_and!.
  - split; [rewrite length_insert, Hl, length_app; simpl; lia|done].
  - unfold elems. etrans.
    + apply (tail_perm _ (l ++ [val])); [done|by rewrite H0].
    + destruct l; simpl in *; [lia|]. symmetry. apply Permutation_cons_append.
  - rewrite length_insert, Hl, length_app. simpl. lia.
Qed.

Lemma heap_top_extremal l i :
  heap_ordered l -> 1 <= i < length l -> comp_ (l !!! 1) (l !!! i) = false.
Proof.
  intros Hho. induction i as [i IH] using lt_wf_ind. intros Hi.
  destruct (decide (i = 1)) as [->|]; [apply comp_irrefl|].
  pose proof (half_lt i ltac:(lia)). pose proof (half_pos i ltac:(lia)).
  eapply comp_incomp_trans; [apply Hho; lia|]. apply IH; lia.
Qed.

Lemma Top_extremal l x :
  IsHeap l -> x ∈ elems l -> comp_ (Top l) x = false.
Proof.
  intros [Hlen Hho] (i & Hi)%list_elem_of_lookup.
  unfold elems in Hi. rewrite lookup_tail in Hi.
  rewrite <- (list_lookup_total_correct _ _ _ Hi).
  apply heap_top_extremal; [done|]. apply lookup_lt_Some in Hi. lia.
Qed.

Lemma Pop_spec l :
  IsHeap l -> 2 <= length l ->
  let '(x, l') := Pop l in
  x = Top l /\ IsHeap l' /\ elems l ≡ₚ x :: elems l' /\ length l = S (length l').
Proof.
  intros [Hlen Hho] H2.
  destruct (exists_last (l := l)) as (l1 & tmp & ->).
  { intros ->. simpl in H2. lia. }
  rewrite length_app in H2. simpl in H2.
  unfold Pop, Top. rewrite length_app. simpl length.
  replace (length l1 + 1 - 1) with (length l1) by lia.
  rewrite (lookup_total_app_r l1 _ (length l1)), Nat.sub_diag by lia. simpl ([tmp] !!! 0).
  rewrite removelast_last. destruct (Nat.ltb_spec (length l1 - 1) 1).
  { destruct l1 as [|s [|]]; simpl in *; [lia| |lia].
    split_and!; [done| |done|done]. split; [done|]. intros i Hi. simpl in Hi. lia. }
  assert (down_inv (<[1 := tmp]> l1) 1) as Hd.
  { unfold down_inv. rewrite length_insert. split_and!; [lia|lia|..]; [|lia].
    intros i Hi Hhalf. pose proof (half_lt i ltac:(lia)).
    rewrite !lookup_total_insert_ne by lia.
    specialize (Hho i). rewrite length_app, !lookup_total_app_l in Hho by lia.
    apply Hho. simpl. lia. }
  pose proof (Pop_loop_spec (length l1) l1 tmp 1 ltac:(lia) ltac:(lia) Hd) as HP.
  destruct (Pop_loop _ _ _ _ _) as [l' c].
  destruct HP as (Ho & Hp & Hl & H0). cbn [fst snd] in *. split_and!.
  - done.
  - split; [rewrite length_insert; lia|done].
  - rewrite lookup_total_app_l by lia.
    assert (l1 !! 1 = Some (l1 !!! 1)) as Hx by (apply list_lookup_lookup_total_lt; lia).
    pose proof (insert_hole_perm l1 1 _ tmp Hx) as P. rewrite <- Hp in P.
    destruct l1 as [|s l1]; [simpl in *; lia|]. unfold elems. simpl tail at 1.
    destruct (<[c:=tmp]> l') as [|s' l''] eqn:El; [done|].
    simpl in H0. simplify_eq. simpl tail.
    apply (Permutation_cons_inv (a := s)).
    rewrite (perm_swap _ s), P, <- Permutation_cons_append. apply perm_swap.
  - rewrite length_insert. lia.
Qed.

Lemma GetSize_elems l : GetSize l = length (elems l).
Proof. unfold GetSize, elems. destruct l; simpl; lia. Qed.

Lemma IsEmpty_spec l : IsHeap l -> IsEmpty l = true <-> elems l = [].
Proof.
  intros [Hlen _]. unfold IsEmpty, elems. rewrite Nat.leb_le.
  destruct l as [|a [|b l]]; simpl in *; split; try done; lia.
Qed.
End heap.

(** ** Draining *)

Section drain.
Context {T : Type} `{!Inhabited T} (comp_ : T -> T -> bool).

(** [while (!heap.IsEmpty()) out.push_back(heap.Pop());] *)
Fixpoint drain (fuel : nat) (container_ : list T) : list T :=
  match fuel with
  | 0 => []
  | S fuel =>
      if IsEmpty container_ then []
      else let '(x, container_') := Pop comp_ container_ in x :: drain fuel container_'
  end.

Definition push_all (vals : list T) : list T :=
  foldl (Push comp_) Heap_empty vals.

Context {Hord : StrictWeakOrder comp_}.

Lemma push_all_spec vals l :
  IsHeap comp_ l ->
  IsHeap comp_ (foldl (Push comp_) l vals) /\
  elems (foldl (Push comp_) l vals) ≡ₚ vals ++ elems l.
Proof.
  revert l. induction vals as [|v vals IH]; intros l Hl; simpl; [done|].
  destruct (Push_spec comp_ l v Hl) as (Hh & Hp & _).
  destruct (IH _ Hh) as [Hh' Hp']. split; [done|].
  rewrite Hp', Hp. by rewrite <- Permutation_middle.
Qed.

Lemma drain_spec fuel l :
  IsHeap comp_ l -> length (elems l) <= fuel ->
  drain fuel l ≡ₚ elems l /\
  StronglySorted (fun a b => comp_ a b = false) (drain fuel l).
Proof.
  revert l. induction fuel as [|fuel IH]; intros l Hl Hf; simpl.
  { destruct (elems l); simpl in Hf; [|lia]. split; [done|constructor]. }
  destruct (IsEmpty l) eqn:He.
  { apply (IsEmpty_spec comp_) in He as ->; [|done]. split; [done|constructor]. }
  assert (2 <= length l) by (unfold IsEmpty in He; apply Nat.leb_gt in He; lia).
  pose proof (Pop_spec comp_ l Hl ltac:(done)) as HP.
  pose proof (Top_extremal comp_ l) as Htop.
  destruct (Pop comp_ l) as [x l']. destruct HP as (-> & Hh' & Hp & _).
  rewrite Hp in Hf. simpl in Hf.
  destruct (IH l' Hh' ltac:(lia)) as [Hp' Hs]. split.
  - by rewrite Hp', Hp.
  - constructor; [done|]. apply Forall_forall. intros y Hy.
    apply Htop; [done|]. rewrite Hp, <- Hp'. apply elem_of_cons. by right.
Qed.

(** Pushing any sequence of values into an empty heap and popping until it
    is empty yields exactly those values, a greatest one first: no value is
    lost or duplicated, and no value comes out before a greater one. *)
Theorem heap_sorts (vals : list T) :
  drain (length vals) (push_all vals) ≡ₚ vals /\
  StronglySorted (fun a b => comp_ a b = false)
    (drain (length vals) (push_all vals)).
Proof.
  destruct (push_all_spec vals Heap_empty (IsHeap_empty comp_)) as [Hh Hp].
  rewrite app_nil_r in Hp. fold (push_all vals) in *.
  destruct (drain_spec (length vals) _ Hh) as [Hd Hs]; [by rewrite Hp|].
  split; [by rewrite Hd, Hp|done].
Qed.
End drain.

#[export] Instance nat_ltb_order : StrictWeakOrder Nat.ltb.
Proof.
  split.
  - intros a b H%Nat.ltb_lt. apply Nat.ltb_ge. lia.
  - intros a b c H1%Nat.ltb_ge H2%Nat.ltb_ge. apply Nat.ltb_ge. lia.
Qed.

Lemma heap_sorts_witness :
  drain Nat.ltb 5 (push_all Nat.ltb [3; 1; 4; 1; 5]) = [5; 4; 3; 1; 1] /\
  drain Nat.ltb 5 (push_all Nat.ltb [3; 1; 4; 1; 5]) ≡ₚ [3; 1; 4; 1; 5].
Proof.
  split; [reflexivity|]. exact (proj1 (heap_sorts Nat.ltb [3; 1; 4; 1; 5])).
Defined.
