(* ===== verification/SessionMap.v ===== *)
(** * SessionMap: sessions with leases, and the expiry queue

    Sources: src/session/session_map.cc, session_map_cleaner.cc,
    session_context_entry.cc, session_key_heap_entry.cc and the class in
    session_map.h.  Every public operation holds [mtx_] for its whole body, but
    for [SetDefaultSessionTimeout] and [SetCleanerInterval], which are one store
    to an atomic each; the body of an operation reads each of them at most once.
    So an operation is a function on the state and an execution is a sequence
    of operations ([op], [run_op]).

    Time is [std::chrono::steady_clock], in nanoseconds in a signed 64-bit
    integer; each clock read of an operation is an argument ([now] for the
    operation, [now'] for the second read in [ShortClean]).  A [Context] is
    identified by the number of its allocation ([next_ctx_]).  The capacity of
    the vector ([ShrinkToFit]) has no effect on the operations and is left
    out. *)

From S2P Require Import Prelude Heap.

(** ** Entries *)

Record SessionContextEntry := mkContextEntry { ctx_ : nat; expiry_ : Z }.

Record SessionKeyHeapEntry := mkKeyEntry { id_ : str; key_expiry_ : Z }.

#[export] Instance key_entry_inhabited : Inhabited SessionKeyHeapEntry :=
  populate (mkKeyEntry [] 0).

#[export] Instance key_entry_eq_dec : EqDecision SessionKeyHeapEntry.
Proof. solve_decision. Defined.

(** [SessionKeyHeapEntry::operator<]: later expiry is "less", so the heap's top
    is the next session to expire. *)
Definition key_less (a b : SessionKeyHeapEntry) : bool :=
  (key_expiry_ b <? key_expiry_ a)%Z.

#[export] Instance key_less_order : StrictWeakOrder key_less.
Proof. split; unfold key_less; intros; lia. Qed.

(** ** State *)

Record SessionMap := mkSessionMap {
  map_ : gmap str SessionContextEntry;
  pqueue_ : list SessionKeyHeapEntry;
  timer_ : option Z;               (* pending wait, in milliseconds *)
  cleaner_interval_ : Z;
  default_timeout_ : Z;
  allow_cleaner_ : bool;
  next_ctx_ : nat;
}.

Definition SessionMap_init : SessionMap :=
  mkSessionMap ∅ Heap_empty None (1000 * 60 * 30) (1000 * 60 * 60 * 2) false 0.

Definition kMinSessionTimeout : Z := 1000.

Definition set_map_queue (m : SessionMap) mp pq : SessionMap :=
  mkSessionMap mp pq (timer_ m) (cleaner_interval_ m) (default_timeout_ m)
    (allow_cleaner_ m) (next_ctx_ m).

Definition set_timer (m : SessionMap) t : SessionMap :=
  mkSessionMap (map_ m) (pqueue_ m) t (cleaner_interval_ m) (default_timeout_ m)
    (allow_cleaner_ m) (next_ctx_ m).

Definition AllocateContext (m : SessionMap) : nat * SessionMap :=
  (next_ctx_ m,
   mkSessionMap (map_ m) (pqueue_ m) (timer_ m) (cleaner_interval_ m)
     (default_timeout_ m) (allow_cleaner_ m) (S (next_ctx_ m))).

(** [now + std::chrono::milliseconds(ms)] for a [std::size_t] count: the count
    is converted to the signed representation, scaled to nanoseconds, added. *)
Definition add_ms (now ms : Z) : Z :=
  to_int64 (now + to_int64 (to_int64 ms * 1000000)).

(** [std::unordered_map::emplace]: no effect when the key is present. *)
Definition emplace (k : str) (e : SessionContextEntry)
    (mp : gmap str SessionContextEntry) : gmap str SessionContextEntry :=
  match mp !! k with Some _ => mp | None => <[k := e]> mp end.

(** ** Cleaning *)

(** The body of both cleaning loops: pop one entry, and erase the session when
    the popped expiry is its current one. *)
Definition clean_one (mp : gmap str SessionContextEntry)
    (pq : list SessionKeyHeapEntry) :
    gmap str SessionContextEntry * list SessionKeyHeapEntry :=
  let '(key_entry, pq) := Pop key_less pq in
  match mp !! id_ key_entry with
  | Some it =>
      if (expiry_ it =? key_expiry_ key_entry)%Z
      then (delete (id_ key_entry) mp, pq) else (mp, pq)
  | None => (mp, pq)
  end.

(** [while (... !pqueue_.IsEmpty() && pqueue_.Top().GetExpiry() <= now)] with at
    most [n] iterations. *)
Fixpoint clean_loop (n : nat) (now : Z) (mp : gmap str SessionContextEntry)
    (pq : list SessionKeyHeapEntry) :
    gmap str SessionContextEntry * list SessionKeyHeapEntry :=
  match n with
  | 0 => (mp, pq)
  | S n =>
      if negb (IsEmpty pq) && (key_expiry_ (Top pq) <=? now)%Z
      then let '(mp, pq) := clean_one mp pq in clean_loop n now mp pq
      else (mp, pq)
  end.

Definition max_clean_num : nat := 8.

Definition ShortClean (now : Z) (m : SessionMap) : SessionMap :=
  if size (map_ m) * 2 <? GetSize (pqueue_ m) then
    let '(mp, pq) := clean_loop max_clean_num now (map_ m) (pqueue_ m) in
    set_map_queue m mp pq
  else m.

Definition ThoroughClean (now : Z) (m : SessionMap) : SessionMap :=
  let '(mp, pq) := clean_loop (GetSize (pqueue_ m)) now (map_ m) (pqueue_ m) in
  set_map_queue m mp pq.

(** ** Operations *)

Definition GetSession (now now' : Z) (sessionid : str) (m : SessionMap) :
    nat * SessionMap :=
  match map_ m !! sessionid with
  | Some map_entry =>
      if (now <? expiry_ map_entry)%Z then
        let result := ctx_ map_entry in
        let new_expiry :=
          Z.max (add_ms now (default_timeout_ m)) (expiry_ map_entry) in
        let pq :=
          if (new_expiry =? expiry_ map_entry)%Z then pqueue_ m
          else Push key_less (pqueue_ m) (mkKeyEntry sessionid new_expiry) in
        let mp := <[sessionid := mkContextEntry result new_expiry]> (map_ m) in
        (result, ShortClean now' (set_map_queue m mp pq))
      else
        let '(result, m) := AllocateContext m in
        let new_expiry :=
          add_ms now (Z.max kMinSessionTimeout (default_timeout_ m)) in
        let mp := emplace sessionid (mkContextEntry result new_expiry) (map_ m) in
        let pq := Push key_less (pqueue_ m) (mkKeyEntry sessionid new_expiry) in
        (result, ShortClean now' (set_map_queue m mp pq))
  | None =>
      let '(result, m) := AllocateContext m in
      let new_expiry :=
        add_ms now (Z.max kMinSessionTimeout (default_timeout_ m)) in
      let mp := emplace sessionid (mkContextEntry result new_expiry) (map_ m) in
      let pq := Push key_less (pqueue_ m) (mkKeyEntry sessionid new_expiry) in
      (result, ShortClean now' (set_map_queue m mp pq))
  end.

Definition RemoveSession (now' : Z) (sessionid : str) (m : SessionMap) :
    bool * SessionMap :=
  match map_ m !! sessionid with
  | Some _ =>
      (true, ShortClean now' (set_map_queue m (delete sessionid (map_ m)) (pqueue_ m)))
  | None => (false, ShortClean now' m)
  end.

Definition SetSessionTimeout (now now' : Z) (sessionid : str) (timeout : Z)
    (m : SessionMap) : SessionMap :=
  match map_ m !! sessionid with
  | Some it =>
      let new_expiry :=
        Z.max (expiry_ it) (add_ms now (Z.max kMinSessionTimeout timeout)) in
      if (new_expiry =? expiry_ it)%Z then ShortClean now' m
      else
        let pq := Push key_less (pqueue_ m) (mkKeyEntry sessionid new_expiry) in
        let mp := <[sessionid := mkContextEntry (ctx_ it) new_expiry]> (map_ m) in
        ShortClean now' (set_map_queue m mp pq)
  | None =>
      let '(result, m) := AllocateContext m in
      let new_expiry := add_ms now (Z.max kMinSessionTimeout timeout) in
      let mp := emplace sessionid (mkContextEntry result new_expiry) (map_ m) in
      let pq := Push key_less (pqueue_ m) (mkKeyEntry sessionid new_expiry) in
      ShortClean now' (set_map_queue m mp pq)
  end.

Definition SetCleaner (m : SessionMap) : SessionMap :=
  if allow_cleaner_ m
  then set_timer m (Some (Z.max kMinSessionTimeout (to_int64 (cleaner_interval_ m))))
  else m.

Definition SetBackgroundCleaner (allow_cleaner : bool) (m : SessionMap) :
    SessionMap :=
  if Bool.eqb allow_cleaner (allow_cleaner_ m) then m
  else
    let m :=
      mkSessionMap (map_ m) (pqueue_ m) (timer_ m) (cleaner_interval_ m)
        (default_timeout_ m) allow_cleaner (next_ctx_ m) in
    if allow_cleaner then SetCleaner m else set_timer m None.

Definition SetCleanerInterval (interval : Z) (m : SessionMap) : SessionMap :=
  mkSessionMap (map_ m) (pqueue_ m) (timer_ m) interval (default_timeout_ m)
    (allow_cleaner_ m) (next_ctx_ m).

Definition SetDefaultSessionTimeout (timeout : Z) (m : SessionMap) : SessionMap :=
  mkSessionMap (map_ m) (pqueue_ m) (timer_ m) (cleaner_interval_ m) timeout
    (allow_cleaner_ m) (next_ctx_ m).

(** The wait handler of [timer_] without an error: it posts the cleaning task
    when the server runs.  The second component says whether it did. *)
Definition OnTimer (server_running : bool) (m : SessionMap) : bool * SessionMap :=
  (server_running, set_timer m None).

(** The posted cleaning task. *)
Definition CleanerTask (now : Z) (server_running : bool) (m : SessionMap) :
    SessionMap :=
  let m :=
    if GetSize (pqueue_ m) <? size (map_ m) * 8 then ShortClean now m
    else ThoroughClean now m in
  if allow_cleaner_ m && server_running then SetCleaner m else m.

(** ** The invariant *)

(** Every session has a queue entry with its current expiry; the queue may hold
    stale entries besides. *)
Definition queue_covers (mp : gmap str SessionContextEntry)
    (pq : list SessionKeyHeapEntry) : Prop :=
  forall sid e, mp !! sid = Some e -> mkKeyEntry sid (expiry_ e) ∈ elems pq.

Definition session_inv (m : SessionMap) : Prop :=
  IsHeap key_less (pqueue_ m) /\ queue_covers (map_ m) (pqueue_ m).

Section cleaning.
Implicit Types (mp : gmap str SessionContextEntry) (pq : list SessionKeyHeapEntry).

Lemma not_IsEmpty_length pq : IsEmpty pq = false -> 2 <= length pq.
Proof. unfold IsEmpty. rewrite Nat.leb_gt. lia. Qed.

Lemma clean_one_spec mp pq :
  IsHeap key_less pq -> IsEmpty pq = false -> queue_covers mp pq ->
  let '(mp', pq') := clean_one mp pq in
  IsHeap key_less pq' /\ queue_covers mp' pq' /\ length pq = S (length pq') /\
  mp' ⊆ mp /\
  (forall sid e, mp !! sid = Some e ->
     mp' !! sid = Some e \/ expiry_ e = key_expiry_ (Top pq)).
Proof.
  intros Hh He Hc. unfold clean_one.
  pose proof (Pop_spec key_less pq Hh (not_IsEmpty_length _ He)) as HP.
  destruct (Pop key_less pq) as [k pq']. destruct HP as (Hk & Hh' & Hp & Hl).
  assert (forall sid e, mp !! sid = Some e -> mkKeyEntry sid (expiry_ e) <> k ->
    mkKeyEntry sid (expiry_ e) ∈ elems pq') as Hstay.
  { intros sid e Hs Hne. specialize (Hc sid e Hs). rewrite Hp in Hc. set_solver. }
  destruct (mp !! id_ k) as [it|] eqn:Hit; [destruct (Z.eqb_spec (expiry_ it) (key_expiry_ k)) as [Heq|Hneq]|].
  - split_and!; try done.
    + intros sid e (Hne & Hs)%lookup_delete_Some. apply Hstay; [done|].
      intros <-. done.
    + apply delete_subseteq.
    + intros sid e Hs. destruct (decide (sid = id_ k)) as [->|].
      * right. simplify_eq. congruence.
      * left. by rewrite lookup_delete_ne.
  - split_and!; try done; [|eauto]. intros sid e Hs. apply Hstay; [done|].
    intros <-. simplify_eq/=.
  - split_and!; try done; [|eauto]. intros sid e Hs. apply Hstay; [done|].
    intros <-. simplify_eq/=.
Qed.

Lemma clean_loop_spec n now mp pq :
  IsHeap key_less pq -> queue_covers mp pq ->
  let '(mp', pq') := clean_loop n now mp pq in
  IsHeap key_less pq' /\ queue_covers mp' pq' /\
  GetSize pq' <= GetSize pq <= GetSize pq' + n /\
  mp' ⊆ mp /\
  (forall sid e, mp !! sid = Some e -> (now < expiry_ e)%Z -> mp' !! sid = Some e) /\
  (GetSize pq <= n -> forall k, k ∈ elems pq' -> (now < key_expiry_ k)%Z).
Proof.
  revert mp pq. induction n as [|n IH]; intros mp pq Hh Hc; cbn [clean_loop].
  { split_and!; try done; try lia. intros H0 k Hk. rewrite GetSize_elems in H0.
    destruct (elems pq); [by apply not_elem_of_nil in Hk|]. simpl in H0. lia. }
  destruct (IsEmpty pq) eqn:He; cbn [negb andb].
  { split_and!; try done; try lia. intros _ k Hk.
    apply (IsEmpty_spec key_less) in He; [|done]. rewrite He in Hk.
    by apply not_elem_of_nil in Hk. }
  destruct (Z.leb_spec (key_expiry_ (Top pq)) now) as [Hle|Hgt].
  2:{ split_and!; try done; try lia. intros _ k Hk.
      pose proof (Top_extremal key_less pq k Hh Hk) as Ht. unfold key_less in Ht. lia. }
  pose proof (clean_one_spec mp pq Hh He Hc) as H1.
  destruct (clean_one mp pq) as [mp1 pq1]. destruct H1 as (Hh1 & Hc1 & Hl1 & Hs1 & Hk1).
  specialize (IH mp1 pq1 Hh1 Hc1).
  destruct (clean_loop n now mp1 pq1) as [mp2 pq2].
  destruct IH as (Hh2 & Hc2 & Hl2 & Hs2 & Hk2 & Hall). unfold GetSize in *.
  assert (2 <= length pq) by by apply not_IsEmpty_length.
  split_and!; try done; try lia.
  - by etrans.
  - intros sid e Hs Hlt. apply Hk2; [|done].
    destruct (Hk1 sid e Hs) as [|Heq]; [done|lia].
  - intros Hn. apply Hall. lia.
Qed.
End cleaning.

Lemma ShortClean_spec now m :
  session_inv m ->
  session_inv (ShortClean now m) /\ map_ (ShortClean now m) ⊆ map_ m /\
  (forall sid e, map_ m !! sid = Some e -> (now < expiry_ e)%Z ->
     map_ (ShortClean now m) !! sid = Some e) /\
  GetSize (pqueue_ m) <= GetSize (pqueue_ (ShortClean now m)) + max_clean_num.
Proof.
  intros [Hh Hc]. unfold ShortClean. case_match; [|split_and!; try done; lia].
  pose proof (clean_loop_spec max_clean_num now _ _ Hh Hc) as HL.
  destruct (clean_loop _ _ _ _) as [mp pq].
  destruct HL as (Hh' & Hc' & Hl & Hs & Hk & _). split_and!; simpl; try done; lia.
Qed.

Lemma ThoroughClean_inv now m : session_inv m -> session_inv (ThoroughClean now m).
Proof.
  intros [Hh Hc]. unfold ThoroughClean.
  pose proof (clean_loop_spec (GetSize (pqueue_ m)) now _ _ Hh Hc) as HL.
  destruct (clean_loop _ _ _ _) as [mp pq]. by destruct HL as (? & ? & _).
Qed.

Lemma ThoroughClean_map now m :
  session_inv m ->
  map_ (ThoroughClean now m) = filter (fun kv => (now < expiry_ kv.2)%Z) (map_ m).
Proof.
  intros [Hh Hc]. unfold ThoroughClean.
  pose proof (clean_loop_spec (GetSize (pqueue_ m)) now _ _ Hh Hc) as HL.
  destruct (clean_loop _ _ _ _) as [mp pq].
  destruct HL as (Hh' & Hc' & _ & Hs & Hk & Hall). simpl.
  apply map_eq. intros sid. apply option_eq. intros e.
  rewrite map_lookup_filter_Some. simpl. split.
  - intros He. split; [by eapply lookup_weaken|].
    apply (Hall ltac:(done) _ (Hc' _ _ He)).
  - intros [He Hlt]. by apply Hk.
Qed.

Lemma push_covers mp pq k :
  IsHeap key_less pq -> queue_covers mp pq ->
  IsHeap key_less (Push key_less pq k) /\ queue_covers mp (Push key_less pq k) /\
  k ∈ elems (Push key_less pq k) /\
  GetSize (Push key_less pq k) = S (GetSize pq).
Proof.
  intros Hh Hc. destruct (Push_spec key_less pq k Hh) as (Hh' & Hp & Hl).
  split_and!; [done| | |].
  - intros sid e Hs. rewrite Hp. apply elem_of_cons. right. by apply Hc.
  - rewrite Hp. apply elem_of_cons. by left.
  - unfold GetSize. destruct Hh. lia.
Qed.

(** Setting or adding one session together with its queue entry. *)
Lemma insert_covers mp pq sid e :
  queue_covers mp pq -> mkKeyEntry sid (expiry_ e) ∈ elems pq ->
  queue_covers (<[sid := e]> mp) pq.
Proof.
  intros Hc He sid' e' [[<- <-]|[_ Hs]]%lookup_insert_Some; [done|by apply Hc].
Qed.

Lemma emplace_covers mp pq sid e :
  queue_covers mp pq -> mkKeyEntry sid (expiry_ e) ∈ elems pq ->
  queue_covers (emplace sid e mp) pq.
Proof. intros. unfold emplace. case_match; [done|by apply insert_covers]. Qed.

Lemma push_insert_inv m sid e :
  session_inv m ->
  session_inv (set_map_queue m (<[sid := e]> (map_ m))
    (Push key_less (pqueue_ m) (mkKeyEntry sid (expiry_ e)))).
Proof.
  intros [Hh Hc].
  destruct (push_covers _ _ (mkKeyEntry sid (expiry_ e)) Hh Hc) as (? & ? & ? & _).
  split; [done|]. by apply insert_covers.
Qed.

Lemma push_emplace_inv m sid e :
  session_inv m ->
  session_inv (set_map_queue m (emplace sid e (map_ m))
    (Push key_less (pqueue_ m) (mkKeyEntry sid (expiry_ e)))).
Proof.
  intros [Hh Hc].
  destruct (push_covers _ _ (mkKeyEntry sid (expiry_ e)) Hh Hc) as (? & ? & ? & _).
  split; [done|]. by apply emplace_covers.
Qed.

Lemma GetSession_inv now now' sid m :
  session_inv m -> session_inv (GetSession now now' sid m).2.
Proof.
  intros Hm. unfold GetSession.
  assert (session_inv (AllocateContext m).2) as Ha by (by destruct m).
  destruct (AllocateContext m) as [c ma].
  destruct (map_ m !! sid) as [e|] eqn:He; [destruct (_ <? _)%Z|];
    cbn [fst snd] in *; apply ShortClean_spec.
  - destruct (Z.eqb_spec (add_ms now (default_timeout_ m) `max` expiry_ e) (expiry_ e))
      as [Heq|].
    + destruct Hm as [Hh Hc]. split; [done|].
      apply insert_covers; [done|]. simpl. rewrite Heq. by apply Hc.
    + by apply (push_insert_inv m sid (mkContextEntry _ _)).
  - by apply (push_emplace_inv ma sid (mkContextEntry _ _)).
  - by apply (push_emplace_inv ma sid (mkContextEntry _ _)).
Qed.

Lemma SetSessionTimeout_inv now now' sid t m :
  session_inv m -> session_inv (SetSessionTimeout now now' sid t m).
Proof.
  intros Hm. unfold SetSessionTimeout.
  assert (session_inv (AllocateContext m).2) as Ha by (by destruct m).
  destruct (AllocateContext m) as [c ma]. cbn [fst snd] in *.
  destruct (map_ m !! sid) as [e|] eqn:He; [destruct (_ =? _)%Z|];
    apply ShortClean_spec; [done|..].
  - by apply (push_insert_inv m sid (mkContextEntry _ _)).
  - by apply (push_emplace_inv ma sid (mkContextEntry _ _)).
Qed.

Lemma RemoveSession_inv now' sid m :
  session_inv m -> session_inv (RemoveSession now' sid m).2.
Proof.
  intros [Hh Hc]. unfold RemoveSession. case_match; simpl;
    apply ShortClean_spec; [|done].
  split; [done|]. intros sid' e'. simpl.
  intros [_ Hs]%lookup_delete_Some. by apply Hc.
Qed.

(** ** Executions *)

Inductive op :=
  | OpGetSession (now now' : Z) (sid : str)
  | OpRemoveSession (now' : Z) (sid : str)
  | OpSetSessionTimeout (now now' : Z) (sid : str) (timeout : Z)
  | OpSetDefaultSessionTimeout (timeout : Z)
  | OpSetCleanerInterval (interval : Z)
  | OpSetBackgroundCleaner (allow : bool)
  | OpTimer (server_running : bool)
  | OpCleanerTask (now : Z) (server_running : bool).

Definition run_op (m : SessionMap) (o : op) : SessionMap :=
  match o with
  | OpGetSession now now' sid => (GetSession now now' sid m).2
  | OpRemoveSession now' sid => (RemoveSession now' sid m).2
  | OpSetSessionTimeout now now' sid t => SetSessionTimeout now now' sid t m
  | OpSetDefaultSessionTimeout t => SetDefaultSessionTimeout t m
  | OpSetCleanerInterval i => SetCleanerInterval i m
  | OpSetBackgroundCleaner a => SetBackgroundCleaner a m
  | OpTimer r => (OnTimer r m).2
  | OpCleanerTask now r => CleanerTask now r m
  end.

Lemma run_op_inv m o : session_inv m -> session_inv (run_op m o).
Proof.
  intros Hm. destruct o; simpl.
  - by apply GetSession_inv.
  - by apply RemoveSession_inv.
  - by apply SetSessionTimeout_inv.
  - done.
  - done.
  - unfold SetBackgroundCleaner, SetCleaner. repeat case_match; done.
  - done.
  - unfold CleanerTask, SetCleaner.
    assert (session_inv (if GetSize (pqueue_ m) <? size (map_ m) * 8
      then ShortClean now m else ThoroughClean now m)) as H.
    { case_match; [by apply ShortClean_spec|by apply ThoroughClean_inv]. }
    repeat case_match; done.
Qed.

Lemma session_inv_init : session_inv SessionMap_init.
Proof. split; [apply IsHeap_empty|]. intros sid e. simpl. by rewrite lookup_empty. Qed.

Lemma run_ops_inv ops m : session_inv m -> session_inv (foldl run_op m ops).
Proof. revert m. induction ops; simpl; eauto using run_op_inv. Qed.

(** ** Properties *)

(** C1. In every execution from the initial state, whatever operations run in
    whatever order and at whatever times, the expiry queue is a heap and every
    session in the map has a queue entry carrying its current expiry: no
    session can escape the cleaner. *)
Theorem sessions_always_queued (ops : list op) :
  session_inv (foldl run_op SessionMap_init ops).
Proof. apply run_ops_inv, session_inv_init. Qed.

(** C2. A thorough clean at time [now], in any reachable state, leaves exactly
    the sessions whose lease ends after [now]: every expired session is
    removed and no live one is. *)
Theorem thorough_clean_exact (ops : list op) (now : Z) :
  let m := foldl run_op SessionMap_init ops in
  map_ (ThoroughClean now m) = filter (fun kv => (now < expiry_ kv.2)%Z) (map_ m).
Proof. apply ThoroughClean_map, run_ops_inv, session_inv_init. Qed.

(** What an operation may do to a session that stays live: its context is kept
    and its lease is not shortened. *)
Definition lease_kept (sid : str) (m m' : SessionMap) (now : Z) : Prop :=
  forall e, map_ m !! sid = Some e -> (now < expiry_ e)%Z ->
  exists e', map_ m' !! sid = Some e' /\ ctx_ e' = ctx_ e /\
             (expiry_ e <= expiry_ e')%Z.

Lemma lease_kept_clean sid m now : session_inv m -> lease_kept sid m (ShortClean now m) now.
Proof.
  intros Hm e He Hlt. exists e. split_and!; [|done|lia].
  by apply (ShortClean_spec now m Hm).
Qed.

Lemma lease_kept_thorough sid m now :
  session_inv m -> lease_kept sid m (ThoroughClean now m) now.
Proof.
  intros Hm e He Hlt. exists e. split_and!; [|done|lia].
  rewrite ThoroughClean_map by done. by apply map_lookup_filter_Some.
Qed.

(** Before the final [ShortClean], every session is there with a lease that is
    not shorter; cleaning then keeps the live ones. *)
Definition leases_extend (mp mp1 : gmap str SessionContextEntry) : Prop :=
  forall sid e, mp !! sid = Some e ->
  exists e1, mp1 !! sid = Some e1 /\ ctx_ e1 = ctx_ e /\ (expiry_ e <= expiry_ e1)%Z.

Lemma lease_kept_after sid m m1 now :
  session_inv m1 -> leases_extend (map_ m) (map_ m1) ->
  lease_kept sid m (ShortClean now m1) now.
Proof.
  intros Hm1 Hext e He Hlt. destruct (Hext sid e He) as (e1 & He1 & Hc & Hx).
  exists e1. split_and!; [|done|done].
  apply (ShortClean_spec now m1 Hm1); [done|lia].
Qed.

Lemma leases_extend_insert mp sid e x :
  mp !! sid = Some e -> ctx_ x = ctx_ e -> (expiry_ e <= expiry_ x)%Z ->
  leases_extend mp (<[sid := x]> mp).
Proof.
  intros He Hc Hx sid' e' He'. destruct (decide (sid = sid')) as [<-|Hne].
  - simplify_eq. exists x. by rewrite lookup_insert_eq.
  - exists e'. rewrite lookup_insert_ne by done. split_and!; [done..|lia].
Qed.

Lemma leases_extend_emplace mp sid x : leases_extend mp (emplace sid x mp).
Proof.
  intros sid' e' He'. exists e'. split_and!; [|done|lia].
  unfold emplace. case_match eqn:Hs; [done|].
  rewrite lookup_insert_ne; [done|]. intros ->. congruence.
Qed.

Lemma GetSession_lease now now' sid sid' m :
  session_inv m -> lease_kept sid' m (GetSession now now' sid m).2 now'.
Proof.
  intros Hm. unfold GetSession.
  assert (session_inv (AllocateContext m).2) as Ha by (by destruct m).
  assert (map_ (AllocateContext m).2 = map_ m) as Hmp by done.
  destruct (AllocateContext m) as [c ma]. cbn [snd] in Hmp, Ha.
  destruct (map_ m !! sid) as [e|] eqn:He; [destruct (_ <? _)%Z|]; cbn [fst snd].
  - apply lease_kept_after.
    + destruct (Z.eqb_spec (add_ms now (default_timeout_ m) `max` expiry_ e) (expiry_ e))
        as [Heq|]; [|by apply (push_insert_inv m sid (mkContextEntry _ _))].
      destruct Hm as [Hh Hc]. split; [done|].
      apply insert_covers; [done|]. simpl. rewrite Heq. by apply Hc.
    + eapply leases_extend_insert; simpl; [done|done|lia].
  - apply lease_kept_after; [by apply (push_emplace_inv ma sid (mkContextEntry _ _))|].
    rewrite <- Hmp. apply leases_extend_emplace.
  - apply lease_kept_after; [by apply (push_emplace_inv ma sid (mkContextEntry _ _))|].
    rewrite <- Hmp. apply leases_extend_emplace.
Qed.

Lemma SetSessionTimeout_lease now now' sid sid' t m :
  session_inv m -> lease_kept sid' m (SetSessionTimeout now now' sid t m) now'.
Proof.
  intros Hm. unfold SetSessionTimeout.
  assert (session_inv (AllocateContext m).2) as Ha by (by destruct m).
  assert (map_ (AllocateContext m).2 = map_ m) as Hmp by done.
  destruct (AllocateContext m) as [c ma]. cbn [fst snd] in *.
  destruct (map_ m !! sid) as [e|] eqn:He; [destruct (_ =? _)%Z|].
  - by apply lease_kept_clean.
  - apply lease_kept_after; [by apply (push_insert_inv m sid (mkContextEntry _ _))|].
    eapply leases_extend_insert; simpl; [done|done|lia].
  - apply lease_kept_after; [by apply (push_emplace_inv ma sid (mkContextEntry _ _))|].
    rewrite <- Hmp. apply leases_extend_emplace.
Qed.

(** The last clock read of an operation, at which its cleaning runs. *)
Definition op_time (o : op) (dflt : Z) : Z :=
  match o with
  | OpGetSession _ now' _ | OpRemoveSession now' _
  | OpSetSessionTimeout _ now' _ _ | OpCleanerTask now' _ => now'
  | _ => dflt
  end.

Definition removes (o : op) (sid : str) : Prop :=
  match o with OpRemoveSession _ sid' => sid' = sid | _ => False end.

Lemma lease_kept_same sid m m' now : map_ m' = map_ m -> lease_kept sid m m' now.
Proof. intros Hm e He _. exists e. rewrite Hm. split_and!; [done..|lia]. Qed.

Lemma SetCleaner_map m : map_ (SetCleaner m) = map_ m.
Proof. unfold SetCleaner. by case_match. Qed.

Lemma CleanerTask_lease sid now running m :
  session_inv m -> lease_kept sid m (CleanerTask now running m) now.
Proof.
  intros Hm. unfold CleanerTask.
  set (m1 := if _ <? _ then _ else _).
  assert (lease_kept sid m m1 now) as H1.
  { subst m1. case_match; [by apply lease_kept_clean|by apply lease_kept_thorough]. }
  case_match; [|done]. intros e He Hlt.
  destruct (H1 e He Hlt) as (e' & ? & ? & ?). exists e'. by rewrite SetCleaner_map.
Qed.

Lemma RemoveSession_lease sid sid' now' m :
  session_inv m -> sid' <> sid ->
  lease_kept sid m (RemoveSession now' sid' m).2 now'.
Proof.
  intros Hm Hne. unfold RemoveSession. case_match; cbn [snd].
  - intros e He Hlt. exists e. split_and!; [|done|lia].
    apply ShortClean_spec; [|simpl; by rewrite lookup_delete_ne|done].
    destruct Hm as [Hh Hc]. split; [done|]. intros k x. simpl.
    intros [_ Hs]%lookup_delete_Some. by apply Hc.
  - by apply lease_kept_clean.
Qed.

Lemma run_op_lease o sid now m :
  session_inv m -> ~ removes o sid -> lease_kept sid m (run_op m o) (op_time o now).
Proof.
  intros Hm Hnr. destruct o; simpl in *.
  - by apply GetSession_lease.
  - by apply RemoveSession_lease.
  - by apply SetSessionTimeout_lease.
  - by apply lease_kept_same.
  - by apply lease_kept_same.
  - apply lease_kept_same. unfold SetBackgroundCleaner.
    repeat case_match; simpl; by rewrite ?SetCleaner_map.
  - by apply lease_kept_same.
  - by apply CleanerTask_lease.
Qed.

(** Over many operations, none of them later than [now]. *)
Lemma run_ops_lease ops sid now m :
  session_inv m -> Forall (fun o => ~ removes o sid /\ (op_time o now <= now)%Z) ops ->
  lease_kept sid m (foldl run_op m ops) now.
Proof.
  intros Hm Hops. revert m Hm. induction Hops as [|o ops [Hr Ht] Hops IH]; intros m Hm e He Hlt; simpl.
  { exists e. split_and!; [done..|lia]. }
  destruct (run_op_lease o sid now m Hm Hr e He ltac:(lia)) as (e1 & He1 & Hc1 & Hx1).
  destruct (IH (run_op m o) (run_op_inv m o Hm) e1 He1 ltac:(lia)) as (e2 & He2 & Hc2 & Hx2).
  exists e2. split_and!; [done|congruence|lia].
Qed.

(** C3. Leases are monotone.  In any reachable state, no operation other than
    removing that very session drops a session whose lease ends after the
    operation's clock reading, replaces its context, or brings its expiry
    forward; in particular changing timeouts never shortens a live session. *)
Theorem live_sessions_kept (ops : list op) (o : op) (sid : str) (now : Z) :
  ~ removes o sid ->
  let m := foldl run_op SessionMap_init ops in
  lease_kept sid m (run_op m o) (op_time o now).
Proof.
  intros Hnr m. apply run_op_lease; [|done]. apply run_ops_inv, session_inv_init.
Qed.

Lemma live_sessions_kept_witness :
  let ops := [OpGetSession 0 0 (lit "a")] in
  let o := OpGetSession 5 5 (lit "b") in
  ~ removes o (lit "a") /\
  lease_kept (lit "a") (foldl run_op SessionMap_init ops)
    (run_op (foldl run_op SessionMap_init ops) o) (op_time o 0).
Proof.
  simpl. split; [tauto|].
  apply (live_sessions_kept [OpGetSession 0 0 (lit "a")] (OpGetSession 5 5 (lit "b")) _ 0).
  simpl. tauto.
Defined.

(** ** A session keeps its context while it is live *)

Lemma add_ms_small now ms :
  is_int64 now -> (0 <= ms)%Z -> (now + ms * 1000000 <= int64_max)%Z ->
  (0 <= now)%Z -> add_ms now ms = (now + ms * 1000000)%Z.
Proof.
  intros Hnow Hms Hsum H0. unfold add_ms, is_int64, int64_min, int64_max in *.
  rewrite (to_int64_small ms), (to_int64_small (ms * 1000000)), to_int64_small;
    unfold is_int64, int64_min, int64_max; lia.
Qed.

(** The state after a first access stores the returned context with a lease of
    at least one second. *)
Lemma GetSession_fresh now now' sid m :
  session_inv m -> map_ m !! sid = None ->
  (now' < add_ms now (Z.max kMinSessionTimeout (default_timeout_ m)))%Z ->
  let '(c, m') := GetSession now now' sid m in
  map_ m' !! sid =
    Some (mkContextEntry c (add_ms now (Z.max kMinSessionTimeout (default_timeout_ m)))).
Proof.
  intros Hm Hn Hlt. unfold GetSession. rewrite Hn. simpl.
  apply ShortClean_spec; [|simpl; unfold emplace; rewrite Hn; by rewrite lookup_insert_eq|done].
  apply (push_emplace_inv (AllocateContext m).2 sid (mkContextEntry _ _)). by destruct m.
Qed.

Lemma GetSession_live now now' sid m e :
  map_ m !! sid = Some e -> (now < expiry_ e)%Z -> (GetSession now now' sid m).1 = ctx_ e.
Proof. intros He Hlt. unfold GetSession. rewrite He. by rewrite (proj2 (Z.ltb_lt _ _) Hlt). Qed.

(** Two requests for the same session identifier, the second before the
    first one's lease of at least one second ends, get the same context. *)
Theorem session_context_stable (ops : list op) (sid : str) (t1 t1' t2 t2' : Z) :
  let m := foldl run_op SessionMap_init ops in
  let lease := Z.max kMinSessionTimeout (default_timeout_ m) in
  map_ m !! sid = None ->
  (0 <= t1)%Z -> (t1 <= t1')%Z -> (t1' <= t2)%Z ->
  is_size_t (default_timeout_ m) ->
  (t1 + lease * 1000000 <= int64_max)%Z ->
  (t2 < t1 + lease * 1000000)%Z ->
  let '(c1, m1) := GetSession t1 t1' sid m in
  let '(c2, _) := GetSession t2 t2' sid m1 in
  c1 = c2.
Proof.
  intros m lease Hn H0 H1 H12 Hd Hmax Hlt.
  assert (session_inv m) as Hm by (apply run_ops_inv, session_inv_init).
  assert (add_ms t1 lease = (t1 + lease * 1000000)%Z) as Hadd.
  { unfold is_size_t in Hd. apply add_ms_small; unfold is_int64, int64_min, int64_max in *;
      unfold lease, kMinSessionTimeout in *; lia. }
  pose proof (GetSession_fresh t1 t1' sid m Hm Hn) as Hf. fold lease in Hf.
  destruct (GetSession t1 t1' sid m) as [c1 m1]. rewrite Hadd in Hf.
  specialize (Hf ltac:(lia)).
  pose proof (GetSession_live t2 t2' sid m1 _ Hf) as Hl. simpl in Hl.
  destruct (GetSession t2 t2' sid m1) as [c2 m2]. simpl in Hl. rewrite Hl; [done|lia].
Qed.

Lemma session_context_stable_witness :
  let m := foldl run_op SessionMap_init [OpSetDefaultSessionTimeout 2000] in
  let '(c1, m1) := GetSession 10 20 (lit "sid") m in
  let '(c2, _) := GetSession 1000000000 1000000001 (lit "sid") m1 in
  c1 = c2.
Proof.
  apply (session_context_stable [OpSetDefaultSessionTimeout 2000] (lit "sid")
           10 20 1000000000 1000000001);
    vm_decide.
Defined.

(** A request for a session whose lease has ended but which no cleaning has
    removed yet gets a new context that is not stored: [emplace] keeps the
    expired entry.  The session map is left as it was, so the next request for
    the same identifier gets yet another context, and what was put in the
    first one is lost. *)
Theorem expired_session_not_renewed (now now' t t' : Z) (sid : str) (m : SessionMap) e :
  map_ m !! sid = Some e -> (expiry_ e <= now)%Z -> (now <= t)%Z ->
  IsHeap key_less (pqueue_ m) ->
  GetSize (pqueue_ m) + 2 <= size (map_ m) * 2 ->
  let '(c1, m1) := GetSession now now' sid m in
  let '(c2, m2) := GetSession t t' sid m1 in
  map_ m1 = map_ m /\ map_ m2 = map_ m /\ c1 <> c2.
Proof.
  intros He Hexp Ht Hh Hsz.
  assert (forall n n' k, map_ k !! sid = Some e -> (expiry_ e <= n)%Z ->
    IsHeap key_less (pqueue_ k) -> GetSize (pqueue_ k) + 1 <= size (map_ k) * 2 ->
    exists k', GetSession n n' sid k = (next_ctx_ k, k') /\ map_ k' = map_ k /\
    IsHeap key_less (pqueue_ k') /\ GetSize (pqueue_ k') = S (GetSize (pqueue_ k)) /\
    next_ctx_ k' = S (next_ctx_ k)) as Hone.
  { intros n n' k Hk Hle Hhk Hsk. unfold GetSession, AllocateContext. rewrite Hk.
    rewrite (proj2 (Z.ltb_ge _ _) Hle). unfold emplace. simpl. rewrite Hk.
    set (x := mkKeyEntry sid _).
    destruct (Push_spec key_less (pqueue_ k) x Hhk) as (Hh' & _ & Hl).
    unfold ShortClean. simpl.
    replace (size (map_ k) * 2 <? GetSize (Push key_less (pqueue_ k) x)) with false.
    - eexists. split; [done|]. simpl. unfold GetSize in *. destruct Hhk.
      split_and!; [done|done|lia|done].
    - symmetry. apply Nat.ltb_ge. unfold GetSize in *. destruct Hhk. lia. }
  destruct (Hone now now' m He Hexp Hh ltac:(lia)) as (m1 & -> & Hm1 & Hh1 & Hs1 & Hc1).
  rewrite <- Hm1 in He.
  destruct (Hone t t' m1 He ltac:(lia) Hh1 ltac:(rewrite Hm1; lia))
    as (m2 & -> & Hm2 & _). rewrite Hm2, Hm1. split_and!; [done..|lia].
Qed.

(** Four sessions are opened; the first is asked for again after its lease. *)
Definition four_sessions : SessionMap :=
  foldl run_op SessionMap_init
    (OpSetDefaultSessionTimeout 1000 ::
     ((fun s => OpGetSession 0 0 (lit s)) <$> ["a"; "b"; "c"; "d"]%string)).

Lemma expired_session_not_renewed_witness :
  let '(c1, m1) := GetSession 2000000000 2000000000 (lit "a") four_sessions in
  let '(c2, m2) := GetSession 2000000001 2000000001 (lit "a") m1 in
  map_ m1 = map_ four_sessions /\ map_ m2 = map_ four_sessions /\ c1 <> c2.
Proof.
  apply (expired_session_not_renewed 2000000000 2000000000 2000000001 2000000001
           (lit "a") four_sessions (mkContextEntry 0 1000000000)).
  - vm_compute. reflexivity.
  - simpl. lia.
  - lia.
  - apply run_ops_inv, session_inv_init.
  - vm_compute. repeat constructor.
Defined.

(** A default timeout above 2^63 - 1 milliseconds, such as [SIZE_MAX] for
    "never", is converted to a negative duration: the session that
    [GetSession] creates and stores is already expired. *)
Theorem huge_timeout_expires_at_once (now now' : Z) (sid : str) (m : SessionMap) (d : Z) :
  session_inv m -> map_ m !! sid = None ->
  size (map_ m) * 2 + 1 >= GetSize (pqueue_ m) ->
  default_timeout_ m = (2 ^ 64 - d)%Z -> (1 <= d <= 2 ^ 40)%Z ->
  is_int64 now -> (0 <= now)%Z ->
  exists e, map_ (GetSession now now' sid m).2 !! sid = Some e /\ (expiry_ e < now)%Z.
Proof.
  intros Hm Hn Hsz Hd Hr Hnow H0.
  assert (add_ms now (Z.max kMinSessionTimeout (default_timeout_ m)) =
          now - d * 1000000)%Z as Hadd.
  { rewrite Hd, Z.max_r by (unfold kMinSessionTimeout; lia). unfold add_ms.
    assert (to_int64 (2 ^ 64 - d) = - d)%Z as ->.
    { unfold to_int64. rewrite <- (Z.mod_unique _ (2 ^ 64) 1 (2 ^ 63 - d)); lia. }
    unfold is_int64, int64_min, int64_max in Hnow.
    rewrite (to_int64_small (- d * 1000000)), to_int64_small;
      unfold is_int64, int64_min, int64_max; lia. }
  unfold GetSession. rewrite Hn. simpl. rewrite Hadd. set (x := mkKeyEntry sid _).
  destruct (Push_spec key_less (pqueue_ m) x (proj1 Hm)) as (_ & _ & Hl).
  unfold ShortClean, emplace. simpl. rewrite Hn.
  rewrite map_size_insert_None by done.
  replace (S (size (map_ m)) * 2 <? GetSize (Push key_less (pqueue_ m) x)) with false.
  - eexists. simpl. rewrite lookup_insert_eq. split; [done|]. simpl. lia.
  - symmetry. apply Nat.ltb_ge. unfold GetSize in *. destruct Hm as [[] _]. lia.
Qed.

Lemma huge_timeout_expires_at_once_witness :
  let m := SetDefaultSessionTimeout (2 ^ 64 - 1) SessionMap_init in
  exists e, map_ (GetSession 5000000 5000000 (lit "s") m).2 !! lit "s" = Some e /\
            (expiry_ e < 5000000)%Z.
Proof.
  apply (huge_timeout_expires_at_once _ _ _ _ 1).
  - exact session_inv_init.
  - vm_compute. reflexivity.
  - vm_compute. lia.
  - reflexivity.
  - lia.
  - unfold is_int64, int64_min, int64_max. lia.
  - lia.
Defined.
