(* ===== verification/RouteTarget.v ===== *)
(** * RouteTarget: route targets, their validation and their segments

    Sources: src/route/include/internal/http_route_table_detail.h,
    src/route/impl/http_route_target_validator.cc, and the template helpers
    [ExtractParamNames], [NormalizeRouteTemplate] and [JoinRouteTemplate] of
    [HttpRouteTable].  The regular expression of the validator is matched by
    the automaton [regex_match_tail]; [target_body] is the language the
    expression denotes, and the two are shown to agree. *)

From S2P Require Import Prelude Text.

(** ** Segments *)

Definition StripQuery (target : str) : str :=
  prefix_upto target (find_char "?"%char target).

Definition IsParameterSegment (segment : str) : bool :=
  (2 <=? length segment) && bool_decide (head segment = Some "{"%char)
  && bool_decide (last segment = Some "}"%char).

Definition ExtractParamName (segment : str) : str :=
  if IsParameterSegment segment then substr segment 1 (length segment - 2) else [].

(** The [while (!url.empty())] loop; every iteration but the last removes at
    least one character, so the length of the view is enough fuel. *)
Fixpoint split_loop (fuel : nat) (url : str) (segments : list str) : list str :=
  match fuel, url with
  | 0, _ | _, [] => segments
  | S fuel, _ =>
      let slash := find_char "/"%char url in
      let part := prefix_upto url slash in
      let segments :=
        match part with [] => segments | _ => segments ++ [part] end in
      match slash with
      | None => segments
      | Some i => split_loop fuel (drop (i + 1) url) segments
      end
  end.

Definition SplitTargetSegments (target : str) : list str :=
  let url := StripQuery target in split_loop (length url) url [].

Definition ExtractParamNames (target : str) : list str :=
  filter (fun n => n <> []) (ExtractParamName <$> SplitTargetSegments target).

Definition NormalizeRouteTemplate (target : str) : str :=
  match StripQuery target with [] => lit "/" | url => url end.

Definition JoinRouteTemplate (prefix route_template : str) : str :=
  let normalized_prefix := NormalizeRouteTemplate prefix in
  let normalized_route := NormalizeRouteTemplate route_template in
  let normalized_prefix :=
    if (1 <? length normalized_prefix)
       && bool_decide (last normalized_prefix = Some "/"%char)
    then removelast normalized_prefix else normalized_prefix in
  if normalized_prefix =s lit "/" then normalized_route
  else if normalized_route =s lit "/" then normalized_prefix
  else normalized_prefix ++ normalized_route.

(** ** Validation *)

Definition is_alnum (c : ascii) : bool :=
  let n := nat_of_ascii c in
  ((97 <=? n) && (n <=? 122)) || ((65 <=? n) && (n <=? 90))
  || ((48 <=? n) && (n <=? 57)).

(** [[a-zA-Z0-9\-._~!$&'()*+,;=:@/?%#\[\]]] *)
Definition target_char (c : ascii) : bool :=
  is_alnum c || existsb (Ascii.eqb c) (lit "-._~!$&'()*+,;=:@/?%#[]").

(** [[a-zA-Z0-9_\-]] *)
Definition name_char (c : ascii) : bool :=
  is_alnum c || (c =c "_"%char) || (c =c "-"%char).

(** The automaton of [(class|\{name*\})*$]; the flag says whether it is inside
    braces. *)
Fixpoint regex_match_tail (in_brace : bool) (s : str) : bool :=
  match s with
  | [] => negb in_brace
  | c :: s' =>
      if in_brace then
        if c =c "}"%char then regex_match_tail false s'
        else name_char c && regex_match_tail true s'
      else
        if c =c "{"%char then regex_match_tail true s'
        else target_char c && regex_match_tail false s'
  end.

Definition valid_target_regex (target : str) : bool :=
  match target with
  | c :: s => (c =c "/"%char) && regex_match_tail false s
  | [] => false
  end.

(** The brace counting loop: [None] is the early return. *)
Fixpoint brace_loop (s : str) (brace_count : Z) : option Z :=
  match s with
  | [] => Some brace_count
  | c :: s' =>
      if c =c "{"%char then brace_loop s' (brace_count + 1)
      else if c =c "}"%char then
        if (brace_count - 1 <? 0)%Z then None else brace_loop s' (brace_count - 1)
      else brace_loop s' brace_count
  end.

Fixpoint non_param_loop (s : str) (in_brace : bool) : str :=
  match s with
  | [] => []
  | c :: s' =>
      if c =c "{"%char then non_param_loop s' true
      else if c =c "}"%char then non_param_loop s' false
      else if in_brace then non_param_loop s' in_brace
      else c :: non_param_loop s' in_brace
  end.

Definition IsValidParametricTarget (target : str) : bool :=
  if bool_decide (target = []) || (2048 <? length target)
     || negb (bool_decide (head target = Some "/"%char))
  then false
  else if negb (valid_target_regex target) then false
  else
    match brace_loop target 0 with
    | None => false
    | Some brace_count =>
        if negb (brace_count =? 0)%Z then false
        else
          match find_str (lit "..") (non_param_loop target false) with
          | Some _ => false
          | None => true
          end
    end.

(** ** The language of the regular expression *)

Inductive target_body : str -> Prop :=
  | body_nil : target_body []
  | body_char c s : target_char c = true -> target_body s -> target_body (c :: s)
  | body_param n s :
      Forall (fun c => name_char c = true) n -> target_body s ->
      target_body ("{"%char :: n ++ "}"%char :: s).

Lemma class_no_brace c :
  target_char c = true \/ name_char c = true ->
  (c =c "{"%char) = false /\ (c =c "}"%char) = false.
Proof.
  intros H. destruct (Ascii.eqb_spec c "{"%char) as [->|Hne].
  { destruct H; discriminate. }
  destruct (Ascii.eqb_spec c "}"%char) as [->|Hne2]; [destruct H; discriminate|done].
Qed.

Lemma regex_match_name n s :
  Forall (fun c => name_char c = true) n ->
  regex_match_tail true (n ++ "}"%char :: s) = regex_match_tail false s.
Proof.
  induction 1 as [|c n Hc _ IH]; simpl; [done|].
  destruct (class_no_brace c (or_intror Hc)) as [_ ->]. by rewrite Hc.
Qed.

Lemma regex_match_true_inv s :
  regex_match_tail true s = true ->
  exists n r, s = n ++ "}"%char :: r /\ Forall (fun c => name_char c = true) n /\
              regex_match_tail false r = true.
Proof.
  induction s as [|c s IH]; simpl; [done|].
  destruct (Ascii.eqb_spec c "}"%char) as [->|Hne].
  - intros Hs. by exists [], s.
  - intros [Hc Hs]%andb_true_iff. destruct (IH Hs) as (n & r & -> & Hn & Hr).
    exists (c :: n), r. split_and!; [done|by constructor|done].
Qed.

Lemma regex_match_body s : regex_match_tail false s = true <-> target_body s.
Proof.
  split.
  - induction s as [s IH] using (induction_ltof1 _ (@length ascii)); unfold ltof in IH.
    destruct s as [|c s]; [constructor|]. simpl.
    destruct (Ascii.eqb_spec c "{"%char) as [->|Hne].
    + intros (n & r & -> & Hn & Hr)%regex_match_true_inv. constructor; [done|].
      apply IH; [|done]. simpl. rewrite length_app. simpl. lia.
    + intros [Hc Hs]%andb_true_iff. constructor; [done|]. apply IH; [simpl; lia|done].
  - induction 1 as [|c s Hc _ IH|n s Hn _ IH]; simpl; [done|..].
    + destruct (class_no_brace c (or_introl Hc)) as [-> _]. by rewrite Hc.
    + by rewrite regex_match_name.
Qed.

Lemma brace_loop_name n s z :
  Forall (fun c => name_char c = true) n -> brace_loop (n ++ s) z = brace_loop s z.
Proof.
  induction 1 as [|c n Hc _ IH]; simpl; [done|].
  destruct (class_no_brace c (or_intror Hc)) as [-> ->]. done.
Qed.

(** After the regular expression the brace counting never rejects. *)
Lemma brace_loop_body s z : (0 <= z)%Z -> target_body s -> brace_loop s z = Some z.
Proof.
  intros Hz. induction 1 as [|c s Hc _ IH|n s Hn _ IH]; simpl; [done|..].
  - destruct (class_no_brace c (or_introl Hc)) as [-> ->]. done.
  - rewrite brace_loop_name by done. simpl.
    destruct (Z.ltb_spec (z + 1 - 1) 0); [lia|]. by replace (z + 1 - 1)%Z with z by lia.
Qed.

(** The validator accepts exactly the targets of at most 2048 characters
    that start with '/', continue with permitted characters and [{name}]
    groups, and have no ".." outside the groups.  In particular the brace
    counting after the regular expression never rejects anything. *)
Theorem valid_target_spec (target : str) :
  IsValidParametricTarget target = true <->
  exists s, target = "/"%char :: s /\ length target <= 2048 /\ target_body s /\
            find_str (lit "..") (non_param_loop target false) = None.
Proof.
  unfold IsValidParametricTarget. split.
  - destruct target as [|c s]; simpl; [done|].
    destruct (Nat.ltb_spec 2048 (S (length s))); simpl; [done|].
    destruct (Ascii.eqb_spec c "/"%char) as [->|Hc].
    2:{ rewrite bool_decide_eq_false_2 by congruence. done. }
    rewrite bool_decide_eq_true_2 by done. simpl.
    destruct (regex_match_tail false s) eqn:Hr; simpl; [|done].
    apply regex_match_body in Hr. rewrite (brace_loop_body s 0) by (done || lia). simpl.
    destruct (find_str _ _) eqn:Hd; [done|]. intros _. exists s.
    split_and!; [done|lia|done|done].
  - intros (s & -> & Hlen & Hb & Hd).
    rewrite bool_decide_eq_false_2 by done.
    rewrite (proj2 (Nat.ltb_ge _ _) Hlen). rewrite bool_decide_eq_true_2 by done.
    simpl valid_target_regex. rewrite (proj2 (regex_match_body s) Hb).
    simpl brace_loop. rewrite (brace_loop_body s 0) by (done || lia). simpl.
    simpl in Hd. by rewrite Hd.
Qed.

(** ** Splitting and rendering *)

(** A path made of segments. *)
Definition render (segs : list str) : str := concat (cons "/"%char <$> segs).

Definition plain_segment (s : str) : Prop :=
  s <> [] /\ "/"%char ∉ s /\ "?"%char ∉ s.

Lemma split_loop_render fuel seg rest acc :
  plain_segment seg -> Forall plain_segment rest ->
  length (seg ++ render rest) <= fuel ->
  split_loop fuel (seg ++ render rest) acc = acc ++ seg :: rest.
Proof.
  revert seg rest acc. induction fuel as [|fuel IH]; intros seg rest acc Hseg Hrest Hf.
  { destruct Hseg as [Hne _]. destruct seg; [done|]. simpl in Hf. lia. }
  destruct Hseg as (Hne & Hs & Hq). destruct seg as [|c seg]; [done|].
  cbn [split_loop app]. rewrite app_comm_cons.
  destruct rest as [|seg' rest].
  - unfold render. simpl concat. rewrite !app_nil_r.
    rewrite (find_char_snoc_notin _ _ Hs). done.
  - change (render (seg' :: rest)) with ("/"%char :: seg' ++ render rest) in *.
    rewrite find_char_app by done. simpl prefix_upto. rewrite take_app_length.
    replace (drop (length (c :: seg) + 1) ((c :: seg) ++ "/"%char :: seg' ++ render rest))
      with (seg' ++ render rest).
    + apply Forall_cons in Hrest as [Hs' Hr]. rewrite IH; [|done..|].
      * by rewrite <- app_assoc.
      * rewrite length_app in Hf |- *. simpl in *. rewrite length_app in Hf. lia.
    + rewrite <- drop_drop, drop_app_length. done.
Qed.

Lemma StripQuery_id s : "?"%char ∉ s -> StripQuery s = s.
Proof. intros Hs. unfold StripQuery. by rewrite find_char_snoc_notin. Qed.

Lemma render_no_query segs : Forall plain_segment segs -> "?"%char ∉ render segs.
Proof.
  induction 1 as [|seg rest (_ & _ & Hq) _ IH]; [apply not_elem_of_nil|].
  change (render (seg :: rest)) with ("/"%char :: seg ++ render rest). set_solver.
Qed.

Lemma split_render segs :
  Forall plain_segment segs -> SplitTargetSegments (render segs) = segs.
Proof.
  intros HF. unfold SplitTargetSegments.
  rewrite StripQuery_id by by apply render_no_query.
  destruct HF as [|seg rest Hseg Hrest]; [done|].
  change (render (seg :: rest)) with ("/"%char :: seg ++ render rest).
  cbn [length split_loop find_char]. rewrite Ascii.eqb_refl. simpl.
  rewrite drop_0. by rewrite split_loop_render.
Qed.

Lemma split_loop_nonempty fuel url acc :
  Forall (fun s => s <> [] /\ "/"%char ∉ s) acc ->
  Forall (fun s => s <> [] /\ "/"%char ∉ s) (split_loop fuel url acc).
Proof.
  revert url acc. induction fuel as [|fuel IH]; intros [|c url] acc Hacc; simpl; try done.
  assert (forall part, "/"%char ∉ part ->
    Forall (fun s => s <> [] /\ "/"%char ∉ s)
      (match part with [] => acc | _ => acc ++ [part] end)) as Hpush.
  { intros [|d p] Hp; [done|]. apply Forall_app. split; [done|].
    by apply Forall_singleton. }
  change (if c =c "/"%char then Some 0 else S <$> find_char "/"%char url)
    with (find_char "/"%char (c :: url)).
  destruct (find_char "/"%char (c :: url)) as [i|] eqn:Hi; simpl.
  - apply IH, Hpush. apply find_char_Some in Hi as (l & r & Hs & Hni & <-).
    rewrite Hs, take_app_length. done.
  - apply (Hpush (c :: url)). by apply find_char_None.
Qed.

(** Every segment is non-empty and free of slashes. *)
Lemma split_segments_nonempty target :
  Forall (fun s => s <> [] /\ "/"%char ∉ s) (SplitTargetSegments target).
Proof. apply split_loop_nonempty. constructor. Qed.
