(* ===== verification/RouteLayer.v ===== *)
(** * RouteLayer: the routing tree

    Sources: src/route/include/internal/http_route_table_layer.h and
    src/route/http_route_table_layer.cc.  A layer is its local data plus its
    children: [map_] (static segments, an unordered map with unique keys, kept
    as an association list) and [default_route_] (the parameter edge).  A layer
    is owned by its parent, so the tree is a value; the pointers the code walks
    with are paths of edges.

    [data_at] is the abstraction: a tree denotes a partial map from edge paths
    to local data, and the operations of the tree are operations on that map
    ([data_at_update_path] and the theorems of RouteMount).

    Handlers and aspects are user objects: [H] is the type of handlers (a null
    [OwnedPtr] is [None]), [A] the type of aspect pointers. *)

From S2P Require Import Prelude Text RouteTarget.

Section layer.
Context {H A : Type}.

Record LayerData := mkLayerData {
  aspects_ : list A;
  terminal_aspects_ : list A;
  param_names_ : list str;
  handler_ : option H;
  route_template_ : str;
  max_body_size_ : Z;
  read_expiry_ : Z;
  write_expiry_ : Z;
  ignore_default_route_ : bool;
}.

Inductive HttpRouteTableLayer := mkLayer {
  data_ : LayerData;
  map_ : list (str * HttpRouteTableLayer);
  default_route_ : option HttpRouteTableLayer;
}.

(** [HttpRouteTableLayer()] *)
Definition new_data : LayerData :=
  mkLayerData [] [] [] None (lit "/") 0 0 0 false.
Definition new_layer : HttpRouteTableLayer := mkLayer new_data [] None.

(** ** Setters and getters *)

Definition on_data (f : LayerData -> LayerData) (l : HttpRouteTableLayer) :
    HttpRouteTableLayer :=
  mkLayer (f (data_ l)) (map_ l) (default_route_ l).

Definition SetMaxBodySize (n : Z) (d : LayerData) : LayerData :=
  mkLayerData (aspects_ d) (terminal_aspects_ d) (param_names_ d) (handler_ d)
    (route_template_ d) n (read_expiry_ d) (write_expiry_ d)
    (ignore_default_route_ d).

Definition SetReadExpiry (n : Z) (d : LayerData) : LayerData :=
  mkLayerData (aspects_ d) (terminal_aspects_ d) (param_names_ d) (handler_ d)
    (route_template_ d) (max_body_size_ d) n (write_expiry_ d)
    (ignore_default_route_ d).

Definition SetWriteExpiry (n : Z) (d : LayerData) : LayerData :=
  mkLayerData (aspects_ d) (terminal_aspects_ d) (param_names_ d) (handler_ d)
    (route_template_ d) (max_body_size_ d) (read_expiry_ d) n
    (ignore_default_route_ d).

(** A null handler leaves the layer as it is. *)
Definition SetHandler (handler : option H) (d : LayerData) : LayerData :=
  match handler with
  | None => d
  | Some _ =>
      mkLayerData (aspects_ d) (terminal_aspects_ d) (param_names_ d) handler
        (route_template_ d) (max_body_size_ d) (read_expiry_ d) (write_expiry_ d)
        (ignore_default_route_ d)
  end.

Definition SetParamNames (names : list str) (d : LayerData) : LayerData :=
  mkLayerData (aspects_ d) (terminal_aspects_ d) names (handler_ d)
    (route_template_ d) (max_body_size_ d) (read_expiry_ d) (write_expiry_ d)
    (ignore_default_route_ d).

Definition SetRouteTemplate (t : str) (d : LayerData) : LayerData :=
  mkLayerData (aspects_ d) (terminal_aspects_ d) (param_names_ d) (handler_ d)
    t (max_body_size_ d) (read_expiry_ d) (write_expiry_ d)
    (ignore_default_route_ d).

Definition SetIgnoreDefaultRoute (flag : bool) (d : LayerData) : LayerData :=
  mkLayerData (aspects_ d) (terminal_aspects_ d) (param_names_ d) (handler_ d)
    (route_template_ d) (max_body_size_ d) (read_expiry_ d) (write_expiry_ d)
    flag.

Definition AddAspect (aspect : A) (d : LayerData) : LayerData :=
  mkLayerData (aspects_ d ++ [aspect]) (terminal_aspects_ d) (param_names_ d)
    (handler_ d) (route_template_ d) (max_body_size_ d) (read_expiry_ d)
    (write_expiry_ d) (ignore_default_route_ d).

Definition AddTerminalAspect (aspect : A) (d : LayerData) : LayerData :=
  mkLayerData (aspects_ d) (terminal_aspects_ d ++ [aspect]) (param_names_ d)
    (handler_ d) (route_template_ d) (max_body_size_ d) (read_expiry_ d)
    (write_expiry_ d) (ignore_default_route_ d).

(** [map_.find(key)] *)
Fixpoint assoc_find {V} (key : str) (m : list (str * V)) : option V :=
  match m with
  | [] => None
  | (k, v) :: m' => if k =s key then Some v else assoc_find key m'
  end.

(** [it->second = link] or [map_.emplace(key, link)] *)
Fixpoint assoc_set {V} (key : str) (link : V) (m : list (str * V)) : list (str * V) :=
  match m with
  | [] => [(key, link)]
  | (k, v) :: m' => if k =s key then (k, link) :: m' else (k, v) :: assoc_set key link m'
  end.

Definition GetRoute (key : str) (l : HttpRouteTableLayer) :
    option HttpRouteTableLayer := assoc_find key (map_ l).

Definition GetDefaultRoute (l : HttpRouteTableLayer) : option HttpRouteTableLayer :=
  default_route_ l.

(** [SetRoute] refuses an empty key; its link is never null at its call. *)
Definition SetRoute (key : str) (link : HttpRouteTableLayer)
    (l : HttpRouteTableLayer) : bool * HttpRouteTableLayer :=
  match key with
  | [] => (false, l)
  | _ => (true, mkLayer (data_ l) (assoc_set key link (map_ l)) (default_route_ l))
  end.

Definition SetDefaultRoute (route : HttpRouteTableLayer) (l : HttpRouteTableLayer) :
    HttpRouteTableLayer := mkLayer (data_ l) (map_ l) (Some route).

(** ** Edges and paths *)

Inductive edge := Lit (s : str) | Par.

#[global] Instance edge_eq_dec : EqDecision edge.
Proof. solve_decision. Defined.

Definition child (e : edge) (l : HttpRouteTableLayer) : option HttpRouteTableLayer :=
  match e with Lit s => GetRoute s l | Par => GetDefaultRoute l end.

Definition set_child (e : edge) (c l : HttpRouteTableLayer) : HttpRouteTableLayer :=
  match e with Lit s => (SetRoute s c l).2 | Par => SetDefaultRoute c l end.

Fixpoint node_at (p : list edge) (l : HttpRouteTableLayer) :
    option HttpRouteTableLayer :=
  match p with
  | [] => Some l
  | e :: p' => child e l ≫= node_at p'
  end.

(** What the tree denotes. *)
Definition data_at (p : list edge) (l : HttpRouteTableLayer) : option LayerData :=
  data_ <$> node_at p l.

(** Walk down a path, creating the layers that are missing, and apply [f] to
    the data of the last one. *)
Fixpoint update_path (p : list edge) (f : LayerData -> LayerData)
    (l : HttpRouteTableLayer) : HttpRouteTableLayer :=
  match p with
  | [] => on_data f l
  | e :: p' => set_child e (update_path p' f (default new_layer (child e l))) l
  end.

(** Static segments are not empty. *)
Definition edge_ok (e : edge) : Prop := match e with Lit s => s <> [] | Par => True end.

(** ** Lemmas *)

Lemma assoc_find_set {V} k k' (v : V) m :
  assoc_find k' (assoc_set k v m) = if k =s k' then Some v else assoc_find k' m.
Proof.
  induction m as [|[a x] m IH]; simpl; [done|].
  destruct (str_eqb_spec a k) as [->|Ha]; simpl.
  - by destruct (k =s k').
  - rewrite IH. destruct (str_eqb_spec a k') as [->|]; [|done].
    destruct (str_eqb_spec k k'); [congruence|done].
Qed.

Lemma child_set_child e e' c l :
  edge_ok e ->
  child e' (set_child e c l) = if decide (e = e') then Some c else child e' l.
Proof.
  intros Hok. destruct e as [s|], e' as [s'|]; cbn [child set_child].
  - destruct s as [|a s]; [done|]. unfold GetRoute. cbn [SetRoute snd map_].
    rewrite assoc_find_set.
    destruct (str_eqb_spec (a :: s) s'), (decide (Lit (a :: s) = Lit s')); congruence.
  - rewrite decide_False by done. by destruct s.
  - by rewrite decide_False by done.
  - by rewrite decide_True by done.
Qed.

Lemma data_set_child e c l : data_ (set_child e c l) = data_ l.
Proof. by destruct e as [[|]|]. Qed.

Lemma node_at_app p q l : node_at (p ++ q) l = node_at p l ≫= node_at q.
Proof.
  revert l. induction p as [|e p IH]; intros l; simpl; [done|].
  destruct (child e l); simpl; [apply IH|done].
Qed.

Lemma node_at_new p l : p <> [] -> node_at p new_layer = Some l -> False.
Proof. destruct p as [|[s|] p]; simpl; done. Qed.

Lemma data_at_new q : data_at q new_layer = if decide (q = []) then Some new_data else None.
Proof. by destruct q as [|[s|] q]. Qed.

Lemma data_at_cons e p l : data_at (e :: p) l = child e l ≫= data_at p.
Proof. unfold data_at. simpl. by destruct (child e l). Qed.

(** The path to a layer is created on demand: the data at the end of the path
    is updated, the layers on the way are there, and nothing else changes. *)
Lemma data_at_update_path p f l q :
  Forall edge_ok p ->
  data_at q (update_path p f l) =
    if decide (q = p) then Some (f (default new_data (data_at p l)))
    else if decide (q `prefix_of` p) then Some (default new_data (data_at q l))
    else data_at q l.
Proof.
  intros Hp. revert q l. induction Hp as [|e p He Hp IH]; intros q l.
  { destruct q as [|e q]; [done|]. rewrite decide_False by done.
    rewrite decide_False; [done|]. intros Hpre. apply prefix_nil_inv in Hpre. done. }
  destruct q as [|e' q]; cbn [update_path].
  { rewrite decide_False by done. rewrite decide_True by apply prefix_nil.
    unfold data_at. simpl. by rewrite data_set_child. }
  rewrite !data_at_cons, child_set_child by done.
  destruct (decide (e = e')) as [<-|Hne]; simpl.
  - rewrite IH. destruct (decide (q = p)) as [->|Hqp].
    + rewrite decide_True by done. do 2 f_equal. destruct (child e l); simpl; [done|].
      rewrite data_at_new. by case_decide.
    + rewrite (decide_False (P := e :: q = e :: p)) by congruence.
      destruct (decide (q `prefix_of` p)) as [Hpre|Hpre].
      * rewrite decide_True by by apply prefix_cons.
        f_equal. destruct (child e l); simpl; [done|].
        rewrite data_at_new. by case_decide.
      * rewrite decide_False by (intros ?%prefix_cons_inv_2; done).
        destruct (child e l); simpl; [done|]. rewrite data_at_new.
        rewrite decide_False; [done|]. intros ->. apply Hpre, prefix_nil.
  - rewrite decide_False by congruence.
    rewrite decide_False by (intros ?%prefix_cons_inv_1; congruence). done.
Qed.

(** ** Induction over the tree *)

Section layer_ind.
Variable P : HttpRouteTableLayer -> Prop.
Hypothesis Hnode : forall d m dr,
  Forall (fun kv => P kv.2) m ->
  (forall c, dr = Some c -> P c) -> P (mkLayer d m dr).

Fixpoint layer_tree_ind (l : HttpRouteTableLayer) : P l :=
  match l with
  | mkLayer d m dr =>
      Hnode d m dr
        ((fix go (m : list (str * HttpRouteTableLayer)) : Forall (fun kv => P kv.2) m :=
            match m with
            | [] => Forall_nil_2 _
            | kv :: m' => Forall_cons_2 _ kv m' (layer_tree_ind kv.2) (go m')
            end) m)
        (match dr return forall c, dr = Some c -> P c with
         | None => fun c e => match e with end
         | Some x => fun c e =>
             match e in _ = o return match o with Some y => P y | None => True end with
             | eq_refl => layer_tree_ind x
             end
         end)
  end.
End layer_ind.

(** The keys of an unordered map are unique, at every layer. *)
Inductive layer_wf : HttpRouteTableLayer -> Prop :=
  | layer_wf_intro d m dr :
      NoDup m.*1 -> Forall (fun kv => kv.1 <> [] /\ layer_wf kv.2) m ->
      (forall c, dr = Some c -> layer_wf c) -> layer_wf (mkLayer d m dr).

Lemma layer_wf_new : layer_wf new_layer.
Proof. constructor; [constructor|constructor|done]. Qed.

Lemma assoc_find_elem {V} k (v : V) m : assoc_find k m = Some v -> (k, v) ∈ m.
Proof.
  induction m as [|[a x] m IH]; simpl; [done|].
  destruct (str_eqb_spec a k) as [->|].
  - intros [= <-]. by left.
  - intros Hf. right. by apply IH.
Qed.

Lemma assoc_find_unique {V} k (v : V) m :
  NoDup m.*1 -> (k, v) ∈ m -> assoc_find k m = Some v.
Proof.
  induction m as [|[a x] m IH]; simpl; intros Hnd Hin; [by apply not_elem_of_nil in Hin|].
  apply NoDup_cons in Hnd as [Ha Hnd]. apply elem_of_cons in Hin as [[= -> ->]|Hin].
  - by rewrite str_eqb_refl.
  - destruct (str_eqb_spec a k) as [->|]; [|by apply IH].
    destruct Ha. apply list_elem_of_fmap. by exists (k, v).
Qed.

Lemma assoc_set_keys {V} k (v : V) m :
  (assoc_set k v m).*1 = if decide (k ∈ m.*1) then m.*1 else m.*1 ++ [k].
Proof.
  induction m as [|[a x] m IH]; cbn [assoc_set fmap list_fmap fst].
  { by rewrite decide_False by apply not_elem_of_nil. }
  destruct (str_eqb_spec a k) as [->|Hne]; cbn [fmap list_fmap fst].
  - rewrite decide_True; [done|]. by left.
  - rewrite IH. destruct (decide (k ∈ m.*1)) as [Hin|Hin].
    + rewrite decide_True; [done|]. by right.
    + rewrite decide_False; [done|]. rewrite elem_of_cons. naive_solver.
Qed.

Lemma assoc_set_elem {V} k (v : V) m kv :
  kv ∈ assoc_set k v m -> kv ∈ m \/ kv.2 = v /\ kv.1 = k.
Proof.
  induction m as [|[a x] m IH]; simpl.
  - intros ->%list_elem_of_singleton. by right.
  - destruct (str_eqb_spec a k) as [->|Hne].
    + intros [->|Hin]%elem_of_cons; [by right|]. left. by right.
    + intros [->|Hin]%elem_of_cons; [left; by left|].
      destruct (IH Hin); [left; by right|by right].
Qed.

Lemma layer_wf_child e l c : layer_wf l -> child e l = Some c -> layer_wf c.
Proof.
  intros Hl. destruct Hl as [d m dr Hnd HF Hdr]. destruct e as [s|]; simpl.
  - intros Hf%assoc_find_elem. simpl in Hf. rewrite Forall_forall in HF.
    by destruct (HF _ Hf).
  - apply Hdr.
Qed.

Lemma layer_wf_set_child e c l :
  layer_wf l -> layer_wf c -> layer_wf (set_child e c l).
Proof.
  intros Hl Hc. destruct Hl as [d m dr Hnd HF Hdr]. destruct e as [[|a s]|]; simpl.
  - by constructor.
  - constructor; [| |done].
    + rewrite assoc_set_keys. case_decide; [done|]. simpl in *.
      apply NoDup_app. split_and!; [done| |apply NoDup_singleton].
      intros x Hx ->%list_elem_of_singleton. done.
    + apply Forall_forall. intros kv [Hkv|[-> ->]]%assoc_set_elem; [|done].
      rewrite Forall_forall in HF. by apply HF.
  - constructor; [done|done|]. by intros ? [= <-].
Qed.

Lemma layer_wf_update_path p f l : layer_wf l -> layer_wf (update_path p f l).
Proof.
  revert l. induction p as [|e p IH]; intros l Hl; simpl.
  - by destruct Hl; constructor.
  - apply layer_wf_set_child; [done|]. apply IH.
    destruct (child e l) eqn:Hc; simpl; [by eapply layer_wf_child|apply layer_wf_new].
Qed.
End layer.

Arguments LayerData : clear implicits.
Arguments HttpRouteTableLayer : clear implicits.
