(* ===== verification/RouteTable.v ===== *)
(** * RouteTable: registration and request matching

    Sources: src/route/http_route_table_registry.cc,
    src/route/http_route_table_match.cc, the class in http_route_table.h and
    the result types of http_route_result_internal.h.

    [parse_segments] stands for [boost::urls::parse_uri_reference] followed by
    [segments()]: [None] when the target does not parse, otherwise the decoded
    path segments.  It is a parameter of the matcher.

    A method is its index; [entrance_] has one tree per index. *)

From S2P Require Import Prelude Text RouteTarget RouteLayer.

Section table.
Context {H A : Type}.
Abbreviation layer := (HttpRouteTableLayer H A).

Record HttpRouteTable := mkTable {
  entrance_ : list layer;
  global_specific_aspects_ : list (list A);
  global_aspects_ : list A;
  default_handler_ : option H;
  default_max_body_size_ : Z;
  default_read_expiry_ : Z;
  default_write_expiry_ : Z;
}.

Definition kHttpRequestMethodNum : nat := 9.

(** [HttpRouteTable()], with the built-in fallback handler given. *)
Definition new_table (empty_route_handler : H) : HttpRouteTable :=
  mkTable (replicate kHttpRequestMethodNum new_layer)
    (replicate kHttpRequestMethodNum []) [] (Some empty_route_handler)
    16384 4000 4000.

Record HttpRouteResultInternal := mkResult {
  current_location : str;
  route_template : str;
  parameters : gmap str str;
  aspects : list A;
  handler : option H;
  max_body_size : Z;
  read_expiry : Z;
  write_expiry : Z;
}.

(** ** Registration *)

Definition edge_of (word : str) : edge :=
  if IsParameterSegment word then Par else Lit word.

(** The path a route target denotes. *)
Definition target_path (target : str) : list edge :=
  edge_of <$> SplitTargetSegments target.

Definition with_entrance (t : HttpRouteTable) (e : list layer) : HttpRouteTable :=
  mkTable e (global_specific_aspects_ t) (global_aspects_ t) (default_handler_ t)
    (default_max_body_size_ t) (default_read_expiry_ t) (default_write_expiry_ t).

(** [GetOrCreateRouteTableLayer] followed by [k] on the layer it returns: the
    walk creates what is missing, the terminal metadata is rewritten, and [k]
    is what the caller does through the returned pointer. *)
Definition GetOrCreateRouteTableLayer (method : nat) (target : str)
    (k : LayerData H A -> LayerData H A) (t : HttpRouteTable) : HttpRouteTable :=
  with_entrance t
    (alter
       (update_path (target_path target)
          (fun d => k (SetRouteTemplate (NormalizeRouteTemplate target)
                        (SetParamNames (ExtractParamNames target) d))))
       method (entrance_ t)).

(** The guard all registration functions share. *)
Definition registration_ok (method_idx : nat) (target : str) : bool :=
  negb (kHttpRequestMethodNum <=? method_idx) && IsValidParametricTarget target.

Definition registered (method_idx : nat) (target : str)
    (k : LayerData H A -> LayerData H A) (t : HttpRouteTable) : bool * HttpRouteTable :=
  if registration_ok method_idx target
  then (true, GetOrCreateRouteTableLayer method_idx target k t)
  else (false, t).

Definition AddRouteEntry (method : nat) (target : str) (h : option H) :=
  registered method target (SetHandler h).

Definition AddExclusiveRouteEntry (method : nat) (target : str) (h : option H) :=
  registered method target (fun d => SetIgnoreDefaultRoute true (SetHandler h d)).

Definition AddAspect (method : nat) (target : str) (aspect : A) :=
  registered method target (RouteLayer.AddAspect aspect).

Definition AddTerminalAspect (method : nat) (target : str) (aspect : A) :=
  registered method target (RouteLayer.AddTerminalAspect aspect).

Definition SetWriteExpiry (method : nat) (target : str) (expiry : Z) :=
  registered method target (RouteLayer.SetWriteExpiry expiry).

Definition SetReadExpiry (method : nat) (target : str) (expiry : Z) :=
  registered method target (RouteLayer.SetReadExpiry expiry).

Definition SetMaxBodySize (method : nat) (target : str) (n : Z) :=
  registered method target (RouteLayer.SetMaxBodySize n).

Definition AddGlobalAspectFor (method_idx : nat) (aspect : A) (t : HttpRouteTable) :
    bool * HttpRouteTable :=
  if kHttpRequestMethodNum <=? method_idx then (false, t)
  else (true, mkTable (entrance_ t)
    (alter (fun l => l ++ [aspect]) method_idx (global_specific_aspects_ t))
    (global_aspects_ t) (default_handler_ t) (default_max_body_size_ t)
    (default_read_expiry_ t) (default_write_expiry_ t)).

Definition AddGlobalAspect (aspect : A) (t : HttpRouteTable) : bool * HttpRouteTable :=
  (true, mkTable (entrance_ t) (global_specific_aspects_ t)
    (global_aspects_ t ++ [aspect]) (default_handler_ t)
    (default_max_body_size_ t) (default_read_expiry_ t) (default_write_expiry_ t)).

Definition SetDefaultWriteExpiry (expiry : Z) (t : HttpRouteTable) : HttpRouteTable :=
  mkTable (entrance_ t) (global_specific_aspects_ t) (global_aspects_ t)
    (default_handler_ t) (default_max_body_size_ t) (default_read_expiry_ t) expiry.

Definition SetDefaultReadExpiry (expiry : Z) (t : HttpRouteTable) : HttpRouteTable :=
  mkTable (entrance_ t) (global_specific_aspects_ t) (global_aspects_ t)
    (default_handler_ t) (default_max_body_size_ t) expiry (default_write_expiry_ t).

Definition SetDefaultMaxBodySize (n : Z) (t : HttpRouteTable) : HttpRouteTable :=
  mkTable (entrance_ t) (global_specific_aspects_ t) (global_aspects_ t)
    (default_handler_ t) n (default_read_expiry_ t) (default_write_expiry_ t).

Definition SetDefaultHandler (h : option H) (t : HttpRouteTable) : HttpRouteTable :=
  mkTable (entrance_ t) (global_specific_aspects_ t) (global_aspects_ t) h
    (default_max_body_size_ t) (default_read_expiry_ t) (default_write_expiry_ t).

(** ** Matching *)

Definition BuildDefaultRouteResultInternal (t : HttpRouteTable) :
    HttpRouteResultInternal :=
  mkResult (lit "/") (lit "/") ∅ (global_aspects_ t) (default_handler_ t)
    (default_max_body_size_ t) (default_read_expiry_ t) (default_write_expiry_ t).

(** What the walk has at hand: the current layer, the concrete location, the
    captured values, and the layers matched so far. *)
Record walk := mkWalk {
  route_layer : layer;
  out_location : str;
  out_parameter_values : list str;
  out_matched_layers : list layer;
}.

(** The loop over [url.segments()]; [None] is [return false]. *)
Fixpoint match_loop (segments : list str) (w : walk) : option walk :=
  match segments with
  | [] => Some w
  | seg :: rest =>
      match seg with
      | [] => match_loop rest w
      | _ =>
          match GetRoute seg (route_layer w) with
          | Some next =>
              match_loop rest
                (mkWalk next (out_location w ++ "/"%char :: seg)
                   (out_parameter_values w) (out_matched_layers w ++ [next]))
          | None =>
              if ignore_default_route_ (data_ (route_layer w)) then Some w
              else
                match GetDefaultRoute (route_layer w) with
                | None => None
                | Some default_layer =>
                    match_loop rest
                      (mkWalk default_layer (out_location w ++ "/"%char :: seg)
                         (out_parameter_values w ++ [seg])
                         (out_matched_layers w ++ [default_layer]))
                end
          end
      end
  end.

Definition MatchSegments (segments : list str) (root : layer) : option walk :=
  w ← match_loop segments (mkWalk root [] [] [root]);
  Some (mkWalk (route_layer w)
          (match out_location w with [] => lit "/" | loc => loc end)
          (out_parameter_values w) (out_matched_layers w)).

(** [parameters.emplace(param_names[i], parameter_values[i])] in order; a name
    that is there keeps its value. *)
Definition param_emplace (m : gmap str str) (kv : str * str) : gmap str str :=
  match m !! kv.1 with Some _ => m | None => <[kv.1 := kv.2]> m end.

Definition BuildParameterMap (d : LayerData H A) (parameter_values : list str) :
    gmap str str :=
  foldl param_emplace ∅ (zip (param_names_ d) parameter_values).

Definition CollectAspects (t : HttpRouteTable) (matched_layers : list layer)
    (last_layer : layer) (method_idx : nat) : list A :=
  global_aspects_ t
  ++ default [] (global_specific_aspects_ t !! method_idx)
  ++ concat ((fun l => aspects_ (data_ l)) <$> matched_layers)
  ++ terminal_aspects_ (data_ last_layer).

Definition nonzero_or (n dflt : Z) : Z := if (n =? 0)%Z then dflt else n.

Definition RouteInternal (parse_segments : str -> option (list str))
    (method_idx : nat) (target : str) (t : HttpRouteTable) :
    HttpRouteResultInternal :=
  match entrance_ t !! method_idx with
  | None => BuildDefaultRouteResultInternal t
  | Some root =>
      match parse_segments target with
      | None => BuildDefaultRouteResultInternal t
      | Some segments =>
          match MatchSegments segments root with
          | None => BuildDefaultRouteResultInternal t
          | Some w =>
              let d := data_ (route_layer w) in
              match handler_ d with
              | None => BuildDefaultRouteResultInternal t
              | Some h =>
                  mkResult (out_location w) (route_template_ d)
                    (BuildParameterMap d (out_parameter_values w))
                    (CollectAspects t (out_matched_layers w) (route_layer w) method_idx)
                    (Some h)
                    (nonzero_or (max_body_size_ d) (default_max_body_size_ t))
                    (nonzero_or (read_expiry_ d) (default_read_expiry_ t))
                    (nonzero_or (write_expiry_ d) (default_write_expiry_ t))
              end
          end
      end
  end.

(** ** The route a request takes, as a path of edges *)

Fixpoint walk_edges (segments : list str) (l : layer) : option (list (edge * str)) :=
  match segments with
  | [] => Some []
  | seg :: rest =>
      match seg with
      | [] => walk_edges rest l
      | _ =>
          match GetRoute seg l with
          | Some next => cons (Lit seg, seg) <$> walk_edges rest next
          | None =>
              if ignore_default_route_ (data_ l) then Some []
              else
                match GetDefaultRoute l with
                | None => None
                | Some d => cons (Par, seg) <$> walk_edges rest d
                end
          end
      end
  end.

(** The values captured on the parameter edges of a walk. *)
Definition captured (es : list (edge * str)) : list str :=
  snd <$> filter (fun es => es.1 = Par) es.

(** The layers along a path, the root excluded. *)
Fixpoint layers_along (p : list edge) (l : layer) : list layer :=
  match p with
  | [] => []
  | e :: p' =>
      match child e l with
      | Some c => c :: layers_along p' c
      | None => []
      end
  end.

Lemma captured_lit seg es : captured ((Lit seg, seg) :: es) = captured es.
Proof. unfold captured. by rewrite filter_cons_False. Qed.

Lemma captured_par seg es : captured ((Par, seg) :: es) = seg :: captured es.
Proof. unfold captured. by rewrite filter_cons_True. Qed.

Lemma render_cons seg segs : render (seg :: segs) = "/"%char :: seg ++ render segs.
Proof. done. Qed.

Local Ltac walk_step Hc :=
  cbn [fmap option_fmap option_map mbind option_bind];
  rewrite !fmap_cons, render_cons; cbn [fst snd node_at layers_along child];
  rewrite Hc; cbn [mbind option_bind].

Local Ltac walk_assoc :=
  cbn [mbind option_bind]; f_equal; f_equal;
  rewrite <- !app_assoc; simpl; by rewrite <- ?app_assoc.

Lemma match_loop_walk segs w :
  match_loop segs w =
    es ← walk_edges segs (route_layer w);
    l ← node_at es.*1 (route_layer w);
    Some (mkWalk l (out_location w ++ render es.*2)
            (out_parameter_values w ++ captured es)
            (out_matched_layers w ++ layers_along es.*1 (route_layer w))).
Proof.
  revert w. induction segs as [|seg rest IH]; intros [l loc vals ml]; cbn [match_loop walk_edges].
  { simpl. by rewrite !app_nil_r. }
  destruct seg as [|c seg]; [apply IH|]. cbn [route_layer].
  destruct (GetRoute (c :: seg) l) as [next|] eqn:Hr.
  - rewrite IH. cbn [route_layer out_location out_parameter_values out_matched_layers].
    destruct (walk_edges rest next) as [es|]; [|done].
    walk_step Hr. rewrite captured_lit.
    destruct (node_at es.*1 next) as [l'|]; [|done]. walk_assoc.
  - destruct (ignore_default_route_ (data_ l)); simpl; [by rewrite !app_nil_r|].
    destruct (GetDefaultRoute l) as [dl|] eqn:Hd; [|done].
    rewrite IH. cbn [route_layer out_location out_parameter_values out_matched_layers].
    destruct (walk_edges rest dl) as [es|]; [|done].
    walk_step Hd. rewrite captured_par.
    destruct (node_at es.*1 dl) as [l'|]; [|done]. walk_assoc.
Qed.

(** A walk always ends at a layer of the tree. *)
Lemma walk_edges_node segs l es :
  walk_edges segs l = Some es -> is_Some (node_at es.*1 l).
Proof.
  revert l es. induction segs as [|seg rest IH]; intros l es; cbn [walk_edges].
  { by intros [= <-]. }
  destruct seg as [|c seg]; [apply IH|].
  destruct (GetRoute (c :: seg) l) as [next|] eqn:Hr.
  - intros (es' & Hes & ->)%fmap_Some. simpl. rewrite Hr. simpl. by apply IH.
  - destruct (ignore_default_route_ (data_ l)); [by intros [= <-]|].
    destruct (GetDefaultRoute l) as [d|] eqn:Hd; [|done].
    intros (es' & Hes & ->)%fmap_Some. simpl. rewrite Hd. simpl. by apply IH.
Qed.

(** ** What a registration does to later walks *)

(** The request [segs] is an instance of the path [p], and at each parameter
    edge no static child and no exclusive flag of [l] shadows it. *)
Fixpoint reaches (p : list edge) (segs : list str) (l : layer) : Prop :=
  match p, segs with
  | [], [] => True
  | Lit x :: p', s :: segs' =>
      s = x /\ reaches p' segs' (default new_layer (child (Lit x) l))
  | Par :: p', s :: segs' =>
      s <> [] /\ GetRoute s l = None /\ ignore_default_route_ (data_ l) = false /\
      reaches p' segs' (default new_layer (child Par l))
  | _, _ => False
  end.

Lemma node_at_update_path p f (l : layer) :
  Forall edge_ok p ->
  node_at p (update_path p f l) = Some (on_data f (default new_layer (node_at p l))).
Proof.
  intros Hp. revert l. induction Hp as [|e p He Hp IH]; intros l; simpl; [done|].
  rewrite child_set_child, decide_True by done. simpl. rewrite IH. do 2 f_equal.
  destruct (child e l) as [c|]; simpl; [done|].
  by destruct p as [|[s|] p].
Qed.

Lemma walk_update_path p f (l : layer) segs :
  Forall edge_ok p -> reaches p segs l ->
  walk_edges segs (update_path p f l) = Some (zip p segs).
Proof.
  intros Hp. revert segs l. induction Hp as [|e p He Hp IH]; intros segs l Hr.
  { by destruct segs. }
  destruct segs as [|s segs]; [by destruct e|].
  cbn [update_path]. destruct e as [x|]; simpl in Hr.
  - destruct Hr as [-> Hr]. simpl in He. cbn [walk_edges].
    pose proof (child_set_child (Lit x) (Lit x)
      (update_path p f (default new_layer (child (Lit x) l))) l He) as Hc.
    rewrite decide_True in Hc by done. cbn [child] in Hc.
    destruct x as [|c x]; [done|]. cbn [child]. rewrite Hc. by rewrite IH.
  - destruct Hr as (Hs & Hg & Hi & Hr). cbn [walk_edges set_child].
    destruct s as [|c s]; [done|].
    change (GetRoute (c :: s) (SetDefaultRoute _ l)) with (GetRoute (c :: s) l).
    rewrite Hg. cbn [data_ SetDefaultRoute]. rewrite Hi. simpl. by rewrite IH.
Qed.

(** ** The result in terms of the tree's meaning *)

Fixpoint prefixes (p : list edge) : list (list edge) :=
  [] :: match p with [] => [] | e :: p' => cons e <$> prefixes p' end.

(** The data of the layers along a path, from the root to the end. *)
Definition path_data (p : list edge) (l : layer) : list (LayerData H A) :=
  omap (fun q => data_at q l) (prefixes p).

Lemma omap_fmap_compose {X Y Z} (f : Y -> option Z) (g : X -> Y) (l : list X) :
  omap f (g <$> l) = omap (fun x => f (g x)) l.
Proof. induction l; simpl; [done|]. case_match; by f_equal. Qed.

Lemma path_data_along p l :
  path_data p l = data_ l :: (data_ <$> layers_along p l).
Proof.
  unfold path_data. revert l. induction p as [|e p IH]; intros l; [done|].
  cbn [prefixes omap list_omap]. change (data_at [] l) with (Some (data_ l)).
  cbn iota. f_equal. change list_omap with (@omap list _).
  rewrite omap_fmap_compose. cbn [layers_along].
  destruct (child e l) as [c|] eqn:Hc.
  - rewrite fmap_cons, <- IH. apply list_omap_ext. apply Forall_Forall2_diag.
    apply Forall_true. intros q. by rewrite data_at_cons, Hc.
  - clear IH. induction (prefixes p) as [|q qs IHq]; [done|]. simpl.
    rewrite data_at_cons, Hc. exact IHq.
Qed.

(** ** Properties of matching *)

(** The reference definition of routing: follow [walk_edges]; if it leads to a
    layer with a handler, the result has that handler, that layer's template and
    its limits where set, the concrete location, the parameters zipped from the
    layer's names and the captured segments, and the aspects in the documented
    order: global, of the method, of every layer from the root to the leaf, then
    terminal.  Everything else is the default result. *)
Definition route_spec (parse_segments : str -> option (list str)) (method_idx : nat)
    (target : str) (t : HttpRouteTable) : HttpRouteResultInternal :=
  match entrance_ t !! method_idx, parse_segments target with
  | Some root, Some segs =>
      match es ← walk_edges segs root; d ← data_at es.*1 root;
            h ← handler_ d; Some (es, d, h) with
      | Some (es, d, h) =>
          mkResult
            (match es with [] => lit "/" | _ => render es.*2 end)
            (route_template_ d)
            (BuildParameterMap d (captured es))
            (global_aspects_ t
             ++ default [] (global_specific_aspects_ t !! method_idx)
             ++ concat (aspects_ <$> path_data es.*1 root)
             ++ terminal_aspects_ d)
            (Some h)
            (nonzero_or (max_body_size_ d) (default_max_body_size_ t))
            (nonzero_or (read_expiry_ d) (default_read_expiry_ t))
            (nonzero_or (write_expiry_ d) (default_write_expiry_ t))
      | None => BuildDefaultRouteResultInternal t
      end
  | _, _ => BuildDefaultRouteResultInternal t
  end.

Lemma route_result parse_segments method_idx target t :
  RouteInternal parse_segments method_idx target t =
  route_spec parse_segments method_idx target t.
Proof.
  unfold RouteInternal, route_spec. destruct (entrance_ t !! method_idx) as [root|]; [|done].
  destruct (parse_segments target) as [segs|]; [|done].
  unfold MatchSegments. rewrite match_loop_walk. cbn [route_layer].
  destruct (walk_edges segs root) as [es|] eqn:Hw; [|done].
  destruct (walk_edges_node _ _ _ Hw) as [l Hl].
  cbn [mbind option_bind]. unfold data_at. rewrite Hl.
  cbn [mbind option_bind fmap option_fmap option_map route_layer out_location
       out_parameter_values out_matched_layers app].
  destruct (handler_ (data_ l)) as [h|]; [|done]. cbn [mbind option_bind].
  rewrite path_data_along. unfold CollectAspects. f_equal; [by destruct es|].
  do 4 f_equal. rewrite !fmap_cons. f_equal. by rewrite <- list_fmap_compose.
Qed.

(** C5. The complete result of routing: the matching loop of the code, with its
    output parameters and early exits, computes [route_spec] for every table,
    method and target, so the edges a request follows, the layers whose aspects
    run, their order and the values captured are those of one walk of the tree. *)
Theorem route_result_spec parse_segments (method_idx : nat) (target : str)
    (t : HttpRouteTable) :
  RouteInternal parse_segments method_idx target t =
  route_spec parse_segments method_idx target t.
Proof. apply route_result. Qed.

(** ** What a registered route serves *)

Lemma target_path_ok target : Forall edge_ok (target_path target).
Proof.
  unfold target_path. rewrite Forall_fmap.
  eapply Forall_impl; [apply split_segments_nonempty|].
  intros w [Hw _]. unfold compose, edge_of. by destruct (IsParameterSegment w).
Qed.

Lemma reaches_length p segs l : reaches p segs l -> length p = length segs.
Proof.
  revert segs l. induction p as [|[x|] p IH]; intros [|s segs] l; simpl; try done.
  - intros [_ Hr]. f_equal. eauto.
  - intros (_ & _ & _ & Hr). f_equal. eauto.
Qed.

(** The entry a registration leaves at the end of its path. *)
Lemma registered_entry m target k t root :
  entrance_ t !! m = Some root ->
  entrance_ (GetOrCreateRouteTableLayer m target k t) !! m =
    Some (update_path (target_path target)
            (fun d => k (SetRouteTemplate (NormalizeRouteTemplate target)
                           (SetParamNames (ExtractParamNames target) d))) root).
Proof.
  intros He. unfold GetOrCreateRouteTableLayer, with_entrance. cbn [entrance_].
  by rewrite list_lookup_alter_eq, He.
Qed.

Lemma ExtractParamName_plain w : IsParameterSegment w = false -> ExtractParamName w = [].
Proof. unfold ExtractParamName. by intros ->. Qed.

(** With every parameter named, the i-th name belongs to the i-th captured
    value. *)
Lemma names_aligned words segs :
  Forall (fun w => IsParameterSegment w = true -> ExtractParamName w <> []) words ->
  zip (filter (fun n => n <> []) (ExtractParamName <$> words))
      (captured (zip (edge_of <$> words) segs)) =
  (fun ws => (ExtractParamName ws.1, ws.2)) <$>
    filter (fun ws => IsParameterSegment ws.1 = true) (zip words segs).
Proof.
  intros HF. revert segs. induction HF as [|w words Hw _ IH]; intros [|s segs]; [done..| |].
  { rewrite !zip_with_nil_r. apply zip_with_nil_r. }
  cbn [zip fmap list_fmap]. change (list_fmap ?f ?l) with (f <$> l).
  unfold edge_of at 1. destruct (IsParameterSegment w) eqn:Hp.
  - rewrite captured_par, !filter_cons_True by auto. rewrite fmap_cons.
    cbn [zip fst snd]. f_equal. apply IH.
  - assert (captured ((Lit w, s) :: zip (edge_of <$> words) segs) =
            captured (zip (edge_of <$> words) segs)) as ->.
    { unfold captured. by rewrite filter_cons_False. }
    rewrite filter_cons_False by (rewrite ExtractParamName_plain; naive_solver).
    rewrite filter_cons_False by (simpl; congruence). apply IH.
Qed.

Lemma param_emplace_all (l : list (str * str)) (m : gmap str str) k v :
  NoDup l.*1 -> (k, v) ∈ l -> m !! k = None ->
  foldl param_emplace m l !! k = Some v.
Proof.
  assert (Hkeep : forall l m v, m !! k = Some v -> foldl param_emplace m l !! k = Some v).
  { clear. induction l as [|[a x] l IH]; intros m v Hm; simpl; [done|].
    apply IH. unfold param_emplace. simpl. destruct (m !! a) eqn:Ha; [done|].
    rewrite lookup_insert_ne; congruence. }
  revert m. induction l as [|[a x] l IH]; intros m Hnd Hin Hm.
  { by apply not_elem_of_nil in Hin. }
  apply NoDup_cons in Hnd as [Hna Hnd]. simpl.
  apply elem_of_cons in Hin as [[= -> ->]|Hin].
  - apply Hkeep. unfold param_emplace. simpl. rewrite Hm. by rewrite lookup_insert_eq.
  - apply IH; [done..|]. unfold param_emplace. simpl. destruct (m !! a); [done|].
    rewrite lookup_insert_ne; [done|]. intros ->. apply Hna.
    apply list_elem_of_fmap. by exists (k, v).
Qed.

(** A target whose parameters are named, each with its own name. *)
Definition well_named (target : str) : Prop :=
  Forall (fun w => IsParameterSegment w = true -> ExtractParamName w <> [])
    (SplitTargetSegments target) /\
  NoDup (ExtractParamNames target).

#[global] Instance well_named_dec target : Decision (well_named target).
Proof. unfold well_named. apply _. Defined.

Lemma fst_zip_prefix {X Y} (l : list X) (k : list Y) : (zip l k).*1 `prefix_of` l.
Proof.
  revert k. induction l as [|x l IH]; intros [|y k]; simpl;
    [apply prefix_nil..|]. by apply prefix_cons.
Qed.

Lemma parameter_value target (d : LayerData H A) segs i w s :
  well_named target -> param_names_ d = ExtractParamNames target ->
  SplitTargetSegments target !! i = Some w -> segs !! i = Some s ->
  IsParameterSegment w = true ->
  BuildParameterMap d (captured (zip (target_path target) segs))
    !! ExtractParamName w = Some s.
Proof.
  intros [Hn Hnd] Hd Hw Hs Hp. unfold BuildParameterMap. rewrite Hd.
  apply param_emplace_all; [| |done].
  - destruct (fst_zip_prefix (ExtractParamNames target)
      (captured (zip (target_path target) segs))) as [r Hr].
    rewrite Hr in Hnd. by apply NoDup_app in Hnd as [? _].
  - unfold ExtractParamNames, target_path. rewrite names_aligned by done.
    apply list_elem_of_fmap. exists (w, s). split; [done|].
    apply list_elem_of_filter. split; [done|].
    apply list_elem_of_lookup. exists i. apply lookup_zip_with_Some. eauto.
Qed.

(** C6. A registered route is served.  After a successful [AddRouteEntry], on
    any table, a request that is an instance of the target (and that no static
    sibling or exclusive layer takes first) gets exactly this handler, with the
    request's own path as location, the normalised target as template, and,
    when the parameters are named distinctly, each name bound to the segment
    in its place. *)
Theorem registered_route_served parse_segments m target h t root url segs :
  registration_ok m target = true -> entrance_ t !! m = Some root ->
  parse_segments url = Some segs -> reaches (target_path target) segs root ->
  let '(ok, t') := AddRouteEntry m target (Some h) t in
  let r := RouteInternal parse_segments m url t' in
  ok = true /\ handler r = Some h /\
  current_location r = (match segs with [] => lit "/" | _ => render segs end) /\
  route_template r = NormalizeRouteTemplate target /\
  (well_named target -> forall i w s,
     SplitTargetSegments target !! i = Some w -> segs !! i = Some s ->
     IsParameterSegment w = true -> parameters r !! ExtractParamName w = Some s).
Proof.
  intros Hok He Hparse Hr. unfold AddRouteEntry, registered. rewrite Hok.
  pose proof (reaches_length _ _ _ Hr) as Hlen.
  rewrite route_result. unfold route_spec. rewrite (registered_entry _ _ _ _ _ He), Hparse.
  rewrite walk_update_path by eauto using target_path_ok.
  cbn [mbind option_bind]. rewrite fst_zip by lia.
  rewrite data_at_update_path by apply target_path_ok.
  rewrite decide_True by done. cbn [mbind option_bind SetHandler handler_ route_template_
    handler current_location route_template parameters SetRouteTemplate SetParamNames].
  split_and!; [done|done| |done|].
  - rewrite snd_zip by lia. by destruct segs as [|s segs], (target_path target).
  - intros Hwn i w s. by apply parameter_value.
Qed.

(** ** Later registrations and static routes *)

(** The walk along static children only. *)
Definition static_walk (segs : list str) : list (edge * str) :=
  (fun s => (Lit s, s)) <$> filter (fun s => s <> []) segs.

Lemma static_walk_update p f (l : layer) segs :
  Forall edge_ok p -> walk_edges segs l = Some (static_walk segs) ->
  walk_edges segs (update_path p f l) = Some (static_walk segs).
Proof.
  intros Hp. revert p Hp l. unfold static_walk.
  induction segs as [|seg segs IH]; intros p Hp l Hw; [done|].
  destruct seg as [|c seg]; cbn [walk_edges] in *.
  { rewrite filter_cons_False in * by naive_solver. by apply IH. }
  rewrite filter_cons_True, fmap_cons in * by done.
  destruct (GetRoute (c :: seg) l) as [next|] eqn:Hg.
  2:{ destruct (ignore_default_route_ (data_ l)); [done|].
      destruct (GetDefaultRoute l); [|done].
      by apply fmap_Some in Hw as (es' & _ & [= ]). }
  apply fmap_Some in Hw as (es' & Hw & [= <-]).
  destruct p as [|e p]; cbn [update_path].
  { change (GetRoute (c :: seg) (on_data f l)) with (GetRoute (c :: seg) l).
    rewrite Hg. by rewrite Hw. }
  apply Forall_cons in Hp as [He Hp].
  change (GetRoute (c :: seg) ?x) with (child (Lit (c :: seg)) x).
  rewrite child_set_child by done. case_decide as Hd.
  - subst e. cbn [child]. rewrite Hg. cbn [default]. by rewrite IH.
  - cbn [child]. rewrite Hg. by rewrite Hw.
Qed.

Lemma static_data_update p f (l : layer) segs :
  Forall edge_ok p -> walk_edges segs l = Some (static_walk segs) ->
  p <> (static_walk segs).*1 ->
  data_at (static_walk segs).*1 (update_path p f l) = data_at (static_walk segs).*1 l.
Proof.
  intros Hp Hw Hne. rewrite data_at_update_path by done.
  rewrite decide_False by congruence. case_decide; [|done].
  destruct (walk_edges_node _ _ _ Hw) as [n Hn]. unfold data_at. by rewrite Hn.
Qed.

(** A static route stands.  A request that is matched by static segments
    only keeps its handler, location, template, parameters and limits through
    any later registration under another path or method, parametric and
    exclusive ones included; only the aspects of the layers on its way may grow. *)
Theorem static_route_undisturbed parse_segments m url t root segs m' target k :
  entrance_ t !! m = Some root -> parse_segments url = Some segs ->
  walk_edges segs root = Some (static_walk segs) ->
  m' <> m \/ target_path target <> (static_walk segs).*1 ->
  let r := RouteInternal parse_segments m url t in
  let r' := RouteInternal parse_segments m url (registered m' target k t).2 in
  handler r' = handler r /\ current_location r' = current_location r /\
  route_template r' = route_template r /\ parameters r' = parameters r /\
  max_body_size r' = max_body_size r /\ read_expiry r' = read_expiry r /\
  write_expiry r' = write_expiry r.
Proof.
  intros He Hparse Hw Hne. cbn zeta. unfold registered.
  destruct (registration_ok m' target); [|done]. cbn [snd].
  rewrite !route_result. unfold route_spec. rewrite He, Hparse, Hw.
  destruct (decide (m' = m)) as [->|Hm].
  - rewrite (registered_entry _ _ _ _ _ He).
    rewrite static_walk_update by (done || apply target_path_ok).
    cbn [mbind option_bind].
    rewrite static_data_update by (done || apply target_path_ok || naive_solver).
    destruct (data_at (static_walk segs).*1 root) as [d|]; [|done].
    cbn [mbind option_bind]. by destruct (handler_ d).
  - assert (entrance_ (GetOrCreateRouteTableLayer m' target k t) !! m = Some root) as ->.
    { unfold GetOrCreateRouteTableLayer, with_entrance. cbn [entrance_].
      by rewrite list_lookup_alter_ne. }
    rewrite Hw. cbn [mbind option_bind].
    destruct (data_at (static_walk segs).*1 root) as [d|]; [|done].
    cbn [mbind option_bind]. by destruct (handler_ d).
Qed.

End table.

Arguments HttpRouteTable : clear implicits.
Arguments HttpRouteResultInternal : clear implicits.

(** ** Witnesses and a consequence for unnamed parameters *)

(** A stand-in for the URL parser, for concrete requests without escapes. *)
Definition plain_segments (target : str) : option (list str) :=
  Some (SplitTargetSegments target).

Lemma registered_route_served_witness :
  let t0 := new_table (A := unit) 0 in
  let '(ok, t') := AddRouteEntry 0 (lit "/users/{id}/posts/{post}") (Some 1) t0 in
  let r := RouteInternal plain_segments 0 (lit "/users/42/posts/7") t' in
  ok = true /\ handler r = Some 1 /\
  parameters r !! lit "id" = Some (lit "42") /\
  parameters r !! lit "post" = Some (lit "7").
Proof.
  pose proof (registered_route_served plain_segments 0 (lit "/users/{id}/posts/{post}")
    1 (new_table (A := unit) 0) new_layer (lit "/users/42/posts/7")
    [lit "users"; lit "42"; lit "posts"; lit "7"]) as Hs.
  specialize (Hs ltac:(vm_decide) ltac:(reflexivity) ltac:(vm_decide)).
  assert (reaches (H := nat) (A := unit) (target_path (lit "/users/{id}/posts/{post}"))
    [lit "users"; lit "42"; lit "posts"; lit "7"] new_layer) as Hr
    by (vm_compute; repeat split; discriminate).
  specialize (Hs Hr). cbn zeta. destruct (AddRouteEntry _ _ _ _) as [ok t'].
  destruct Hs as (Hok & Hh & _ & _ & Hp).
  assert (well_named (lit "/users/{id}/posts/{post}")) as Hn by (apply (bool_decide_unpack _); vm_compute; exact I).
  split_and!; [exact Hok|exact Hh| |].
  - exact (Hp Hn 1 (lit "{id}") (lit "42") eq_refl eq_refl eq_refl).
  - exact (Hp Hn 3 (lit "{post}") (lit "7") eq_refl eq_refl eq_refl).
Defined.

Lemma static_route_undisturbed_witness :
  let t0 := (AddRouteEntry 0 (lit "/users/me") (Some 1) (new_table (A := unit) 0)).2 in
  let t1 := (AddRouteEntry 0 (lit "/users/{id}") (Some 2) t0).2 in
  handler (RouteInternal plain_segments 0 (lit "/users/me") t1) = Some 1.
Proof.
  set (t0 := (AddRouteEntry 0 (lit "/users/me") (Some 1) (new_table (A := unit) 0)).2).
  destruct (static_route_undisturbed plain_segments 0 (lit "/users/me") t0
    (default new_layer (entrance_ t0 !! 0)) [lit "users"; lit "me"]
    0 (lit "/users/{id}") (SetHandler (Some 2))) as [Hh _];
    [vm_compute; reflexivity|vm_compute; reflexivity|vm_compute; reflexivity
    |right; vm_compute; discriminate|].
  cbn zeta. unfold AddRouteEntry. rewrite Hh. vm_compute. reflexivity.
Defined.

(** An unnamed parameter shifts the others.  The validator accepts [{}],
    the walk captures its segment, but [ExtractParamNames] skips its empty
    name, so names and values are zipped out of step: with the target
    [/a/{}/b/{id}] the request [/a/x/b/y] has [id] bound to [x]. *)
Theorem unnamed_parameter_shifts (H A : Type) (h0 h : H) (x y : str) :
  x <> [] -> y <> [] ->
  let t := (AddRouteEntry 0 (lit "/a/{}/b/{id}") (Some h) (new_table (A := A) h0)).2 in
  let r := RouteInternal (fun _ => Some [lit "a"; x; lit "b"; y]) 0 [] t in
  handler r = Some h /\ parameters r = {[ lit "id" := x ]}.
Proof.
  intros Hx Hy. destruct x as [|a x], y as [|b y]; [done..|]. split; vm_compute; reflexivity.
Qed.

Lemma unnamed_parameter_shifts_witness :
  let t := (AddRouteEntry 0 (lit "/a/{}/b/{id}") (Some 1) (new_table (A := unit) 0)).2 in
  let r := RouteInternal
    (fun _ => Some [lit "a"; lit "first"; lit "b"; lit "second"]) 0 [] t in
  parameters r = {[ lit "id" := lit "first" ]}.
Proof.
  apply (unnamed_parameter_shifts nat unit 0 1 (lit "first") (lit "second"));
    discriminate.
Defined.
