(* ===== verification/RouteMount.v ===== *)
(** * RouteMount: mounting one routing table under a prefix of another

    Sources: src/route/http_route_table_mount.cc, [HasTerminalConfiguration] of
    http_route_table_match.cc, and the iterative teardown of
    http_route_table_registry.cc.

    [clone_handler] and [clone_aspect] stand for the [dynamic_cast] to the
    cloneable interface followed by the user's [Clone()]: [None] when the object
    is not cloneable. *)

From S2P Require Import Prelude Text RouteTarget RouteLayer RouteTable.

Section mount.
Context {H A : Type}.
Abbreviation layer := (HttpRouteTableLayer H A).
Abbreviation table := (HttpRouteTable H A).

(** ** Operations on layers *)

Definition HasTerminalConfiguration (d : LayerData H A) : bool :=
  bool_decide (is_Some (handler_ d)) || negb (bool_decide (length (terminal_aspects_ d) = 0))
  || negb (max_body_size_ d =? 0)%Z || negb (read_expiry_ d =? 0)%Z
  || negb (write_expiry_ d =? 0)%Z.

Definition prefix_template (prefix : str) (d : LayerData H A) : LayerData H A :=
  if HasTerminalConfiguration d
  then SetRouteTemplate (JoinRouteTemplate prefix (route_template_ d)) d else d.

Fixpoint PrefixRouteTemplates (prefix : str) (l : layer) : layer :=
  mkLayer (prefix_template prefix (data_ l))
    (map (fun kv => (kv.1, PrefixRouteTemplates prefix kv.2)) (map_ l))
    (option_map (PrefixRouteTemplates prefix) (default_route_ l)).

Fixpoint CanMergeLayer (dst src : layer) {struct src} : bool :=
  negb (HasTerminalConfiguration (data_ src) && HasTerminalConfiguration (data_ dst))
  && match default_route_ src with
     | None => true
     | Some s =>
         match default_route_ dst with
         | None => true
         | Some d => CanMergeLayer d s
         end
     end
  && forallb
       (fun kv => match assoc_find kv.1 (map_ dst) with
                  | None => true
                  | Some d => CanMergeLayer d kv.2
                  end) (map_ src).

(** The field-by-field part of [MoveMergeLayer]. *)
Definition merge_data (dst src : LayerData H A) : LayerData H A :=
  let has_handler := bool_decide (is_Some (handler_ src)) in
  mkLayerData
    (aspects_ dst ++ aspects_ src)
    (match terminal_aspects_ src with [] => terminal_aspects_ dst | ta => ta end)
    (if has_handler then param_names_ src else param_names_ dst)
    (if has_handler then handler_ src else handler_ dst)
    (if has_handler then route_template_ src else route_template_ dst)
    (if (max_body_size_ src =? 0)%Z then max_body_size_ dst else max_body_size_ src)
    (if (read_expiry_ src =? 0)%Z then read_expiry_ dst else read_expiry_ src)
    (if (write_expiry_ src =? 0)%Z then write_expiry_ dst else write_expiry_ src)
    (if ignore_default_route_ src then true else ignore_default_route_ dst).

Fixpoint MoveMergeLayer (dst src : layer) {struct src} : layer :=
  mkLayer (merge_data (data_ dst) (data_ src))
    (fold_left
       (fun m kv => match assoc_find kv.1 m with
                    | None => assoc_set kv.1 kv.2 m
                    | Some d => assoc_set kv.1 (MoveMergeLayer d kv.2) m
                    end) (map_ src) (map_ dst))
    (match default_route_ src with
     | None => default_route_ dst
     | Some s =>
         Some (match default_route_ dst with
               | None => s
               | Some d => MoveMergeLayer d s
               end)
     end).

Section clone.
Context (clone_handler : H -> option H) (clone_aspect : A -> option A).

(** The cloned handler, or [None] when there is one that is not cloneable. *)
Definition clone_handler_ptr (h : option H) : option (option H) :=
  match h with None => Some None | Some h => Some <$> clone_handler h end.

Definition clone_data (d : LayerData H A) : option (LayerData H A) :=
  h ← clone_handler_ptr (handler_ d);
  a ← mapM clone_aspect (aspects_ d);
  ta ← mapM clone_aspect (terminal_aspects_ d);
  Some (mkLayerData a ta (param_names_ d) h (route_template_ d) (max_body_size_ d)
          (read_expiry_ d) (write_expiry_ d) (ignore_default_route_ d)).

(** [None] is [return false]. *)
Fixpoint CloneLayer (src : layer) : option layer :=
  d ← clone_data (data_ src);
  dr ← match default_route_ src with
       | None => Some None
       | Some s => Some <$> CloneLayer s
       end;
  m ← mapM (fun kv => (fun c => (kv.1, c)) <$> CloneLayer kv.2) (map_ src);
  Some (mkLayer d m dr).
End clone.

(** ** Mounting *)

(** Walk down a path, creating the layers that are missing, and replace the
    last one by its image under [g]. *)
Fixpoint update_node (p : list edge) (g : layer -> layer) (l : layer) : layer :=
  match p with
  | [] => g l
  | e :: p' => set_child e (update_node p' g (default new_layer (child e l))) l
  end.

(** [get_or_create_mount_layer], for its effect on the tree. *)
Definition get_or_create_mount_layer (prefix : str) (root : layer) : layer :=
  update_node (target_path prefix) id root.

(** The layer [get_or_create_mount_layer] returns. *)
Definition mount_root (prefix : str) (root : layer) : layer :=
  default new_layer (node_at (target_path prefix) root).

(** The first pass over the methods, with its early return: the flag, and both
    lists of trees as the pass leaves them. *)
Fixpoint mount_check (prefix : str) (dsts srcs : list layer) :
    bool * list layer * list layer :=
  match dsts, srcs with
  | dst :: dsts', src :: srcs' =>
      let src' := PrefixRouteTemplates prefix src in
      let dst' := get_or_create_mount_layer prefix dst in
      if CanMergeLayer (mount_root prefix dst') src' then
        let '(ok, ds, ss) := mount_check prefix dsts' srcs' in
        (ok, dst' :: ds, src' :: ss)
      else (false, dst' :: dsts', src' :: srcs')
  | _, _ => (true, dsts, srcs)
  end.

(** The second pass. *)
Definition mount_merge (prefix : str) (dsts srcs : list layer) : list layer :=
  zip_with (fun dst src =>
    update_node (target_path prefix) (fun root => MoveMergeLayer root src) dst) dsts srcs.

(** [Refused] is [return false], with the destination and the source as they
    are then; after [Mounted] the source is moved from. *)
Inductive mount_result := Refused (dst source : table) | Mounted (dst : table).

Definition MountAt (prefix : str) (source t : table) : mount_result :=
  if negb (IsValidParametricTarget prefix) then Refused t source
  else
    let '(ok, dsts, srcs) := mount_check prefix (entrance_ t) (entrance_ source) in
    if ok then Mounted (with_entrance t (mount_merge prefix dsts srcs))
    else Refused (with_entrance t dsts) (with_entrance source srcs).

(** The overload that takes a [const HttpRouteTable&]. *)
Definition MountAt_const (clone_handler : H -> option H) (clone_aspect : A -> option A)
    (empty_route_handler : H) (prefix : str) (source t : table) : bool * table :=
  if negb (IsValidParametricTarget prefix) then (false, t)
  else
    match mapM (CloneLayer clone_handler clone_aspect) (entrance_ source) with
    | None => (false, t)
    | Some e =>
        match MountAt prefix (with_entrance (new_table empty_route_handler) e) t with
        | Mounted t' => (true, t')
        | Refused t' _ => (false, t')
        end
    end.

(** ** Teardown *)

(** [CollectChildLayers]: what it appends to [pending]. *)
Definition CollectChildLayers (l : layer) (pending : list layer) : list layer :=
  pending ++ option_list (default_route_ l) ++ (snd <$> map_ l).

(** The [while (!pending.empty())] loop; the layers freed, in order. *)
Fixpoint destroy_loop (fuel : nat) (pending : list layer) (freed : list (LayerData H A)) :
    list layer * list (LayerData H A) :=
  match fuel with
  | 0 => (pending, freed)
  | S fuel =>
      match last pending with
      | None => (pending, freed)
      | Some current =>
          destroy_loop fuel (CollectChildLayers current (removelast pending))
            (freed ++ [data_ current])
      end
  end.

Definition DestroyLayerTreeIterative (fuel : nat) (root : layer) :
    list layer * list (LayerData H A) := destroy_loop fuel [root] [].

(** ** Layer operations through their children *)

Lemma assoc_find_map {V W} (f : V -> W) k (m : list (str * V)) :
  assoc_find k (map (fun kv => (kv.1, f kv.2)) m) = f <$> assoc_find k m.
Proof. induction m as [|[a x] m IH]; simpl; [done|]. by destruct (a =s k). Qed.

Lemma child_prefix prefix e (l : layer) :
  child e (PrefixRouteTemplates prefix l) = PrefixRouteTemplates prefix <$> child e l.
Proof. destruct l as [d m dr], e as [s|]; simpl; [apply assoc_find_map|by destruct dr]. Qed.

Lemma data_at_prefix prefix p (l : layer) :
  data_at p (PrefixRouteTemplates prefix l) = prefix_template prefix <$> data_at p l.
Proof.
  revert l. induction p as [|e p IH]; intros l; [by destruct l|].
  rewrite !data_at_cons, child_prefix. destruct (child e l); simpl; [apply IH|done].
Qed.

Lemma layer_wf_prefix prefix (l : layer) :
  layer_wf l -> layer_wf (PrefixRouteTemplates prefix l).
Proof.
  induction l as [d m dr IHm IHdr] using layer_tree_ind.
  inversion 1 as [? ? ? Hnd HF Hdr]; subst. simpl. constructor.
  - replace (map _ m).*1 with m.*1; [done|]. clear.
    induction m as [|kv m IH]; simpl; [done|]. by f_equal.
  - apply Forall_map. rewrite Forall_forall in IHm, HF |- *. intros kv Hkv. simpl.
    destruct (HF kv Hkv). auto.
  - intros c Hc. destruct dr as [c'|]; [|done]. injection Hc as <-. auto.
Qed.

Lemma HasTerminal_prefix prefix d :
  HasTerminalConfiguration (prefix_template prefix d) = HasTerminalConfiguration d.
Proof. unfold prefix_template. by destruct (HasTerminalConfiguration d) eqn:E. Qed.

Lemma assoc_find_merge {V} (g : V -> V -> V) (m acc : list (str * V)) k :
  NoDup m.*1 ->
  assoc_find k
    (fold_left (fun m kv => match assoc_find kv.1 m with
                            | None => assoc_set kv.1 kv.2 m
                            | Some d => assoc_set kv.1 (g d kv.2) m
                            end) m acc) =
  union_with (fun d s => Some (g d s)) (assoc_find k acc) (assoc_find k m).
Proof.
  revert acc. induction m as [|[a x] m IH]; intros acc Hnd; simpl.
  { by destruct (assoc_find k acc). }
  apply NoDup_cons in Hnd as [Ha Hnd]. rewrite IH by done.
  assert (a = k -> assoc_find k m = None) as Hk.
  { intros ->. destruct (assoc_find k m) as [v|] eqn:Hv; [|done].
    destruct Ha. apply list_elem_of_fmap. exists (k, v). split; [done|].
    by apply assoc_find_elem. }
  destruct (str_eqb_spec a k) as [->|Hne].
  - rewrite Hk by done. destruct (assoc_find k acc) as [d|] eqn:Hd;
      by rewrite assoc_find_set, str_eqb_refl.
  - f_equal. destruct (assoc_find a acc) as [d|]; rewrite assoc_find_set;
      by destruct (str_eqb_spec a k).
Qed.

Lemma child_merge e (dst src : layer) :
  layer_wf src ->
  child e (MoveMergeLayer dst src) =
    union_with (fun d s => Some (MoveMergeLayer d s)) (child e dst) (child e src).
Proof.
  intros [d m dr Hnd _ _]. destruct e as [s|].
  - apply (assoc_find_merge MoveMergeLayer m (map_ dst) s Hnd).
  - simpl. unfold GetDefaultRoute. by destruct dr, (default_route_ dst).
Qed.

(** Merging is the pointwise merge of what the trees denote. *)
Lemma data_at_merge p (dst src : layer) :
  layer_wf src ->
  data_at p (MoveMergeLayer dst src) =
    union_with (fun d s => Some (merge_data d s)) (data_at p dst) (data_at p src).
Proof.
  revert dst src. induction p as [|e p IH]; intros dst src Hwf; [by destruct src|].
  rewrite !data_at_cons, child_merge by done.
  destruct (child e src) as [s|] eqn:Hs, (child e dst) as [d|]; simpl; [|by destruct (data_at p _)..|done].
  apply IH. by eapply layer_wf_child.
Qed.

(** The test looks at the two layers and at each pair of children. *)
Lemma CanMerge_step (dst src : layer) :
  layer_wf src ->
  CanMergeLayer dst src = true <->
    ~ (HasTerminalConfiguration (data_ src) = true /\
       HasTerminalConfiguration (data_ dst) = true) /\
    forall e d s, child e dst = Some d -> child e src = Some s ->
      CanMergeLayer d s = true.
Proof.
  intros [d m dr Hnd _ _].
  cbn [CanMergeLayer data_ default_route_ map_].
  rewrite !andb_true_iff, negb_true_iff, forallb_forall.
  split.
  - intros [[Hh Hdr] Hm]. split.
    { intros [H1 H2]. by rewrite H1, H2 in Hh. }
    intros [k|] dd ss Hd Hs; simpl in *.
    + specialize (Hm (k, ss)). simpl in Hm. unfold GetRoute in Hd. rewrite Hd in Hm.
      apply Hm. apply list_elem_of_In. by apply assoc_find_elem.
    + unfold GetDefaultRoute in *. simpl in Hs. by rewrite Hs, Hd in Hdr.
  - intros [Hh Hc]. split_and!.
    + destruct (HasTerminalConfiguration d), (HasTerminalConfiguration (data_ dst)); naive_solver.
    + specialize (Hc Par). simpl in Hc. unfold GetDefaultRoute in Hc.
      destruct dr, (default_route_ dst); eauto.
    + intros [k s] Hin%list_elem_of_In. simpl.
      destruct (assoc_find k (map_ dst)) as [dd|] eqn:Hd; [|done].
      apply (Hc (Lit k)); [done|]. by apply assoc_find_unique.
Qed.

(** Terminal configuration on the same path in both trees. *)
Definition conflict (dst src : layer) (p : list edge) : Prop :=
  exists d s, data_at p dst = Some d /\ data_at p src = Some s /\
    HasTerminalConfiguration d = true /\ HasTerminalConfiguration s = true.

Lemma CanMerge_iff (dst src : layer) :
  layer_wf src -> CanMergeLayer dst src = true <-> forall p, ~ conflict dst src p.
Proof.
  intros Hwf. split.
  - intros Hc p. revert dst src Hwf Hc. induction p as [|e p IH]; intros dst src Hwf Hc.
    + apply CanMerge_step in Hc as [Hn _]; [|done].
      intros (d & s & [= <-] & [= <-] & ? & ?). naive_solver.
    + intros (d & s & Hd & Hs & Hrest). rewrite data_at_cons in Hd, Hs.
      apply bind_Some in Hd as (cd & Hcd & Hd). apply bind_Some in Hs as (cs & Hcs & Hs).
      apply CanMerge_step in Hc as [_ Hc]; [|done].
      apply (IH cd cs); [by eapply layer_wf_child|by eapply Hc|]. by exists d, s.
  - revert dst Hwf. induction src as [sd m dr IHm IHdr] using layer_tree_ind.
    intros dst Hwf Hn. apply CanMerge_step; [done|]. split.
    + intros [? ?]. apply (Hn []). by exists (data_ dst), sd.
    + intros e d s Hd Hs.
      assert (forall p, ~ conflict d s p) as Hn'.
      { intros p (dd & ss & Hdd & Hss & Hr). apply (Hn (e :: p)).
        exists dd, ss. rewrite !data_at_cons, Hd, Hs. done. }
      pose proof (layer_wf_child _ _ _ Hwf Hs) as Hwfs. destruct e as [k|]; simpl in Hs.
      * apply assoc_find_elem in Hs. rewrite Forall_forall in IHm.
        by apply (IHm (k, s) Hs).
      * by apply (IHdr s).
Qed.

(** ** Updating below a path *)

Lemma node_at_update_node p g (l : layer) :
  Forall edge_ok p ->
  node_at p (update_node p g l) = Some (g (default new_layer (node_at p l))).
Proof.
  intros Hp. revert l. induction Hp as [|e p He Hp IH]; intros l; simpl; [done|].
  rewrite child_set_child, decide_True by done. simpl. rewrite IH. do 2 f_equal.
  destruct (child e l) as [c|]; simpl; [done|].
  by destruct p as [|[s|] p].
Qed.

Lemma data_at_update_node_under p g (l : layer) r :
  Forall edge_ok p ->
  data_at (p ++ r) (update_node p g l) =
    data_at r (g (default new_layer (node_at p l))).
Proof.
  intros Hp. unfold data_at at 1. by rewrite node_at_app, node_at_update_node.
Qed.

Lemma data_at_update_node_other p g (l : layer) q :
  Forall edge_ok p -> ~ p `prefix_of` q ->
  data_at q (update_node p g l) =
    if decide (q `prefix_of` p) then Some (default new_data (data_at q l))
    else data_at q l.
Proof.
  intros Hp. revert q l. induction Hp as [|e p He Hp IH]; intros q l Hq.
  { destruct Hq. apply prefix_nil. }
  destruct q as [|e' q]; cbn [update_node].
  { rewrite decide_True by apply prefix_nil. unfold data_at. simpl.
    by rewrite data_set_child. }
  rewrite !data_at_cons, child_set_child by done.
  destruct (decide (e = e')) as [<-|Hne]; simpl.
  - rewrite IH by (intros Hpre; by apply Hq, prefix_cons).
    destruct (decide (q `prefix_of` p)) as [Hpre|Hpre].
    + rewrite decide_True by by apply prefix_cons.
      f_equal. destruct (child e l); simpl; [done|]. rewrite data_at_new. by case_decide.
    + rewrite decide_False by (intros ?%prefix_cons_inv_2; done).
      destruct (child e l); simpl; [done|]. rewrite data_at_new.
      rewrite decide_False; [done|]. intros ->. apply Hpre, prefix_nil.
  - by rewrite decide_False by (intros ?%prefix_cons_inv_1; congruence).
Qed.

Lemma update_node_twice p f g (l : layer) :
  Forall edge_ok p -> update_node p f (update_node p g l) = update_node p (fun x => f (g x)) l.
Proof.
  intros Hp. revert l. induction Hp as [|e p He Hp IH]; intros l; simpl; [done|].
  rewrite child_set_child, decide_True by done. simpl. rewrite IH.
  generalize (update_node p (fun x => f (g x)) (default new_layer (child e l))) as c.
  generalize (update_node p g (default new_layer (child e l))) as c'.
  intros c' c. destruct e as [[|a s]|], l as [d m dr]; simpl; try done.
  f_equal. clear. induction m as [|[k v] m IHm]; simpl.
  - by rewrite str_eqb_refl.
  - destruct (str_eqb_spec k (a :: s)) as [->|Hne]; simpl.
    + by rewrite str_eqb_refl.
    + destruct (str_eqb_spec k (a :: s)); [done|]. by f_equal.
Qed.

(** The two passes, method by method. *)
Lemma mount_check_true prefix dsts srcs ds ss :
  mount_check prefix dsts srcs = (true, ds, ss) -> length dsts = length srcs ->
  ds = get_or_create_mount_layer prefix <$> dsts /\
  ss = PrefixRouteTemplates prefix <$> srcs.
Proof.
  revert srcs ds ss. induction dsts as [|d dsts IH]; intros [|s srcs] ds ss; simpl; try done.
  { by intros [= <- <-]. }
  destruct (CanMergeLayer _ _); [|done].
  destruct (mount_check prefix dsts srcs) as [[ok ds'] ss'] eqn:E.
  intros [= -> <- <-] [= Hl]. destruct (IH _ _ _ E Hl) as [-> ->]. done.
Qed.

Lemma mount_check_ok prefix dsts srcs :
  length dsts = length srcs ->
  (mount_check prefix dsts srcs).1.1 = true <->
  Forall2 (fun d s => CanMergeLayer (mount_root prefix d) (PrefixRouteTemplates prefix s) = true)
    dsts srcs.
Proof.
  revert srcs. induction dsts as [|d dsts IH]; intros [|s srcs] Hl; simpl; try done.
  rewrite Forall2_cons. rewrite <- IH by (simpl in Hl; lia).
  replace (mount_root prefix (get_or_create_mount_layer prefix d))
    with (mount_root prefix d).
  2:{ unfold mount_root, get_or_create_mount_layer.
      by rewrite node_at_update_node by apply target_path_ok. }
  destruct (CanMergeLayer _ _); [|by split; [|intros []]].
  destruct (mount_check prefix dsts srcs) as [[ok ds'] ss']. simpl. naive_solver.
Qed.

(** A table as the constructors and the operations leave it. *)
Definition table_wf (t : table) : Prop :=
  length (entrance_ t) = kHttpRequestMethodNum /\ Forall layer_wf (entrance_ t).

Lemma table_wf_new h : table_wf (new_table h).
Proof. split; [done|]. apply Forall_replicate, layer_wf_new. Qed.

Lemma table_wf_registered m target k t : table_wf t -> table_wf (registered m target k t).2.
Proof.
  intros [Hl HF]. unfold registered. destruct (registration_ok m target); [|done].
  split; cbn [snd GetOrCreateRouteTableLayer with_entrance entrance_].
  - by rewrite length_alter.
  - apply Forall_lookup. intros i l Hi.
    destruct (decide (m = i)) as [<-|Hne].
    + rewrite list_lookup_alter_eq in Hi. apply fmap_Some in Hi as (l' & Hi & ->).
      apply layer_wf_update_path. by eapply Forall_lookup_1.
    + rewrite list_lookup_alter_ne in Hi by done. by eapply Forall_lookup_1.
Qed.

Lemma MountAt_Mounted prefix source t t' m :
  table_wf source -> table_wf t -> MountAt prefix source t = Mounted t' ->
  IsValidParametricTarget prefix = true /\
  entrance_ t' !! m =
    (root ← entrance_ t !! m; src ← entrance_ source !! m;
     Some (update_node (target_path prefix)
       (fun r => MoveMergeLayer r (PrefixRouteTemplates prefix src)) root)).
Proof.
  intros [Hls _] [Hlt _]. unfold MountAt.
  destruct (IsValidParametricTarget prefix); [|done]. simpl.
  destruct (mount_check _ _ _) as [[ok ds] ss] eqn:E. destruct ok; [|done].
  intros [= <-]. split; [done|].
  apply mount_check_true in E as [-> ->]; [|by rewrite Hls, Hlt].
  cbn [with_entrance entrance_]. unfold mount_merge.
  rewrite lookup_zip_with, !list_lookup_fmap.
  destruct (entrance_ t !! m) as [root|]; [|done].
  destruct (entrance_ source !! m) as [src|]; [|done]. simpl. f_equal.
  unfold get_or_create_mount_layer. by rewrite update_node_twice by apply target_path_ok.
Qed.

(** ** Properties of mounting *)

Lemma conflict_prefixed prefix root src q :
  conflict (mount_root prefix root) (PrefixRouteTemplates prefix src) q <->
  exists d s, data_at (target_path prefix ++ q) root = Some d /\ data_at q src = Some s /\
    HasTerminalConfiguration d = true /\ HasTerminalConfiguration s = true.
Proof.
  assert (forall d, HasTerminalConfiguration d = true ->
    data_at q (mount_root prefix root) = Some d <->
    data_at (target_path prefix ++ q) root = Some d) as Hdst.
  { intros d Hd. unfold mount_root, data_at. rewrite node_at_app.
    destruct (node_at (target_path prefix) root); simpl; [done|].
    split; [|done]. change (data_ <$> node_at q new_layer) with (data_at q (@new_layer H A)).
    rewrite data_at_new. case_decide; [|done]. by intros [= <-]. }
  unfold conflict. rewrite data_at_prefix. split.
  - intros (d & s & Hd & (s' & Hs & ->)%fmap_Some & H1 & H2).
    exists d, s'. rewrite HasTerminal_prefix in H2. by rewrite <- Hdst.
  - intros (d & s & Hd & Hs & H1 & H2). exists d, (prefix_template prefix s).
    by rewrite Hdst, Hs, HasTerminal_prefix.
Qed.

(** C7. When a mount is accepted: exactly when the prefix is a valid target
    and, for no method, some path below the mount point carries terminal
    configuration (a handler, terminal aspects or limits) in both tables. *)
Theorem mount_accepted_iff prefix source t :
  table_wf source -> table_wf t ->
  (exists t', MountAt prefix source t = Mounted t') <->
  IsValidParametricTarget prefix = true /\
  forall m root src q d s,
    entrance_ t !! m = Some root -> entrance_ source !! m = Some src ->
    data_at (target_path prefix ++ q) root = Some d -> data_at q src = Some s ->
    HasTerminalConfiguration d && HasTerminalConfiguration s = false.
Proof.
  intros [Hls HFs] [Hlt _]. unfold MountAt.
  destruct (IsValidParametricTarget prefix); simpl; [|by split; [intros [t' ?]|intros []]].
  assert (length (entrance_ t) = length (entrance_ source)) as Hl by congruence.
  pose proof (mount_check_ok prefix _ _ Hl) as Hok.
  destruct (mount_check _ _ _) as [[ok ds] ss]. simpl in Hok.
  transitivity (ok = true).
  { destruct ok; [|by split; [intros [t' ?]|]]. split; [done|]. eauto. }
  rewrite Hok. rewrite Forall2_same_length_lookup. split.
  - intros [_ HF]. split; [done|]. intros m root src q d s Hr Hs Hd Hsd.
    apply not_true_iff_false. intros [H1 H2]%andb_true_iff.
    pose proof (HF _ _ _ Hr Hs) as Hc. rewrite CanMerge_iff in Hc
      by (apply layer_wf_prefix; by eapply Forall_lookup_1).
    apply (Hc q), conflict_prefixed. eauto 10.
  - intros [_ HF]. split; [done|]. intros m root src Hr Hs. apply CanMerge_iff.
    + apply layer_wf_prefix. by eapply Forall_lookup_1.
    + intros q (d & s & Hd & Hsd & H1 & H2)%conflict_prefixed.
      pose proof (HF _ _ _ _ _ _ Hr Hs Hd Hsd) as Hf. by rewrite H1, H2 in Hf.
Qed.

(** C8. What a mount does.  The destination denotes its own data away from
    the mount point; below it, on every path, the merge of its own data with
    the source's, whose templates carry the prefix; and the layers on the way
    to the mount point exist.  Nothing is lost from either table. *)
Theorem mount_denotes prefix source t t' m root src :
  table_wf source -> table_wf t -> MountAt prefix source t = Mounted t' ->
  entrance_ t !! m = Some root -> entrance_ source !! m = Some src ->
  exists root', entrance_ t' !! m = Some root' /\
    (forall q, data_at (target_path prefix ++ q) root' =
       union_with (fun d s => Some (merge_data d s))
         (data_at q (mount_root prefix root))
         (prefix_template prefix <$> data_at q src)) /\
    (forall q, ~ target_path prefix `prefix_of` q ->
       data_at q root' =
         if decide (q `prefix_of` target_path prefix)
         then Some (default new_data (data_at q root)) else data_at q root).
Proof.
  intros Hs Ht HM Hr Hsrc.
  destruct (MountAt_Mounted _ _ _ _ m Hs Ht HM) as [_ He]. rewrite Hr, Hsrc in He.
  eexists. split; [exact He|]. split; intros q.
  - rewrite data_at_update_node_under by apply target_path_ok.
    rewrite data_at_merge, data_at_prefix; [done|].
    apply layer_wf_prefix. destruct Hs as [_ HF]. by eapply Forall_lookup_1.
  - apply data_at_update_node_other, target_path_ok.
Qed.

(** ** Requests through a mount *)

Lemma walk_prefix prefix segs (l : layer) :
  walk_edges segs (PrefixRouteTemplates prefix l) = walk_edges segs l.
Proof.
  revert l. induction segs as [|[|c seg] segs IH]; intros l; [done|apply IH|].
  cbn [walk_edges].
  change (GetRoute (c :: seg) ?x) with (child (Lit (c :: seg)) x).
  change (GetDefaultRoute ?x) with (child Par x).
  rewrite !child_prefix.
  assert (ignore_default_route_ (data_ (PrefixRouteTemplates prefix l)) =
          ignore_default_route_ (data_ l)) as ->.
  { destruct l as [d m dr]. simpl. unfold prefix_template.
    by destruct (HasTerminalConfiguration d). }
  destruct (child (Lit (c :: seg)) l) as [n|]; [cbn; by rewrite IH|]. simpl.
  destruct (ignore_default_route_ (data_ l)); [done|].
  destruct (GetDefaultRoute l) as [n|]; [cbn; by rewrite IH|done].
Qed.

(** Merging into an empty layer keeps the children as they are. *)
Lemma fold_merge_fresh {V} (g : V -> V -> V) (m acc : list (str * V)) :
  NoDup (acc ++ m).*1 ->
  fold_left (fun m kv => match assoc_find kv.1 m with
                         | None => assoc_set kv.1 kv.2 m
                         | Some d => assoc_set kv.1 (g d kv.2) m
                         end) m acc = acc ++ m.
Proof.
  assert (Hset : forall k v (acc : list (str * V)), k ∉ acc.*1 ->
    assoc_find k acc = None /\ assoc_set k v acc = acc ++ [(k, v)]).
  { clear. intros k v. induction acc as [|[a x] acc IH]; [done|]. rewrite fmap_cons.
    intros [Hk Ha]%not_elem_of_cons. simpl in *.
    destruct (str_eqb_spec a k); [congruence|]. destruct (IH Ha) as [-> ->]. done. }
  revert acc. induction m as [|[k v] m IH]; intros acc Hnd; simpl.
  { by rewrite app_nil_r. }
  pose proof Hnd as Hnd'. rewrite fmap_app, fmap_cons in Hnd'.
  apply NoDup_app in Hnd' as (_ & Hdis & _).
  destruct (Hset k v acc) as [-> ->].
  { intros Hk. apply (Hdis _ Hk). by left. }
  rewrite IH; by rewrite <- app_assoc.
Qed.

Lemma merge_fresh (src : layer) :
  layer_wf src ->
  MoveMergeLayer new_layer src =
    mkLayer (merge_data new_data (data_ src)) (map_ src) (default_route_ src).
Proof.
  intros [d m dr Hnd _ _]. cbn [MoveMergeLayer data_ map_ default_route_ new_layer].
  f_equal; [|by destruct dr]. by apply (fold_merge_fresh MoveMergeLayer m []).
Qed.

(** A walk looks at the flag of its first layer and at the children only. *)
Lemma walk_same_children segs d d' m dr :
  ignore_default_route_ d' = ignore_default_route_ d ->
  walk_edges segs (mkLayer d' m dr : layer) = walk_edges segs (mkLayer d m dr).
Proof.
  intros Hi. induction segs as [|[|c seg] segs IH]; [done|apply IH|].
  cbn [walk_edges data_]. by rewrite Hi.
Qed.

Lemma walk_merge_fresh segs (src : layer) :
  layer_wf src -> walk_edges segs (MoveMergeLayer new_layer src) = walk_edges segs src.
Proof.
  intros Hwf. rewrite merge_fresh by done. destruct src as [d m dr].
  apply walk_same_children. simpl. by destruct (ignore_default_route_ d).
Qed.

(** Below a static path, a walk is the walk in the layer that was put there. *)
Lemma walk_update_node words g (l : layer) segs :
  Forall (fun w => w <> []) words ->
  walk_edges (words ++ segs) (update_node (Lit <$> words) g l) =
    app ((fun w => (Lit w, w)) <$> words) <$>
      walk_edges segs (g (default new_layer (node_at (Lit <$> words) l))).
Proof.
  intros HF. revert l. induction HF as [|w words Hw HF IH]; intros l.
  { simpl. by destruct (walk_edges segs (g l)). }
  rewrite !fmap_cons. cbn [update_node app walk_edges].
  destruct w as [|c w]; [done|].
  change (GetRoute (c :: w) ?x) with (child (Lit (c :: w)) x).
  rewrite child_set_child, decide_True by done. rewrite IH.
  cbn [node_at].
  assert (default new_layer (node_at (Lit <$> words) (default new_layer (child (Lit (c :: w)) l)))
    = default new_layer (child (Lit (c :: w)) l ≫= node_at (Lit <$> words))) as ->.
  { destruct (child (Lit (c :: w)) l); [done|]. by destruct words. }
  by destruct (walk_edges segs (g _)).
Qed.

Lemma captured_static words es :
  captured (((fun w => (Lit w, w)) <$> words) ++ es) = captured es.
Proof. induction words as [|w words IH]; [done|]. simpl. by rewrite captured_lit. Qed.

Lemma target_path_static prefix :
  Forall (fun w => IsParameterSegment w = false) (SplitTargetSegments prefix) ->
  target_path prefix = Lit <$> SplitTargetSegments prefix.
Proof.
  intros HF. unfold target_path. apply list_fmap_ext. intros i w Hw.
  unfold edge_of. by rewrite (Forall_lookup_1 _ _ _ _ HF Hw).
Qed.

Lemma merge_fresh_data (d : LayerData H A) h :
  handler_ d = Some h -> merge_data new_data d = d.
Proof.
  intros Hh. unfold merge_data. rewrite Hh. destruct d as [a ta pn hd rt mb re we ig]. simpl in *.
  rewrite Hh. f_equal; [by destruct ta| | | |by destruct ig];
    by destruct (Z.eqb_spec mb 0), (Z.eqb_spec re 0), (Z.eqb_spec we 0).
Qed.

Lemma prefix_terminal prefix (d : LayerData H A) h :
  handler_ d = Some h ->
  prefix_template prefix d = SetRouteTemplate (JoinRouteTemplate prefix (route_template_ d)) d.
Proof. intros Hh. unfold prefix_template, HasTerminalConfiguration. by rewrite Hh. Qed.

(** Mounted routes are served.  Mounting at a static prefix where the
    destination has nothing yet: a request that the source serves is served by
    the destination under the prefix, with the same handler and parameters, the
    template under the prefix, the full path as location and the route's own
    limits, the destination's defaults standing in for those not set. *)
Theorem mounted_route_served parse_segments prefix source t t' m root src url url' segs es d h :
  table_wf source -> table_wf t -> MountAt prefix source t = Mounted t' ->
  Forall (fun w => IsParameterSegment w = false) (SplitTargetSegments prefix) ->
  entrance_ t !! m = Some root -> entrance_ source !! m = Some src ->
  node_at (target_path prefix) root = None ->
  parse_segments url = Some segs ->
  parse_segments url' = Some (SplitTargetSegments prefix ++ segs) ->
  walk_edges segs src = Some es -> data_at es.*1 src = Some d -> handler_ d = Some h ->
  let r := RouteInternal parse_segments m url source in
  let r' := RouteInternal parse_segments m url' t' in
  handler r = Some h /\ handler r' = Some h /\
  parameters r' = parameters r /\
  route_template r' = JoinRouteTemplate prefix (route_template r) /\
  current_location r' = render (SplitTargetSegments prefix ++ es.*2) /\
  max_body_size r' = nonzero_or (max_body_size_ d) (default_max_body_size_ t) /\
  read_expiry r' = nonzero_or (read_expiry_ d) (default_read_expiry_ t) /\
  write_expiry r' = nonzero_or (write_expiry_ d) (default_write_expiry_ t).
Proof.
  intros Hs Ht HM Hst Hr Hsrc Hnone Hp Hp' Hw Hd Hh. cbn zeta.
  pose proof (MountAt_Mounted _ _ _ _ m Hs Ht HM) as [_ He]. rewrite Hr, Hsrc in He.
  assert (layer_wf (PrefixRouteTemplates prefix src)) as Hwf.
  { apply layer_wf_prefix. destruct Hs as [_ HF]. by eapply Forall_lookup_1. }
  pose proof (target_path_static _ Hst) as Htp.
  assert (default_max_body_size_ t' = default_max_body_size_ t /\
          default_read_expiry_ t' = default_read_expiry_ t /\
          default_write_expiry_ t' = default_write_expiry_ t) as (Hdm & Hdr & Hdw).
  { revert HM. unfold MountAt. destruct (negb _); [done|].
    destruct (mount_check _ _ _) as [[[] ?] ?]; [|done]. by intros [= <-]. }
  rewrite !route_result. unfold route_spec. rewrite Hsrc, Hp, Hw, He, Hp'.
  cbn [mbind option_bind]. rewrite Hd. cbn [mbind option_bind]. rewrite Hh, Htp.
  rewrite walk_update_node by (eapply Forall_impl; [apply split_segments_nonempty|]; naive_solver).
  rewrite <- Htp, Hnone. cbn [default]. rewrite walk_merge_fresh, walk_prefix, Hw by done.
  cbn [fmap option_fmap option_map mbind option_bind].
  assert ((((fun w => (Lit w, w)) <$> SplitTargetSegments prefix) ++ es).*1 =
          target_path prefix ++ es.*1) as Hfst.
  { rewrite fmap_app, Htp. f_equal. by rewrite <- list_fmap_compose. }
  rewrite Hfst, data_at_update_node_under by apply target_path_ok.
  rewrite Hnone. cbn [default]. rewrite data_at_merge, data_at_prefix, Hd by done.
  pose proof (prefix_terminal prefix d h Hh) as Hpt.
  cbn [fmap option_fmap option_map].
  replace (union_with _ _ _) with (Some (prefix_template prefix d)).
  2:{ rewrite data_at_new. case_decide; [|done]. cbn. rewrite Hpt.
      by rewrite (merge_fresh_data _ h). }
  cbn [mbind option_bind]. rewrite Hpt. cbn [handler_ SetRouteTemplate]. rewrite Hh.
  cbn [mbind option_bind]. rewrite Hdm, Hdr, Hdw. split_and!; try done.
  - cbn [parameters]. by rewrite captured_static.
  - cbn [current_location]. rewrite fmap_app, <- list_fmap_compose, list_fmap_id.
    destruct (SplitTargetSegments prefix) as [|w words]; [|done].
    rewrite Htp in Hnone. done.
Qed.

(** ** Cloning *)

Section clone_spec.
Context (clone_handler : H -> option H) (clone_aspect : A -> option A).
Abbreviation clone := (CloneLayer clone_handler clone_aspect).
Abbreviation clone_d := (clone_data clone_handler clone_aspect).

(** The child of the copy is the clone of the child. *)
Definition cloned {V W} (f : V -> option W) (o : option V) (o' : option W) : Prop :=
  match o with None => o' = None | Some v => exists w, f v = Some w /\ o' = Some w end.

Lemma clone_pairs {V W} (f : V -> option W) (m : list (str * V)) m' :
  mapM (fun kv => (fun c => (kv.1, c)) <$> f kv.2) m = Some m' ->
  m'.*1 = m.*1 /\ forall k, cloned f (assoc_find k m) (assoc_find k m').
Proof.
  revert m'. induction m as [|[a x] m IH]; intros m' Hm; simpl in Hm.
  { injection Hm as <-. done. }
  apply bind_Some in Hm as (kv & (c & Hc & ->)%fmap_Some & Hm).
  apply bind_Some in Hm as (m1 & Hm1 & [= <-]). destruct (IH _ Hm1) as [Hk Hf].
  rewrite !fmap_cons, Hk. split; [done|]. intros k. simpl. destruct (a =s k); [|apply Hf].
  simpl. eauto.
Qed.

Lemma clone_inv (src l' : layer) :
  clone src = Some l' ->
  clone_d (data_ src) = Some (data_ l') /\
  (map_ l').*1 = (map_ src).*1 /\ forall e, cloned clone (child e src) (child e l').
Proof.
  destruct src as [d m dr]. cbn [CloneLayer data_ map_ default_route_].
  intros (d' & Hd & (dr' & Hdr & (m' & Hm & [= <-])%bind_Some)%bind_Some)%bind_Some.
  destruct (clone_pairs _ _ _ Hm) as [Hk Hf]. split_and!; [done..|].
  intros [k|]; [apply Hf|]. simpl. unfold GetDefaultRoute. simpl.
  destruct dr as [s|]; simpl; [|by injection Hdr as <-].
  apply fmap_Some in Hdr as (c & -> & ->). eauto.
Qed.

(** A clone exists when the layer's own objects and all children have one. *)
Lemma clone_total (src : layer) :
  layer_wf src -> is_Some (clone_d (data_ src)) ->
  (forall e c, child e src = Some c -> is_Some (clone c)) -> is_Some (clone src).
Proof.
  intros [d m dr Hnd _ _] [d' Hd] Hc. cbn [CloneLayer data_ map_ default_route_] in *.
  rewrite Hd. cbn [mbind option_bind].
  assert (exists dr', match dr with None => Some None | Some s => Some <$> clone s end
                      = Some dr') as [dr' ->].
  { destruct dr as [s|]; [|by exists None].
    destruct (Hc Par s eq_refl) as [c ->]. by exists (Some c). }
  cbn [mbind option_bind].
  destruct (mapM _ m) as [m'|] eqn:Hm; [eauto|].
  apply mapM_None, Exists_exists in Hm as ([k s] & Hin & Hf).
  destruct (Hc (Lit k) s) as [c Hcl]; [by apply assoc_find_unique|].
  simpl in Hf. by rewrite Hcl in Hf.
Qed.

Lemma clone_data_at (src l' : layer) p :
  clone src = Some l' -> data_at p l' = data_at p src ≫= clone_d.
Proof.
  revert src l'. induction p as [|e p IH]; intros src l' (Hd & _ & He)%clone_inv.
  { done. }
  rewrite !data_at_cons. specialize (He e). unfold cloned in He.
  destruct (child e src) as [c|]; [|by rewrite He].
  destruct He as (c' & Hc & ->). simpl. by apply IH.
Qed.

Lemma clone_all (src l' : layer) p d :
  clone src = Some l' -> data_at p src = Some d -> is_Some (clone_d d).
Proof.
  revert src l'. induction p as [|e p IH]; intros src l' (Hd & _ & He)%clone_inv Hp.
  { injection Hp as <-. eauto. }
  rewrite data_at_cons in Hp. apply bind_Some in Hp as (c & Hc & Hp).
  specialize (He e). rewrite Hc in He. destruct He as (c' & Hcl & _). eauto.
Qed.

Lemma layer_wf_clone (src l' : layer) : layer_wf src -> clone src = Some l' -> layer_wf l'.
Proof.
  revert l'. induction src as [d m dr IHm IHdr] using layer_tree_ind.
  intros l' Hwf Hl'. pose proof (clone_inv _ _ Hl') as (_ & Hk & He).
  inversion Hwf as [? ? ? Hnd HF Hdr]; subst. destruct l' as [d' m' dr']. simpl in Hk.
  assert (forall k c', assoc_find k m' = Some c' -> k <> [] /\ layer_wf c') as Hm'.
  { intros k c' Hc'. specialize (He (Lit k)). cbn [child] in He. unfold GetRoute in He.
    simpl in He. unfold cloned in He. destruct (assoc_find k m) as [c|] eqn:Hc; [|congruence].
    destruct He as (w & Hw & Heq). apply assoc_find_elem in Hc.
    rewrite Forall_forall in IHm, HF. destruct (HF _ Hc). split; [done|].
    apply (IHm _ Hc); simpl in *; [done|congruence]. }
  constructor; [by rewrite Hk| |].
  - apply Forall_forall. intros [k c'] Hin. apply Hm'.
    apply assoc_find_unique; [by rewrite Hk|done].
  - intros c' ->. specialize (He Par). simpl in He. unfold cloned, GetDefaultRoute in He.
    simpl in He. destruct dr as [c|]; [|done]. destruct He as (w & Hw & [= ->]).
    by apply (IHdr c); [|apply Hdr|].
Qed.

(** Cloning copies the tree or fails.  [CloneLayer] succeeds exactly when
    every handler and aspect of the tree is cloneable; the copy has the layers
    of the original and at each of them the clone of its data, parameter names,
    template, limits and exclusive flag included. *)
Theorem clone_layer_spec (src : layer) :
  layer_wf src ->
  (is_Some (CloneLayer clone_handler clone_aspect src) <->
   forall p d, data_at p src = Some d ->
     is_Some (clone_data clone_handler clone_aspect d)) /\
  forall l', CloneLayer clone_handler clone_aspect src = Some l' ->
    layer_wf l' /\
    forall p, data_at p l' = data_at p src ≫= clone_data clone_handler clone_aspect.
Proof.
  intros Hwf. split; [split|].
  - intros [l' Hl'] p. eauto using clone_all.
  - revert Hwf. induction src as [sd m dr IHm IHdr] using layer_tree_ind. intros Hwf Hall.
    apply clone_total; [done|by apply (Hall [])|]. intros e c Hc.
    assert (forall p d, data_at p c = Some d -> is_Some (clone_d d)) as Hallc.
    { intros p d Hd. apply (Hall (e :: p)). by rewrite data_at_cons, Hc. }
    pose proof (layer_wf_child _ _ _ Hwf Hc) as Hwfc. destruct e as [k|].
    + apply assoc_find_elem in Hc. rewrite Forall_forall in IHm. by apply (IHm (k, c) Hc).
    + by apply (IHdr c).
  - intros l' Hl'. split; [by eapply layer_wf_clone|]. intros p. by apply clone_data_at.
Qed.
End clone_spec.

(** ** Teardown *)

(** The data of all layers of a tree. *)
Fixpoint all_data (l : layer) : list (LayerData H A) :=
  data_ l :: match default_route_ l with Some c => all_data c | None => [] end
  ++ concat (map (fun kv => all_data kv.2) (map_ l)).

Lemma all_data_children (l : layer) :
  all_data l = data_ l :: concat (all_data <$> (option_list (default_route_ l) ++ (map_ l).*2)).
Proof.
  destruct l as [d m dr]. cbn [all_data data_ default_route_ map_]. f_equal.
  rewrite fmap_app, concat_app. f_equal.
  - destruct dr; simpl; [by rewrite app_nil_r|done].
  - by rewrite <- list_fmap_compose.
Qed.

Lemma destroy_loop_all fuel pending freed :
  length (concat (all_data <$> pending)) <= fuel ->
  exists freed', destroy_loop fuel pending freed = ([], freed') /\
    freed' ≡ₚ freed ++ concat (all_data <$> pending).
Proof.
  revert pending freed. induction fuel as [|fuel IH]; intros pending freed Hle.
  - destruct pending as [|l pending]; simpl; [exists freed; by rewrite app_nil_r|].
    destruct l. simpl in Hle. lia.
  - destruct (last pending) as [current|] eqn:Hl; cbn [destroy_loop]; rewrite Hl.
    2:{ apply last_None in Hl as ->. exists freed. by rewrite app_nil_r. }
    apply last_Some in Hl as [init ->]. rewrite removelast_last.
    rewrite fmap_app, concat_app, length_app in Hle. cbn [fmap list_fmap] in Hle.
    simpl in Hle. rewrite app_nil_r, all_data_children in Hle. simpl in Hle.
    destruct (IH (CollectChildLayers current init) (freed ++ [data_ current]))
      as (freed' & -> & Hp).
    { unfold CollectChildLayers. rewrite fmap_app, concat_app, length_app.
      etrans; [|apply le_S_n; rewrite <- Nat.add_succ_r; exact Hle]. done. }
    exists freed'. split; [done|]. rewrite Hp. unfold CollectChildLayers.
    rewrite !fmap_app, !concat_app. cbn [fmap list_fmap]. simpl.
    rewrite app_nil_r, (all_data_children current), !fmap_app, !concat_app.
    set (x := concat _). solve_Permutation.
Qed.

(** C9. Teardown terminates and frees each layer exactly once: with as many
    iterations as the tree has layers the work list is empty, and the layers
    taken from it are, up to order, all layers of the tree. *)
Theorem destroy_frees_each_once (root : layer) fuel :
  length (all_data root) <= fuel ->
  (DestroyLayerTreeIterative fuel root).1 = [] /\
  (DestroyLayerTreeIterative fuel root).2 ≡ₚ all_data root.
Proof.
  intros Hle. unfold DestroyLayerTreeIterative.
  destruct (destroy_loop_all fuel [root] []) as (freed & -> & Hp);
    simpl in *; rewrite app_nil_r in *; done.
Qed.
End mount.

(** ** Witnesses *)

(** Two small tables: [api] serves /users/{id} and /ping, [site] serves /home. *)
Definition api_table : HttpRouteTable nat unit :=
  (AddRouteEntry 0 (lit "/ping") (Some 2)
    (AddRouteEntry 0 (lit "/users/{id}") (Some 1) (new_table 0)).2).2.
Definition site_table : HttpRouteTable nat unit :=
  (AddRouteEntry 0 (lit "/home") (Some 3) (new_table 0)).2.

Lemma api_table_wf : table_wf api_table.
Proof. do 2 apply table_wf_registered. apply table_wf_new. Qed.

Lemma site_table_wf : table_wf site_table.
Proof. apply table_wf_registered, table_wf_new. Qed.

Definition mounted (r : mount_result (H := nat) (A := unit)) : HttpRouteTable nat unit :=
  match r with Mounted t | Refused t _ => t end.

Definition api_root : HttpRouteTableLayer nat unit :=
  default new_layer (entrance_ api_table !! 0).
Definition site_root : HttpRouteTableLayer nat unit :=
  default new_layer (entrance_ site_table !! 0).

Lemma mount_accepted_iff_witness :
  (exists t', MountAt (lit "/api") api_table site_table = Mounted t') /\
  forall q d s, data_at (target_path (lit "/api") ++ q) site_root = Some d ->
    data_at q api_root = Some s ->
    HasTerminalConfiguration d && HasTerminalConfiguration s = false.
Proof.
  assert (exists t', MountAt (lit "/api") api_table site_table = Mounted t') as Hm
    by (eexists; vm_compute; reflexivity).
  split; [exact Hm|]. intros q d s.
  apply (proj2 (proj1 (mount_accepted_iff (lit "/api") api_table site_table
    api_table_wf site_table_wf) Hm) 0 site_root api_root q d s); reflexivity.
Defined.

Lemma mount_denotes_witness :
  exists root',
    entrance_ (mounted (MountAt (lit "/api") api_table site_table)) !! 0 = Some root' /\
    (route_template_ <$> data_at [Lit (lit "api"); Lit (lit "users"); Par] root')
      = Some (lit "/api/users/{id}") /\
    (handler_ <$> data_at [Lit (lit "home")] root') = Some (Some 3).
Proof.
  destruct (mount_denotes (lit "/api") api_table site_table
    (mounted (MountAt (lit "/api") api_table site_table)) 0 site_root api_root
    api_table_wf site_table_wf) as (root' & He & Hin & Hout);
    [vm_compute; reflexivity..|].
  exists root'. split; [exact He|]. split.
  - change [Lit (lit "api"); Lit (lit "users"); Par]
      with (target_path (lit "/api") ++ [Lit (lit "users"); Par]).
    rewrite Hin. vm_compute. reflexivity.
  - rewrite Hout; [vm_compute; reflexivity|]. intros [k Hk]. discriminate Hk.
Defined.

Lemma mounted_route_served_witness :
  let t' := mounted (MountAt (lit "/api") api_table site_table) in
  let r' := RouteInternal plain_segments 0 (lit "/api/users/7") t' in
  handler r' = Some 1 /\ parameters r' !! lit "id" = Some (lit "7") /\
  route_template r' = lit "/api/users/{id}" /\ current_location r' = lit "/api/users/7".
Proof.
  destruct (mounted_route_served plain_segments (lit "/api") api_table site_table
    (mounted (MountAt (lit "/api") api_table site_table)) 0 site_root api_root
    (lit "/users/7") (lit "/api/users/7") [lit "users"; lit "7"]
    [(Lit (lit "users"), lit "users"); (Par, lit "7")]
    (default new_data (data_at [Lit (lit "users"); Par] api_root)) 1
    api_table_wf site_table_wf) as (_ & Hh & Hp & Ht & Hl & _);
    [vm_compute; reflexivity|repeat constructor|vm_compute; reflexivity..|].
  cbn zeta. rewrite Hh, Hp, Ht, Hl. vm_compute. repeat split; reflexivity.
Defined.

Lemma clone_layer_spec_witness :
  exists l', CloneLayer (fun h => Some (h + 10)) Some api_root = Some l' /\
    (handler_ <$> data_at [Lit (lit "users"); Par] l') = Some (Some 11).
Proof.
  assert (layer_wf api_root) as Hwf.
  { eapply (Forall_lookup_1 _ _ 0); [apply api_table_wf|reflexivity]. }
  destruct (CloneLayer (fun h => Some (h + 10)) Some api_root) as [l'|] eqn:Hl;
    [|vm_compute in Hl; discriminate Hl].
  exists l'. split; [reflexivity|].
  destruct (proj2 (clone_layer_spec (fun h => Some (h + 10)) Some api_root Hwf) l' Hl)
    as [_ Hd].
  rewrite Hd. vm_compute. reflexivity.
Defined.

Lemma destroy_frees_each_once_witness :
  (DestroyLayerTreeIterative 4 api_root).1 = [] /\
  length (DestroyLayerTreeIterative 4 api_root).2 = 4.
Proof.
  assert (length (all_data api_root) <= 4) as Hle by (vm_compute; lia).
  destruct (destroy_frees_each_once api_root 4 Hle) as [-> Hp].
  split; [reflexivity|]. rewrite (Permutation_length Hp). vm_compute. reflexivity.
Defined.

(** ** What a refused mount leaves behind *)

(** A refused mount is not without effect.  The first pass creates the
    layers of the mount point before it tests, method by method, and it prefixes
    the source's templates.  Here the mount is refused because of a POST
    conflict; before it, GET /m/go was served by the parametric route /{x}/go,
    and after it the fallback handler answers, since the new static layer "m"
    shadows the parameter; and the source's own template has changed. *)
Theorem refused_mount_changes_tables (H A : Type) (h0 h1 h2 h3 : H) :
  let t := (AddRouteEntry 1 (lit "/m/a") (Some h2)
             (AddRouteEntry 0 (lit "/{x}/go") (Some h1) (new_table (A := A) h0)).2).2 in
  let source := (AddRouteEntry 1 (lit "/a") (Some h3) (new_table (A := A) h0)).2 in
  exists t' source', MountAt (lit "/m") source t = Refused t' source' /\
    handler (RouteInternal plain_segments 0 (lit "/m/go") t) = Some h1 /\
    handler (RouteInternal plain_segments 0 (lit "/m/go") t') = Some h0 /\
    route_template (RouteInternal plain_segments 1 (lit "/a") source) = lit "/a" /\
    route_template (RouteInternal plain_segments 1 (lit "/a") source') = lit "/m/a".
Proof. eexists _, _. split; [vm_compute; reflexivity|]. vm_compute. repeat split. Qed.

(** Mounting under a parameter shifts the names.  The walk captures the
    prefix's parameter too, but the mounted layer keeps the names of its own
    target, so in /{tenant} + /{id} the name [id] is bound to the tenant. *)
Theorem parametric_mount_shifts (H A : Type) (h0 h : H) (tenant user : str) :
  tenant <> [] -> user <> [] ->
  let source := (AddRouteEntry 0 (lit "/{id}") (Some h) (new_table (A := A) h0)).2 in
  exists t', MountAt (lit "/{tenant}") source (new_table h0) = Mounted t' /\
    let r := RouteInternal (fun _ => Some [tenant; user]) 0 [] t' in
    handler r = Some h /\ route_template r = lit "/{tenant}/{id}" /\
    parameters r = {[ lit "id" := tenant ]}.
Proof.
  intros Ht Hu. destruct tenant as [|a x], user as [|b y]; [done..|].
  eexists. split; [vm_compute; reflexivity|]. vm_compute. repeat split.
Qed.

Lemma parametric_mount_shifts_witness :
  let source := (AddRouteEntry 0 (lit "/{id}") (Some 1) (new_table (A := unit) 0)).2 in
  exists t', MountAt (lit "/{tenant}") source (new_table 0) = Mounted t' /\
    let r := RouteInternal (fun _ => Some [lit "acme"; lit "42"]) 0 [] t' in
    parameters r = {[ lit "id" := lit "acme" ]}.
Proof.
  destruct (parametric_mount_shifts nat unit 0 1 (lit "acme") (lit "42"))
    as (t' & Hm & _ & _ & Hp); [discriminate|discriminate|].
  exists t'. split; [exact Hm|exact Hp].
Defined.
