(* ===== verification/RouteEquiv.v ===== *)
(** * Route tables up to what they denote

    The children of a layer are an unordered map; [RouteLayer] keeps them as an
    association list, so two trees can differ in an order that the program cannot
    see.  Here trees and tables are equivalent when the same data stands on every
    path.  Registration, mounting and routing respect that, as [Proper] instances,
    and with them routes can be registered in any order. *)

From S2P Require Import Prelude Text RouteTarget RouteLayer RouteTable RouteMount.

Section equivalence.
Context {H A : Type}.
Abbreviation layer := (HttpRouteTableLayer H A).
Abbreviation table := (HttpRouteTable H A).

#[global] Instance layer_equiv : Equiv layer := fun l l' => forall q, data_at q l = data_at q l'.

#[global] Instance layer_equivalence : Equivalence (≡@{layer}).
Proof. split; [by intros l q|by intros l l' Hl q|intros l1 l2 l3 H1 H2 q; by rewrite H1]. Qed.

#[global] Instance data_at_proper q : Proper ((≡@{layer}) ==> (=)) (data_at q).
Proof. intros l l' Hl. apply Hl. Qed.

#[global] Instance data_proper : Proper ((≡@{layer}) ==> (=)) data_.
Proof. intros l l' Hl. specialize (Hl []). by injection Hl. Qed.

#[global] Instance child_proper e : Proper ((≡@{layer}) ==> (≡)) (child e).
Proof.
  intros l l' Hl. assert (forall q, child e l ≫= data_at q = child e l' ≫= data_at q) as Hq
    by (intros q; rewrite <- !data_at_cons; apply Hl).
  destruct (child e l) as [c|], (child e l') as [c'|]; [|by specialize (Hq [])..|done]. constructor. exact Hq.
Qed.

(** ** Operations on trees *)

#[global] Instance update_target_proper target f : Proper ((≡@{layer}) ==> (≡)) (update_path (target_path target) f).
Proof. intros l l' Hl q. rewrite !data_at_update_path by apply target_path_ok. by rewrite !Hl. Qed.

#[global] Instance PrefixRouteTemplates_proper prefix : Proper ((≡@{layer}) ==> (≡)) (PrefixRouteTemplates prefix).
Proof. intros l l' Hl q. by rewrite !data_at_prefix, Hl. Qed.

(** For trees whose maps have unique keys, as all trees of the program. *)
Lemma MoveMergeLayer_equiv (dst dst' src src' : layer) :
  layer_wf src -> layer_wf src' -> dst ≡ dst' -> src ≡ src' -> MoveMergeLayer dst src ≡ MoveMergeLayer dst' src'.
Proof. intros H1 H2 Hd Hs q. rewrite !data_at_merge by done. by rewrite Hd, Hs. Qed.

(** ** Walks *)

#[global] Instance walk_edges_proper segs : Proper ((≡@{layer}) ==> (=)) (walk_edges segs).
Proof.
  induction segs as [|seg segs IH]; intros l l' Hl; [done|]. cbn [walk_edges]. destruct seg as [|c seg]; [by apply IH|].
  change (GetRoute (c :: seg)) with (@child H A (Lit (c :: seg))). change (@GetDefaultRoute H A) with (@child H A Par).
  destruct (child_proper (Lit (c :: seg)) l l' Hl) as [d d' Hd|]; [by rewrite (IH d d' Hd)|].
  rewrite (data_proper l l' Hl). case_match; [done|]. destruct (child_proper Par l l' Hl) as [d d' Hd|]; [|done].
  by rewrite (IH d d' Hd).
Qed.

#[global] Instance path_data_proper p : Proper ((≡@{layer}) ==> (=)) (path_data p).
Proof.
  intros l l' Hl. unfold path_data. apply list_omap_ext, Forall_Forall2_diag, Forall_true. intros q. apply Hl.
Qed.

(** ** Tables *)

#[global] Instance table_equiv : Equiv table := fun t t' =>
  entrance_ t ≡ entrance_ t' /\ global_specific_aspects_ t = global_specific_aspects_ t' /\
  global_aspects_ t = global_aspects_ t' /\ default_handler_ t = default_handler_ t' /\
  default_max_body_size_ t = default_max_body_size_ t' /\ default_read_expiry_ t = default_read_expiry_ t' /\
  default_write_expiry_ t = default_write_expiry_ t'.

#[global] Instance table_equivalence : Equivalence (≡@{table}).
Proof.
  split.
  - by intros t.
  - intros t t' (? & ? & ? & ? & ? & ? & ?). by split_and!.
  - intros t1 t2 t3 (? & ? & ? & ? & ? & ? & ?) (? & ? & ? & ? & ? & ? & ?). split_and!; by etrans.
Qed.

#[global] Instance with_entrance_proper : Proper ((≡@{table}) ==> (≡) ==> (≡)) with_entrance.
Proof. intros t t' (? & ? & ? & ? & ? & ? & ?) e e' He. by split_and!. Qed.

#[global] Instance entrance_proper : Proper ((≡@{table}) ==> (≡)) entrance_.
Proof. by intros t t' [? _]. Qed.

(** Every request is routed alike. *)
#[global] Instance RouteInternal_proper parse_segments m target :
  Proper ((≡@{table}) ==> (=)) (RouteInternal parse_segments m target).
Proof.
  intros t t' Ht. rewrite !route_result. unfold route_spec, BuildDefaultRouteResultInternal.
  destruct Ht as (He & -> & -> & -> & -> & -> & ->).
  pose proof (proj1 (list_equiv_lookup _ _) He m) as Hm. destruct Hm as [root root' Hroot|]; [|done].
  case_match; [|done]. rewrite Hroot. destruct (walk_edges _ root') as [es|]; [|done]. cbn [mbind option_bind].
  rewrite Hroot. destruct (data_at _ root') as [d|]; [|done]. cbn [mbind option_bind].
  destruct (handler_ d); [|done]. cbn [mbind option_bind]. by rewrite Hroot.
Qed.

#[global] Instance GetOrCreateRouteTableLayer_proper m target k :
  Proper ((≡@{table}) ==> (≡)) (GetOrCreateRouteTableLayer m target k).
Proof.
  intros t t' Ht. unfold GetOrCreateRouteTableLayer. apply with_entrance_proper; [done|].
  apply list_equiv_lookup. intros i. pose proof (proj1 (list_equiv_lookup _ _) (entrance_proper t t' Ht) i) as Hi.
  rewrite !list_lookup_alter. case_decide as Hd; [subst i|done]. destruct Hi as [r r' Hr|]; [|done]. cbn. constructor. by rewrite Hr.
Qed.

(** ** The order of registrations *)

Inductive registration :=
  | RegRoute (m : nat) (target : str) (h : option H)
  | RegExclusive (m : nat) (target : str) (h : option H)
  | RegAspect (m : nat) (target : str) (a : A)
  | RegTerminal (m : nat) (target : str) (a : A)
  | RegWriteExpiry (m : nat) (target : str) (n : Z)
  | RegReadExpiry (m : nat) (target : str) (n : Z)
  | RegMaxBodySize (m : nat) (target : str) (n : Z).

Definition register (t : table) (r : registration) : table :=
  match r with
  | RegRoute m target h => (AddRouteEntry m target h t).2
  | RegExclusive m target h => (AddExclusiveRouteEntry m target h t).2
  | RegAspect m target a => (RouteTable.AddAspect m target a t).2
  | RegTerminal m target a => (RouteTable.AddTerminalAspect m target a t).2
  | RegWriteExpiry m target n => (RouteTable.SetWriteExpiry m target n t).2
  | RegReadExpiry m target n => (RouteTable.SetReadExpiry m target n t).2
  | RegMaxBodySize m target n => (RouteTable.SetMaxBodySize m target n t).2
  end.

(** The tree and the path it is about. *)
Definition place_of (r : registration) : nat * list edge :=
  match r with
  | RegRoute m target _ | RegExclusive m target _ | RegAspect m target _ | RegTerminal m target _
  | RegWriteExpiry m target _ | RegReadExpiry m target _ | RegMaxBodySize m target _ => (m, target_path target)
  end.

Lemma register_cases r :
  exists m target k, place_of r = (m, target_path target) /\ forall t, register t r = (registered m target k t).2.
Proof. destruct r; do 3 eexists; (split; [reflexivity|]); intros t; reflexivity. Qed.

#[global] Instance register_proper r : Proper ((≡@{table}) ==> (≡)) (fun t => register t r).
Proof.
  destruct (register_cases r) as (m & target & k & _ & Hr). intros t t' Ht. rewrite !Hr. unfold registered.
  case_match; cbn [snd]; [by rewrite Ht|done].
Qed.

(** Two updates of different paths of a tree. *)
Lemma update_path_comm p p' f f' (l : layer) :
  Forall edge_ok p -> Forall edge_ok p' -> p <> p' ->
  update_path p f (update_path p' f' l) ≡ update_path p' f' (update_path p f l).
Proof.
  intros Hp Hp' Hne q. rewrite !data_at_update_path by done.
  destruct (decide (q = p)) as [Hq|Hq]; destruct (decide (q = p')) as [Hq'|Hq']; [congruence| | |].
  - subst q. rewrite (decide_False (P := p = p')) by done. by case_decide.
  - subst q. rewrite (decide_False (P := p' = p)) by done. by case_decide.
  - by repeat case_decide.
Qed.

Lemma registered_comm m m' target target' k k' (t : table) :
  (m, target_path target) <> (m', target_path target') ->
  (registered m target k (registered m' target' k' t).2).2 ≡ (registered m' target' k' (registered m target k t).2).2.
Proof.
  intros Hne. unfold registered. destruct (registration_ok m target), (registration_ok m' target'); cbn [snd]; try done.
  unfold GetOrCreateRouteTableLayer. split_and!; try done. cbn [entrance_ with_entrance].
  apply list_equiv_lookup. intros i. rewrite !list_lookup_alter.
  destruct (decide (m = i)) as [Hm|Hm], (decide (m' = i)) as [Hm'|Hm']; [subst m'; subst m| | |done].
  - rewrite !decide_True by done. destruct (entrance_ t !! i) as [root|]; [|done]. cbn. constructor.
    apply update_path_comm; [apply target_path_ok..|congruence].
  - by rewrite decide_False by congruence.
  - by rewrite decide_False by congruence.
Qed.

Lemma register_comm r r' t : place_of r <> place_of r' -> register (register t r) r' ≡ register (register t r') r.
Proof.
  destruct (register_cases r) as (m & target & k & Hp & Hr), (register_cases r') as (m' & target' & k' & Hp' & Hr').
  rewrite Hp, Hp', !Hr, !Hr'. intros Hne. apply registered_comm. congruence.
Qed.

#[global] Instance register_all_proper rs : Proper ((≡@{table}) ==> (≡)) (fun t => foldl register t rs).
Proof. induction rs as [|r rs IH]; intros t t' Ht; [done|]. cbn. apply IH. by apply register_proper. Qed.

Lemma register_order rs rs' t :
  rs ≡ₚ rs' -> NoDup (place_of <$> rs) -> foldl register t rs ≡ foldl register t rs'.
Proof.
  intros Hp. revert t. induction Hp as [|r rs rs' Hp IH|r r' rs|rs1 rs2 rs3 Hp1 IH1 Hp2 IH2]; intros t Hnd; [done| | |].
  - cbn. apply IH. by inversion Hnd.
  - cbn. apply register_all_proper, register_comm. apply NoDup_cons in Hnd as [Hr _]. cbn in Hr.
    intros Heq. apply Hr. rewrite Heq. apply list_elem_of_here.
  - etrans; [by apply IH1|]. apply IH2. by rewrite <- Hp1.
Qed.

(** C10. Routes may be registered in any order.  Registrations of handlers,
    exclusive handlers, aspects and limits at different places (trees of methods, or
    paths; [/a/{x}] and [/a/{y}] are the same) give, in whatever order they are
    made, tables that route every request alike, with the same handler, aspects in
    the same order, parameters, template and limits; on any table to begin with, and
    also when some of them are refused. *)
Theorem route_order_irrelevant (rs rs' : list registration) (t : table) :
  rs ≡ₚ rs' -> NoDup (place_of <$> rs) ->
  forall parse_segments m target,
    RouteInternal parse_segments m target (foldl register t rs) =
    RouteInternal parse_segments m target (foldl register t rs').
Proof. intros Hp Hnd parse_segments m target. by rewrite (register_order rs rs' t Hp Hnd). Qed.
End equivalence.

(** ** A sample: static, parametric and exclusive routes with limits *)

Definition sample_routes : list (registration (H := nat) (A := nat)) :=
  [RegRoute 0 (lit "/users/me") (Some 1); RegRoute 0 (lit "/users/{id}") (Some 2); RegAspect 0 (lit "/users") 7;
   RegExclusive 1 (lit "/files") (Some 3); RegMaxBodySize 1 (lit "/users/{id}") 100; RegRoute 0 (lit "no slash") (Some 4)].

Lemma route_order_irrelevant_witness :
  handler (RouteInternal plain_segments 0 (lit "/users/42") (foldl register (new_table 0) (reverse sample_routes))) = Some 2 /\
  aspects (RouteInternal plain_segments 0 (lit "/users/42") (foldl register (new_table 0) (reverse sample_routes))) = [7].
Proof.
  rewrite <- (route_order_irrelevant sample_routes (reverse sample_routes) (new_table 0)).
  - split; vm_compute; reflexivity.
  - symmetry. apply reverse_Permutation.
  - apply (bool_decide_unpack _). vm_compute. exact I.
Defined.
