(* ===== verification/MessageQueue.v ===== *)
(** * MessageQueue: streamed responses of one connection

    Source: stream_server_connection_message_queue.h (the nested class
    [StreamServerConnectionImpl<S>::MessageQueue]) and the parts of the
    connection it uses: [DoClose], [IsStreamAvailable], [IsServerRunning],
    [ArmTimeout] and [CancelTimeout].

    All handlers run on the connection's executor, one after the other (as with
    SO_REUSEPORT, where one thread runs it): the order of the handlers is the
    sequence of steps below.  The asynchronous
    write that is under way is the field [outstanding]; what has been handed to
    the stream, in order, is [wire]; [history] is the list of all messages
    enqueued.  The last two are observations, no handler reads them.  The
    handlers hold a [shared_ptr] to the connection, so [conn_wp_.lock()]
    succeeds in them; it can only fail in [AddBody] and [AddHeader]. *)

From S2P Require Import Prelude.

Section queue.
(** Response headers. *)
Context {Hd : Type}.

Inductive message :=
  | BodyMessage (msg : str) (write_expiry : Z)
  | HeaderMessage (header : Hd) (write_expiry : Z).

(** What one asynchronous write hands to the stream. *)
Inductive chunk := BodyChunk (merged : str) | HeaderChunk (header : Hd).

(** The state a completion handler captures. *)
Inductive write_op := WriteBody (batch_count : nat) | WriteHeader.

Record MessageQueue := mkQueue {
  queue_ : list message;
  is_writing_ : bool;
  queue_size_ : Z;
  connection_dead_ : bool;
  (** the connection *)
  server_running : bool;
  closed_ : bool;
  timer_ : option Z;
  (** the stream, and observations *)
  outstanding : option write_op;
  wire : list chunk;
  history : list message;
}.

Definition new_queue : MessageQueue :=
  mkQueue [] false 0 false true false None None [] [].

(** ** The connection's side *)

Definition available (q : MessageQueue) : bool := server_running q && negb (closed_ q).

Definition ArmTimeout (timeout : Z) (q : MessageQueue) : MessageQueue :=
  if (timeout =? 0)%Z then q
  else mkQueue (queue_ q) (is_writing_ q) (queue_size_ q) (connection_dead_ q)
         (server_running q) (closed_ q) (Some timeout) (outstanding q) (wire q) (history q).

Definition CancelTimeout (q : MessageQueue) : MessageQueue :=
  mkQueue (queue_ q) (is_writing_ q) (queue_size_ q) (connection_dead_ q)
    (server_running q) (closed_ q) None (outstanding q) (wire q) (history q).

Definition DoClose (q : MessageQueue) : MessageQueue :=
  mkQueue (queue_ q) (is_writing_ q) (queue_size_ q) (connection_dead_ q)
    (server_running q) true (timer_ q) (outstanding q) (wire q) (history q).

(** [boost::asio::async_write] or [async_write_header]: the operation starts. *)
Definition async_write (c : chunk) (op : write_op) (q : MessageQueue) : MessageQueue :=
  mkQueue (queue_ q) (is_writing_ q) (queue_size_ q) (connection_dead_ q)
    (server_running q) (closed_ q) (timer_ q) (Some op) (wire q ++ [c]) (history q).

(** ** The handlers *)

Definition set_writing (b : bool) (q : MessageQueue) : MessageQueue :=
  mkQueue (queue_ q) b (queue_size_ q) (connection_dead_ q)
    (server_running q) (closed_ q) (timer_ q) (outstanding q) (wire q) (history q).

Definition MarkConnectionDeadAndNotify (q : MessageQueue) : MessageQueue :=
  mkQueue (queue_ q) (is_writing_ q) (queue_size_ q) true
    (server_running q) (closed_ q) (timer_ q) (outstanding q) (wire q) (history q).

Definition HandleConnectionUnavailable (q : MessageQueue) : MessageQueue :=
  set_writing false (MarkConnectionDeadAndNotify q).

Definition HandleWriteError (q : MessageQueue) : MessageQueue :=
  set_writing false (MarkConnectionDeadAndNotify (DoClose q)).

(** The first loop of [StartWriteBody]: the number of leading bodies, and the
    largest expiry among [write_expiry] and theirs. *)
Fixpoint batch (items : list message) (write_expiry : Z) : nat * Z :=
  match items with
  | BodyMessage _ e :: items' =>
      let '(n, w) := batch items' (if (write_expiry <? e)%Z then e else write_expiry) in
      (S n, w)
  | _ => (0, write_expiry)
  end.

(** The second loop: the first [n] bodies, appended. *)
Fixpoint merge_bodies (n : nat) (items : list message) : str :=
  match n, items with
  | S n', BodyMessage m _ :: items' => m ++ merge_bodies n' items'
  | _, _ => []
  end.

Definition StartWriteBody (write_expiry : Z) (q : MessageQueue) : MessageQueue :=
  if negb (available q) then HandleConnectionUnavailable q
  else
    let '(batch_count, expiry) := batch (queue_ q) write_expiry in
    if batch_count =? 0 then HandleConnectionUnavailable q
    else
      async_write (BodyChunk (merge_bodies batch_count (queue_ q))) (WriteBody batch_count)
        (ArmTimeout expiry q).

Definition StartWriteHeader (header : Hd) (write_expiry : Z) (q : MessageQueue) :
    MessageQueue :=
  if negb (available q) then HandleConnectionUnavailable q
  else async_write (HeaderChunk header) WriteHeader (ArmTimeout write_expiry q).

Definition StartWriteIfNeeded (q : MessageQueue) : MessageQueue :=
  if is_writing_ q then q
  else
    match queue_ q with
    | [] => q
    | BodyMessage _ e :: _ => StartWriteBody e (set_writing true q)
    | HeaderMessage h e :: _ => StartWriteHeader h e (set_writing true q)
    end.

(** [EnqueueBodyOnStrand] and [EnqueueHeaderOnStrand], which differ in the
    alternative of the variant only. *)
Definition EnqueueOnStrand (m : message) (q : MessageQueue) : MessageQueue :=
  StartWriteIfNeeded
    (mkQueue (queue_ q ++ [m]) (is_writing_ q) (to_size_t (queue_size_ q + 1))
       (connection_dead_ q) (server_running q) (closed_ q) (timer_ q) (outstanding q)
       (wire q) (history q ++ [m])).

Definition PopFrontNAndNotifyIfEmpty (count : nat) (q : MessageQueue) : MessageQueue :=
  if count =? 0 then q
  else
    let actual := min count (length (queue_ q)) in
    mkQueue (drop actual (queue_ q)) (is_writing_ q)
      (to_size_t (queue_size_ q - Z.of_nat actual)) (connection_dead_ q)
      (server_running q) (closed_ q) (timer_ q) (outstanding q) (wire q) (history q).

Definition PopFrontAndNotifyIfEmpty (q : MessageQueue) : MessageQueue :=
  mkQueue (tail (queue_ q)) (is_writing_ q) (to_size_t (queue_size_ q - 1))
    (connection_dead_ q) (server_running q) (closed_ q) (timer_ q) (outstanding q)
    (wire q) (history q).

(** The stream's part of a completion: no operation is under way. *)
Definition finished (q : MessageQueue) : MessageQueue :=
  mkQueue (queue_ q) (is_writing_ q) (queue_size_ q) (connection_dead_ q)
    (server_running q) (closed_ q) (timer_ q) None (wire q) (history q).

Definition after_write (q : MessageQueue) : MessageQueue :=
  let q := set_writing false q in
  match queue_ q with [] => q | _ => StartWriteIfNeeded q end.

Definition HandleBodyWriteComplete (ec : bool) (batch_count : nat) (q : MessageQueue) :
    MessageQueue :=
  let q := CancelTimeout q in
  if ec then HandleWriteError q
  else after_write (PopFrontNAndNotifyIfEmpty batch_count q).

Definition HandleHeaderWriteComplete (ec : bool) (q : MessageQueue) : MessageQueue :=
  let q := CancelTimeout q in
  if ec then HandleWriteError q
  else after_write (PopFrontAndNotifyIfEmpty q).

Definition complete (ec : bool) (op : write_op) (q : MessageQueue) : MessageQueue :=
  match op with
  | WriteBody n => HandleBodyWriteComplete ec n (finished q)
  | WriteHeader => HandleHeaderWriteComplete ec (finished q)
  end.

(** The predicate [Wait] waits for. *)
Definition Wait_ready (q : MessageQueue) : bool :=
  connection_dead_ q || (queue_size_ q =? 0)%Z.

(** ** The steps *)

Definition set_running (b : bool) (q : MessageQueue) : MessageQueue :=
  mkQueue (queue_ q) (is_writing_ q) (queue_size_ q) (connection_dead_ q)
    b (closed_ q) (timer_ q) (outstanding q) (wire q) (history q).

Inductive step : MessageQueue -> MessageQueue -> Prop :=
  (** [AddBody] or [AddHeader], once dispatched *)
  | step_enqueue m q : step q (EnqueueOnStrand m q)
  (** [AddBody] or [AddHeader] after the connection is gone *)
  | step_expired q : step q (MarkConnectionDeadAndNotify q)
  (** the outstanding write completes, with or without an error *)
  | step_complete ec op q : outstanding q = Some op -> step q (complete ec op q)
  (** somebody else closes the connection: a timeout, a read error, the task *)
  | step_close q : step q (DoClose q)
  (** the server stops or starts *)
  | step_server b q : step q (set_running b q).

Definition reachable : MessageQueue -> Prop := rtc step new_queue.

(** ** What a list of messages sends *)

Definition tokens_of (m : message) : list (ascii + Hd) :=
  match m with BodyMessage s _ => inl <$> s | HeaderMessage h _ => [inr h] end.
Definition tokens (ms : list message) : list (ascii + Hd) := concat (tokens_of <$> ms).

Definition chunk_tokens (c : chunk) : list (ascii + Hd) :=
  match c with BodyChunk s => inl <$> s | HeaderChunk h => [inr h] end.
Definition sent (cs : list chunk) : list (ascii + Hd) := concat (chunk_tokens <$> cs).

Lemma tokens_app a b : tokens (a ++ b) = tokens a ++ tokens b.
Proof. unfold tokens. by rewrite fmap_app, concat_app. Qed.

Lemma sent_snoc cs c : sent (cs ++ [c]) = sent cs ++ chunk_tokens c.
Proof. unfold sent. rewrite fmap_app, concat_app. simpl. by rewrite app_nil_r. Qed.

Definition expiry_of (m : message) : Z :=
  match m with BodyMessage _ e | HeaderMessage _ e => e end.

Lemma batch_spec items w n e :
  batch items w = (n, e) ->
  n <= length items /\
  (inl <$> merge_bodies n items) = tokens (take n items) /\
  e = foldr Z.max w (expiry_of <$> take n items).
Proof.
  revert w n e. induction items as [|[m x|h x] items IH]; intros w n e; simpl.
  - intros [= <- <-]. split_and!; [lia|done..].
  - destruct (batch items _) as [n' w'] eqn:E. intros [= <- <-].
    destruct (IH _ _ _ E) as (Hn & Ht & ->). split_and!; [lia| |].
    + simpl. rewrite fmap_app, Ht. done.
    + cbn [take]. rewrite fmap_cons. cbn [foldr expiry_of]. clear.
      induction (expiry_of <$> take n' items) as [|y ys IHy]; simpl.
      * destruct (Z.ltb_spec w x); lia.
      * rewrite IHy. lia.
  - intros [= <- <-]. split_and!; [lia|done..].
Qed.

Definition op_count (op : write_op) : nat :=
  match op with WriteBody n => n | WriteHeader => 1 end.

(** ** The invariant *)

(** [done] are the messages popped; [n] messages of the queue are with the
    stream: those of the write under way, or those of a write that failed. *)
Record accounted (q : MessageQueue) (done : list message) (n : nat) : Prop := {
  acc_history : history q = done ++ queue_ q;
  acc_size : queue_size_ q = to_size_t (Z.of_nat (length (queue_ q)));
  acc_le : n <= length (queue_ q);
  acc_sent : sent (wire q) = tokens (done ++ take n (queue_ q));
}.

Record queue_inv (q : MessageQueue) : Prop := {
  inv_acc : exists done n, accounted q done n /\
    match outstanding q with
    | Some op => n = op_count op /\ 0 < n
    | None => n = 0 \/ closed_ q = true
    end;
  inv_single : is_writing_ q = bool_decide (is_Some (outstanding q));
  inv_wakeup : outstanding q = None -> queue_ q <> [] -> connection_dead_ q = true;
}.

(** Before a write is started nothing is with the stream. *)
Definition idle (q : MessageQueue) : Prop :=
  outstanding q = None /\ is_writing_ q = false /\
  exists done n, accounted q done n /\ (n = 0 \/ closed_ q = true).

Lemma accounted_ext q q' done n :
  history q' = history q -> queue_ q' = queue_ q -> queue_size_ q' = queue_size_ q ->
  wire q' = wire q -> accounted q done n -> accounted q' done n.
Proof.
  intros H1 H2 H3 H4 [A B C D].
  split; [by rewrite H1, H2|by rewrite H3, H2|by rewrite H2|by rewrite H4, H2].
Qed.

Lemma accounted_write q done n c op :
  accounted q done 0 -> n <= length (queue_ q) ->
  chunk_tokens c = tokens (take n (queue_ q)) -> accounted (async_write c op q) done n.
Proof.
  intros [A B C D] Hn Hc. split; [done..|]. simpl.
  rewrite sent_snoc, D, Hc, take_0, app_nil_r. by rewrite tokens_app.
Qed.

Lemma unavailable_inv q :
  idle q -> queue_inv (HandleConnectionUnavailable (set_writing true q)).
Proof.
  intros (Ho & Hw & done & n & Hacc & Hn). split; simpl.
  - exists done, n. rewrite Ho. split; [|done]. by eapply accounted_ext; [..|exact Hacc].
  - by rewrite Ho.
  - done.
Qed.

Lemma write_inv q done n c op e :
  idle q -> accounted q done 0 -> 0 < n -> n <= length (queue_ q) -> op_count op = n ->
  chunk_tokens c = tokens (take n (queue_ q)) ->
  queue_inv (async_write c op (ArmTimeout e (set_writing true q))).
Proof.
  intros (Ho & Hw & _) Hacc Hpos Hn Hop Hc.
  assert (queue_ (ArmTimeout e (set_writing true q)) = queue_ q) as Hq
    by (unfold ArmTimeout; by destruct (e =? 0)%Z).
  split; [|unfold ArmTimeout; by destruct (e =? 0)%Z|done].
  exists done, n. cbn [outstanding async_write]. split; [|done].
  apply accounted_write; [|by rewrite Hq..].
  unfold ArmTimeout. destruct (e =? 0)%Z;
    (eapply accounted_ext; [..|exact Hacc]; done).
Qed.

Lemma StartWriteIfNeeded_inv q : idle q -> queue_inv (StartWriteIfNeeded q).
Proof.
  intros Hidle. pose proof Hidle as (Ho & Hw & done & n & Hacc & Hn).
  unfold StartWriteIfNeeded. rewrite Hw.
  destruct (queue_ q) as [|m items] eqn:Hq.
  { split; [|by rewrite Ho|by rewrite Hq]. exists done, n. by rewrite Ho. }
  assert (available q = true -> accounted q done 0) as Hacc0.
  { unfold available. intros [_ Hc]%andb_true_iff. destruct Hn as [->|Hcl]; [done|].
    by rewrite Hcl in Hc. }
  destruct m as [s e|h e]; unfold StartWriteBody, StartWriteHeader;
    change (available (set_writing true q)) with (available q);
    (destruct (available q) eqn:Hav; [|by apply unavailable_inv]); cbn [negb].
  - change (queue_ (set_writing true q)) with (queue_ q). rewrite Hq.
    destruct (batch (BodyMessage s e :: items) e) as [k w] eqn:Hb.
    pose proof (batch_spec _ _ _ _ Hb) as (Hk & Ht & _).
    assert (k <> 0) as Hk0.
    { simpl in Hb. destruct (batch items _). by injection Hb as <- _. }
    destruct (Nat.eqb_spec k 0) as [|_]; [done|].
    apply (write_inv _ done k); rewrite ?Hq; auto; lia.
  - apply (write_inv _ done 1); rewrite ?Hq; simpl; auto; lia.
Qed.

Lemma accounted_pop q q' done n :
  accounted q done n -> queue_ q' = drop n (queue_ q) -> history q' = history q ->
  wire q' = wire q -> queue_size_ q' = to_size_t (queue_size_ q - Z.of_nat n) ->
  accounted q' (done ++ take n (queue_ q)) 0.
Proof.
  intros [A B C D] Hq Hh Hw Hs. split.
  - by rewrite Hh, A, Hq, <- app_assoc, take_drop.
  - rewrite Hs, B, Hq, length_drop. unfold to_size_t.
    rewrite Zminus_mod_idemp_l. f_equal. lia.
  - lia.
  - by rewrite Hw, D, take_0, app_nil_r.
Qed.

(** The write's messages leave the queue and the next write starts. *)
Lemma after_write_inv q done n q' :
  accounted q done n -> queue_ q' = drop n (queue_ q) -> history q' = history q ->
  wire q' = wire q -> queue_size_ q' = to_size_t (queue_size_ q - Z.of_nat n) ->
  outstanding q' = None -> queue_inv (after_write q').
Proof.
  intros Hacc Hq Hh Hw Hs Ho.
  pose proof (accounted_pop _ _ _ _ Hacc Hq Hh Hw Hs) as Hacc'.
  assert (idle (set_writing false q')) as Hidle.
  { split_and!; [done..|]. exists (done ++ take n (queue_ q)), 0. split; [|by left].
    by eapply accounted_ext; [..|exact Hacc']. }
  apply StartWriteIfNeeded_inv in Hidle. unfold after_write.
  destruct (queue_ (set_writing false q')) eqn:Hqq; [|done].
  unfold StartWriteIfNeeded in Hidle. by rewrite Hqq in Hidle.
Qed.

Lemma complete_inv ec op q :
  queue_inv q -> outstanding q = Some op -> queue_inv (complete ec op q).
Proof.
  intros [(done & n & Hacc & Hn) _ _] Ho. rewrite Ho in Hn. destruct Hn as [Hn Hpos].
  destruct ec.
  - assert (complete true op q = HandleWriteError (CancelTimeout (finished q))) as ->
      by by destruct op.
    split; [|done|done]. exists done, n. split; [|by right].
    by eapply accounted_ext; [..|exact Hacc].
  - pose proof (acc_le _ _ _ Hacc) as Hle. destruct op as [k|]; simpl in Hn; subst n.
    + cbn [complete]. unfold HandleBodyWriteComplete, PopFrontNAndNotifyIfEmpty.
      cbn [CancelTimeout finished queue_]. rewrite Nat.min_l by done.
      destruct (Nat.eqb_spec k 0); [lia|]. by eapply after_write_inv; [exact Hacc|..].
    + cbn [complete]. unfold HandleHeaderWriteComplete, PopFrontAndNotifyIfEmpty.
      eapply after_write_inv; [exact Hacc|..]; done.
Qed.

Lemma enqueue_inv m q : queue_inv q -> queue_inv (EnqueueOnStrand m q).
Proof.
  intros [(done & n & Hacc & Hn) Hs Hwk]. unfold EnqueueOnStrand.
  set (q1 := mkQueue _ _ _ _ _ _ _ _ _ _).
  assert (accounted q1 done n) as Hacc1.
  { destruct Hacc as [A B C D]. split; simpl.
    - by rewrite A, app_assoc.
    - rewrite B, length_app. unfold to_size_t. rewrite Zplus_mod_idemp_l. f_equal. simpl. lia.
    - rewrite length_app. lia.
    - by rewrite D, take_app_le by done. }
  destruct (outstanding q) as [op|] eqn:Ho.
  - unfold StartWriteIfNeeded. assert (is_writing_ q1 = true) as -> by exact Hs.
    split; simpl; rewrite ?Ho; [|done..]. by exists done, n.
  - apply StartWriteIfNeeded_inv. split_and!; [done..|]. by exists done, n.
Qed.

Lemma step_inv q q' : queue_inv q -> step q q' -> queue_inv q'.
Proof.
  intros Hi Hst. destruct Hst as [m q|q|ec op q Ho|q|b q].
  - by apply enqueue_inv.
  - destruct Hi as [(done & n & Hacc & Hn) Hs Hwk]. split; [|done|done].
    exists done, n. split; [|done]. by eapply accounted_ext; [..|exact Hacc].
  - by apply complete_inv.
  - destruct Hi as [(done & n & Hacc & Hn) Hs Hwk]. split; [|done|done].
    exists done, n. split; [by eapply accounted_ext; [..|exact Hacc]|]. simpl.
    destruct (outstanding q); [done|by right].
  - destruct Hi as [(done & n & Hacc & Hn) Hs Hwk]. split; [|done|done].
    exists done, n. split; [|done]. by eapply accounted_ext; [..|exact Hacc].
Qed.

Lemma reachable_inv q : reachable q -> queue_inv q.
Proof.
  intros Hr. eapply rtc_invariant; [apply step_inv|exact Hr|].
  split; [|done|done]. exists [], 0. split; [|by left]. by split.
Qed.

(** ** Properties *)

(** C11. The stream gets the messages in order.  In every reachable state what
    has been handed to the stream, batching included, is exactly the content of
    the first so many messages ever enqueued: nothing is lost, sent twice or
    reordered, also when the server stops, the connection is closed or a write
    fails, after which nothing more is sent. *)
Theorem stream_in_order (q : MessageQueue) :
  reachable q ->
  exists n, n <= length (history q) /\ sent (wire q) = tokens (take n (history q)).
Proof.
  intros [(done & n & [A B C D] & _) _ _]%reachable_inv.
  exists (length done + n). rewrite A, take_app_add. split; [|done].
  rewrite length_app. lia.
Qed.

(** C12. One write at a time, and no message is forgotten.  [is_writing_] is
    true exactly while one write is under way, the counter [Wait] looks at is
    the length of the queue (modulo the width of [size_t]), and a message stays
    in the queue without a write under way only after the connection was
    reported dead, so [Wait] returns. *)
Theorem single_write_no_lost_wakeup (q : MessageQueue) :
  reachable q ->
  is_writing_ q = bool_decide (is_Some (outstanding q)) /\
  queue_size_ q = to_size_t (Z.of_nat (length (queue_ q))) /\
  (outstanding q = None -> Wait_ready q = true).
Proof.
  intros [(done & n & [A B C D] & _) Hs Hwk]%reachable_inv. split_and!; [done..|].
  intros Ho. unfold Wait_ready. destruct (queue_ q) as [|m ms] eqn:Hq.
  - by rewrite B, orb_true_r.
  - by rewrite Hwk.
Qed.

(** Let the writes complete without error, one after the other. *)
Fixpoint drain (fuel : nat) (q : MessageQueue) : MessageQueue :=
  match fuel, outstanding q with
  | S fuel, Some op => drain fuel (complete false op q)
  | _, _ => q
  end.

Definition alive (q : MessageQueue) : Prop :=
  available q = true /\ connection_dead_ q = false.

Lemma ArmTimeout_frame e q :
  queue_ (ArmTimeout e q) = queue_ q /\ history (ArmTimeout e q) = history q /\
  available (ArmTimeout e q) = available q /\
  connection_dead_ (ArmTimeout e q) = connection_dead_ q.
Proof. unfold ArmTimeout. by destruct (e =? 0)%Z. Qed.

Lemma StartWrite_alive q :
  alive q -> alive (StartWriteIfNeeded q) /\
  queue_ (StartWriteIfNeeded q) = queue_ q /\ history (StartWriteIfNeeded q) = history q.
Proof.
  intros [Hav Hdead]. unfold StartWriteIfNeeded. destruct (is_writing_ q); [done|].
  destruct (queue_ q) as [|[s e|h e] items] eqn:Hq; [done|..];
    unfold StartWriteBody, StartWriteHeader, alive;
    change (available (set_writing true q)) with (available q); rewrite Hav; cbn [negb].
  - change (queue_ (set_writing true q)) with (queue_ q). rewrite Hq.
    destruct (batch (BodyMessage s e :: items) e) as [k w] eqn:Hb.
    destruct (Nat.eqb_spec k 0) as [->|_].
    { simpl in Hb. destruct (batch items _). done. }
    destruct (ArmTimeout_frame w (set_writing true q)) as (H1 & H2 & H3 & H4).
    unfold available in *. cbn. by rewrite H1, H2, H3, H4.
  - destruct (ArmTimeout_frame e (set_writing true q)) as (H1 & H2 & H3 & H4).
    unfold available in *. cbn. by rewrite H1, H2, H3, H4.
Qed.

Lemma after_write_alive q :
  alive q -> alive (after_write q) /\
  queue_ (after_write q) = queue_ q /\ history (after_write q) = history q.
Proof.
  intros Hal. unfold after_write. destruct (queue_ (set_writing false q)) eqn:Hq; [done|].
  by apply (StartWrite_alive (set_writing false q)).
Qed.

Lemma complete_alive op q :
  queue_inv q -> outstanding q = Some op -> alive q ->
  let q' := complete false op q in
  alive q' /\ history q' = history q /\ length (queue_ q') < length (queue_ q).
Proof.
  intros [(done & n & Hacc & Hn) _ _] Ho Hal. rewrite Ho in Hn. destruct Hn as [Hn Hpos].
  pose proof (acc_le _ _ _ Hacc) as Hle. cbn zeta.
  destruct op as [k|]; simpl in Hn; subst n; cbn [complete].
  - unfold HandleBodyWriteComplete, PopFrontNAndNotifyIfEmpty.
    destruct (Nat.eqb_spec k 0); [lia|].
    cbn [CancelTimeout finished queue_]. rewrite Nat.min_l by done.
    match goal with |- context [after_write ?x] =>
      destruct (after_write_alive x Hal) as (H1 & -> & ->) end.
    split_and!; [done..|]. simpl. rewrite length_drop. lia.
  - unfold HandleHeaderWriteComplete, PopFrontAndNotifyIfEmpty.
    match goal with |- context [after_write ?x] =>
      destruct (after_write_alive x Hal) as (H1 & -> & ->) end.
    split_and!; [done..|]. simpl. destruct (queue_ q); simpl in *; lia.
Qed.

Lemma queue_drain_spec fuel q :
  queue_inv q -> alive q -> length (queue_ q) <= fuel ->
  queue_inv (drain fuel q) /\ queue_ (drain fuel q) = [] /\ history (drain fuel q) = history q.
Proof.
  revert q. induction fuel as [|fuel IH]; intros q Hi Hal Hle.
  { destruct (queue_ q) eqn:Hq; simpl in Hle; [done|lia]. }
  cbn [drain]. destruct (outstanding q) as [op|] eqn:Ho.
  - destruct (complete_alive op q Hi Ho Hal) as (Hal' & Hh & Hlt).
    rewrite <- Hh. apply IH; [by apply complete_inv|done|lia].
  - split_and!; [done| |done]. destruct (queue_ q) eqn:Hq; [done|].
    destruct Hi as [_ _ Hwk]. destruct Hal as [_ Hdead]. rewrite Hwk in Hdead; by rewrite ?Hq.
Qed.

(** A live queue drains.  While the connection is available and not
    reported dead, as many successful completions as there are messages waiting
    empty the queue: everything ever enqueued has been sent, in order, and
    [Wait] returns. *)
Theorem live_queue_drains (q : MessageQueue) :
  reachable q -> available q = true -> connection_dead_ q = false ->
  let q' := drain (length (queue_ q)) q in
  queue_ q' = [] /\ outstanding q' = None /\ Wait_ready q' = true /\
  sent (wire q') = tokens (history q).
Proof.
  intros Hr%reachable_inv Hav Hdead.
  destruct (queue_drain_spec (length (queue_ q)) q) as (Hi & Hq & Hh); [done|done|lia|].
  cbn zeta. destruct Hi as [(done & n & [A B C D] & Ho) _ _].
  rewrite Hq in *. simpl in C. assert (n = 0) as -> by lia.
  rewrite app_nil_r in A, D. split_and!; [done| | |].
  - destruct (outstanding _); [lia|done].
  - unfold Wait_ready. by rewrite B, orb_true_r.
  - by rewrite D, <- A, Hh.
Qed.
End queue.

Arguments MessageQueue : clear implicits.
Arguments message : clear implicits.

(** ** Witnesses *)

(** A header and two body chunks: the chunks are merged into one write. *)
Definition sample_queue : MessageQueue nat :=
  EnqueueOnStrand (BodyMessage (lit "world") 200)
    (EnqueueOnStrand (BodyMessage (lit "hello ") 100)
      (EnqueueOnStrand (HeaderMessage 7 50) new_queue)).

Lemma sample_reachable : reachable sample_queue.
Proof. do 3 (eapply rtc_r; [|apply step_enqueue]). apply rtc_refl. Qed.

Lemma stream_in_order_witness :
  exists n, n <= 3 /\ sent (wire sample_queue) = tokens (take n (history sample_queue)).
Proof. apply (stream_in_order sample_queue), sample_reachable. Defined.

Lemma single_write_no_lost_wakeup_witness :
  is_writing_ sample_queue = true /\ queue_size_ sample_queue = 3%Z.
Proof.
  destruct (single_write_no_lost_wakeup sample_queue sample_reachable) as (Hw & Hs & _).
  split; [rewrite Hw; reflexivity|rewrite Hs; reflexivity].
Defined.

Lemma live_queue_drains_witness :
  sent (wire (drain 3 sample_queue)) = inr 7 :: (inl <$> lit "hello world") /\
  length (wire (drain 3 sample_queue)) = 2.
Proof.
  destruct (live_queue_drains sample_queue sample_reachable eq_refl eq_refl)
    as (_ & _ & _ & Hs).
  change (length (queue_ sample_queue)) with 3 in Hs. rewrite Hs.
  split; reflexivity.
Defined.
