(* ===== verification/HttpFields.v ===== *)
(** * HttpFields: the header container of Boost.Beast

    [boost::beast::http::fields] is not part of the repository; its users are
    proved against this interface, which states what its documentation promises:
    [insert] adds a field after those of the same name, [set] replaces all fields
    of that name, names are compared without regard to case, and iteration
    visits every field. *)

From S2P Require Import Prelude Text.

Class HttpFields (F : Type) := {
  f_empty : F;
  f_insert : str -> str -> F -> F;
  f_set : str -> str -> F -> F;
  (** the fields in iteration order *)
  f_list : F -> list (str * str);
  f_values (k : str) (f : F) : list str :=
    snd <$> filter (fun kv => IEquals kv.1 k = true) (f_list f);
  f_list_empty : f_list f_empty = [];
  f_values_insert k k' v f :
    f_values k (f_insert k' v f) =
      if IEquals k' k then f_values k f ++ [v] else f_values k f;
  f_values_set k k' v f :
    f_values k (f_set k' v f) = if IEquals k' k then [v] else f_values k f;
}.

Section fields.
Context {F : Type} `{HttpFields F}.

Lemma f_values_empty k : f_values k f_empty = [].
Proof. unfold f_values. by rewrite f_list_empty. Qed.

(** Copying by [set], field by field, keeps the last value of each name. *)
Definition copy_by_set (f : F) : F := foldl (fun h kv => f_set kv.1 kv.2 h) f_empty (f_list f).

Lemma f_values_fold k (l : list (str * str)) (h : F) :
  f_values k (foldl (fun h kv => f_set kv.1 kv.2 h) h l) =
    match last (snd <$> filter (fun kv => IEquals kv.1 k = true) l) with
    | Some v => [v]
    | None => f_values k h
    end.
Proof.
  induction l as [|[a v] l IH] using rev_ind; [done|].
  rewrite foldl_app, filter_app, fmap_app. cbn [foldl fst snd]. rewrite f_values_set.
  destruct (IEquals a k) eqn:He.
  - rewrite filter_cons_True by done. cbn [fmap list_fmap filter list_filter].
    by rewrite last_snoc.
  - rewrite filter_cons_False by (simpl; congruence). cbn [fmap list_fmap filter list_filter].
    by rewrite app_nil_r.
Qed.

Lemma f_values_copy_by_set k (f : F) :
  f_values k (copy_by_set f) = option_list (last (f_values k f)).
Proof.
  unfold copy_by_set. rewrite f_values_fold, f_values_empty. unfold f_values.
  by destruct (last _).
Qed.
End fields.

(** ** An instance: lists of fields *)

Definition fields_insert (k v : str) (f : list (str * str)) : list (str * str) := f ++ [(k, v)].
Definition fields_set (k v : str) (f : list (str * str)) : list (str * str) :=
  filter (fun kv => IEquals kv.1 k = false) f ++ [(k, v)].

Lemma IEquals_sym a b : IEquals a b = IEquals b a.
Proof.
  rewrite !IEquals_ToLower. unfold str_eqb. apply bool_decide_ext. by split; intros ->.
Qed.

Lemma IEquals_trans_eq a b c : IEquals a b = true -> IEquals a c = IEquals b c.
Proof. rewrite !IEquals_ToLower. intros Hab%str_eqb_eq. by rewrite Hab. Qed.

#[export] Program Instance list_fields : HttpFields (list (str * str)) := {
  f_empty := [];
  f_insert := fields_insert;
  f_set := fields_set;
  f_list := id;
}.
Next Obligation. done. Qed.
Next Obligation.
  intros k k' v f. unfold fields_insert, id. rewrite filter_app, fmap_app.
  destruct (IEquals k' k) eqn:He.
  - rewrite filter_cons_True by done. done.
  - rewrite filter_cons_False by (simpl; congruence). by rewrite app_nil_r.
Qed.
Next Obligation.
  intros k k' v f. unfold fields_set, id. rewrite filter_app, fmap_app, list_filter_filter.
  destruct (IEquals k' k) eqn:He.
  - rewrite (filter_cons_True _ (k', v)) by done.
    replace (filter _ f) with (@nil (str * str)); [done|]. symmetry.
    induction f as [|[a x] f IH]; [done|]. rewrite filter_cons_False; [done|]. simpl.
    intros [H1 H2]. rewrite (IEquals_sym a k'), (IEquals_trans_eq k' k a He) in H2.
    rewrite IEquals_sym in H1. congruence.
  - rewrite (filter_cons_False _ (k', v)) by (simpl; congruence). rewrite app_nil_r. f_equal.
    apply list_filter_iff. intros [a x]. simpl. split; [by intros []|].
    intros Ha. split; [done|]. rewrite IEquals_sym in Ha.
    rewrite <- (IEquals_trans_eq k a k' Ha). by rewrite IEquals_sym.
Qed.
