(* ===== verification/ServerCookie.v ===== *)
(** * ServerCookie: cookies on the server

    Sources: src/connection/server/server_set_cookie.cc (the Set-Cookie
    builder), the cookie helpers of internal/server/http_server_task_detail.h
    and [GenerateCookiePairs], [GetCookie] of http_server_task_base.cc. *)

From S2P Require Import Prelude Text.

(** ** The Set-Cookie builder *)

Inductive SameSite := kStrict | kLax | kNone.

#[global] Instance same_site_eq_dec : EqDecision SameSite.
Proof. solve_decision. Defined.

Record ServerSetCookie := mkSetCookie {
  name_ : option str;
  value_ : option str;
  expiry_ : option str;
  path_ : option str;
  domain_ : option str;
  max_age_ : option Z;
  same_site_ : option SameSite;
  secure_ : option bool;
  http_only_ : option bool;
}.

(** [std::to_string] of an [int64_t]: the digits of the magnitude, most
    significant first; 20 digits are enough for 64 bits. *)
Definition digit (n : Z) : ascii := ascii_of_nat (48 + Z.to_nat n).

Fixpoint decimal (fuel : nat) (n : Z) (acc : str) : str :=
  match fuel with
  | 0 => acc
  | S fuel =>
      let acc := digit (n mod 10) :: acc in
      if (n / 10 =? 0)%Z then acc else decimal fuel (n / 10) acc
  end.

Definition to_string (z : Z) : str :=
  if (z <? 0)%Z then "-"%char :: decimal 20 (- z) [] else decimal 20 z [].

Definition isspace (c : ascii) : bool :=
  let n := nat_of_ascii c in (n =? 32) || ((9 <=? n) && (n <=? 13)).

(** The final [while (isspace(back) || back == ';') pop_back]. *)
Fixpoint drop_trailing (r : str) : str :=
  match r with
  | [] => []
  | c :: r' => if isspace c || (c =c ";"%char) then drop_trailing r' else r
  end.
Definition pop_trailing (s : str) : str := rev (drop_trailing (rev s)).

(** [" key=value;"] for a value that is there and not empty. *)
Definition attribute (key : str) (v : option str) : str :=
  match v with
  | None | Some [] => []
  | Some s => lit " " ++ key ++ lit "=" ++ s ++ lit ";"
  end.

Definition same_site_text (s : SameSite) : str :=
  match s with kStrict => lit "Strict" | kLax => lit "Lax" | kNone => lit "None" end.

Definition secure_flag (c : ServerSetCookie) : bool :=
  bool_decide (same_site_ c = Some kNone) || bool_decide (secure_ c = Some true).

Definition attributes (c : ServerSetCookie) : str :=
  attribute (lit "Expires") (expiry_ c)
  ++ attribute (lit "Path") (path_ c)
  ++ attribute (lit "Domain") (domain_ c)
  ++ attribute (lit "Max-Age") (to_string <$> max_age_ c)
  ++ attribute (lit "SameSite") (same_site_text <$> same_site_ c)
  ++ (if secure_flag c then lit " Secure;" else [])
  ++ (if bool_decide (http_only_ c = Some true) then lit " HttpOnly;" else []).

Definition ToString (c : ServerSetCookie) : str :=
  match name_ c, value_ c with
  | Some name, Some value =>
      match name, value with
      | [], _ | _, [] => []
      | _, _ => pop_trailing (name ++ lit "=" ++ value ++ lit ";" ++ attributes c)
      end
  | _, _ => []
  end.

(** ** Parsing the Cookie header *)

(** [views::split(';')] on a string that is not empty. *)
Fixpoint split_on (d : ascii) (s : str) : list str :=
  match s with
  | [] => [[]]
  | c :: s' =>
      if c =c d then [] :: split_on d s'
      else match split_on d s' with
           | t :: ts => (c :: t) :: ts
           | [] => [[c]]
           end
  end.

Definition SplitCookieHeaderUsingSplit (header : str) : list str :=
  match header with [] => [] | _ => TrimView <$> split_on ";"%char header end.

Definition ParseCookiePairView (token : str) : str * str :=
  let token := TrimView token in
  match token with
  | [] => ([], [])
  | _ =>
      match find_char "="%char token with
      | None => (TrimView token, [])
      | Some eq =>
          (TrimView (take eq token), strip_quotes (TrimView (drop (eq + 1) token)))
      end
  end.

(** The loop of [GenerateCookiePairs]: [cookies[name] = value]. *)
Definition add_cookie (m : gmap str str) (token : str) : gmap str str :=
  let '(name, value) := ParseCookiePairView token in
  match name with [] => m | _ => <[name := value]> m end.

Definition GenerateCookiePairs (cookie_raw : str) : gmap str str :=
  foldl add_cookie ∅ (SplitCookieHeaderUsingSplit cookie_raw).

(** [GetCookie] returns the empty string for a cookie that is not there, and
    its [operator[]] inserts it. *)
Definition GetCookie (key : str) (cookies : gmap str str) : str * gmap str str :=
  match cookies !! key with
  | Some v => (v, cookies)
  | None => ([], <[key := []]> cookies)
  end.

(** ** Lemmas *)

Lemma split_on_nonnil d s : split_on d s <> [].
Proof. destruct s as [|c s]; simpl; [done|]. destruct (c =c d); [done|]. by destruct (split_on d s). Qed.

Lemma split_on_plain d s : d ∉ s -> split_on d s = [s].
Proof.
  induction s as [|c s IH]; simpl; [done|].
  intros [Hc Hs]%not_elem_of_cons. destruct (Ascii.eqb_spec c d); [congruence|].
  by rewrite IH.
Qed.

Lemma split_on_app d s t : d ∉ s -> split_on d (s ++ d :: t) = s :: split_on d t.
Proof.
  induction s as [|c s IH]; simpl; [by rewrite Ascii.eqb_refl|].
  intros [Hc Hs]%not_elem_of_cons. destruct (Ascii.eqb_spec c d); [congruence|].
  by rewrite IH.
Qed.

(** A name or value that survives a header unchanged. *)
Definition clean (s : str) : Prop := trimmed s /\ ";"%char ∉ s.

Definition unquoted (s : str) : Prop := strip_quotes s = s.

Definition cookie_ok (nv : str * str) : Prop :=
  nv.1 <> [] /\ clean nv.1 /\ "="%char ∉ nv.1 /\ clean nv.2 /\ unquoted nv.2.

(** How a client writes the pairs: [name=value], separated by ["; "]. *)
Fixpoint serialize_pairs (l : list (str * str)) : str :=
  match l with
  | [] => []
  | [(n, v)] => n ++ lit "=" ++ v
  | (n, v) :: l' => n ++ lit "=" ++ v ++ lit "; " ++ serialize_pairs l'
  end.

Lemma TrimView_leading_space s : TrimView (" "%char :: s) = TrimView s.
Proof.
  unfold TrimView. simpl. destruct (find_first_not_ws s) as [i|] eqn:Hi; simpl; [|done].
  destruct (find_last_not_ws s) as [j|] eqn:Hj; simpl; [done|].
  exfalso. clear -Hi Hj. revert i Hi. induction s as [|c s IH]; simpl; [done|].
  intros i. simpl in Hj. destruct (find_last_not_ws s); [done|].
  destruct (is_ws c); [|done]. destruct (find_first_not_ws s); [|done].
  intros _. by eapply IH.
Qed.

Lemma trimmed_pair n v : n <> [] -> trimmed n -> trimmed v -> trimmed (n ++ lit "=" ++ v).
Proof.
  destruct n as [|c n]; [done|]. intros _ [Hc _] Hv. split; [done|].
  destruct v as [|d v].
  - exists (c :: n), "="%char. done.
  - destruct Hv as [_ (l & e & Heq & He)]. exists (c :: n ++ "="%char :: l), e.
    rewrite Heq. split; [|done]. simpl. by rewrite <- app_assoc.
Qed.

Lemma ParsePair_ok n v : cookie_ok (n, v) -> ParseCookiePairView (n ++ lit "=" ++ v) = (n, v).
Proof.
  intros (Hn & [Htn _] & Heq & [Htv _] & Hq). simpl in *. unfold ParseCookiePairView.
  rewrite TrimView_trimmed_id by by apply trimmed_pair.
  change (lit "=" ++ v) with ("="%char :: v).
  replace (match n ++ "="%char :: v with [] => ([], []) | _ => _ end) with
    (match find_char "="%char (n ++ "="%char :: v) with
     | None => (TrimView (n ++ "="%char :: v), [])
     | Some eq => (TrimView (take eq (n ++ "="%char :: v)),
                   strip_quotes (TrimView (drop (eq + 1) (n ++ "="%char :: v))))
     end) by by destruct n.
  rewrite find_char_app by done. rewrite take_app_length.
  rewrite TrimView_trimmed_id by done. f_equal.
  rewrite drop_app_ge by lia. replace (length n + 1 - length n) with 1 by lia.
  simpl. by rewrite TrimView_trimmed_id.
Qed.

Lemma clean_pair n v : cookie_ok (n, v) -> ";"%char ∉ n ++ lit "=" ++ v.
Proof.
  intros (_ & [_ Hn] & _ & [_ Hv] & _). cbn [fst snd] in *.
  rewrite !elem_of_app. intros [?|[Heq|?]]; [done| |done].
  by apply list_elem_of_singleton in Heq.
Qed.

Lemma split_leading_space s :
  TrimView <$> split_on ";"%char (" "%char :: s) = TrimView <$> split_on ";"%char s.
Proof.
  cbn [split_on]. change (" "%char =c ";"%char) with false. cbn iota.
  destruct (split_on ";"%char s) as [|t ts] eqn:E; [by apply split_on_nonnil in E|].
  rewrite !fmap_cons. by rewrite TrimView_leading_space.
Qed.

Lemma split_serialized l :
  Forall cookie_ok l ->
  SplitCookieHeaderUsingSplit (serialize_pairs l) = (fun nv => nv.1 ++ lit "=" ++ nv.2) <$> l.
Proof.
  assert (forall l, l <> [] -> Forall cookie_ok l ->
    TrimView <$> split_on ";"%char (serialize_pairs l) =
    (fun nv => nv.1 ++ lit "=" ++ nv.2) <$> l) as Hsplit.
  { clear l. intros l Hne HF. induction HF as [|[n v] l Hnv HF IH]; [done|]. clear Hne.
    pose proof (clean_pair _ _ Hnv) as Hc. pose proof Hnv as (Hn & [Htn _] & _ & [Htv _] & _).
    assert (TrimView (n ++ lit "=" ++ v) = n ++ lit "=" ++ v) as Ht
      by by apply TrimView_trimmed_id, trimmed_pair.
    destruct l as [|nv' l].
    - cbn [serialize_pairs]. rewrite split_on_plain by done. rewrite !fmap_cons. by rewrite Ht.
    - change (serialize_pairs ((n, v) :: nv' :: l)) with
        (n ++ lit "=" ++ v ++ ";"%char :: " "%char :: serialize_pairs (nv' :: l)).
      replace (n ++ lit "=" ++ v ++ ";"%char :: " "%char :: serialize_pairs (nv' :: l))
        with ((n ++ lit "=" ++ v) ++ ";"%char :: " "%char :: serialize_pairs (nv' :: l))
        by by rewrite <- !app_assoc.
      rewrite split_on_app by done. rewrite fmap_cons, split_leading_space, IH by done.
      by rewrite Ht. }
  intros HF. destruct l as [|[n v] l]; [done|].
  pose proof (Hsplit ((n, v) :: l) ltac:(done) HF) as Hs.
  apply Forall_cons in HF as [(Hn & _) _]. simpl in Hn. destruct n as [|c n]; [done|].
  unfold SplitCookieHeaderUsingSplit. rewrite <- Hs. by destruct l.
Qed.

(** Reading back what was serialized: later pairs win. *)
Lemma generate_serialized l :
  Forall cookie_ok l ->
  GenerateCookiePairs (serialize_pairs l) = foldl (fun m nv => <[nv.1 := nv.2]> m) ∅ l.
Proof.
  intros HF. unfold GenerateCookiePairs. rewrite split_serialized by done.
  generalize (∅ : gmap str str). induction HF as [|[n v] l Hnv _ IH]; intros m; [done|].
  rewrite fmap_cons. cbn [foldl fst snd]. rewrite <- IH. f_equal.
  unfold add_cookie. rewrite ParsePair_ok by done.
  destruct Hnv as (Hn & _). simpl in Hn. by destruct n.
Qed.

(** With distinct names every pair is found. *)
Lemma foldl_insert_lookup (l : list (str * str)) (m : gmap str str) n v :
  NoDup l.*1 -> (n, v) ∈ l -> foldl (fun m nv => <[nv.1 := nv.2]> m) m l !! n = Some v.
Proof.
  assert (Hother : forall l (m : gmap str str), n ∉ l.*1 ->
    foldl (fun m nv => <[nv.1 := nv.2]> m) m l !! n = m !! n).
  { clear. induction l as [|[a x] l IH]; intros m Hn; [done|].
    rewrite fmap_cons in Hn. apply not_elem_of_cons in Hn as [Ha Hn]. simpl in *.
    rewrite IH by done. by rewrite lookup_insert_ne. }
  revert m. induction l as [|[a x] l IH]; intros m Hnd Hin.
  { by apply not_elem_of_nil in Hin. }
  apply NoDup_cons in Hnd as [Ha Hnd]. apply elem_of_cons in Hin as [[= -> ->]|Hin]; simpl.
  - rewrite Hother by done. by rewrite lookup_insert_eq.
  - by apply IH.
Qed.
