(* ===== verification/ClientCookie.v ===== *)
(** * ClientCookie: the client's cookie jar

    Source: the [SessionRequestAssembler] of
    src/connection/client/request_assembler.cc and its [Cookie] type
    (request_assembler.h).

    Times are [std::chrono::system_clock] time points: 64-bit counts of
    nanoseconds.  Every operation that reads the clock takes one [now], also where
    the code reads the clock for each cookie it looks at: the jar is taken to be
    used at one instant.
    [get_time] stands for [std::get_time] with the source's format, which
    depends on the C++ locale: [None] when the stream fails.  [sort] is
    [std::ranges::sort], which is not stable. *)

From S2P Require Import Prelude Text ServerCookie.

Record Cookie := mkCookie {
  c_name : str;
  c_value : str;
  c_domain : str;
  c_host_only : bool;
  c_path : str;
  c_secure : bool;
  c_expiry : option Z;
}.

Record CookieExpiryInfo := mkExpiry {
  has_max_age : bool;
  max_age_valid : bool;
  max_age_secs : Z;
  expires_tp : option Z;
}.

(** ** Text helpers *)

Definition SplitOnce (s : str) (delim : ascii) : str * str :=
  match find_char delim s with
  | None => (s, [])
  | Some pos => (take pos s, drop (pos + 1) s)
  end.

(** The loop of [SplitSetCookieTokens] on what is left of the value. *)
Fixpoint split_tokens (fuel : nat) (rest : str) : list str :=
  match fuel, rest with
  | 0, _ | _, [] => []
  | S fuel, _ =>
      match find_char ";"%char rest with
      | None => [TrimView rest]
      | Some semi => TrimView (take semi rest) :: split_tokens fuel (drop (semi + 1) rest)
      end
  end.

Definition SplitSetCookieTokens (set_cookie_value : str) : list str :=
  split_tokens (length set_cookie_value) set_cookie_value.

(** [std::stoll]: white space, a sign, at least one digit; what follows the
    digits is ignored; [None] is an exception. *)
Definition is_digit (c : ascii) : bool :=
  (48 <=? nat_of_ascii c) && (nat_of_ascii c <=? 57).

Fixpoint skip_space (s : str) : str :=
  match s with [] => [] | c :: s' => if isspace c then skip_space s' else s end.

Fixpoint read_digits (s : str) (acc : Z) : Z :=
  match s with
  | [] => acc
  | c :: s' =>
      if is_digit c then read_digits s' (10 * acc + (Z.of_nat (nat_of_ascii c) - 48))
      else acc
  end.

Definition read_number (s : str) : option Z :=
  match s with
  | [] => None
  | c :: _ => if is_digit c then Some (read_digits s 0) else None
  end.

Definition stoll (s : str) : option Z :=
  let s := skip_space s in
  z ← match s with
      | c :: s' =>
          if c =c "-"%char then Z.opp <$> read_number s'
          else if c =c "+"%char then read_number s' else read_number s
      | [] => None
      end;
  if bool_decide (int64_min <= z <= int64_max)%Z then Some z else None.

(** [std::tm] as far as it is used. *)
Record tm := mkTm {
  tm_year : Z; tm_mon : Z; tm_mday : Z; tm_hour : Z; tm_min : Z; tm_sec : Z;
}.

Definition is_leap (y : Z) : bool :=
  ((y mod 4 =? 0) && (negb (y mod 100 =? 0) || (y mod 400 =? 0)))%Z.

Definition last_day (y m : Z) : Z :=
  (if m =? 2 then if is_leap y then 29 else 28
   else if (m =? 4) || (m =? 6) || (m =? 9) || (m =? 11) then 30 else 31)%Z.

(** [year_month_day::ok()] *)
Definition date_ok (y m d : Z) : bool :=
  ((-32767 <=? y) && (y <=? 32767) && (1 <=? m) && (m <=? 12)
   && (1 <=? d) && (d <=? last_day y m))%Z.

(** [sys_days{date}]: days since 1970-01-01 in the civil calendar. *)
Definition sys_days (y m d : Z) : Z :=
  let y' := (if m <=? 2 then y - 1 else y)%Z in
  let era := (y' / 400)%Z in
  let yoe := (y' - era * 400)%Z in
  let doy := ((153 * (if 2 <? m then m - 3 else m + 9) + 2) / 5 + d - 1)%Z in
  let doe := (yoe * 365 + yoe / 4 - yoe / 100 + doy)%Z in
  (era * 146097 + doe - 719468)%Z.

(** Conversion of whole seconds to the clock's nanoseconds. *)
Definition seconds_to_ticks (s : Z) : Z := to_int64 (s * 1000000000).

Section jar.
Context (get_time : str -> option tm).
Context (sort : list (nat * nat) -> list (nat * nat)).

Definition ParseImfFixdate (v : str) : option Z :=
  t ← get_time v;
  let y := (tm_year t + 1900)%Z in
  let m := (tm_mon t + 1)%Z in
  if negb (date_ok y m (tm_mday t))
     || ((tm_hour t <? 0) || (23 <? tm_hour t) || (tm_min t <? 0) || (59 <? tm_min t)
         || (tm_sec t <? 0) || (59 <? tm_sec t))%Z
  then None
  else Some (seconds_to_ticks
    (sys_days y m (tm_mday t) * 86400 + tm_hour t * 3600 + tm_min t * 60 + tm_sec t)%Z).

(** ** Scope of a cookie *)

Definition NormalizeHost (host : str) : str := tolower <$> host.

Definition NormalizeDomain (domain : str) : str :=
  NormalizeHost
    (match TrimView domain with
     | c :: d => if c =c "."%char then d else c :: d
     | [] => []
     end).

(** [find_last_of('/')] *)
Definition find_last_char (c : ascii) (s : str) : option nat :=
  (fun i => length s - 1 - i) <$> find_char c (rev s).

Definition DefaultPathFromTarget (target : str) : str :=
  let path := prefix_upto target (find_char "?"%char target) in
  match path with
  | [] => lit "/"
  | c :: _ =>
      if negb (c =c "/"%char) then lit "/"
      else match find_last_char "/"%char path with
           | None | Some 0 => lit "/"
           | Some last => take last path
           end
  end.

(** [host[offset - 1]] is read only when [offset] is positive. *)
Definition DomainMatches (host domain : str) : bool :=
  if host =s domain then true
  else if length host <=? length domain then false
  else
    let offset := length host - length domain in
    if negb (substr host offset (length domain) =s domain) then false
    else bool_decide (host !! (offset - 1) = Some "."%char).

Definition PathMatches (request_path cookie_path : str) : bool :=
  let cookie_path :=
    match cookie_path with
    | c :: _ => if c =c "/"%char then cookie_path else lit "/"
    | [] => lit "/"
    end in
  if cookie_path =s lit "/" then true
  else if negb (starts_with request_path cookie_path) then false
  else if length request_path =? length cookie_path then true
  else if bool_decide (last cookie_path = Some "/"%char) then true
  else bool_decide (request_path !! length cookie_path = Some "/"%char).

(** ** Sending cookies *)

Definition expired (now : Z) (c : Cookie) : bool :=
  match c_expiry c with Some e => (e <=? now)%Z | None => false end.

Definition CleanupExpiredLocked (now : Z) (cookies : list Cookie) : list Cookie :=
  filter (fun c => expired now c = false) cookies.

(** The guards of the loop in [CollectMatchingCookiesLocked]. *)
Definition eligible (host_norm request_path : str) (is_https : bool) (c : Cookie) : bool :=
  if c_secure c && negb is_https then false
  else if negb (if c_host_only c then host_norm =s c_domain c
                else DomainMatches host_norm (c_domain c)) then false
  else PathMatches request_path (c_path c).

Fixpoint collect (host_norm request_path : str) (is_https : bool) (i : nat)
    (cookies : list Cookie) : list (nat * nat) :=
  match cookies with
  | [] => []
  | c :: cs =>
      if eligible host_norm request_path is_https c
      then (i, length (c_path c)) :: collect host_norm request_path is_https (S i) cs
      else collect host_norm request_path is_https (S i) cs
  end.

Definition CollectMatchingCookiesLocked (host_norm request_path : str) (is_https : bool)
    (cookies : list Cookie) : list (nat * nat) :=
  collect host_norm request_path is_https 0 cookies.

Definition append_cookie (cookies : list Cookie) (out : str) (candidate : nat * nat) : str :=
  match cookies !! candidate.1 with
  | None => out
  | Some c =>
      match c_name c with
      | [] => out
      | _ => (match out with [] => [] | _ => out ++ lit "; " end)
             ++ c_name c ++ lit "=" ++ c_value c
      end
  end.

Definition SerializeCookieCandidates (candidates : list (nat * nat))
    (cookies : list Cookie) : str := foldl (append_cookie cookies) [] candidates.

Definition BuildCookieHeaderLocked (host target : str) (is_https : bool)
    (cookies : list Cookie) : str :=
  let host_norm := NormalizeHost host in
  let request_path := prefix_upto target (find_char "?"%char target) in
  match CollectMatchingCookiesLocked host_norm request_path is_https cookies with
  | [] => []
  | candidates => SerializeCookieCandidates (sort candidates) cookies
  end.

(** [MaybeInjectCookies]: the header that is added, if any, and the jar. *)
Definition MaybeInjectCookies (now : Z) (has_cookie_header : bool) (host target : str)
    (is_https : bool) (cookies : list Cookie) : option str * list Cookie :=
  if has_cookie_header then (None, cookies)
  else
    let cookies := CleanupExpiredLocked now cookies in
    match BuildCookieHeaderLocked host target is_https cookies with
    | [] => (None, cookies)
    | cookie => (Some cookie, cookies)
    end.

(** ** Receiving cookies *)

(** The cookie and the expiry information after one attribute; [None] rejects
    the cookie. *)
Definition ApplySetCookieAttribute (key value host_norm : str)
    (ce : Cookie * CookieExpiryInfo) : option (Cookie * CookieExpiryInfo) :=
  let '(c, e) := ce in
  if IEquals key (lit "Secure") then
    Some (mkCookie (c_name c) (c_value c) (c_domain c) (c_host_only c) (c_path c) true
            (c_expiry c), e)
  else if IEquals key (lit "HttpOnly") || IEquals key (lit "SameSite") then Some (c, e)
  else if IEquals key (lit "Domain") then
    let dom := NormalizeDomain value in
    if negb (bool_decide (dom = [])) && DomainMatches host_norm dom then
      Some (mkCookie (c_name c) (c_value c) dom false (c_path c) (c_secure c)
              (c_expiry c), e)
    else None
  else if IEquals key (lit "Path") then
    if bool_decide (head value = Some "/"%char) then
      Some (mkCookie (c_name c) (c_value c) (c_domain c) (c_host_only c) value
              (c_secure c) (c_expiry c), e)
    else Some (c, e)
  else if IEquals key (lit "Max-Age") then
    match stoll value with
    | Some n => Some (c, mkExpiry true true n (expires_tp e))
    | None => Some (c, mkExpiry true false (max_age_secs e) (expires_tp e))
    end
  else if IEquals key (lit "Expires") then
    Some (c, mkExpiry (has_max_age e) (max_age_valid e) (max_age_secs e)
               (ParseImfFixdate value))
  else Some (c, e).

Definition set_expiry (v : str) (x : option Z) (c : Cookie) : Cookie :=
  mkCookie (c_name c) v (c_domain c) (c_host_only c) (c_path c) (c_secure c) x.

(** [ComputeAndApplyExpiry]; both of its results return the cookie. *)
Definition ComputeAndApplyExpiry (now : Z) (e : CookieExpiryInfo) (c : Cookie) : Cookie :=
  if has_max_age e && max_age_valid e then
    if (max_age_secs e <=? 0)%Z then set_expiry [] (Some 0%Z) c
    else set_expiry (c_value c) (Some (to_int64 (now + seconds_to_ticks (max_age_secs e)))) c
  else
    match expires_tp e with
    | Some x => set_expiry (if (x <=? now)%Z then [] else c_value c) (Some x) c
    | None => c
    end.

(** The loop over the attribute tokens. *)
Fixpoint apply_tokens (host_norm : str) (tokens : list str)
    (ce : Cookie * CookieExpiryInfo) : option (Cookie * CookieExpiryInfo) :=
  match tokens with
  | [] => Some ce
  | token :: rest =>
      match token with
      | [] => apply_tokens host_norm rest ce
      | _ =>
          let '(k, v) := SplitOnce token "="%char in
          match ApplySetCookieAttribute (TrimView k) (TrimView v) host_norm ce with
          | None => None
          | Some ce' => apply_tokens host_norm rest ce'
          end
      end
  end.

Definition ParseSetCookieValue (now : Z) (host target value : str) : option Cookie :=
  match TrimView value with
  | [] => None
  | value =>
      match SplitSetCookieTokens value with
      | [] | [] :: _ => None
      | first :: rest =>
          let '(n, v) := SplitOnce first "="%char in
          match TrimView n with
          | [] => None
          | name =>
              let host_norm := NormalizeHost host in
              ce ← apply_tokens host_norm rest
                     (mkCookie name (TrimView v) host_norm true
                        (DefaultPathFromTarget target) false None,
                      mkExpiry false false 0 None);
              Some (ComputeAndApplyExpiry now ce.2 ce.1)
          end
      end
  end.

Definition same_cookie (a b : Cookie) : bool :=
  (c_name a =s c_name b) && (c_domain a =s c_domain b)
  && Bool.eqb (c_host_only a) (c_host_only b) && (c_path a =s c_path b).

Fixpoint UpsertCookieLocked (incoming : Cookie) (cookies : list Cookie) : list Cookie :=
  match cookies with
  | [] => [incoming]
  | c :: cs =>
      if same_cookie c incoming then
        mkCookie (c_name c) (c_value incoming) (c_domain c) (c_host_only c) (c_path c)
          (c_secure incoming) (c_expiry incoming) :: cs
      else c :: UpsertCookieLocked incoming cs
  end.

Definition UpsertFromSetCookieLocked (now : Z) (host target set_cookie_value : str)
    (cookies : list Cookie) : list Cookie :=
  match ParseSetCookieValue now host target set_cookie_value with
  | None => cookies
  | Some c =>
      if bool_decide (c_value c = []) && expired now c
      then filter (fun x => same_cookie x c = false) cookies
      else UpsertCookieLocked c cookies
  end.

Definition SyncSetCookie (now : Z) (host target set_cookie_value : str)
    (cookies : list Cookie) : list Cookie :=
  UpsertFromSetCookieLocked now host target set_cookie_value
    (CleanupExpiredLocked now cookies).

(** [OnResponseHeader], over the values of the Set-Cookie fields. *)
Definition OnResponseHeader (now : Z) (host target : str) (set_cookies : list str)
    (cookies : list Cookie) : list Cookie :=
  foldl (fun cs v => SyncSetCookie now host target v cs) cookies set_cookies.

Definition ClearCookies (cookies : list Cookie) : list Cookie := [].

Definition CookieCount (now : Z) (cookies : list Cookie) : nat * list Cookie :=
  let cookies := CleanupExpiredLocked now cookies in (length cookies, cookies).

(** ** Domains and paths *)

(** RFC 6265, section 5.1.3: identical, or a suffix after a dot. *)
Lemma DomainMatches_spec host domain :
  DomainMatches host domain = true <->
  host = domain \/ exists p, host = p ++ "."%char :: domain.
Proof.
  unfold DomainMatches. destruct (str_eqb_spec host domain) as [->|Hne].
  { split; auto. }
  destruct (Nat.leb_spec (length host) (length domain)) as [Hle|Hlt].
  { split; [done|]. intros [->|[p ->]]; [done|]. rewrite length_app in Hle. simpl in Hle. lia. }
  destruct (str_eqb_spec (substr host (length host - length domain) (length domain)) domain)
    as [Hs|Hs]; simpl.
  - rewrite bool_decide_eq_true. unfold substr in Hs.
    rewrite take_ge in Hs by (rewrite length_drop; lia). split.
    + intros Hl. right. exists (take (length host - length domain - 1) host).
      rewrite <- Hs at 2.
      rewrite <- (take_drop (length host - length domain - 1) host) at 1. f_equal.
      rewrite (drop_S _ "."%char) by done. do 2 f_equal. lia.
    + intros [->|[p ->]]; [done|]. rewrite length_app. simpl.
      replace (length p + S (length domain) - length domain - 1) with (length p) by lia.
      by rewrite list_lookup_middle.
  - split; [done|]. intros [->|[p ->]]; [done|]. destruct Hs.
    unfold substr. rewrite length_app. simpl.
    replace (length p + S (length domain) - length domain) with (length (p ++ ["."%char]))
      by (rewrite length_app; simpl; lia).
    replace (p ++ "."%char :: domain) with ((p ++ ["."%char]) ++ domain) by by rewrite <- app_assoc.
    rewrite drop_app_length. by rewrite take_ge.
Qed.

(** RFC 6265, section 5.1.4, for a cookie path that starts with a slash. *)
Lemma PathMatches_spec request_path cookie_path :
  head cookie_path = Some "/"%char ->
  PathMatches request_path cookie_path = true <->
  cookie_path = lit "/" \/ request_path = cookie_path \/
  exists r, request_path = cookie_path ++ r /\
    (last cookie_path = Some "/"%char \/ head r = Some "/"%char).
Proof.
  intros Hh. rename cookie_path into p. unfold PathMatches.
  assert (match p with
          | c :: _ => if c =c "/"%char then p else lit "/"
          | [] => lit "/"
          end = p) as -> by (destruct p; [done|]; by injection Hh as ->).
  cbn zeta. destruct (str_eqb_spec p (lit "/")) as [->|Hne].
  { split; auto. }
  destruct (starts_with request_path p) eqn:Hs; simpl.
  - apply starts_with_spec in Hs as [r ->]. rewrite length_app.
    destruct (Nat.eqb_spec (length p + length r) (length p)) as [Hl|Hl].
    { split; [|done]. intros _. right. left. destruct r; [by rewrite app_nil_r|simpl in Hl; lia]. }
    replace ((p ++ r) !! length p) with (head r)
      by (rewrite lookup_app_r by lia; rewrite Nat.sub_diag; by destruct r).
    destruct (bool_decide_reflect (last p = Some "/"%char)) as [Hlast|Hlast].
    { split; [|done]. intros _. right. right. exists r. auto. }
    rewrite bool_decide_eq_true. split.
    + intros Hr. right. right. exists r. auto.
    + intros [?|[Heq|(r' & Heq & [?|?])]]; try done.
      * apply (f_equal length) in Heq. rewrite length_app in Heq. lia.
      * by apply app_inv_head in Heq as ->.
  - split; [done|]. intros [?|[->|(r & -> & _)]]; [done|..].
    + rewrite <- (app_nil_r p) in Hs at 1. by rewrite starts_with_app in Hs.
    + by rewrite starts_with_app in Hs.
Qed.

(** ** The Cookie header *)

Definition pair_of (c : Cookie) : str * str := (c_name c, c_value c).
Definition named (c : Cookie) : Prop := c_name c <> [].

Lemma serialize_nil l : serialize_pairs l = [] <-> l = [].
Proof.
  split; [|by intros ->]. destruct l as [|[n v] [|nv l]]; [done|..];
    simpl; by destruct n.
Qed.

Lemma separator_nonempty (out : str) :
  out <> [] -> (match out with [] => [] | _ => out ++ lit "; " end) = out ++ lit "; ".
Proof. by destruct out. Qed.

Lemma serialize_snoc l n v :
  serialize_pairs (l ++ [(n, v)]) =
    (match serialize_pairs l with [] => [] | _ => serialize_pairs l ++ lit "; " end)
    ++ n ++ lit "=" ++ v.
Proof.
  induction l as [|[a x] l IH]; [done|].
  rewrite separator_nonempty by by rewrite serialize_nil.
  destruct l as [|nv l].
  - cbn [app serialize_pairs]. by rewrite <- !app_assoc.
  - rewrite separator_nonempty in IH by by rewrite serialize_nil.
    change (serialize_pairs (((a, x) :: nv :: l) ++ [(n, v)])) with
      (a ++ lit "=" ++ x ++ lit "; " ++ serialize_pairs ((nv :: l) ++ [(n, v)])).
    rewrite IH. change (serialize_pairs ((a, x) :: nv :: l)) with
      (a ++ lit "=" ++ x ++ lit "; " ++ serialize_pairs (nv :: l)).
    by rewrite <- !app_assoc.
Qed.

Lemma serialize_candidates cookies cands :
  SerializeCookieCandidates cands cookies =
    serialize_pairs (pair_of <$> filter named (omap (fun k => cookies !! k.1) cands)).
Proof.
  clear get_time sort. unfold SerializeCookieCandidates. induction cands as [|k cands IH] using rev_ind; [done|].
  rewrite foldl_app. cbn [foldl]. rewrite IH. clear IH.
  rewrite omap_app, filter_app, fmap_app. unfold append_cookie. cbn [omap list_omap].
  destruct (cookies !! k.1) as [c|]; [|by rewrite app_nil_r].
  destruct (c_name c) as [|a n] eqn:Hn.
  - rewrite filter_cons_False by (unfold named; rewrite Hn; naive_solver). by rewrite app_nil_r.
  - rewrite filter_cons_True by (unfold named; by rewrite Hn).
    change (pair_of <$> c :: filter named []) with [(c_name c, c_value c)].
    rewrite serialize_snoc. by rewrite Hn.
Qed.

Lemma collect_spec host path https pre cookies :
  let cands := collect host path https (length pre) cookies in
  omap (fun k => (pre ++ cookies) !! k.1) cands =
    filter (fun c => eligible host path https c = true) cookies /\
  Forall (fun k => exists c, (pre ++ cookies) !! k.1 = Some c /\ k.2 = length (c_path c)) cands.
Proof.
  cbn zeta. revert pre. induction cookies as [|c cs IH]; intros pre; [done|].
  cbn [collect]. specialize (IH (pre ++ [c])). rewrite length_app in IH. simpl in IH.
  rewrite Nat.add_1_r, <- app_assoc in IH. cbn [app] in IH. destruct IH as [IH1 IH2].
  destruct (eligible host path https c) eqn:He.
  - rewrite filter_cons_True by done. split.
    + cbn [omap list_omap fst]. rewrite list_lookup_middle by done. by f_equal.
    + constructor; [|done]. exists c. by rewrite list_lookup_middle.
  - rewrite filter_cons_False by congruence. done.
Qed.

Section sorted_header.
Hypothesis sort_perm : forall l, sort l ≡ₚ l.
Hypothesis sort_desc : forall l, StronglySorted (fun a b => b.2 <= a.2) (sort l).

Lemma sorted_cookies (cookies : list Cookie) (cands : list (nat * nat)) :
  StronglySorted (fun a b => b.2 <= a.2) cands ->
  Forall (fun k => exists c, cookies !! k.1 = Some c /\ k.2 = length (c_path c)) cands ->
  StronglySorted (fun a b => length (c_path b) <= length (c_path a))
    (omap (fun k => cookies !! k.1) cands).
Proof.
  intros HS. induction HS as [|k cands HS IH Hle]; intros HF; [constructor|].
  apply Forall_cons in HF as [(c & Hc & Hk) HF]. cbn [omap list_omap]. rewrite Hc.
  constructor; [by apply IH|]. apply Forall_forall. intros c' Hc'.
  apply list_elem_of_omap in Hc' as (k' & Hk' & Hc').
  rewrite Forall_forall in HF, Hle. destruct (HF _ Hk') as (c'' & Hc'' & Hlen).
  specialize (Hle _ Hk'). rewrite Hc' in Hc''. injection Hc'' as <-. lia.
Qed.

(** C23. Exactly the right cookies are sent.  The Cookie header lists, as
    [name=value] pairs separated by ["; "], exactly the cookies of the jar whose
    secure flag, domain and path admit the request, each once, those with the
    longer paths first, whatever order the unstable sort gives to equal ones. *)
Theorem cookie_header_exact host target is_https cookies :
  let request_path := prefix_upto target (find_char "?"%char target) in
  exists sel,
    sel ≡ₚ filter (fun c => eligible (NormalizeHost host) request_path is_https c = true)
             cookies /\
    StronglySorted (fun a b => length (c_path b) <= length (c_path a)) sel /\
    BuildCookieHeaderLocked host target is_https cookies =
      serialize_pairs (pair_of <$> filter named sel).
Proof.
  cbn zeta. unfold BuildCookieHeaderLocked, CollectMatchingCookiesLocked.
  set (path := prefix_upto _ _).
  destruct (collect_spec (NormalizeHost host) path is_https [] cookies) as [Hsel HF].
  cbn [length app] in Hsel, HF.
  set (cands := collect _ _ _ _ _) in *.
  exists (omap (fun k => cookies !! k.1) (sort cands)). split_and!.
  - by rewrite (sort_perm cands), Hsel.
  - apply sorted_cookies; [apply sort_desc|]. by rewrite (sort_perm cands).
  - rewrite <- serialize_candidates. destruct cands as [|k ks] eqn:E; [|done].
    pose proof (sort_perm []) as Hp. symmetry in Hp. apply Permutation_nil in Hp.
    by rewrite Hp.
Qed.
End sorted_header.

(** ** What the jar holds *)

Definition identity (c : Cookie) : str * str * bool * str :=
  (c_name c, c_domain c, c_host_only c, c_path c).

Lemma same_cookie_spec a b : same_cookie a b = true <-> identity a = identity b.
Proof.
  unfold same_cookie, identity. rewrite !andb_true_iff, !str_eqb_eq, eqb_true_iff.
  split; [by intros [[[-> ->] ->] ->]|by intros [= -> -> -> ->]].
Qed.

(** What the host that set a cookie vouches for. *)
Definition vouched (host : str) (c : Cookie) : Prop :=
  if c_host_only c then c_domain c = NormalizeHost host
  else c_domain c <> [] /\ DomainMatches (NormalizeHost host) (c_domain c) = true.

Definition cookie_wf (host : str) (c : Cookie) : Prop :=
  c_name c <> [] /\ head (c_path c) = Some "/"%char /\ vouched host c.

Lemma default_path_slash target : head (DefaultPathFromTarget target) = Some "/"%char.
Proof.
  unfold DefaultPathFromTarget. destruct (prefix_upto _ _) as [|c p]; [done|].
  destruct (Ascii.eqb_spec c "/"%char) as [->|]; [|done]. simpl.
  destruct (find_last_char _ _) as [[|n]|]; done.
Qed.

Lemma apply_attribute_wf host key value ce ce' :
  ApplySetCookieAttribute key value (NormalizeHost host) ce = Some ce' ->
  cookie_wf host ce.1 -> cookie_wf host ce'.1.
Proof.
  destruct ce as [c e]. unfold ApplySetCookieAttribute. intros Hap (Hn & Hp & Hv).
  repeat case_match; simplify_eq; split_and!; try done; simpl.
  - unfold vouched. simpl. reflect_bools. done.
  - by reflect_bools.
Qed.

Lemma apply_tokens_wf host tokens ce ce' :
  apply_tokens (NormalizeHost host) tokens ce = Some ce' ->
  cookie_wf host ce.1 -> cookie_wf host ce'.1.
Proof.
  revert ce. induction tokens as [|[|c t] tokens IH]; intros ce; simpl.
  - by intros [= <-].
  - apply IH.
  - destruct (SplitOnce (c :: t) "="%char) as [k v].
    destruct (ApplySetCookieAttribute _ _ _ ce) as [ce1|] eqn:Ha; [|done].
    intros Ht Hwf. eapply IH; [done|]. by eapply apply_attribute_wf.
Qed.

Lemma ComputeAndApplyExpiry_wf host now e c :
  cookie_wf host c -> cookie_wf host (ComputeAndApplyExpiry now e c).
Proof. intros Hc. unfold ComputeAndApplyExpiry. by repeat case_match. Qed.

Lemma ParseSetCookieValue_wf now host target value c :
  ParseSetCookieValue now host target value = Some c -> cookie_wf host c.
Proof.
  unfold ParseSetCookieValue. destruct (TrimView value) as [|a val]; [done|].
  destruct (SplitSetCookieTokens (a :: val)) as [|[|b first] rest]; [done..|].
  destruct (SplitOnce (b :: first) "="%char) as [n v].
  destruct (TrimView n) as [|d name] eqn:Hn; [done|].
  intros (ce & Hce & [= <-])%bind_Some. apply ComputeAndApplyExpiry_wf.
  eapply apply_tokens_wf; [exact Hce|]. split_and!; [done|apply default_path_slash|done].
Qed.

(** The jar after responses from [hosts]. *)
Definition jar_inv (hosts : list str) (cookies : list Cookie) : Prop :=
  NoDup (identity <$> cookies) /\
  Forall (fun c => exists host, host ∈ hosts /\ cookie_wf host c) cookies.

Lemma jar_inv_filter hosts (P : Cookie -> Prop) `{forall c, Decision (P c)} cookies :
  jar_inv hosts cookies -> jar_inv hosts (filter P cookies).
Proof.
  intros [Hnd HF]. split.
  - eapply sublist_NoDup; [exact Hnd|]. apply fmap_sublist, sublist_filter.
  - rewrite Forall_forall in HF |- *. intros c [_ Hc]%list_elem_of_filter. by apply HF.
Qed.

Lemma upsert_identities c cookies :
  identity <$> UpsertCookieLocked c cookies =
    if bool_decide (identity c ∈ (identity <$> cookies))
    then identity <$> cookies else (identity <$> cookies) ++ [identity c].
Proof.
  induction cookies as [|x cs IH]; [done|]. cbn [UpsertCookieLocked].
  destruct (same_cookie x c) eqn:Hs.
  - apply same_cookie_spec in Hs. rewrite bool_decide_true; [done|].
    rewrite fmap_cons, Hs. by left.
  - rewrite !fmap_cons, IH. clear IH.
    assert (identity c <> identity x) as Hne.
    { intros Heq. symmetry in Heq. apply same_cookie_spec in Heq. congruence. }
    destruct (bool_decide_reflect (identity c ∈ identity <$> cs)) as [Hin|Hin].
    + rewrite bool_decide_true; [done|]. by right.
    + rewrite bool_decide_false; [done|]. rewrite elem_of_cons. naive_solver.
Qed.

Lemma upsert_wf (hosts : list str) c cookies :
  Forall (fun c => exists host, host ∈ hosts /\ cookie_wf host c) cookies ->
  (exists host, host ∈ hosts /\ cookie_wf host c) ->
  Forall (fun c => exists host, host ∈ hosts /\ cookie_wf host c) (UpsertCookieLocked c cookies).
Proof.
  intros HF Hc. induction HF as [|x cs Hx HF IH]; simpl; [by constructor|].
  destruct (same_cookie x c); [|by constructor]. constructor; [|done].
  destruct Hx as (h & Hh & Hn & Hp & Hv). by exists h.
Qed.

Lemma jar_inv_upsert (hosts : list str) c cookies :
  jar_inv hosts cookies -> (exists host, host ∈ hosts /\ cookie_wf host c) ->
  jar_inv hosts (UpsertCookieLocked c cookies).
Proof.
  intros [Hnd HF] Hc. split; [|by apply upsert_wf].
  rewrite upsert_identities. case_bool_decide as Hin; [done|].
  apply NoDup_app. split_and!; [done| |apply NoDup_singleton].
  intros x Hx ->%list_elem_of_singleton. done.
Qed.

(** ** Sequences of operations *)

Inductive jar_op :=
  | OpResponse (now : Z) (host target : str) (set_cookies : list str)
  | OpInject (now : Z) (has_cookie_header : bool) (host target : str) (is_https : bool)
  | OpCount (now : Z)
  | OpClear.

Definition run_jar_op (cookies : list Cookie) (o : jar_op) : list Cookie :=
  match o with
  | OpResponse now host target vs => OnResponseHeader now host target vs cookies
  | OpInject now has host target https =>
      (MaybeInjectCookies now has host target https cookies).2
  | OpCount now => (CookieCount now cookies).2
  | OpClear => ClearCookies cookies
  end.

Definition run_jar (ops : list jar_op) : list Cookie := foldl run_jar_op [] ops.

(** The hosts whose responses were processed. *)
Definition response_hosts (ops : list jar_op) : list str :=
  omap (fun o => match o with OpResponse _ h _ _ => Some h | _ => None end) ops.

Lemma jar_inv_sync hosts now host target v cookies :
  host ∈ hosts -> jar_inv hosts cookies ->
  jar_inv hosts (SyncSetCookie now host target v cookies).
Proof.
  intros Hin Hinv. unfold SyncSetCookie, UpsertFromSetCookieLocked.
  assert (jar_inv hosts (CleanupExpiredLocked now cookies)) as Hc by by apply jar_inv_filter.
  destruct (ParseSetCookieValue now host target v) as [c|] eqn:Hp; [|done].
  destruct (_ && _); [by apply jar_inv_filter|].
  apply jar_inv_upsert; [done|]. exists host. split; [done|].
  by eapply ParseSetCookieValue_wf.
Qed.

Lemma jar_inv_response hosts now host target vs cookies :
  host ∈ hosts -> jar_inv hosts cookies ->
  jar_inv hosts (OnResponseHeader now host target vs cookies).
Proof.
  intros Hin. unfold OnResponseHeader. revert cookies.
  induction vs as [|v vs IH]; intros cookies Hc; [done|]. apply IH. by apply jar_inv_sync.
Qed.

Lemma jar_inv_weaken hosts hosts' cookies :
  hosts ⊆ hosts' -> jar_inv hosts cookies -> jar_inv hosts' cookies.
Proof.
  intros Hsub [Hnd HF]. split; [done|]. eapply Forall_impl; [exact HF|].
  intros c (h & Hh & Hc). exists h. auto.
Qed.

Lemma run_jar_inv ops : jar_inv (response_hosts ops) (run_jar ops).
Proof.
  induction ops as [|o ops IH] using rev_ind; [by split; constructor|].
  unfold run_jar, response_hosts. rewrite foldl_app, omap_app. cbn [foldl].
  set (hosts := _ ++ _).
  assert (jar_inv hosts (run_jar ops)) as Hinv.
  { eapply jar_inv_weaken; [|exact IH]. intros x Hx. by apply elem_of_app; left. }
  destruct o as [now host target vs|now has host target https|now|]; cbn [run_jar_op].
  - assert (host ∈ hosts) as Hin by (apply elem_of_app; right; by left).
    by apply jar_inv_response.
  - unfold MaybeInjectCookies. destruct has; [done|].
    destruct (BuildCookieHeaderLocked _ _ _ _); by apply jar_inv_filter.
  - by apply jar_inv_filter.
  - by split; constructor.
Qed.

(** C24. Cookies never leak.  Whatever responses, requests, counts and clears
    have been processed, a cookie of the jar that is eligible for a request was
    set by a response of some host; it goes back to that same host only, or,
    when a Domain attribute widened it, to hosts that equal a domain or end in
    it after a dot, as the setting host itself does; a secure cookie goes over
    HTTPS only; and no two cookies of the jar have the same name, domain, scope
    and path. *)
Theorem cookies_never_leak ops c host path is_https :
  c ∈ run_jar ops -> eligible (NormalizeHost host) path is_https c = true ->
  NoDup (identity <$> run_jar ops) /\
  (c_secure c = true -> is_https = true) /\
  PathMatches path (c_path c) = true /\
  exists setter, setter ∈ response_hosts ops /\
    (NormalizeHost host = NormalizeHost setter \/
     exists d, d <> [] /\
       (NormalizeHost setter = d \/ exists p, NormalizeHost setter = p ++ "."%char :: d) /\
       (NormalizeHost host = d \/ exists p, NormalizeHost host = p ++ "."%char :: d)).
Proof.
  intros Hin He. destruct (run_jar_inv ops) as [Hnd HF].
  rewrite Forall_forall in HF. destruct (HF _ Hin) as (setter & Hs & _ & _ & Hv).
  unfold eligible in He. unfold vouched in Hv.
  destruct (c_secure c) eqn:Hsec, is_https; simpl in He; try done;
    (split_and!; [done|done| |exists setter; split; [done|]]);
    destruct (c_host_only c); (case_match eqn:Hd; [done|]); reflect_bools; try done.
  all: try (left; congruence).
  all: right; exists (c_domain c); rewrite !DomainMatches_spec in *; tauto.
Qed.
End jar.
