(* ===== verification/CookieExchange.v ===== *)
(** * CookieExchange: server and client cookies together

    The Set-Cookie text the server builds, read by the client's jar, and the
    Cookie text the jar builds, read by the server.  The two sides are separate
    code (server_set_cookie.cc and http_server_task_detail.h on the server,
    request_assembler.cc on the client); the theorems here are the contract
    between them. *)

From S2P Require Import Prelude Text ServerCookie ClientCookie.

(** ** Decimal numbers *)

Lemma digit_code n : (0 <= n < 10)%Z -> nat_of_ascii (digit n) = 48 + Z.to_nat n.
Proof. intros Hn. unfold digit. rewrite nat_ascii_embedding; lia. Qed.

Lemma digit_is_digit n : (0 <= n < 10)%Z -> is_digit (digit n) = true.
Proof.
  intros Hn. unfold is_digit. rewrite digit_code by done.
  apply andb_true_iff. rewrite !Nat.leb_le. lia.
Qed.

Lemma decimal_digits fuel n acc :
  (0 <= n)%Z -> Forall (fun c => is_digit c = true) acc ->
  Forall (fun c => is_digit c = true) (decimal fuel n acc).
Proof.
  revert n acc. induction fuel as [|fuel IH]; intros n acc Hn Hacc; simpl; [done|].
  assert (Forall (fun c => is_digit c = true) (digit (n mod 10) :: acc)).
  { constructor; [|done]. apply digit_is_digit, Z.mod_pos_bound. lia. }
  destruct (n / 10 =? 0)%Z; [done|]. apply IH; [|done]. by apply Z.div_pos.
Qed.

Lemma decimal_nonempty fuel n acc : 0 < fuel \/ acc <> [] -> decimal fuel n acc <> [].
Proof.
  revert n acc. induction fuel as [|fuel IH]; intros n acc Hf; simpl; [destruct Hf; [lia|done]|].
  destruct (n / 10 =? 0)%Z; [done|]. apply IH. by right.
Qed.

Lemma read_decimal fuel n acc :
  (0 <= n < 10 ^ Z.of_nat fuel)%Z -> read_digits (decimal fuel n acc) 0 = read_digits acc n.
Proof.
  revert n acc. induction fuel as [|fuel IH]; intros n acc Hn; cbn [decimal].
  { simpl in Hn. by replace n with 0%Z by lia. }
  assert (0 <= n mod 10 < 10)%Z as Hm by by apply Z.mod_pos_bound.
  assert (forall a, read_digits (digit (n mod 10) :: acc) a =
                    read_digits acc (10 * a + n mod 10)) as Hd.
  { intros a. cbn [read_digits]. rewrite digit_is_digit, digit_code by done. f_equal. lia. }
  pose proof (Z.div_mod n 10 ltac:(done)) as Hdm.
  destruct (Z.eqb_spec (n / 10) 0) as [H0|H0].
  - rewrite Hd. f_equal. lia.
  - rewrite IH, Hd.
    + f_equal. lia.
    + split; [apply Z.div_pos; lia|]. apply Z.div_lt_upper_bound; [done|].
      rewrite Nat2Z.inj_succ, Z.pow_succ_r in Hn by lia. lia.
Qed.

Lemma is_digit_range c : is_digit c = true -> 48 <= nat_of_ascii c <= 57.
Proof. unfold is_digit. rewrite andb_true_iff, !Nat.leb_le. done. Qed.

Lemma isspace_digit c : is_digit c = true -> isspace c = false.
Proof.
  intros Hc%is_digit_range. unfold isspace. apply orb_false_iff. split.
  - apply Nat.eqb_neq. lia.
  - apply andb_false_iff. right. apply Nat.leb_gt. lia.
Qed.

Lemma read_number_decimal n :
  (0 <= n < 10 ^ 20)%Z -> read_number (decimal 20 n []) = Some n.
Proof.
  intros Hn. unfold read_number.
  pose proof (decimal_digits 20 n [] ltac:(lia) (Forall_nil_2 _)) as HF.
  pose proof (decimal_nonempty 20 n [] ltac:(left; lia)) as Hne.
  pose proof (read_decimal 20 n [] ltac:(done)) as Hr.
  destruct (decimal 20 n []) as [|c s]; [done|]. apply Forall_cons in HF as [-> _].
  by rewrite Hr.
Qed.

Lemma decimal_head n :
  (0 <= n)%Z -> exists c s, decimal 20 n [] = c :: s /\ is_digit c = true.
Proof.
  intros Hn. pose proof (decimal_digits 20 n [] Hn (Forall_nil_2 _)) as HF.
  pose proof (decimal_nonempty 20 n [] ltac:(left; lia)) as Hne.
  destruct (decimal 20 n []) as [|c s]; [done|]. apply Forall_cons in HF as [Hc _]. eauto.
Qed.

(** [std::stoll] reads back what [std::to_string] writes. *)
Lemma stoll_to_string z : is_int64 z -> stoll (to_string z) = Some z.
Proof.
  intros Hz. pose proof Hz as Hz'. unfold is_int64, int64_min, int64_max in Hz'.
  unfold stoll, to_string. destruct (Z.ltb_spec z 0) as [Hneg|Hpos].
  - cbn [skip_space]. change (isspace "-"%char) with false. cbn iota.
    change ("-"%char =c "-"%char) with true. cbn iota.
    rewrite read_number_decimal by lia. cbn [fmap option_fmap option_map mbind option_bind].
    rewrite Z.opp_involutive. by rewrite bool_decide_true.
  - destruct (decimal_head z Hpos) as (c & s & Hd & Hc).
    pose proof (read_number_decimal z ltac:(lia)) as Hr. rewrite Hd in Hr |- *.
    pose proof (is_digit_range _ Hc) as Hrange.
    cbn [skip_space]. rewrite isspace_digit by done.
    destruct (Ascii.eqb_spec c "-"%char) as [->|_].
    { change (nat_of_ascii "-"%char) with 45 in Hrange. lia. }
    destruct (Ascii.eqb_spec c "+"%char) as [->|_].
    { change (nat_of_ascii "+"%char) with 43 in Hrange. lia. }
    rewrite Hr. cbn [mbind option_bind]. by rewrite bool_decide_true.
Qed.

(** ** The Set-Cookie text as a list of tokens *)

(** A token the text carries unchanged: not empty, no [;], no white space at
    its ends. *)
Definition token_ok (t : str) : Prop :=
  t <> [] /\ trimmed t /\ ";"%char ∉ t /\
  forall c, last t = Some c -> isspace c = false.

Definition opt_token (key : str) (v : option str) : list str :=
  match v with None | Some [] => [] | Some s => [key ++ lit "=" ++ s] end.

Definition attr_tokens (c : ServerSetCookie) : list str :=
  opt_token (lit "Expires") (expiry_ c)
  ++ opt_token (lit "Path") (path_ c)
  ++ opt_token (lit "Domain") (domain_ c)
  ++ opt_token (lit "Max-Age") (to_string <$> max_age_ c)
  ++ opt_token (lit "SameSite") (same_site_text <$> same_site_ c)
  ++ (if secure_flag c then [lit "Secure"] else [])
  ++ (if bool_decide (http_only_ c = Some true) then [lit "HttpOnly"] else []).

(** [" token;"] for each token. *)
Definition followed (ts : list str) : str :=
  concat ((fun t => " "%char :: t ++ lit ";") <$> ts).

Lemma followed_app a b : followed (a ++ b) = followed a ++ followed b.
Proof. unfold followed. by rewrite fmap_app, concat_app. Qed.

Lemma attribute_followed key v : attribute key v = followed (opt_token key v).
Proof.
  destruct v as [[|c s]|]; [done| |done]. unfold attribute, opt_token, followed.
  cbn [fmap list_fmap concat]. rewrite app_nil_r.
  change (lit " ") with [" "%char]. cbn [app]. by rewrite <- !app_assoc.
Qed.

Lemma attributes_tokens c : attributes c = followed (attr_tokens c).
Proof.
  unfold attributes, attr_tokens. rewrite !attribute_followed, !followed_app.
  do 5 f_equal. by destruct (secure_flag c), (bool_decide (http_only_ c = Some true)).
Qed.

Fixpoint joined (t : str) (ts : list str) : str :=
  match ts with [] => t | t' :: ts' => t ++ ";"%char :: " "%char :: joined t' ts' end.

Lemma joined_followed t ts : t ++ lit ";" ++ followed ts = joined t ts ++ lit ";".
Proof.
  revert t. induction ts as [|t' ts IH]; intros t; [by rewrite app_nil_r|].
  cbn [joined]. rewrite <- app_assoc. cbn [app]. rewrite <- IH.
  unfold followed. cbn [fmap list_fmap concat]. change (lit ";") with [";"%char].
  cbn [app]. by rewrite <- !app_assoc.
Qed.

(** The text ends in a character that the trimming loop keeps. *)
Lemma joined_end t ts :
  Forall token_ok (t :: ts) ->
  exists l c, joined t ts = l ++ [c] /\ isspace c = false /\ c <> ";"%char.
Proof.
  revert t. induction ts as [|t' ts IH]; intros t HF.
  - apply Forall_cons in HF as [(Hne & _ & Hsemi & Hlast) _]. simpl.
    destruct (last t) as [c|] eqn:Hl; [|by apply last_None in Hl].
    specialize (Hlast c eq_refl). apply last_Some in Hl as [l ->].
    exists l, c. split_and!; [done..|]. intros ->. apply Hsemi, elem_of_app. right. by left.
  - apply Forall_cons in HF as [_ HF]. destruct (IH t' HF) as (l & c & Heq & Hc).
    exists (t ++ ";"%char :: " "%char :: l), c. split; [|done].
    cbn [joined]. rewrite Heq. by rewrite <- app_assoc.
Qed.

Lemma pop_trailing_keeps l c :
  isspace c = false -> c <> ";"%char -> pop_trailing ((l ++ [c]) ++ lit ";") = l ++ [c].
Proof.
  intros Hs Hc. unfold pop_trailing. rewrite !rev_app_distr. change (rev (lit ";")) with [";"%char].
  cbn [app drop_trailing rev]. change (";"%char =c ";"%char) with true. rewrite orb_true_r.
  rewrite Hs. destruct (Ascii.eqb_spec c ";"%char); [done|]. cbn [orb].
  by rewrite <- rev_unit, rev_involutive.
Qed.

Lemma ToString_joined c n v :
  name_ c = Some n -> value_ c = Some v -> n <> [] -> v <> [] ->
  Forall token_ok ((n ++ lit "=" ++ v) :: attr_tokens c) ->
  ToString c = joined (n ++ lit "=" ++ v) (attr_tokens c).
Proof.
  intros Hn Hv Hne Hve HF. unfold ToString. rewrite Hn, Hv.
  destruct n as [|a n]; [done|]. destruct v as [|b v]; [done|].
  destruct (joined_end _ _ HF) as (l & d & Heq & Hd & Hsemi).
  rewrite attributes_tokens.
  replace ((a :: n) ++ lit "=" ++ (b :: v) ++ lit ";" ++ followed (attr_tokens c))
    with (((a :: n) ++ lit "=" ++ (b :: v)) ++ lit ";" ++ followed (attr_tokens c))
    by by rewrite <- !app_assoc.
  rewrite joined_followed, Heq. by apply pop_trailing_keeps.
Qed.

(** ** Splitting it again *)

Lemma joined_nonempty t ts : t <> [] -> joined t ts <> [].
Proof. intros Ht. destruct ts; simpl; [done|]. by destruct t. Qed.

Lemma split_tokens_joined fuel t ts (sp : str) :
  sp = [] \/ sp = lit " " -> Forall token_ok (t :: ts) ->
  length (sp ++ joined t ts) <= fuel -> split_tokens fuel (sp ++ joined t ts) = t :: ts.
Proof.
  intros Hsp. assert (forall s, TrimView (sp ++ s) = TrimView s) as Htrim.
  { intros s. destruct Hsp as [->| ->]; [done|]. apply TrimView_leading_space. }
  assert (";"%char ∉ sp) as Hsemi.
  { destruct Hsp as [->| ->]; [apply not_elem_of_nil|]. by intros ?%list_elem_of_singleton. }
  clear Hsp. revert sp t Htrim Hsemi fuel.
  induction ts as [|t' ts IH]; intros sp t Htrim Hsemi fuel HF Hlen;
    apply Forall_cons in HF as [(Hne & Ht & Hs & _) HF];
    (destruct fuel as [|fuel]; [rewrite length_app in Hlen; by destruct t; simpl in Hlen; try lia|]);
    cbn [joined] in *.
  - assert (";"%char ∉ sp ++ t) as Hno by (rewrite elem_of_app; naive_solver).
    cbn [split_tokens]. rewrite find_char_snoc_notin by done.
    rewrite Htrim, TrimView_trimmed_id by done. by destruct sp, t.
  - assert (";"%char ∉ sp ++ t) as Hno by (rewrite elem_of_app; naive_solver).
    replace (sp ++ t ++ ";"%char :: " "%char :: joined t' ts)
      with ((sp ++ t) ++ ";"%char :: " "%char :: joined t' ts) in * by by rewrite <- app_assoc.
    cbn [split_tokens]. rewrite find_char_app by done.
    rewrite take_app_length, Htrim, TrimView_trimmed_id by done.
    rewrite drop_app_ge by lia.
    replace (length (sp ++ t) + 1 - length (sp ++ t)) with 1 by lia. cbn [drop].
    assert (split_tokens fuel (" "%char :: joined t' ts) = t' :: ts) as Hrec.
    { apply (IH [" "%char]); [apply TrimView_leading_space|by intros ?%list_elem_of_singleton|done|].
      rewrite length_app in Hlen. simpl in *. lia. }
    rewrite Hrec. destruct (sp ++ t) eqn:E; [|done]. by destruct sp, t.
Qed.

Lemma SplitSetCookieTokens_joined t ts :
  Forall token_ok (t :: ts) -> SplitSetCookieTokens (joined t ts) = t :: ts.
Proof.
  intros HF. apply (split_tokens_joined _ t ts []); [by left|done|]. simpl. lia.
Qed.

Lemma joined_trimmed t ts : Forall token_ok (t :: ts) -> trimmed (joined t ts).
Proof.
  intros HF. destruct (joined_end _ _ HF) as (l & c & Heq & Hc & _).
  apply Forall_cons in HF as [(Hne & Ht & _) _].
  assert (exists a s, joined t ts = a :: s /\ is_ws a = false) as (a & s & Ha & Hws).
  { destruct t as [|a s]; [done|]. destruct Ht as [Ha _].
    destruct ts; simpl; eauto. }
  rewrite Ha. split; [done|]. exists l, c. rewrite <- Ha. split; [done|].
  unfold isspace in Hc. unfold is_ws.
  destruct (Ascii.eqb_spec c " "%char) as [->|]; [done|].
  destruct (Ascii.eqb_spec c "009"%char) as [->|]; [done|].
  destruct (Ascii.eqb_spec c "013"%char) as [->|]; [done|].
  destruct (Ascii.eqb_spec c "010"%char) as [->|]; done.
Qed.

(** ** The round trip *)

Section exchange.
Context (get_time : str -> option tm).

Lemma apply_tokens_app h a b ce :
  apply_tokens get_time h (a ++ b) ce =
    apply_tokens get_time h a ce ≫= apply_tokens get_time h b.
Proof.
  revert ce. induction a as [|[|x t] a IH]; intros ce; [done|apply IH|].
  cbn [app apply_tokens]. destruct (SplitOnce (x :: t) "="%char) as [k v].
  destruct (ApplySetCookieAttribute _ _ _ _ ce); [apply IH|done].
Qed.

(** An attribute that is given, [None] for an empty one. *)
Definition given (v : option str) : option str :=
  match v with None | Some [] => None | Some s => Some s end.

Definition value_ok (v : option str) : Prop := forall s, given v = Some s -> token_ok s.

Lemma apply_opt_token key v h ce :
  key <> [] -> TrimView key = key -> "="%char ∉ key -> value_ok v ->
  apply_tokens get_time h (opt_token key v) ce =
    match given v with
    | None => Some ce
    | Some s => ApplySetCookieAttribute get_time key s h ce
    end.
Proof.
  intros Hk Htk Heq Hv. unfold value_ok in Hv. destruct v as [[|x s]|]; [done| |done].
  cbn [opt_token given] in *. destruct (Hv _ eq_refl) as (_ & Ht & _).
  cbn [apply_tokens]. change (lit "=" ++ x :: s) with ("="%char :: x :: s).
  destruct (key ++ "="%char :: x :: s) as [|a b] eqn:E; [by destruct key|]. rewrite <- E.
  unfold SplitOnce. rewrite find_char_app by done. rewrite take_app_length, Htk.
  rewrite drop_app_ge by lia. replace (length key + 1 - length key) with 1 by lia.
  cbn [drop]. rewrite TrimView_trimmed_id by done.
  by destruct (ApplySetCookieAttribute _ _ _ _ _).
Qed.

Lemma opt_token_ok key v :
  key <> [] -> trimmed key -> ";"%char ∉ key -> value_ok v ->
  Forall token_ok (opt_token key v).
Proof.
  intros Hk Ht Hs Hv. unfold value_ok in Hv. destruct v as [[|x s]|]; [constructor| |constructor].
  destruct (Hv _ eq_refl) as (_ & Hts & Hss & Hl). constructor; [|constructor].
  split_and!.
  - by destruct key.
  - by apply trimmed_pair.
  - rewrite !elem_of_app. intros [?|[Heq|?]]; [done| |done].
    by apply list_elem_of_singleton in Heq.
  - intros c Hc. apply Hl. rewrite last_app in Hc. rewrite last_app in Hc.
    destruct (last (x :: s)) eqn:E; [done|]. by apply last_None in E.
Qed.

Lemma trimmed_all s : s <> [] -> Forall (fun c => is_ws c = false) s -> trimmed s.
Proof.
  intros Hne HF. destruct s as [|c s]; [done|]. pose proof HF as [Hc _]%Forall_cons.
  split; [done|]. destruct (last (c :: s)) as [d|] eqn:Hl; [|by apply last_None in Hl].
  apply last_Some in Hl as [l Hl]. exists l, d. split; [done|]. rewrite Hl in HF.
  apply Forall_app in HF as [_ HF]. by apply Forall_cons in HF as [? _].
Qed.

(** A token without any white space. *)
Lemma token_ok_solid s :
  s <> [] -> Forall (fun c => isspace c = false /\ is_ws c = false /\ c <> ";"%char) s ->
  token_ok s.
Proof.
  intros Hne HF. split_and!; [done| | |].
  - apply trimmed_all; [done|]. eapply Forall_impl; [exact HF|]. naive_solver.
  - intros Hin. rewrite Forall_forall in HF. by destruct (HF _ Hin) as (_ & _ & ?).
  - intros c Hc. rewrite Forall_forall in HF. apply last_Some in Hc as [l ->].
    apply HF, elem_of_app. right. by left.
Qed.

Lemma number_solid z :
  Forall (fun c => isspace c = false /\ is_ws c = false /\ c <> ";"%char) (to_string z).
Proof.
  assert (forall n, (0 <= n)%Z -> Forall (fun c => isspace c = false /\ is_ws c = false /\
    c <> ";"%char) (decimal 20 n [])) as Hd.
  { intros n Hn. eapply Forall_impl; [apply decimal_digits; [done|constructor]|].
    intros c Hc. pose proof (is_digit_range _ Hc) as Hr.
    split; [by apply isspace_digit|].
    split; [|intros ->; change (nat_of_ascii ";"%char) with 59 in Hr; lia].
    unfold is_ws. repeat (apply orb_false_iff; split); apply Ascii.eqb_neq; intros ->;
      vm_compute in Hr; lia. }
  unfold to_string. destruct (Z.ltb_spec z 0); [|apply Hd; lia].
  constructor; [done|]. apply Hd. lia.
Qed.

Lemma to_string_ok z : token_ok (to_string z).
Proof.
  apply token_ok_solid; [|apply number_solid]. unfold to_string.
  destruct (z <? 0)%Z; [done|]. apply decimal_nonempty. left. lia.
Qed.

(** A Set-Cookie the server may build and the text carries. *)
Record set_cookie_ok (c : ServerSetCookie) (n v : str) : Prop := {
  sc_name : name_ c = Some n;
  sc_value : value_ c = Some v;
  sc_n : n <> [] /\ trimmed n /\ ";"%char ∉ n /\ "="%char ∉ n;
  sc_v : token_ok v;
  sc_expires : value_ok (expiry_ c);
  sc_path : value_ok (path_ c);
  sc_domain : value_ok (domain_ c);
  sc_age : forall z, max_age_ c = Some z -> is_int64 z;
}.

Lemma given_to_string o : given (to_string <$> o) = to_string <$> o.
Proof.
  destruct o as [z|]; [|done]. simpl. destruct (to_string_ok z) as [Hne _].
  by destruct (to_string z).
Qed.

Lemma max_age_ok o : value_ok (to_string <$> o).
Proof. intros s. rewrite given_to_string. intros (z & -> & ->)%fmap_Some. apply to_string_ok. Qed.

Lemma same_site_ok o : value_ok (same_site_text <$> o).
Proof.
  intros s Hs. assert (exists x, s = same_site_text x) as [x ->].
  { destruct o as [x|]; [|done]. exists x. by destruct x; injection Hs as <-. }
  apply token_ok_solid; [by destruct x|]. destruct x; by apply (bool_decide_unpack _).
Qed.

Lemma attr_tokens_ok c n v : set_cookie_ok c n v -> Forall token_ok (attr_tokens c).
Proof.
  intros [_ _ _ _ He Hp Hd _]. unfold attr_tokens.
  assert (forall key, key <> [] -> Forall (fun c => is_ws c = false) key -> trimmed key) as Hk
    by (intros; by apply trimmed_all).
  repeat apply Forall_app_2;
    try (apply opt_token_ok; [done|apply Hk; [done|vm_compute; repeat constructor]
      |by apply (bool_decide_unpack _)
      |auto using max_age_ok, same_site_ok]).
  - destruct (secure_flag c); [|constructor]. constructor; [|constructor].
    apply token_ok_solid; [done|]. by apply (bool_decide_unpack _).
  - case_bool_decide; [|constructor]. constructor; [|constructor].
    apply token_ok_solid; [done|]. by apply (bool_decide_unpack _).
Qed.

Lemma attr_expires s h c e :
  ApplySetCookieAttribute get_time (lit "Expires") s h (c, e) =
    Some (c, mkExpiry (has_max_age e) (max_age_valid e) (max_age_secs e)
               (ParseImfFixdate get_time s)).
Proof. reflexivity. Qed.

Lemma attr_path s h c e :
  head s = Some "/"%char ->
  ApplySetCookieAttribute get_time (lit "Path") s h (c, e) =
    Some (mkCookie (c_name c) (c_value c) (c_domain c) (c_host_only c) s
            (c_secure c) (c_expiry c), e).
Proof.
  intros Hs. change (ApplySetCookieAttribute get_time (lit "Path") s h (c, e)) with
    (if bool_decide (head s = Some "/"%char)
     then Some (mkCookie (c_name c) (c_value c) (c_domain c) (c_host_only c) s
                  (c_secure c) (c_expiry c), e) else Some (c, e)).
  by rewrite bool_decide_true.
Qed.

Lemma attr_domain s h c e :
  NormalizeDomain s <> [] -> DomainMatches h (NormalizeDomain s) = true ->
  ApplySetCookieAttribute get_time (lit "Domain") s h (c, e) =
    Some (mkCookie (c_name c) (c_value c) (NormalizeDomain s) false (c_path c)
            (c_secure c) (c_expiry c), e).
Proof.
  intros Hne Hm. change (ApplySetCookieAttribute get_time (lit "Domain") s h (c, e)) with
    (if negb (bool_decide (NormalizeDomain s = [])) && DomainMatches h (NormalizeDomain s)
     then Some (mkCookie (c_name c) (c_value c) (NormalizeDomain s) false (c_path c)
                  (c_secure c) (c_expiry c), e) else None).
  by rewrite Hm, bool_decide_false.
Qed.

Lemma attr_max_age z h c e :
  is_int64 z ->
  ApplySetCookieAttribute get_time (lit "Max-Age") (to_string z) h (c, e) =
    Some (c, mkExpiry true true z (expires_tp e)).
Proof.
  intros Hz. change (ApplySetCookieAttribute get_time (lit "Max-Age") (to_string z) h (c, e)) with
    (match stoll (to_string z) with
     | Some n => Some (c, mkExpiry true true n (expires_tp e))
     | None => Some (c, mkExpiry true false (max_age_secs e) (expires_tp e))
     end).
  by rewrite stoll_to_string.
Qed.

Lemma same_site_step h ce o :
  apply_tokens get_time h (opt_token (lit "SameSite") (same_site_text <$> o)) ce = Some ce.
Proof. destruct ce. by destruct o as [[]|]. Qed.

Lemma flags_step h c e (secure http_only : bool) :
  apply_tokens get_time h
    ((if secure then [lit "Secure"] else []) ++ (if http_only then [lit "HttpOnly"] else [])) (c, e) =
  Some (mkCookie (c_name c) (c_value c) (c_domain c) (c_host_only c) (c_path c)
          (secure || c_secure c) (c_expiry c), e).
Proof. destruct c. by destruct secure, http_only. Qed.

(** What the client should make of the cookie. *)
Definition client_view (now : Z) (host target n v : str) (c : ServerSetCookie) : Cookie :=
  let host_norm := NormalizeHost host in
  ComputeAndApplyExpiry now
    (mkExpiry (bool_decide (is_Some (max_age_ c))) (bool_decide (is_Some (max_age_ c)))
       (default 0%Z (max_age_ c)) (given (expiry_ c) ≫= ParseImfFixdate get_time))
    (mkCookie n v (from_option NormalizeDomain host_norm (given (domain_ c)))
       (bool_decide (given (domain_ c) = None))
       (default (DefaultPathFromTarget target) (given (path_ c)))
       (secure_flag c) None).

Lemma SplitOnce_pair n v : "="%char ∉ n -> SplitOnce (n ++ lit "=" ++ v) "="%char = (n, v).
Proof.
  intros Hn. unfold SplitOnce. change (lit "=" ++ v) with ("="%char :: v).
  rewrite find_char_app by done. rewrite take_app_length, drop_app_ge by lia.
  by replace (length n + 1 - length n) with 1 by lia.
Qed.

Local Ltac opt_step key lem :=
  rewrite apply_tokens_app, (apply_opt_token key) by
    (first [done | by apply (bool_decide_unpack _) | assumption
           | apply max_age_ok | apply same_site_ok]);
  lem; cbn [mbind option_bind].

Lemma apply_attr_tokens host target n v c :
  set_cookie_ok c n v ->
  (forall d, given (domain_ c) = Some d ->
     NormalizeDomain d <> [] /\ DomainMatches (NormalizeHost host) (NormalizeDomain d) = true) ->
  (forall p, given (path_ c) = Some p -> head p = Some "/"%char) ->
  exists e, apply_tokens get_time (NormalizeHost host) (attr_tokens c)
    (mkCookie n v (NormalizeHost host) true (DefaultPathFromTarget target) false None,
     mkExpiry false false 0 None) =
  Some (mkCookie n v (from_option NormalizeDomain (NormalizeHost host) (given (domain_ c)))
       (bool_decide (given (domain_ c) = None))
       (default (DefaultPathFromTarget target) (given (path_ c)))
       (secure_flag c) None, e) /\
  e = mkExpiry (bool_decide (is_Some (max_age_ c))) (bool_decide (is_Some (max_age_ c)))
       (default 0%Z (max_age_ c)) (given (expiry_ c) ≫= ParseImfFixdate get_time).
Proof.
  intros Hok Hdom Hpath. pose proof Hok as [_ _ _ _ He Hp Hd Hz]. unfold attr_tokens.
  eexists. split; [|reflexivity].
  opt_step (lit "Expires") ltac:(destruct (given (expiry_ c)) as [x|]; rewrite ?attr_expires).
  all: opt_step (lit "Path")
    ltac:(destruct (given (path_ c)) as [p|]; [rewrite attr_path by auto|]).
  all: opt_step (lit "Domain")
    ltac:(destruct (given (domain_ c)) as [d|];
          [destruct (Hdom d eq_refl); rewrite attr_domain by done|]).
  all: opt_step (lit "Max-Age")
    ltac:(rewrite given_to_string; destruct (max_age_ c) as [z|];
          cbn [fmap option_fmap option_map]; [rewrite attr_max_age by auto|]).
  all: rewrite apply_tokens_app, same_site_step; cbn [mbind option_bind].
  all: rewrite flags_step; cbn; by rewrite orb_false_r.
Qed.

Lemma set_cookie_parsed now host target n v c :
  set_cookie_ok c n v ->
  (forall d, given (domain_ c) = Some d ->
     NormalizeDomain d <> [] /\ DomainMatches (NormalizeHost host) (NormalizeDomain d) = true) ->
  (forall p, given (path_ c) = Some p -> head p = Some "/"%char) ->
  ParseSetCookieValue get_time now host target (ToString c) =
    Some (client_view now host target n v c).
Proof.
  intros Hok Hdom Hpath. pose proof (attr_tokens_ok c n v Hok) as Hattr.
  pose proof Hok as [Hn Hv (Hne & Htn & Hsn & Heq) Hvok _ _ _ _].
  pose proof Hvok as (Hve & Htv & Hsv & Hlast).
  assert (Forall token_ok ((n ++ lit "=" ++ v) :: attr_tokens c)) as HF.
  { constructor; [|done]. assert (value_ok (Some v)) as Hvo.
    { intros s Hs. destruct v; [done|]. by injection Hs as <-. }
    pose proof (opt_token_ok n (Some v) Hne Htn Hsn Hvo) as HF.
    destruct v; [done|]. by apply Forall_cons in HF as [? _]. }
  rewrite (ToString_joined c n v) by done. unfold ParseSetCookieValue.
  rewrite TrimView_trimmed_id by by apply joined_trimmed.
  destruct (joined (n ++ lit "=" ++ v) (attr_tokens c)) as [|a s] eqn:Ej.
  { apply joined_nonempty in Ej; [done|]. by destruct n. }
  rewrite <- Ej, SplitSetCookieTokens_joined by done.
  destruct (n ++ lit "=" ++ v) as [|b t] eqn:Ep; [by destruct n|]. rewrite <- Ep.
  rewrite SplitOnce_pair by done. rewrite !TrimView_trimmed_id by done.
  destruct (apply_attr_tokens host target n v c Hok Hdom Hpath) as (e & Happ & ->).
  destruct n as [|a' n]; [done|]. by rewrite Happ.
Qed.
(** C25. A Set-Cookie header survives the wire.  Whatever the server builds
    from a well-formed name, value and attributes, [ToString] gives a text that
    the client's [ParseSetCookieValue] reads back as that name and value, with
    the Path, Domain, Secure, Max-Age and Expires the server set (Max-Age over
    Expires), and with the client's defaults for those it did not set. *)
Theorem set_cookie_round_trip now host target n v c :
  set_cookie_ok c n v ->
  (forall d, given (domain_ c) = Some d ->
     NormalizeDomain d <> [] /\ DomainMatches (NormalizeHost host) (NormalizeDomain d) = true) ->
  (forall p, given (path_ c) = Some p -> head p = Some "/"%char) ->
  ParseSetCookieValue get_time now host target (ToString c) =
    Some (client_view now host target n v c).
Proof. apply set_cookie_parsed. Qed.
End exchange.

(** ** The Cookie header, from the jar to the server *)

Lemma foldl_insert_notin (l : list (str * str)) (m : gmap str str) n :
  n ∉ l.*1 -> foldl (fun m nv => <[nv.1 := nv.2]> m) m l !! n = m !! n.
Proof.
  revert m. induction l as [|[a x] l IH]; intros m Hn; [done|].
  rewrite fmap_cons in Hn. apply not_elem_of_cons in Hn as [Ha Hn]. simpl in *.
  rewrite IH by done. by rewrite lookup_insert_ne.
Qed.

Lemma foldl_insert_iff (l : list (str * str)) n v :
  NoDup l.*1 ->
  foldl (fun m nv => <[nv.1 := nv.2]> m) (∅ : gmap str str) l !! n = Some v <-> (n, v) ∈ l.
Proof.
  intros Hnd. split; [|by apply foldl_insert_lookup].
  intros Hv. destruct (decide (n ∈ l.*1)) as [Hin|Hin].
  - apply list_elem_of_fmap in Hin as ([n' v'] & -> & Hin). simpl in Hv.
    rewrite (foldl_insert_lookup l ∅ n' v') in Hv by done. by injection Hv as <-.
  - rewrite foldl_insert_notin in Hv by done. done.
Qed.

Lemma filter_keep_all {A} (P : A -> Prop) `{forall x, Decision (P x)} (l : list A) :
  Forall P l -> filter P l = l.
Proof. induction 1 as [|x l Hx _ IH]; [done|]. rewrite filter_cons_True by done. by f_equal. Qed.

(** The cookies of a jar that go with a request. *)
Definition selected (host target : str) (is_https : bool) (cookies : list Cookie) : list Cookie :=
  filter (fun c => eligible (NormalizeHost host)
                     (prefix_upto target (find_char "?"%char target)) is_https c = true) cookies.

Lemma cookie_header_read sort host target is_https cookies n v :
  (forall l, sort l ≡ₚ l) ->
  let sel := selected host target is_https cookies in
  Forall (fun c => cookie_ok (pair_of c)) sel -> NoDup (c_name <$> sel) ->
  GenerateCookiePairs (BuildCookieHeaderLocked sort host target is_https cookies) !! n = Some v
  <-> exists c, c ∈ sel /\ c_name c = n /\ c_value c = v.
Proof.
  intros Hperm sel Hok Hnd. unfold BuildCookieHeaderLocked, CollectMatchingCookiesLocked.
  set (path := prefix_upto target (find_char "?"%char target)).
  destruct (collect_spec (NormalizeHost host) path is_https [] cookies) as [Hsel _].
  cbn [length app] in Hsel. change (filter _ cookies) with sel in Hsel.
  set (cands := collect _ _ _ _ _) in *.
  assert (omap (fun k => cookies !! k.1) (sort cands) ≡ₚ sel) as Hp
    by by rewrite Hperm, Hsel.
  assert (match cands with [] => [] | _ => SerializeCookieCandidates (sort cands) cookies end
          = serialize_pairs (pair_of <$> omap (fun k => cookies !! k.1) (sort cands))) as Hser.
  { transitivity (SerializeCookieCandidates (sort cands) cookies).
    - destruct cands as [|k ks] eqn:E; [|done]. pose proof (Hperm []) as Hp0.
      symmetry in Hp0. apply Permutation_nil in Hp0. by rewrite Hp0.
    - rewrite serialize_candidates. do 2 f_equal. apply filter_keep_all.
      rewrite Hp. eapply Forall_impl; [exact Hok|]. by intros c (? & _). }
  replace (match cands with [] => [] | k :: ks => _ end) with
    (serialize_pairs (pair_of <$> omap (fun k => cookies !! k.1) (sort cands)))
    by (rewrite <- Hser; by destruct cands).
  rewrite generate_serialized, foldl_insert_iff.
  - rewrite Hp, list_elem_of_fmap. unfold pair_of. naive_solver.
  - rewrite Hp. by rewrite <- list_fmap_compose.
  - rewrite Hp. by rewrite Forall_fmap.
Qed.

(** The server reads what the jar sends.  When the cookies that go with a
    request have names and values a header can carry, and no two of them the
    same name, the map [GenerateCookiePairs] builds from the header holds
    exactly these names, each with its value. *)
Theorem cookie_header_round_trip sort host target is_https cookies n v :
  (forall l, sort l ≡ₚ l) ->
  let sel := selected host target is_https cookies in
  Forall (fun c => cookie_ok (pair_of c)) sel -> NoDup (c_name <$> sel) ->
  GenerateCookiePairs (BuildCookieHeaderLocked sort host target is_https cookies) !! n = Some v
  <-> exists c, c ∈ sel /\ c_name c = n /\ c_value c = v.
Proof. apply cookie_header_read. Qed.

(** ** Far expiry dates *)

Definition far_date : str := lit "Fri, 31 Dec 9999 23:59:59 GMT".
Definition far_tm : tm := mkTm 8099 11 31 23 59 59.

(** A cookie meant to last is deleted.  The conversion of a date to the
    clock's 64-bit nanoseconds wraps around (for dates from the year 2262 on),
    and the usual "never expires" date of the year 9999 lands before 1970: the
    client takes the cookie as expired and removes the one it had, whatever the
    jar holds. *)
Theorem far_expires_deletes get_time now host target cookies :
  get_time far_date = Some far_tm -> (0 <= now)%Z ->
  let jar := SyncSetCookie get_time now host target
               (lit "sid=abc; Expires=Fri, 31 Dec 9999 23:59:59 GMT") cookies in
  forall c, c ∈ jar ->
    identity c <> (lit "sid", NormalizeHost host, true, DefaultPathFromTarget target).
Proof.
  intros Hg Hnow. cbn zeta. intros c. unfold SyncSetCookie, UpsertFromSetCookieLocked.
  assert (ParseImfFixdate get_time far_date = Some (-4852116232933722624)%Z) as Hd.
  { unfold ParseImfFixdate. rewrite Hg. reflexivity. }
  change (ParseSetCookieValue get_time now host target
            (lit "sid=abc; Expires=Fri, 31 Dec 9999 23:59:59 GMT")) with
    (Some (ComputeAndApplyExpiry now (mkExpiry false false 0 (ParseImfFixdate get_time far_date))
       (mkCookie (lit "sid") (lit "abc") (NormalizeHost host) true
          (DefaultPathFromTarget target) false None))).
  rewrite Hd. cbn. unfold expired. cbn.
  destruct (Z.leb_spec (-4852116232933722624) now) as [_|Hlt]; [|lia].
  cbn. intros [Hs _]%list_elem_of_filter Hid.
  apply not_true_iff_false in Hs. by rewrite same_cookie_spec in Hs.
Qed.

Definition long_max_age : str := lit "sid=abc; Max-Age=10000000000".

(** A long Max-Age is never used.  Adding 10,000,000,000 seconds (about
    317 years) to the clock wraps around too: the cookie is stored with an
    expiry in the past, so the clean-up of the next request drops it and it is
    not sent. *)
Theorem long_max_age_not_sent get_time sort now host target is_https :
  (0 <= now < 2 ^ 62)%Z ->
  let jar := SyncSetCookie get_time now host target long_max_age [] in
  length jar = 1 /\
  MaybeInjectCookies sort now false host target is_https jar = (None, []).
Proof.
  intros Hnow. cbn zeta. unfold SyncSetCookie, UpsertFromSetCookieLocked.
  change (ParseSetCookieValue get_time now host target long_max_age) with
    (Some (mkCookie (lit "sid") (lit "abc") (NormalizeHost host) true
       (DefaultPathFromTarget target) false
       (Some (to_int64 (now + seconds_to_ticks 10000000000))))).
  change (seconds_to_ticks 10000000000) with (-8446744073709551616)%Z.
  rewrite to_int64_small by (unfold is_int64, int64_min, int64_max; lia).
  cbn [c_value c_expiry]. case_bool_decide as Hv; [done|]. clear Hv.
  cbn [andb UpsertCookieLocked CleanupExpiredLocked filter list_filter].
  split; [done|]. unfold MaybeInjectCookies, CleanupExpiredLocked.
  rewrite filter_cons_False; [done|]. unfold expired. cbn [c_expiry].
  destruct (Z.leb_spec (now + -8446744073709551616) now); [done|lia].
Qed.

(** ** Witnesses *)

Definition no_dates (_ : str) : option tm := None.
Definition far_dates (s : str) : option tm := if s =s far_date then Some far_tm else None.

(** A sort with the properties [std::ranges::sort] promises. *)
Definition longest_first (a b : nat * nat) : Prop := b.2 <= a.2.
#[global] Instance longest_first_dec a b : Decision (longest_first a b).
Proof. unfold longest_first. apply _. Defined.
#[global] Instance longest_first_trans : Transitive longest_first.
Proof. intros a b c ? ?. unfold longest_first in *. lia. Qed.
#[global] Instance longest_first_total : Total longest_first.
Proof. intros a b. unfold longest_first. lia. Qed.

Definition stable_sort : list (nat * nat) -> list (nat * nat) := merge_sort longest_first.

Lemma stable_sort_perm l : stable_sort l ≡ₚ l.
Proof. apply merge_sort_Permutation. Qed.
Lemma stable_sort_desc l : StronglySorted (fun a b => b.2 <= a.2) (stable_sort l).
Proof. apply (StronglySorted_merge_sort longest_first). Qed.

Definition sample_ops : list jar_op :=
  [OpResponse 100 (lit "Shop.example.com") (lit "/cart/view")
     [lit "sid=abc; Domain=example.com; Path=/; Secure"; lit "theme=dark"]].
Definition sample_jar : list Cookie := run_jar no_dates stable_sort sample_ops.

Lemma cookie_header_exact_witness :
  exists sel, length sel = 2 /\
    BuildCookieHeaderLocked stable_sort (lit "shop.example.com") (lit "/cart/pay?x=1") true
      sample_jar = serialize_pairs (pair_of <$> filter named sel).
Proof.
  destruct (cookie_header_exact stable_sort stable_sort_perm stable_sort_desc
    (lit "shop.example.com") (lit "/cart/pay?x=1") true sample_jar) as (sel & Hp & _ & Hs).
  exists sel. split; [|exact Hs]. rewrite (Permutation_length Hp). vm_compute. reflexivity.
Defined.

Lemma cookies_never_leak_witness :
  exists c, c ∈ sample_jar /\ c_name c = lit "sid" /\
    exists setter, setter ∈ response_hosts sample_ops.
Proof.
  destruct sample_jar as [|c l] eqn:E; [vm_compute in E; discriminate E|].
  exists c. split; [left|].
  assert (c ∈ run_jar no_dates stable_sort sample_ops) as Hin
    by (change (c ∈ sample_jar); rewrite E; left).
  vm_compute in E. injection E as Hc _. split; [by rewrite <- Hc|].
  destruct (cookies_never_leak no_dates stable_sort sample_ops c (lit "pay.example.com")
    (lit "/x") true Hin) as (_ & _ & _ & setter & Hs & _);
    [rewrite <- Hc; vm_compute; reflexivity|].
  exists setter. exact Hs.
Defined.

Definition sample_set_cookie : ServerSetCookie :=
  mkSetCookie (Some (lit "sessionId")) (Some (lit "a=b")) None (Some (lit "/app")) None
    (Some 3600%Z) (Some kNone) None (Some true).

Lemma set_cookie_round_trip_witness :
  ToString sample_set_cookie =
    lit "sessionId=a=b; Path=/app; Max-Age=3600; SameSite=None; Secure; HttpOnly" /\
  ParseSetCookieValue no_dates 0 (lit "Example.com") (lit "/app/login") (ToString sample_set_cookie) =
    Some (mkCookie (lit "sessionId") (lit "a=b") (lit "example.com") true (lit "/app") true
            (Some 3600000000000%Z)).
Proof.
  split; [vm_compute; reflexivity|].
  rewrite (set_cookie_round_trip no_dates 0 (lit "Example.com") (lit "/app/login")
    (lit "sessionId") (lit "a=b") sample_set_cookie).
  - vm_compute. reflexivity.
  - split; try reflexivity.
    + split_and!; [discriminate|apply trimmed_all; [discriminate|vm_compute; repeat constructor]
        |by apply (bool_decide_unpack _)..].
    + apply token_ok_solid; [discriminate|]. by apply (bool_decide_unpack _).
    + intros s Hs. discriminate Hs.
    + intros s Hs. injection Hs as <-. apply token_ok_solid; [discriminate|].
      by apply (bool_decide_unpack _).
    + intros s Hs. discriminate Hs.
    + intros z Hz. injection Hz as <-. unfold is_int64, int64_min, int64_max. lia.
  - intros d Hd. discriminate Hd.
  - intros p Hp. injection Hp as <-. reflexivity.
Defined.

Lemma cookie_ok_solid n v :
  n <> [] -> v <> [] -> "="%char ∉ n -> strip_quotes v = v ->
  Forall (fun c => isspace c = false /\ is_ws c = false /\ c <> ";"%char) (n ++ v) ->
  cookie_ok (n, v).
Proof.
  intros Hn Hv Heq Hq [HFn HFv]%Forall_app.
  destruct (token_ok_solid n Hn HFn) as (_ & Htn & Hsn & _).
  destruct (token_ok_solid v Hv HFv) as (_ & Htv & Hsv & _).
  by split_and!.
Qed.

Lemma sample_selected :
  selected (lit "shop.example.com") (lit "/cart/pay") true sample_jar =
  [mkCookie (lit "sid") (lit "abc") (lit "example.com") false (lit "/") true None;
   mkCookie (lit "theme") (lit "dark") (lit "shop.example.com") true (lit "/cart") false None].
Proof. vm_compute. reflexivity. Qed.

Lemma cookie_header_round_trip_witness :
  GenerateCookiePairs
    (BuildCookieHeaderLocked stable_sort (lit "shop.example.com") (lit "/cart/pay") true sample_jar)
    !! lit "theme" = Some (lit "dark").
Proof.
  apply (cookie_header_round_trip stable_sort (lit "shop.example.com") (lit "/cart/pay") true
    sample_jar (lit "theme") (lit "dark") stable_sort_perm); rewrite sample_selected.
  - repeat apply Forall_cons_2; [| |apply Forall_nil_2];
      apply cookie_ok_solid; try discriminate; try reflexivity; by apply (bool_decide_unpack _).
  - by apply (bool_decide_unpack _).
  - eexists. split; [right; left|]. split; reflexivity.
Defined.

Lemma far_expires_deletes_witness :
  Forall (fun c => identity c <> (lit "sid", lit "a.org", true, lit "/"))
    (SyncSetCookie far_dates 5 (lit "a.org") (lit "/")
      (lit "sid=abc; Expires=Fri, 31 Dec 9999 23:59:59 GMT")
      [mkCookie (lit "sid") (lit "old") (lit "a.org") true (lit "/") false None]).
Proof.
  apply Forall_forall.
  apply (far_expires_deletes far_dates 5 (lit "a.org") (lit "/")
    [mkCookie (lit "sid") (lit "old") (lit "a.org") true (lit "/") false None]);
    [reflexivity|lia].
Defined.

Lemma long_max_age_not_sent_witness :
  MaybeInjectCookies stable_sort 1000 false (lit "a.org") (lit "/") true
    (SyncSetCookie no_dates 1000 (lit "a.org") (lit "/") long_max_age [])
  = (None, []).
Proof. apply (long_max_age_not_sent no_dates stable_sort 1000 (lit "a.org") (lit "/") true). lia. Defined.
