(* ===== verification/Lifecycle.v ===== *)
(** * Lifecycle: the pre, service and post phases of a request

    Sources: src/connection/server/http_server_task_lifecycle.cc,
    include/internal/server/http_server_task_detail.h, the calls of
    http_server_task_base.cc that change the shared state, and
    [UpgradeToWebSocket] of websocket_server_task.cc.

    The three task objects share one [HttpTaskSharedState]; a phase ends when the
    last reference to its task goes away and the deleter runs.  User code (aspects
    and handler) is a parameter: for each hook, the calls it makes, as a function
    of the state it finds.  A hook that keeps the task alive and goes on later is
    the same list of calls; what the rest of the program does meanwhile (the
    server stops, the stream is closed by a timeout) is interleaved in it as
    [EnvServer] and [EnvClosed].  Exceptions end the list of calls; the code
    swallows them. *)

From S2P Require Import Prelude Text HttpFields ServerCookie.

Inductive HttpTaskConnectionLifecycleMode := kAutomatic | kManual | kWebSocket.
Inductive WebSocketUpgradeState := kNoUpgrade | kRequested | kHeaderPrepared | kTaskStarted.

#[global] Instance mode_eq_dec : EqDecision HttpTaskConnectionLifecycleMode.
Proof. solve_decision. Defined.
#[global] Instance upgrade_eq_dec : EqDecision WebSocketUpgradeState.
Proof. solve_decision. Defined.

Section lifecycle.
(** Header fields, and WebSocket handlers. *)
Context {F : Type} `{HttpFields F} {W : Type}.

Record HttpResponse := mkResponse { resp_body : str; resp_fields : F }.

(** What is done on the connection. *)
Inductive action :=
  | DoWriteResponse (resp : HttpResponse) (keep_alive : bool) (write_expiry : Z)
  | ConnDoClose
  | ConnDoCycle
  | StartWebSocket (response_header : F) (handler : W)
  | DoFlushResponseBody (body : str) (write_expiry : Z)
  | DoFlushResponseHeader (header : F) (write_expiry : Z).

(** The actions that end the request's use of the connection. *)
Definition terminal (a : action) : bool :=
  match a with DoFlushResponseBody _ _ | DoFlushResponseHeader _ _ => false | _ => true end.

Inductive hook := PreService (i : nat) | Service | PostService (i : nat).

Record HttpTaskSharedState := mkState {
  resp : HttpResponse;
  set_cookies : list ServerSetCookie;
  conn : bool;                        (** not null *)
  keep_alive : bool;
  connection_mode : HttpTaskConnectionLifecycleMode;
  aspect_failure_marked : bool;
  aspect_unwind_start_index : nat;
  websocket_upgrade_state : WebSocketUpgradeState;
  websocket_upgrade_handler : option W;
  (** the server and the connection *)
  srv_running : bool;
  closed : bool;
  (** observations *)
  actions : list action;
  trace : list hook;
}.

(** The request: number of aspects, whether there is a handler, the route's
    write expiry, and whether the request asks for a WebSocket upgrade. *)
Context (n_aspects : nat) (has_handler : bool) (write_expiry : Z) (is_upgrade : bool).

(** [CreateTaskState] *)
Definition CreateTaskState (running is_closed : bool) : HttpTaskSharedState :=
  mkState (mkResponse [] f_empty) [] true true kAutomatic false 0 kNoUpgrade None
    running is_closed [] [].

(** ** Field updates *)

Definition set_resp (r : HttpResponse) (s : HttpTaskSharedState) :=
  mkState r (set_cookies s) (conn s) (keep_alive s) (connection_mode s)
    (aspect_failure_marked s) (aspect_unwind_start_index s) (websocket_upgrade_state s)
    (websocket_upgrade_handler s) (srv_running s) (closed s) (actions s) (trace s).
Definition set_set_cookies (l : list ServerSetCookie) (s : HttpTaskSharedState) :=
  mkState (resp s) l (conn s) (keep_alive s) (connection_mode s)
    (aspect_failure_marked s) (aspect_unwind_start_index s) (websocket_upgrade_state s)
    (websocket_upgrade_handler s) (srv_running s) (closed s) (actions s) (trace s).
Definition store_conn_null (s : HttpTaskSharedState) :=
  mkState (resp s) (set_cookies s) false (keep_alive s) (connection_mode s)
    (aspect_failure_marked s) (aspect_unwind_start_index s) (websocket_upgrade_state s)
    (websocket_upgrade_handler s) (srv_running s) (closed s) (actions s) (trace s).
Definition set_keep_alive (b : bool) (s : HttpTaskSharedState) :=
  mkState (resp s) (set_cookies s) (conn s) b (connection_mode s)
    (aspect_failure_marked s) (aspect_unwind_start_index s) (websocket_upgrade_state s)
    (websocket_upgrade_handler s) (srv_running s) (closed s) (actions s) (trace s).
Definition set_mode (m : HttpTaskConnectionLifecycleMode) (s : HttpTaskSharedState) :=
  mkState (resp s) (set_cookies s) (conn s) (keep_alive s) m
    (aspect_failure_marked s) (aspect_unwind_start_index s) (websocket_upgrade_state s)
    (websocket_upgrade_handler s) (srv_running s) (closed s) (actions s) (trace s).
Definition mark_failure (s : HttpTaskSharedState) :=
  mkState (resp s) (set_cookies s) (conn s) (keep_alive s) (connection_mode s)
    true (aspect_unwind_start_index s) (websocket_upgrade_state s)
    (websocket_upgrade_handler s) (srv_running s) (closed s) (actions s) (trace s).
Definition set_unwind (i : nat) (s : HttpTaskSharedState) :=
  mkState (resp s) (set_cookies s) (conn s) (keep_alive s) (connection_mode s)
    (aspect_failure_marked s) i (websocket_upgrade_state s)
    (websocket_upgrade_handler s) (srv_running s) (closed s) (actions s) (trace s).
Definition set_upgrade (u : WebSocketUpgradeState) (h : option W) (s : HttpTaskSharedState) :=
  mkState (resp s) (set_cookies s) (conn s) (keep_alive s) (connection_mode s)
    (aspect_failure_marked s) (aspect_unwind_start_index s) u
    h (srv_running s) (closed s) (actions s) (trace s).
Definition set_env (running is_closed : bool) (s : HttpTaskSharedState) :=
  mkState (resp s) (set_cookies s) (conn s) (keep_alive s) (connection_mode s)
    (aspect_failure_marked s) (aspect_unwind_start_index s) (websocket_upgrade_state s)
    (websocket_upgrade_handler s) running is_closed (actions s) (trace s).
Definition act (a : action) (s : HttpTaskSharedState) :=
  mkState (resp s) (set_cookies s) (conn s) (keep_alive s) (connection_mode s)
    (aspect_failure_marked s) (aspect_unwind_start_index s) (websocket_upgrade_state s)
    (websocket_upgrade_handler s) (srv_running s) (closed s) (actions s ++ [a]) (trace s).
Definition ran (h : hook) (s : HttpTaskSharedState) :=
  mkState (resp s) (set_cookies s) (conn s) (keep_alive s) (connection_mode s)
    (aspect_failure_marked s) (aspect_unwind_start_index s) (websocket_upgrade_state s)
    (websocket_upgrade_handler s) (srv_running s) (closed s) (actions s) (trace s ++ [h]).

(** ** Helpers of http_server_task_detail.h *)

Definition IsTaskEnvironmentAvailable (s : HttpTaskSharedState) : bool :=
  srv_running s && conn s && negb (closed s).

(** [conn->DoClose()] *)
Definition conn_close (s : HttpTaskSharedState) : HttpTaskSharedState :=
  set_env (srv_running s) true (act ConnDoClose s).

Definition TryCloseConnection (s : HttpTaskSharedState) : HttpTaskSharedState :=
  if conn s then store_conn_null (if closed s then s else conn_close s) else s.

(** [AppendSetCookies]: each cookie with a text is inserted. *)
Definition append_set_cookie (r : HttpResponse) (c : ServerSetCookie) : HttpResponse :=
  match ToString c with
  | [] => r
  | t => mkResponse (resp_body r) (f_insert (lit "Set-Cookie") t (resp_fields r))
  end.
Definition AppendSetCookies (s : HttpTaskSharedState) : HttpTaskSharedState :=
  set_resp (foldl append_set_cookie (resp s) (set_cookies s)) s.

(** [MakeResponseHeaderSnapshot], for the fields. *)
Definition MakeResponseHeaderSnapshot (r : HttpResponse) : F := copy_by_set (resp_fields r).

Inductive ResponseWriteStageResult :=
  kWriteSubmitted | kWebSocketAcceptPending | kSkippedManualManagement | kConnectionUnavailable.

Definition SubmitFinalResponseWriteIfNeeded (s : HttpTaskSharedState) :
    ResponseWriteStageResult * HttpTaskSharedState :=
  match connection_mode s with
  | kManual => (kSkippedManualManagement, s)
  | mode =>
      if negb (conn s) || closed s then (kConnectionUnavailable, TryCloseConnection s)
      else
        match mode with
        | kWebSocket =>
            let s := AppendSetCookies s in
            (kWebSocketAcceptPending,
             set_upgrade kHeaderPrepared (websocket_upgrade_handler s)
               (set_resp (mkResponse [] (resp_fields (resp s))) s))
        | _ =>
            let s := AppendSetCookies s in
            (kWriteSubmitted,
             store_conn_null (act (DoWriteResponse (resp s) (keep_alive s) write_expiry) s))
        end
  end.

Definition FinalizeManualConnectionAction (s : HttpTaskSharedState) : HttpTaskSharedState :=
  if negb (conn s) || closed s then TryCloseConnection s
  else store_conn_null (if keep_alive s then act ConnDoCycle s else conn_close s).

(** ** Finalization *)

Definition TryStartWebSocketUpgradeTask (response_header : F) (s : HttpTaskSharedState) :
    HttpTaskSharedState :=
  if negb (bool_decide (websocket_upgrade_state s = kHeaderPrepared)) then s
  else
    (** [TakePendingWebSocketHandler] *)
    let handler := websocket_upgrade_handler s in
    let s := set_upgrade (websocket_upgrade_state s) None s in
    match handler with
    | None => TryCloseConnection s
    | Some h =>
        if conn s then
          store_conn_null (set_upgrade kTaskStarted None (act (StartWebSocket response_header h) s))
        else TryCloseConnection s
    end.

Definition FinalizeAutomaticMode (s : HttpTaskSharedState) : HttpTaskSharedState :=
  let '(write_stage, s) := SubmitFinalResponseWriteIfNeeded s in
  match write_stage with
  | kConnectionUnavailable | kWriteSubmitted => s
  | _ => TryCloseConnection s
  end.

Definition FinalizeManualMode (s : HttpTaskSharedState) : HttpTaskSharedState :=
  let '(write_stage, s) := SubmitFinalResponseWriteIfNeeded s in
  match write_stage with
  | kConnectionUnavailable => s
  | kSkippedManualManagement => FinalizeManualConnectionAction s
  | _ => TryCloseConnection s
  end.

Definition FinalizeWebSocketMode (s : HttpTaskSharedState) : HttpTaskSharedState :=
  let '(write_stage, s) := SubmitFinalResponseWriteIfNeeded s in
  match write_stage with
  | kConnectionUnavailable => s
  | kWebSocketAcceptPending =>
      TryStartWebSocketUpgradeTask (MakeResponseHeaderSnapshot (resp s)) s
  | _ => TryCloseConnection s
  end.

Definition FinalizePostPhaseConnection (s : HttpTaskSharedState) : HttpTaskSharedState :=
  match connection_mode s with
  | kAutomatic => FinalizeAutomaticMode s
  | kManual => FinalizeManualMode s
  | kWebSocket => FinalizeWebSocketMode s
  end.

(** ** What user code can do *)

Inductive call :=
  | SetBody (body : str)
  | AppendBody (body : str)
  | SetField (key value : str)
  | SetKeepAlive (value : bool)
  | SetManualConnectionManagement (value : bool)
  | AddCookie (cookie : ServerSetCookie)
  | WriteBody (body : str)
  | WriteHeader (header : F)
  | DoClose
  | DoCycle
  | EnvServer (running : bool)
  | EnvClosed.

Definition run_call (s : HttpTaskSharedState) (c : call) : HttpTaskSharedState :=
  match c with
  | SetBody b => set_resp (mkResponse b (resp_fields (resp s))) s
  | AppendBody b => set_resp (mkResponse (resp_body (resp s) ++ b) (resp_fields (resp s))) s
  | SetField k v => set_resp (mkResponse (resp_body (resp s)) (f_set k v (resp_fields (resp s)))) s
  | SetKeepAlive v => set_keep_alive v s
  | SetManualConnectionManagement v =>
      if v && bool_decide (connection_mode s = kAutomatic) then set_mode kManual s else s
  | AddCookie c => set_set_cookies (set_cookies s ++ [c]) s
  | WriteBody b => if conn s then act (DoFlushResponseBody b write_expiry) s else s
  | WriteHeader h => if conn s then act (DoFlushResponseHeader h write_expiry) s else s
  | DoClose => if conn s then store_conn_null (conn_close s) else s
  | DoCycle => if conn s then store_conn_null (act ConnDoCycle s) else s
  | EnvServer b => set_env b (closed s) s
  | EnvClosed => set_env (srv_running s) true s
  end.

(** [HttpPreServerTask] can mark a failure, [HttpServerTask] can ask for an
    upgrade. *)
Inductive pre_call := PreCall (c : call) | MarkAspectFailure.
Inductive service_call := ServiceCall (c : call) | UpgradeToWebSocket (handler : option W).

Definition run_pre_call (s : HttpTaskSharedState) (c : pre_call) : HttpTaskSharedState :=
  match c with PreCall c => run_call s c | MarkAspectFailure => mark_failure s end.

Definition run_service_call (s : HttpTaskSharedState) (c : service_call) :
    HttpTaskSharedState :=
  match c with
  | ServiceCall c => run_call s c
  | UpgradeToWebSocket None => s
  | UpgradeToWebSocket (Some h) =>
      if negb is_upgrade || negb (IsTaskEnvironmentAvailable s) then s
      else if bool_decide (connection_mode s = kAutomatic) then
        set_upgrade kRequested (Some h) (set_mode kWebSocket s)
      else s
  end.

(** ** The phases *)

(** User code.  [pre_tail] and [post_tail] are what happens after the phase's
    loop, while somebody still holds the task; for the service phase that is
    the rest of [service_hook]. *)
Context (pre_hook : nat -> HttpTaskSharedState -> list pre_call)
        (pre_tail : HttpTaskSharedState -> list pre_call)
        (service_hook : HttpTaskSharedState -> list service_call)
        (post_hook : nat -> HttpTaskSharedState -> list call)
        (post_tail : HttpTaskSharedState -> list call).

Definition run_pre (calls : HttpTaskSharedState -> list pre_call) (s : HttpTaskSharedState) :=
  foldl run_pre_call s (calls s).
Definition run_service (calls : HttpTaskSharedState -> list service_call)
    (s : HttpTaskSharedState) := foldl run_service_call s (calls s).
Definition run_post (calls : HttpTaskSharedState -> list call) (s : HttpTaskSharedState) :=
  foldl run_call s (calls s).

(** [DispatchToConnectionExecutor] drops its work when the server has stopped;
    [Start] does nothing without a connection. *)
Definition dispatched (s : HttpTaskSharedState) : bool := conn s && srv_running s.

(** The loop of [DoPreService], with [fuel] aspects to go from [curr_idx]. *)
Fixpoint DoPreService (fuel curr_idx : nat) (s : HttpTaskSharedState) :
    HttpTaskSharedState :=
  match fuel with
  | 0 => s
  | S fuel =>
      if aspect_failure_marked s then s
      else
        let s := run_pre (pre_hook curr_idx) (ran (PreService curr_idx) (set_unwind curr_idx s)) in
        if aspect_failure_marked s then s else DoPreService fuel (S curr_idx) s
  end.

(** The loop of [DoPostService], from [curr_idx] down to 0. *)
Fixpoint DoPostService (curr_idx : nat) (s : HttpTaskSharedState) : HttpTaskSharedState :=
  let s := run_post (post_hook curr_idx) (ran (PostService curr_idx) s) in
  match curr_idx with 0 => s | S i => DoPostService i s end.

(** [HttpPostServerTask::Start]; [None] is the failed assertion. *)
Definition post_index (s : HttpTaskSharedState) : option nat :=
  let curr_idx := if aspect_failure_marked s then aspect_unwind_start_index s
                  else n_aspects - 1 in
  if n_aspects <=? curr_idx then None else Some curr_idx.

Definition PostStart (s : HttpTaskSharedState) : HttpTaskSharedState :=
  if n_aspects =? 0 then s
  else
    match post_index s with
    | None => s
    | Some curr_idx =>
        if dispatched s then run_post post_tail (DoPostService curr_idx s) else s
    end.

(** [HttpPostTaskDeleter] *)
Definition post_released (s : HttpTaskSharedState) : HttpTaskSharedState :=
  if negb (IsTaskEnvironmentAvailable s) then TryCloseConnection s
  else FinalizePostPhaseConnection s.

Definition post_phase (s : HttpTaskSharedState) : HttpTaskSharedState :=
  post_released (PostStart s).

Definition DoService (s : HttpTaskSharedState) : HttpTaskSharedState :=
  if has_handler then run_service service_hook (ran Service s) else s.

(** [HttpServerTask::Start], then [HttpServerTaskDeleter] *)
Definition service_phase (s : HttpTaskSharedState) : HttpTaskSharedState :=
  let s := if dispatched s then DoService s else s in
  if negb (IsTaskEnvironmentAvailable s) then TryCloseConnection s else post_phase s.

(** [HttpPreTaskDeleter] *)
Definition pre_released (s : HttpTaskSharedState) : HttpTaskSharedState :=
  if negb (IsTaskEnvironmentAvailable s) then TryCloseConnection s
  else if aspect_failure_marked s then post_phase s
  else if negb has_handler then TryCloseConnection s
  else service_phase s.

(** A request: [HttpPreServerTask::Create] and [Start], to the end. *)
Definition run_request (s : HttpTaskSharedState) : HttpTaskSharedState :=
  pre_released (if dispatched s then run_pre pre_tail (DoPreService n_aspects 0 s) else s).

(** ** Frames *)

(** What calls leave alone. *)
Definition same_course (s s' : HttpTaskSharedState) : Prop :=
  trace s' = trace s /\ aspect_unwind_start_index s' = aspect_unwind_start_index s.

Lemma run_call_frame s c :
  same_course s (run_call s c) /\ aspect_failure_marked (run_call s c) = aspect_failure_marked s.
Proof. destruct c; simpl; unfold same_course; repeat case_match; done. Qed.

Lemma foldl_frame {C} (f : HttpTaskSharedState -> C -> HttpTaskSharedState)
    (P : HttpTaskSharedState -> HttpTaskSharedState -> Prop) l s :
  (forall s, P s s) -> (forall s1 s2 s3, P s1 s2 -> P s2 s3 -> P s1 s3) ->
  (forall s c, P s (f s c)) -> P s (foldl f s l).
Proof. intros Hr Ht Hf. revert s. induction l as [|c l IH]; intros s; simpl; eauto. Qed.

Lemma run_pre_frame k s : same_course s (run_pre k s).
Proof.
  apply (foldl_frame _ same_course); unfold same_course;
    [done|intros ? ? ? [] []; split; congruence|].
  intros s' [c|]; [apply run_call_frame|done].
Qed.

Lemma run_service_frame k s :
  same_course s (run_service k s) /\
  aspect_failure_marked (run_service k s) = aspect_failure_marked s.
Proof.
  apply (foldl_frame _ (fun s s' => same_course s s' /\
    aspect_failure_marked s' = aspect_failure_marked s)); unfold same_course;
    [done|intros ? ? ? [[] ?] [[] ?]; repeat split; congruence|].
  intros s' [c|h]; [apply run_call_frame|]. simpl. by repeat case_match.
Qed.

Lemma run_post_frame k s :
  same_course s (run_post k s) /\
  aspect_failure_marked (run_post k s) = aspect_failure_marked s.
Proof.
  apply (foldl_frame _ (fun s s' => same_course s s' /\
    aspect_failure_marked s' = aspect_failure_marked s)); unfold same_course;
    [done|intros ? ? ? [[] ?] [[] ?]; repeat split; congruence|]. apply run_call_frame.
Qed.

Lemma TryClose_trace s : trace (TryCloseConnection s) = trace s.
Proof. unfold TryCloseConnection. by repeat case_match. Qed.

Lemma Finalize_trace s : trace (FinalizePostPhaseConnection s) = trace s.
Proof.
  unfold FinalizePostPhaseConnection, FinalizeAutomaticMode, FinalizeManualMode,
    FinalizeWebSocketMode, SubmitFinalResponseWriteIfNeeded.
  destruct (connection_mode s); simpl.
  - destruct (negb (conn s) || closed s); [apply TryClose_trace|done].
  - unfold FinalizeManualConnectionAction.
    destruct (negb (conn s) || closed s); [apply TryClose_trace|]. by destruct (keep_alive s).
  - destruct (negb (conn s) || closed s); [apply TryClose_trace|].
    unfold TryStartWebSocketUpgradeTask. simpl.
    destruct (websocket_upgrade_handler s); simpl; [|by rewrite TryClose_trace].
    destruct (conn s); simpl; [done|]. by rewrite TryClose_trace.
Qed.

(** ** The order of the hooks *)

Definition pres (k : nat) : list hook := PreService <$> seq 0 k.
Definition posts (k : nat) : list hook := PostService <$> reverse (seq 0 k).

Lemma DoPreService_spec fuel idx s :
  aspect_failure_marked s = false -> trace s = pres idx ->
  let s' := DoPreService fuel idx s in
  exists k, k <= idx + fuel /\ trace s' = pres k /\
    (k = idx /\ fuel = 0 /\ s' = s \/ 0 < k /\ aspect_unwind_start_index s' = k - 1) /\
    (aspect_failure_marked s' = false -> k = idx + fuel).
Proof.
  revert idx s. induction fuel as [|fuel IH]; intros idx s Hf Ht; cbn zeta.
  { exists idx. split_and!; [lia|done|by left|lia]. }
  cbn [DoPreService]. rewrite Hf.
  destruct (run_pre_frame (pre_hook idx) (ran (PreService idx) (set_unwind idx s)))
    as [Htr Huw].
  set (s1 := run_pre _ _) in *.
  assert (trace s1 = pres (S idx)) as Ht1.
  { rewrite Htr. simpl. rewrite Ht. unfold pres. by rewrite seq_S, fmap_app. }
  destruct (aspect_failure_marked s1) eqn:Hf1.
  - exists (S idx). split_and!; [lia|done| |congruence]. right. rewrite Huw. simpl. lia.
  - destruct (IH (S idx) s1 Hf1 Ht1) as (k & Hk & Hkt & Hku & Hkf).
    exists k. split_and!; [lia|done| |intros; rewrite Hkf by done; lia].
    right. destruct Hku as [(-> & -> & ->)|?]; [|done]. rewrite Huw. simpl. lia.
Qed.

Lemma DoPostService_trace i s :
  trace (DoPostService i s) = trace s ++ posts (S i) /\
  aspect_failure_marked (DoPostService i s) = aspect_failure_marked s.
Proof.
  revert s. induction i as [|i IH]; intros s; cbn [DoPostService].
  - destruct (run_post_frame (post_hook 0) (ran (PostService 0) s)) as [[Ht _] Hf].
    by rewrite Ht, Hf.
  - destruct (run_post_frame (post_hook (S i)) (ran (PostService (S i)) s)) as [[Ht _] Hf].
    destruct (IH (run_post (post_hook (S i)) (ran (PostService (S i)) s))) as [-> ->].
    rewrite Ht, Hf. cbn [trace ran aspect_failure_marked].
    split; [|done]. rewrite <- app_assoc. f_equal.
    unfold posts. rewrite (seq_S (S i)), reverse_snoc. done.
Qed.

Lemma post_released_trace s : trace (post_released s) = trace s.
Proof.
  unfold post_released. destruct (negb _); [apply TryClose_trace|apply Finalize_trace].
Qed.

(** The post phase adds nothing, or the mirror image of the aspects entered. *)
Lemma post_phase_trace s k :
  k <= n_aspects -> (0 < k -> aspect_unwind_start_index s = k - 1) ->
  (aspect_failure_marked s = false -> k = n_aspects) -> (0 < n_aspects -> 0 < k) ->
  dispatched s = true ->
  trace (post_phase s) = trace s ++ posts k.
Proof.
  intros Hk Hu Hf Hpos Hd. unfold post_phase. rewrite post_released_trace. unfold PostStart.
  destruct (Nat.eqb_spec n_aspects 0) as [H0|H0].
  { assert (k = 0) as -> by lia. by rewrite app_nil_r. }
  assert (post_index s = Some (k - 1)) as ->.
  { unfold post_index. destruct (aspect_failure_marked s).
    - rewrite Hu by lia. destruct (Nat.leb_spec n_aspects (k - 1)); [lia|done].
    - rewrite <- Hf by done. destruct (Nat.leb_spec k (k - 1)); [lia|done]. }
  rewrite Hd. destruct (run_post_frame post_tail (DoPostService (k - 1) s)) as [[-> _] _].
  destruct (DoPostService_trace (k - 1) s) as [-> _].
  by replace (S (k - 1)) with k by lia.
Qed.

Lemma available_dispatched s : IsTaskEnvironmentAvailable s = true -> dispatched s = true.
Proof.
  unfold IsTaskEnvironmentAvailable, dispatched. intros Ha. reflect_bools.
  by apply andb_true_iff.
Qed.

(** The pre phase, up to the release of its task. *)
Lemma pre_phase_spec s :
  trace s = [] -> aspect_failure_marked s = false ->
  let s1 := run_pre pre_tail (DoPreService n_aspects 0 s) in
  exists k, k <= n_aspects /\ trace s1 = pres k /\
    (0 < k -> aspect_unwind_start_index s1 = k - 1) /\
    (aspect_failure_marked s1 = false -> k = n_aspects) /\ (0 < n_aspects -> 0 < k).
Proof.
  intros Ht Hf. cbn zeta.
  destruct (DoPreService_spec n_aspects 0 s Hf Ht) as (k & Hk & Htr & Hu & Hfk).
  destruct (run_pre_frame pre_tail (DoPreService n_aspects 0 s)) as [Htt Hut].
  exists k. rewrite Htt, Hut. split_and!; [lia|done| | |].
  - destruct Hu as [(-> & _)|[_ ?]]; [lia|done].
  - intros Hnf. apply Hfk. revert Hnf. unfold run_pre.
    generalize (pre_tail (DoPreService n_aspects 0 s)) as l.
    generalize (DoPreService n_aspects 0 s) as s0.
    intros s0 l. revert s0. induction l as [|c l IH]; intros s0; simpl; [done|].
    intros Hl%IH. destruct c as [c|]; [|done].
    destruct (run_call_frame s0 c) as [_ Hc]. by rewrite <- Hc.
  - destruct Hu as [(-> & ? & _)|[? _]]; lia.
Qed.

(** C13. The onion.  Whatever the hooks do, whenever the server stops or the
    stream closes, the hooks of one request run as a prefix of the aspects'
    PreService in order, then, if all of them were entered, at most one Service,
    then nothing or the PostService of exactly the aspects entered, in reverse;
    a failure before the service skips it and unwinds from the aspect that
    failed.  The assertion on the unwind index never fails. *)
Theorem lifecycle_order s :
  trace s = [] -> aspect_failure_marked s = false ->
  exists k, k <= n_aspects /\
    let t := trace (run_request s) in
    (t = pres k \/ t = pres k ++ posts k \/
     has_handler = true /\ k = n_aspects /\
       (t = pres k ++ [Service] \/ t = pres k ++ [Service] ++ posts k)).
Proof.
  intros Ht Hf. cbn zeta. unfold run_request, pre_released.
  destruct (dispatched s) eqn:Hd.
  2:{ exists 0. split; [lia|]. left.
      replace (IsTaskEnvironmentAvailable s) with false; [cbn [negb]; by rewrite TryClose_trace|].
      destruct (IsTaskEnvironmentAvailable s) eqn:Ha; [|done].
      apply available_dispatched in Ha. congruence. }
  destruct (pre_phase_spec s Ht Hf) as (k & Hk & Htr & Hu & Hnf & Hpos).
  set (s1 := run_pre pre_tail _) in *. exists k. split; [done|].
  destruct (IsTaskEnvironmentAvailable s1) eqn:Ha; cbn [negb].
  2:{ left. by rewrite TryClose_trace. }
  pose proof (available_dispatched _ Ha) as Hd1.
  destruct (aspect_failure_marked s1) eqn:Hf1.
  { right. left. rewrite (post_phase_trace s1 k) by (done || congruence). by rewrite Htr. }
  destruct has_handler eqn:Hh; cbn [negb]; [|left; by rewrite TryClose_trace].
  right. right. split_and!; [done|by apply Hnf|].
  unfold service_phase. rewrite Hd1. unfold DoService. rewrite Hh.
  destruct (run_service_frame service_hook (ran Service s1)) as [[Hst Hsu] Hsf].
  set (s2 := run_service _ _) in *. cbn [trace ran] in Hst. rewrite Htr in Hst.
  destruct (IsTaskEnvironmentAvailable s2) eqn:Ha2; cbn [negb].
  2:{ left. by rewrite TryClose_trace. }
  right. rewrite (post_phase_trace s2 k); [|done|by rewrite Hsu|by rewrite Hsf; cbn; auto|done
    |by apply available_dispatched].
  by rewrite Hst, <- app_assoc.
Qed.

(** ** What holds through a request *)

(** A class of user code, by the calls it may make. *)
Record code_class := mkClass {
  may_pre : pre_call -> Prop;
  may_service : service_call -> Prop;
  may_post : call -> Prop;
}.

Definition anything : code_class := mkClass (fun _ => True) (fun _ => True) (fun _ => True).

Record belongs (K : code_class) : Prop := mkBelongs {
  belongs_pre : forall i s, Forall (may_pre K) (pre_hook i s);
  belongs_pre_tail : forall s, Forall (may_pre K) (pre_tail s);
  belongs_service : forall s, Forall (may_service K) (service_hook s);
  belongs_post : forall i s, Forall (may_post K) (post_hook i s);
  belongs_post_tail : forall s, Forall (may_post K) (post_tail s);
}.

Lemma belongs_anything : belongs anything.
Proof. split; intros; by apply Forall_true. Qed.

(** [P] is kept by the calls of the class and by the bookkeeping of the phases. *)
Record kept (K : code_class) (P : HttpTaskSharedState -> Prop) : Prop := mkKept {
  kept_pre : forall s c, may_pre K c -> P s -> P (run_pre_call s c);
  kept_service : forall s c, may_service K c -> P s -> P (run_service_call s c);
  kept_post : forall s c, may_post K c -> P s -> P (run_call s c);
  kept_ran : forall s h, P s -> P (ran h s);
  kept_unwind : forall s i, P s -> P (set_unwind i s);
}.

(** It is enough to look at the calls when [P] is about the connection only. *)
Lemma kept_connection P :
  (forall s s', actions s' = actions s -> conn s' = conn s -> closed s' = closed s -> P s -> P s') ->
  (forall s c, P s -> P (run_call s c)) -> kept anything P.
Proof.
  intros Hext Hcall. split; try (intros; by eapply Hext; [..|eassumption]).
  - intros s [c|] _; [apply Hcall|]. intros Hs. by eapply Hext; [..|exact Hs].
  - intros s [c|[h|]] _ Hs; [by apply Hcall| |done]. simpl.
    repeat case_match; try done; by eapply Hext; [..|exact Hs].
  - intros s c _. apply Hcall.
Qed.

Lemma foldl_kept {C} (may : C -> Prop) (P : HttpTaskSharedState -> Prop)
    (f : HttpTaskSharedState -> C -> HttpTaskSharedState) l s :
  (forall s c, may c -> P s -> P (f s c)) -> Forall may l -> P s -> P (foldl f s l).
Proof. intros Hf Hl. revert s. induction Hl as [|c l Hc Hl IH]; intros s Hs; simpl; auto. Qed.

Lemma run_post_keeps (may : call -> Prop) (P : HttpTaskSharedState -> Prop) k s :
  (forall s c, may c -> P s -> P (run_call s c)) -> (forall s, Forall may (k s)) -> P s -> P (run_post k s).
Proof. intros Hc Hk. eapply foldl_kept; [exact Hc|apply Hk]. Qed.

(** The post phase only depends on the post hooks. *)
Lemma PostStart_keeps (may : call -> Prop) (P : HttpTaskSharedState -> Prop) s :
  (forall s c, may c -> P s -> P (run_call s c)) -> (forall s h, P s -> P (ran h s)) ->
  (forall i s, Forall may (post_hook i s)) -> (forall s, Forall may (post_tail s)) -> P s -> P (PostStart s).
Proof.
  intros Hc Hran Hpost Htail Hs. unfold PostStart. case_match; [done|]. destruct (post_index s) as [i|]; [|done].
  case_match; [|done]. eapply run_post_keeps; [exact Hc|exact Htail|].
  clear - Hc Hran Hpost Hs. revert s Hs. induction i as [|i IH]; intros s Hs; cbn [DoPostService];
    [|apply IH]; (eapply run_post_keeps; [exact Hc|apply Hpost|by apply Hran]).
Qed.

Section through.
Context (K : code_class) (HK : belongs K) (P Q : HttpTaskSharedState -> Prop) (HP : kept K P).

Lemma run_pre_kept k s : (forall s, Forall (may_pre K) (k s)) -> P s -> P (run_pre k s).
Proof. intros Hk. eapply foldl_kept; [apply (kept_pre _ _ HP)|apply Hk]. Qed.

Lemma run_service_kept s : P s -> P (run_service service_hook s).
Proof. eapply foldl_kept; [apply (kept_service _ _ HP)|apply (belongs_service _ HK)]. Qed.

Lemma DoPreService_kept fuel idx s : P s -> P (DoPreService fuel idx s).
Proof.
  revert idx s. induction fuel as [|fuel IH]; intros idx s Hs; cbn [DoPreService]; [done|].
  case_match; [done|]. assert (P (run_pre (pre_hook idx) (ran (PreService idx) (set_unwind idx s)))).
  { by apply run_pre_kept, (kept_ran _ _ HP), (kept_unwind _ _ HP); [apply (belongs_pre _ HK)|]. }
  case_match; auto.
Qed.

Lemma pre_phase_kept s : P s -> P (run_pre pre_tail (DoPreService n_aspects 0 s)).
Proof. intros Hs. apply run_pre_kept; [apply (belongs_pre_tail _ HK)|]. by apply DoPreService_kept. Qed.

Lemma PostStart_kept s : P s -> P (PostStart s).
Proof.
  apply (PostStart_keeps (may_post K));
    [apply (kept_post _ _ HP)|apply (kept_ran _ _ HP)|apply (belongs_post _ HK)|apply (belongs_post_tail _ HK)].
Qed.

(** Every request ends with one of the two; with the first only when server or
    connection are gone, or when there is no handler. *)
Hypothesis Q_try_close : forall s, IsTaskEnvironmentAvailable s && has_handler = false -> P s -> Q (TryCloseConnection s).
Hypothesis Q_finalize : forall s, P s -> Q (FinalizePostPhaseConnection s).

Lemma Q_unavailable s : negb (IsTaskEnvironmentAvailable s) = true -> P s -> Q (TryCloseConnection s).
Proof. intros Hn. apply Q_try_close. by destruct (IsTaskEnvironmentAvailable s). Qed.

Lemma post_phase_ends s : P s -> Q (post_phase s).
Proof.
  intros Hs. apply PostStart_kept in Hs. unfold post_phase, post_released.
  case_match; [by apply Q_unavailable|auto].
Qed.

Lemma service_phase_ends s : P s -> Q (service_phase s).
Proof.
  intros Hs. unfold service_phase. set (s2 := if dispatched s then _ else s).
  assert (P s2).
  { subst s2. unfold DoService. repeat (case_match; [|done]). by apply run_service_kept, (kept_ran _ _ HP). }
  case_match; [by apply Q_unavailable|by apply post_phase_ends].
Qed.

Lemma run_request_ends s : P s -> Q (run_request s).
Proof.
  intros Hs. unfold run_request, pre_released. set (s1 := if dispatched s then _ else s).
  assert (P s1) as H1 by (subst s1; case_match; [by apply pre_phase_kept|done]).
  case_match; [by apply Q_unavailable|]. case_match; [by apply post_phase_ends|].
  destruct (negb has_handler) eqn:Hh.
  { apply Q_try_close; [|done]. apply negb_true_iff in Hh as ->. apply andb_false_r. }
  by apply service_phase_ends.
Qed.
End through.

(** ** Actions on the connection *)

Definition terminals (s : HttpTaskSharedState) : nat :=
  length (filter (fun a => terminal a = true) (actions s)).

(** As long as the task has the connection, nothing final was done with it. *)
Definition conn_inv (s : HttpTaskSharedState) : Prop :=
  terminals s <= 1 /\ (conn s = true -> terminals s = 0).

Lemma terminals_act a s :
  terminals (act a s) = terminals s + if terminal a then 1 else 0.
Proof.
  unfold terminals. cbn [actions act]. rewrite filter_app, length_app.
  destruct (terminal a) eqn:Ha.
  - by rewrite filter_cons_True.
  - by rewrite filter_cons_False by congruence.
Qed.

Lemma conn_inv_ext s s' :
  actions s' = actions s -> conn s' = conn s -> conn_inv s -> conn_inv s'.
Proof. unfold conn_inv, terminals. by intros -> ->. Qed.

(** A final action, after which the task gives the connection up. *)
Lemma conn_inv_final s s' :
  conn s = true -> conn s' = false -> terminals s' <= terminals s + 1 ->
  conn_inv s -> conn_inv s'.
Proof. intros Hc Hc' Ht [_ H0]. unfold conn_inv. rewrite Hc'. rewrite H0 in Ht by done. naive_solver. Qed.

Lemma conn_inv_flush a s : terminal a = false -> conn_inv s -> conn_inv (act a s).
Proof.
  intros Ha [Hle H0]. unfold conn_inv. rewrite terminals_act, Ha, Nat.add_0_r. done.
Qed.

Lemma run_call_inv s c : conn_inv s -> conn_inv (run_call s c).
Proof.
  intros Hi. destruct c; simpl; try (by eapply conn_inv_ext; [..|exact Hi]).
  - by case_match.
  - destruct (conn s); [|done]. by apply conn_inv_flush.
  - destruct (conn s); [|done]. by apply conn_inv_flush.
  - destruct (conn s) eqn:Hc; [|done]. eapply conn_inv_final; [exact Hc|done| |done].
    change (terminals (act ConnDoClose s) <= terminals s + 1). by rewrite terminals_act.
  - destruct (conn s) eqn:Hc; [|done]. eapply conn_inv_final; [exact Hc|done| |done].
    change (terminals (act ConnDoCycle s) <= terminals s + 1). by rewrite terminals_act.
Qed.

Lemma conn_inv_act_null a s s' :
  conn s = true -> conn_inv s -> actions s' = actions s ++ [a] -> conn s' = false -> conn_inv s'.
Proof.
  intros Hc Hi Ha Hc'. eapply conn_inv_final; [exact Hc|done| |done].
  pose proof (terminals_act a s) as Ht. unfold terminals in *. rewrite Ha.
  cbn [actions act] in Ht. rewrite Ht. destruct (terminal a); lia.
Qed.

Definition released (s : HttpTaskSharedState) : Prop := conn_inv s /\ conn s = false.

Lemma TryClose_released s : conn_inv s -> released (TryCloseConnection s).
Proof.
  intros Hi. unfold TryCloseConnection. destruct (conn s) eqn:Hc; [|done].
  split; [|done]. destruct (closed s).
  - eapply conn_inv_final; [exact Hc|done| |done]. change (terminals s <= terminals s + 1). lia.
  - by eapply conn_inv_act_null; [exact Hc|exact Hi|..].
Qed.

Lemma AppendSetCookies_frame s :
  actions (AppendSetCookies s) = actions s /\ conn (AppendSetCookies s) = conn s.
Proof. done. Qed.

Lemma Finalize_released s : conn_inv s -> released (FinalizePostPhaseConnection s).
Proof.
  intros Hi.
  unfold FinalizePostPhaseConnection, FinalizeAutomaticMode, FinalizeManualMode,
    FinalizeWebSocketMode, SubmitFinalResponseWriteIfNeeded, FinalizeManualConnectionAction.
  destruct (negb (conn s) || closed s) eqn:Hav.
  { destruct (connection_mode s); rewrite ?Hav; by apply TryClose_released. }
  destruct (connection_mode s); rewrite ?Hav; reflect_bools.
  - split; [|done]. by eapply conn_inv_act_null; [eassumption|exact Hi|..].
  - split; [|done]. destruct (keep_alive s); by eapply conn_inv_act_null; [eassumption|exact Hi|..].
  - unfold TryStartWebSocketUpgradeTask. simpl.
    destruct (websocket_upgrade_handler s) as [h|].
    + replace (conn s) with true. split; [|done].
      by eapply conn_inv_act_null; [eassumption|exact Hi|..].
    + apply TryClose_released. by eapply conn_inv_ext; [..|exact Hi].
Qed.

Lemma conn_inv_kept : kept anything conn_inv.
Proof. apply kept_connection; [|apply run_call_inv]. intros s s' Ha Hc _. by apply conn_inv_ext. Qed.

(** C14. The connection is given up exactly once.  Whatever the hooks do and
    however the environment changes, when a request is over the task no longer
    holds the connection, and at most one final action (write the response, go
    on to the next request, close, or hand over to a WebSocket) was taken on
    it, by the framework or by the handler itself. *)
Theorem connection_released_once s :
  actions s = [] -> conn (run_request s) = false /\ terminals (run_request s) <= 1.
Proof.
  intros Ha. assert (conn_inv s) as Hi by (unfold conn_inv, terminals; rewrite Ha; simpl; lia).
  destruct (run_request_ends anything belongs_anything conn_inv released conn_inv_kept (fun s _ => TryClose_released s) Finalize_released s Hi)
    as [[Hle _] Hc]. done.
Qed.

(** The connection is only given up by a final action, or because it is closed. *)
Definition accounted (s : HttpTaskSharedState) : Prop :=
  conn s = false -> closed s = true \/ exists a, a ∈ actions s /\ terminal a = true.

Lemma accounted_act a s s' : terminal a = true -> actions s' = actions s ++ [a] -> accounted s'.
Proof. intros Ha Hs _. right. exists a. rewrite Hs. split; [apply elem_of_app; right; by apply list_elem_of_singleton|done]. Qed.

Lemma accounted_more s s' :
  conn s' = conn s -> (closed s = true -> closed s' = true) -> (forall a, a ∈ actions s -> a ∈ actions s') ->
  accounted s -> accounted s'.
Proof. intros Hc Hcl Ha Hs. unfold accounted. rewrite Hc. intros H0. destruct (Hs H0) as [?|(a & ? & ?)]; eauto. Qed.

Lemma TryClose_accounted s : accounted s -> accounted (TryCloseConnection s).
Proof.
  intros Hs. unfold TryCloseConnection. destruct (conn s); [|done]. destruct (closed s) eqn:Hc; intros _; left; cbn; [done|done].
Qed.

Lemma Finalize_accounted s : accounted s -> accounted (FinalizePostPhaseConnection s).
Proof.
  intros Hs. unfold FinalizePostPhaseConnection, FinalizeAutomaticMode, FinalizeManualMode,
    FinalizeWebSocketMode, SubmitFinalResponseWriteIfNeeded, FinalizeManualConnectionAction.
  destruct (negb (conn s) || closed s) eqn:Hav.
  { destruct (connection_mode s); rewrite ?Hav; by apply TryClose_accounted. }
  destruct (connection_mode s); rewrite ?Hav.
  - by eapply accounted_act; [|reflexivity].
  - destruct (keep_alive s); by eapply accounted_act; [|reflexivity].
  - unfold TryStartWebSocketUpgradeTask. simpl. destruct (websocket_upgrade_handler s) as [h|].
    + destruct (conn s); [by eapply accounted_act; [|reflexivity]|]. reflect_bools. discriminate.
    + apply TryClose_accounted. by apply (accounted_more s).
Qed.

Lemma run_call_accounted s c : accounted s -> accounted (run_call s c).
Proof.
  intros Hs. destruct c; simpl; try (by apply (accounted_more s)).
  - by case_match.
  - destruct (conn s) eqn:Hc; [|done]. unfold accounted. cbn. congruence.
  - destruct (conn s) eqn:Hc; [|done]. unfold accounted. cbn. congruence.
  - destruct (conn s) eqn:Hc; [|done]. by eapply accounted_act; [|reflexivity].
  - destruct (conn s) eqn:Hc; [|done]. by eapply accounted_act; [|reflexivity].
Qed.

Lemma accounted_kept : kept anything accounted.
Proof. apply kept_connection; [|apply run_call_accounted]. intros s s' Ha Hc Hcl. apply accounted_more; congruence. Qed.

(** A WebSocket takes over an open connection, and nothing runs after that. *)
Definition no_websocket (s : HttpTaskSharedState) : Prop := forall hdr h, StartWebSocket hdr h ∉ actions s.
Definition websocket_open (s : HttpTaskSharedState) : Prop :=
  forall hdr h, StartWebSocket hdr h ∈ actions s -> closed s = false.

Lemma no_websocket_act a s s' :
  actions s' = actions s ++ [a] -> (forall hdr h, a <> StartWebSocket hdr h) -> no_websocket s -> no_websocket s'.
Proof.
  intros Hs' Ha Hs hdr h. rewrite Hs', elem_of_app, list_elem_of_singleton. intros [?|Hx]; [by eapply Hs|].
  by destruct (Ha hdr h).
Qed.

Lemma run_call_no_websocket s c : no_websocket s -> no_websocket (run_call s c).
Proof.
  intros Hs. destruct c; simpl; repeat case_match; try exact Hs; by eapply no_websocket_act; [reflexivity| |].
Qed.

Lemma no_websocket_kept : kept anything no_websocket.
Proof. apply kept_connection; [|apply run_call_no_websocket]. intros s s' Ha _ _. unfold no_websocket. by rewrite Ha. Qed.

Lemma no_websocket_open s : no_websocket s -> websocket_open s.
Proof. intros Hs hdr h Hin. by destruct (Hs hdr h). Qed.

Lemma TryClose_no_websocket s : no_websocket s -> no_websocket (TryCloseConnection s).
Proof.
  intros Hs. unfold TryCloseConnection. repeat case_match; try exact Hs; by eapply no_websocket_act; [reflexivity| |].
Qed.

Lemma Finalize_websocket_open s : no_websocket s -> websocket_open (FinalizePostPhaseConnection s).
Proof.
  intros Hs. unfold FinalizePostPhaseConnection, FinalizeAutomaticMode, FinalizeManualMode,
    FinalizeWebSocketMode, SubmitFinalResponseWriteIfNeeded, FinalizeManualConnectionAction.
  destruct (negb (conn s) || closed s) eqn:Hav.
  { destruct (connection_mode s); rewrite ?Hav; by apply no_websocket_open, TryClose_no_websocket. }
  destruct (connection_mode s); rewrite ?Hav; reflect_bools.
  - by eapply no_websocket_open, no_websocket_act; [reflexivity| |].
  - apply no_websocket_open. destruct (keep_alive s); by eapply no_websocket_act; [reflexivity| |].
  - unfold TryStartWebSocketUpgradeTask. simpl. replace (conn s) with true. case_match; [by intros ? ? _|].
    by apply no_websocket_open, TryClose_no_websocket.
Qed.

(** How a request ends. *)
Definition concluded (s : HttpTaskSharedState) : Prop :=
  released s /\ (closed s = true \/ exists a, a ∈ actions s /\ terminal a = true) /\ websocket_open s.

(** Whatever ends as those three do ends concluded. *)
Lemma concluded_of (run : HttpTaskSharedState -> HttpTaskSharedState) s :
  (forall P Q : HttpTaskSharedState -> Prop, kept anything P ->
     (forall s, P s -> Q (TryCloseConnection s)) -> (forall s, P s -> Q (FinalizePostPhaseConnection s)) -> P s -> Q (run s)) ->
  conn s = true -> actions s = [] -> concluded (run s).
Proof.
  intros Hends Hc Ha. assert (released (run s)) as Hr.
  { apply (Hends conn_inv); [apply conn_inv_kept|apply TryClose_released|apply Finalize_released|].
    unfold conn_inv, terminals. rewrite Ha. cbn. lia. }
  assert (accounted (run s)) as Hacc.
  { apply (Hends accounted); [apply accounted_kept|apply TryClose_accounted|apply Finalize_accounted|].
    unfold accounted. congruence. }
  split_and!; [done|by apply Hacc, Hr|].
  apply (Hends no_websocket); [apply no_websocket_kept| |apply Finalize_websocket_open|].
  - intros s' Hs. by apply no_websocket_open, TryClose_no_websocket.
  - intros hdr h. rewrite Ha. apply not_elem_of_nil.
Qed.

Lemma run_request_concluded s : conn s = true -> actions s = [] -> concluded (run_request s).
Proof. apply concluded_of. intros P Q HP Hc Hf. by apply (run_request_ends anything belongs_anything P Q); auto. Qed.

Lemma service_phase_concluded s : conn s = true -> actions s = [] -> concluded (service_phase s).
Proof. apply concluded_of. intros P Q HP Hc Hf. by apply (service_phase_ends anything belongs_anything P Q); auto. Qed.

(** ** Requests that are left alone *)

(** Calls that leave the connection to the framework. *)
Definition quiet (c : call) : Prop :=
  match c with DoClose | DoCycle | EnvServer _ | EnvClosed => False | _ => True end.
Definition quiet_pre (c : pre_call) : Prop :=
  match c with PreCall c => quiet c | MarkAspectFailure => True end.
Definition quiet_service (c : service_call) : Prop :=
  match c with ServiceCall c => quiet c | UpgradeToWebSocket _ => True end.

Definition available (s : HttpTaskSharedState) : Prop := IsTaskEnvironmentAvailable s = true /\ conn_inv s.

Lemma run_call_available s c : quiet c -> available s -> available (run_call s c).
Proof.
  intros Hq [Ha Hi]. split; [|by apply run_call_inv]. by destruct c; try done; simpl; repeat case_match.
Qed.

Lemma available_kept : kept (mkClass quiet_pre quiet_service quiet) available.
Proof.
  split; try (intros; by eauto).
  - intros s [c|]; [apply run_call_available|done].
  - intros s [c|[h|]]; [apply run_call_available| |done]. simpl. intros _. by repeat case_match.
  - apply run_call_available.
Qed.

Section quiet.
Hypothesis Hpre : forall i s, Forall quiet_pre (pre_hook i s).
Hypothesis Hpre_tail : forall s, Forall quiet_pre (pre_tail s).
Hypothesis Hservice : forall s, Forall quiet_service (service_hook s).
Hypothesis Hpost : forall i s, Forall quiet (post_hook i s).
Hypothesis Hpost_tail : forall s, Forall quiet (post_tail s).

Lemma quiet_belongs : belongs (mkClass quiet_pre quiet_service quiet).
Proof. by split. Qed.

Lemma Finalize_acts s :
  IsTaskEnvironmentAvailable s = true -> conn_inv s ->
  terminals (FinalizePostPhaseConnection s) = 1.
Proof.
  unfold IsTaskEnvironmentAvailable. intros Ha [_ H0]. reflect_bools.
  assert (negb (conn s) || closed s = false) as Hav by (apply orb_false_iff; split; [by replace (conn s) with true|done]).
  assert (forall a s', terminal a = true -> actions s' = actions s ++ [a] -> terminals s' = 1) as Hone.
  { intros a s' Hta Hac. pose proof (terminals_act a s) as Ht. rewrite Hta, H0 in Ht by done.
    unfold terminals in *. rewrite Hac. exact Ht. }
  unfold FinalizePostPhaseConnection, FinalizeAutomaticMode, FinalizeManualMode,
    FinalizeWebSocketMode, SubmitFinalResponseWriteIfNeeded, FinalizeManualConnectionAction.
  destruct (connection_mode s); rewrite ?Hav.
  - by eapply Hone; [|reflexivity].
  - destruct (keep_alive s); by eapply Hone; [|reflexivity].
  - unfold TryStartWebSocketUpgradeTask. simpl.
    destruct (websocket_upgrade_handler s) as [h|]; replace (conn s) with true.
    + by eapply Hone; [|reflexivity].
    + unfold TryCloseConnection. simpl. replace (conn s) with true. replace (closed s) with false.
      by eapply Hone; [|reflexivity].
Qed.

Lemma post_phase_acts s : available s -> terminals (post_phase s) = 1.
Proof.
  intros Ha. destruct (PostStart_kept _ quiet_belongs _ available_kept s Ha) as [Ha' Hi'].
  unfold post_phase, post_released. rewrite Ha'. by apply Finalize_acts.
Qed.

Lemma no_marks_pre k s :
  (forall s, MarkAspectFailure ∉ k s) -> aspect_failure_marked s = false ->
  aspect_failure_marked (run_pre k s) = false.
Proof.
  intros Hk. unfold run_pre. specialize (Hk s). revert Hk. generalize (k s) as l. intros l.
  revert s. induction l as [|c l IH]; intros s Hl Hs; simpl; [done|].
  apply not_elem_of_cons in Hl as [Hc Hl]. apply IH; [done|].
  destruct c as [c|]; [|done]. destruct (run_call_frame s c) as [_ Hf]. simpl. by rewrite Hf.
Qed.

Lemma no_marks_DoPreService fuel idx s :
  (forall i s, MarkAspectFailure ∉ pre_hook i s) -> aspect_failure_marked s = false ->
  aspect_failure_marked (DoPreService fuel idx s) = false.
Proof.
  intros Hk. revert idx s. induction fuel as [|fuel IH]; intros idx s Hs; [done|].
  cbn [DoPreService]. rewrite Hs.
  pose proof (no_marks_pre (pre_hook idx) (ran (PreService idx) (set_unwind idx s)) (Hk idx) Hs) as Hr.
  rewrite Hr. by apply IH.
Qed.

(** A request that is left alone completes.  If neither the hooks nor the
    environment take the connection away, exactly one final action ends the
    request; and if no aspect marks a failure, every PreService runs in order,
    the service once, and every PostService in reverse order. *)
Theorem lifecycle_completes s :
  has_handler = true -> IsTaskEnvironmentAvailable s = true ->
  trace s = [] -> actions s = [] -> aspect_failure_marked s = false ->
  terminals (run_request s) = 1 /\
  ((forall i s, MarkAspectFailure ∉ pre_hook i s) -> (forall s, MarkAspectFailure ∉ pre_tail s) ->
   trace (run_request s) = pres n_aspects ++ [Service] ++ posts n_aspects).
Proof.
  intros Hh Ha Ht Hac Hf.
  assert (available s) as Hs by (split; [done|]; unfold conn_inv, terminals; rewrite Hac; simpl; lia).
  unfold run_request, pre_released. rewrite (available_dispatched _ Ha).
  destruct (pre_phase_spec s Ht Hf) as (k & Hk & Htr & Hu & Hnf & Hpos).
  destruct (pre_phase_kept _ quiet_belongs _ available_kept s Hs) as [Ha1 Hi1].
  assert ((forall i s, MarkAspectFailure ∉ pre_hook i s) -> (forall s, MarkAspectFailure ∉ pre_tail s) ->
    aspect_failure_marked (run_pre pre_tail (DoPreService n_aspects 0 s)) = false) as Hnm
    by (intros; apply no_marks_pre; [done|]; by apply no_marks_DoPreService).
  set (s1 := run_pre pre_tail _) in *. rewrite Ha1, Hh. cbn [negb].
  destruct (aspect_failure_marked s1) eqn:Hf1.
  { split; [by apply post_phase_acts|]. intros Hm1 Hm2. by specialize (Hnm Hm1 Hm2). }
  unfold service_phase, DoService. rewrite (available_dispatched _ Ha1), Hh.
  destruct (run_service_kept _ quiet_belongs _ available_kept (ran Service s1)) as [Ha2 Hi2]; [by split|].
  destruct (run_service_frame service_hook (ran Service s1)) as [[Hst Hsu] Hsf].
  set (s2 := run_service _ _) in *. rewrite Ha2. cbn [negb].
  split; [by apply post_phase_acts|]. intros _ _.
  rewrite (post_phase_trace s2 k); [|done|by rewrite Hsu|by rewrite Hsf; cbn; auto|done
    |by apply available_dispatched].
  rewrite Hst. cbn [trace ran]. by rewrite Htr, <- app_assoc, Hnf.
Qed.
End quiet.

(** Calls that, besides, leave it to the framework to answer and to go on. *)
Definition plain (c : call) : Prop :=
  match c with
  | SetKeepAlive false | SetManualConnectionManagement true | WriteBody _ | WriteHeader _ => False
  | _ => quiet c
  end.
Definition plain_pre (c : pre_call) : Prop :=
  match c with PreCall c => plain c | MarkAspectFailure => True end.
Definition plain_service (c : service_call) : Prop :=
  match c with ServiceCall c => plain c | UpgradeToWebSocket _ => is_upgrade = false end.

Definition answerable (s : HttpTaskSharedState) : Prop :=
  available s /\ keep_alive s = true /\ connection_mode s = kAutomatic /\ actions s = [].

Lemma run_call_answerable s c : plain c -> answerable s -> answerable (run_call s c).
Proof.
  intros Hc (Ha & Hk & Hm & Hac). split.
  { apply run_call_available; [|done]. by destruct c as [| | |[]|[]| | | | | | |]. }
  by destruct c as [| | |[]|[]| | | | | | |]; try done; simpl; repeat case_match.
Qed.

Lemma answerable_kept : kept (mkClass plain_pre plain_service plain) answerable.
Proof.
  split; try (intros; by eauto).
  - intros s [c|]; [apply run_call_answerable|done].
  - intros s [c|[h|]]; [apply run_call_answerable| |done]. simpl. intros ->. done.
  - apply run_call_answerable.
Qed.

(** A request whose code does no more than that is answered, and the connection
    goes on. *)
Lemma plain_answered s :
  belongs (mkClass plain_pre plain_service plain) -> has_handler = true -> answerable s ->
  let t := run_request s in
  closed t = false /\ srv_running t = true /\ exists r, actions t = [DoWriteResponse r true write_expiry].
Proof.
  intros HK Hh Hs. apply (run_request_ends _ HK answerable (fun t => closed t = false /\ srv_running t = true /\
    exists r, actions t = [DoWriteResponse r true write_expiry])); [apply answerable_kept| | |done].
  - intros s' Hn [[Ha _] _]. by rewrite Ha, Hh in Hn.
  - intros s' ([Ha _] & Hk & Hm & Hac). unfold IsTaskEnvironmentAvailable in Ha. reflect_bools.
    unfold FinalizePostPhaseConnection, FinalizeAutomaticMode, SubmitFinalResponseWriteIfNeeded.
    rewrite Hm. replace (conn s') with true. replace (closed s') with false. cbn. rewrite Hk, Hac. by eauto.
Qed.

Lemma append_cookies_body l r : resp_body (foldl append_set_cookie r l) = resp_body r.
Proof. revert r. induction l as [|c l IH]; intros r; [done|]. cbn. rewrite IH. unfold append_set_cookie. by destruct (ToString c). Qed.

(** Calls that leave the body alone. *)
Definition bodiless (c : call) : Prop := match c with SetBody _ | AppendBody _ => False | _ => plain c end.

Lemma run_call_body c s : bodiless c -> resp_body (resp (run_call s c)) = resp_body (resp s).
Proof. by destruct c; try done; simpl; repeat case_match. Qed.

(** The body of the response is what the service left, if the aspects do not refuse
    the request and leave the body alone afterwards. *)
Lemma service_body_answered body s :
  belongs (mkClass plain_pre plain_service plain) -> has_handler = true -> answerable s -> aspect_failure_marked s = false ->
  (forall i s, MarkAspectFailure ∉ pre_hook i s) -> (forall s, MarkAspectFailure ∉ pre_tail s) ->
  (forall i s, Forall bodiless (post_hook i s)) -> (forall s, Forall bodiless (post_tail s)) ->
  (forall s, answerable s -> resp_body (resp (run_service service_hook s)) = body) ->
  exists r, actions (run_request s) = [DoWriteResponse r true write_expiry] /\ resp_body r = body.
Proof.
  intros HK Hh Hs Hf Hm Hmt Hpost Htail Hbody. unfold run_request, pre_released.
  rewrite (available_dispatched _ (proj1 (proj1 Hs))).
  pose proof (pre_phase_kept _ HK _ answerable_kept s Hs) as H1.
  assert (aspect_failure_marked (run_pre pre_tail (DoPreService n_aspects 0 s)) = false) as Hf1
    by (apply no_marks_pre; [done|]; by apply no_marks_DoPreService).
  set (s1 := run_pre pre_tail _) in *. rewrite (proj1 (proj1 H1)), Hf1, Hh. cbn [negb].
  unfold service_phase, DoService. rewrite (available_dispatched _ (proj1 (proj1 H1))), Hh.
  assert (answerable (ran Service s1)) as H1r by exact H1.
  pose proof (run_service_kept _ HK _ answerable_kept _ H1r) as H2. pose proof (Hbody _ H1r) as Hb2.
  set (s2 := run_service _ _) in *. rewrite (proj1 (proj1 H2)). cbn [negb]. unfold post_phase, post_released.
  destruct (PostStart_keeps bodiless (fun s => answerable s /\ resp_body (resp s) = body) s2) as [H3 Hb3]; try done.
  { intros s' c Hc [Ha Hb]. split; [apply run_call_answerable; [by destruct c|done]|by rewrite run_call_body]. }
  rewrite (proj1 (proj1 H3)). cbn [negb]. destruct H3 as ([Ha _] & Hk & Hmo & Hac).
  unfold IsTaskEnvironmentAvailable in Ha. reflect_bools.
  unfold FinalizePostPhaseConnection, FinalizeAutomaticMode, SubmitFinalResponseWriteIfNeeded. rewrite Hmo.
  replace (conn (PostStart s2)) with true. replace (closed (PostStart s2)) with false. cbn. rewrite Hk, Hac.
  eexists. split; [reflexivity|]. by rewrite append_cookies_body.
Qed.

(** ** Cookies of the response *)

Lemma append_cookies_values l r :
  f_values (lit "Set-Cookie") (resp_fields (foldl append_set_cookie r l)) =
    f_values (lit "Set-Cookie") (resp_fields r) ++ filter (fun t => t <> []) (ToString <$> l).
Proof using Type.
  revert r. induction l as [|c l IH]; intros r; [by rewrite app_nil_r|].
  rewrite fmap_cons. cbn [foldl]. rewrite IH. unfold append_set_cookie.
  destruct (ToString c) as [|a t] eqn:Hc.
  - by rewrite filter_cons_False by (intros Hx; by apply Hx).
  - rewrite filter_cons_True by done. cbn [resp_fields]. rewrite f_values_insert.
    change (IEquals (lit "Set-Cookie") (lit "Set-Cookie")) with true. cbn iota.
    by rewrite <- app_assoc.
Qed.

(** Every cookie is in the response, and only the last one in a WebSocket
    handshake.  The response of an ordinary request carries, besides the
    Set-Cookie fields already there, one field per cookie added, in order (those
    without name or value have no text and are left out).  The header handed to
    the WebSocket task is copied field by field with [set], which replaces: of
    all Set-Cookie fields it keeps the last. *)
Theorem response_cookies s :
  IsTaskEnvironmentAvailable s = true ->
  let all := f_values (lit "Set-Cookie") (resp_fields (resp s))
             ++ filter (fun t => t <> []) (ToString <$> set_cookies s) in
  (connection_mode s = kAutomatic ->
   exists r, actions (FinalizePostPhaseConnection s)
               = actions s ++ [DoWriteResponse r (keep_alive s) write_expiry] /\
     f_values (lit "Set-Cookie") (resp_fields r) = all /\
     resp_body r = resp_body (resp s)) /\
  (forall h, connection_mode s = kWebSocket -> websocket_upgrade_handler s = Some h ->
   exists hdr, actions (FinalizePostPhaseConnection s) = actions s ++ [StartWebSocket hdr h] /\
     f_values (lit "Set-Cookie") hdr = option_list (last all)).
Proof using Type.
  unfold IsTaskEnvironmentAvailable. intros Ha. cbn zeta. reflect_bools.
  assert (negb (conn s) || closed s = false) as Hav
    by (apply orb_false_iff; split; [by replace (conn s) with true|done]).
  unfold FinalizePostPhaseConnection, FinalizeAutomaticMode, FinalizeWebSocketMode,
    SubmitFinalResponseWriteIfNeeded. split.
  - intros Hm. rewrite Hm, Hav. eexists. split_and!; [done|apply append_cookies_values|].
    apply append_cookies_body.
  - intros h Hm Hh. rewrite Hm, Hav. unfold TryStartWebSocketUpgradeTask. simpl.
    rewrite Hh. replace (conn s) with true. eexists. split; [done|].
    unfold MakeResponseHeaderSnapshot. simpl. rewrite f_values_copy_by_set. do 2 f_equal.
    apply append_cookies_values.
Qed.
End lifecycle.

(** ** Witnesses *)

Module Sample.
Definition state := HttpTaskSharedState (F := list (str * str)) (W := nat).

Definition cookie (n v : string) : ServerSetCookie :=
  mkSetCookie (Some (lit n)) (Some (lit v)) None None None None None None None.

(** Two aspects; the second one refuses requests when [refuse] is set. *)
Definition pre (refuse : bool) (i : nat) (_ : state) : list (pre_call (F := list (str * str))) :=
  if refuse && (i =? 1) then [MarkAspectFailure]
  else [PreCall (SetField (lit "X-Trace") (lit "on"))].
Definition service (_ : state) : list (service_call (F := list (str * str)) (W := nat)) :=
  [ServiceCall (SetBody (lit "ok")); ServiceCall (AddCookie (cookie "a" "1"));
   ServiceCall (AddCookie (cookie "b" "2"))].
Definition post (_ : nat) (_ : state) : list (call (F := list (str * str))) := [AppendBody (lit "!")].

Definition run (refuse : bool) : state :=
  run_request 2 true 4000 false (pre refuse) (fun _ => []) service post (fun _ => [])
    (CreateTaskState true false).

Lemma lifecycle_order_witness :
  trace (run true) = [PreService 0; PreService 1; PostService 1; PostService 0] /\
  exists k, k <= 2.
Proof.
  split; [vm_compute; reflexivity|].
  destruct (lifecycle_order 2 true 4000 false (pre true) (fun _ => []) service post (fun _ => [])
    (CreateTaskState true false)) as (k & Hk & _); [reflexivity|reflexivity|].
  exists k. exact Hk.
Defined.

Lemma connection_released_once_witness :
  conn (run false) = false /\ terminals (run false) <= 1.
Proof.
  apply (connection_released_once 2 true 4000 false (pre false) (fun _ => []) service post
    (fun _ => []) (CreateTaskState true false)). reflexivity.
Defined.

Lemma lifecycle_completes_witness :
  terminals (run false) = 1 /\
  trace (run false) =
    [PreService 0; PreService 1; Service; PostService 1; PostService 0].
Proof.
  destruct (lifecycle_completes 2 true 4000 false (pre false) (fun _ => []) service post
    (fun _ => [])) with (s := CreateTaskState (F := list (str * str)) (W := nat) true false)
    as [Ht Hn].
  - intros i s. repeat constructor.
  - intros s. constructor.
  - intros s. repeat constructor.
  - intros i s. repeat constructor.
  - intros s. constructor.
  - reflexivity.
  - reflexivity.
  - reflexivity.
  - reflexivity.
  - reflexivity.
  - split; [exact Ht|]. apply Hn.
    + intros i s Hin. apply list_elem_of_singleton in Hin. discriminate Hin.
    + intros s. apply not_elem_of_nil.
Defined.

Definition upgraded : state :=
  set_upgrade kRequested (Some 7) (set_mode kWebSocket
    (set_set_cookies [cookie "a" "1"; cookie "b" "2"] (CreateTaskState true false))).

Lemma response_cookies_witness :
  exists hdr, actions (FinalizePostPhaseConnection 4000 upgraded) = [StartWebSocket hdr 7] /\
    f_values (lit "Set-Cookie") hdr = [lit "b=2"].
Proof.
  destruct (response_cookies 4000 upgraded eq_refl) as [_ Hw].
  destruct (Hw 7 eq_refl eq_refl) as (hdr & Ha & Hv).
  exists hdr. split; [exact Ha|]. rewrite Hv. vm_compute. reflexivity.
Defined.
End Sample.
