(* ===== verification/RouteResult.v ===== *)
(** * Route results at the public interface

    http_route_result.h and http_route_result_internal.h: the result of routing as
    users see it, its conversions from and to the allocator-backed one, the public
    [Route] of table and server, and tasks made from a public result
    ([HttpServerTask::Create] and [HttpPreServerTask::Create] in
    http_server_task_lifecycle.cc).  A conversion copies the parameters one by one,
    in the order in which the [unordered_map] is walked, which is a parameter. *)

From S2P Require Import Prelude Text HttpFields RouteTarget RouteLayer RouteTable ServerCookie Lifecycle.

Section result.
Context {H A : Type}.

Record HttpRouteResult := mkPublic {
  pub_current_location : str;
  pub_route_template : str;
  pub_parameters : gmap str str;
  pub_aspects : list A;
  pub_handler : option H;
  pub_max_body_size : Z;
  pub_read_expiry : Z;
  pub_write_expiry : Z;
}.

Context (order : gmap str str -> list (str * str)).

(** [for (key, value : m) out.emplace(key, value)] *)
Definition copy_parameters (m : gmap str str) : gmap str str := foldl param_emplace ∅ (order m).

Definition ToPublicRouteResult (internal : HttpRouteResultInternal H A) : HttpRouteResult :=
  mkPublic (current_location internal) (route_template internal) (copy_parameters (parameters internal))
    (aspects internal) (handler internal) (max_body_size internal) (read_expiry internal) (write_expiry internal).

Definition ToInternalRouteResult (public_result : HttpRouteResult) : HttpRouteResultInternal H A :=
  mkResult (pub_current_location public_result) (pub_route_template public_result)
    (copy_parameters (pub_parameters public_result)) (pub_aspects public_result) (pub_handler public_result)
    (pub_max_body_size public_result) (pub_read_expiry public_result) (pub_write_expiry public_result).

Definition Route (parse_segments : str -> option (list str)) (method_idx : nat) (target : str)
    (t : HttpRouteTable H A) : HttpRouteResult :=
  ToPublicRouteResult (RouteInternal parse_segments method_idx target t).

Hypothesis Horder : forall m, order m ≡ₚ map_to_list m.

Lemma param_emplace_missing (l : list (str * str)) (m : gmap str str) k :
  k ∉ l.*1 -> m !! k = None -> foldl param_emplace m l !! k = None.
Proof.
  revert m. induction l as [|[a x] l IH]; intros m Hk Hm; [done|]. cbn in Hk. apply not_elem_of_cons in Hk as [Hne Hk].
  cbn. apply IH; [done|]. unfold param_emplace. cbn. case_match; [done|]. by rewrite lookup_insert_ne.
Qed.

Lemma copy_parameters_same m : copy_parameters m = m.
Proof.
  apply map_eq. intros k. unfold copy_parameters.
  assert (NoDup (order m).*1) as Hnd by (rewrite (Horder m); apply NoDup_fst_map_to_list).
  destruct (m !! k) as [v|] eqn:Hk.
  - apply param_emplace_all; [done| |done]. rewrite (Horder m). by apply elem_of_map_to_list.
  - apply param_emplace_missing; [|done]. intros Hin. apply list_elem_of_fmap in Hin as ([k' v] & Heq & Hv).
    cbn in Heq. subst k'. rewrite (Horder m) in Hv. apply elem_of_map_to_list in Hv. congruence.
Qed.

(** Nothing is lost at the public interface: a result survives the conversions in
    either direction, whatever the order of its parameters, so a task made from what
    [Route] returned has the route that the connection would have used. *)
Theorem public_result_round_trip :
  (forall r, ToInternalRouteResult (ToPublicRouteResult r) = r) /\
  (forall r, ToPublicRouteResult (ToInternalRouteResult r) = r) /\
  (forall parse_segments m target t,
     ToInternalRouteResult (Route parse_segments m target t) = RouteInternal parse_segments m target t).
Proof.
  assert (forall r, ToInternalRouteResult (ToPublicRouteResult r) = r) as H1
    by (intros []; unfold ToInternalRouteResult, ToPublicRouteResult; cbn; by rewrite !copy_parameters_same).
  split_and!; [done| |intros; apply H1].
  intros []. unfold ToInternalRouteResult, ToPublicRouteResult. cbn. by rewrite !copy_parameters_same.
Qed.

(** ** Tasks made by hand *)

Section tasks.
Context {F : Type} {HF : HttpFields F} {W : Type} (is_upgrade : bool).
Abbreviation task_t := (HttpTaskSharedState (F := F) (W := W)).
Context (pre_hook : nat -> task_t -> list (pre_call (F := F))) (pre_tail : task_t -> list (pre_call (F := F)))
        (service_hook : task_t -> list (service_call (F := F) (W := W)))
        (post_hook : nat -> task_t -> list (call (F := F))) (post_tail : task_t -> list (call (F := F))).

Definition has_handler_ (r : HttpRouteResultInternal H A) : bool :=
  match handler r with Some _ => true | None => false end.

(** [HttpPreServerTask::Create] and [Start]: all phases. *)
Definition PreServerTask (r : HttpRouteResult) (running is_closed : bool) : task_t :=
  let r := ToInternalRouteResult r in
  run_request (length (aspects r)) (has_handler_ r) (RouteTable.write_expiry r) is_upgrade
    pre_hook pre_tail service_hook post_hook post_tail (CreateTaskState running is_closed).

(** [HttpServerTask::Create] and [Start]: the service, then the post phase. *)
Definition ServerTask (r : HttpRouteResult) (running is_closed : bool) : task_t :=
  let r := ToInternalRouteResult r in
  service_phase (length (aspects r)) (has_handler_ r) (RouteTable.write_expiry r) is_upgrade
    service_hook post_hook post_tail (CreateTaskState running is_closed).

(** Such a task gives its connection up once, like one the connection made. *)
Lemma made_tasks_concluded r running is_closed :
  concluded (PreServerTask r running is_closed) /\ concluded (ServerTask r running is_closed).
Proof.
  split; [by apply run_request_concluded|].
  by apply (service_phase_concluded _ _ _ _ pre_hook pre_tail).
Qed.
End tasks.
End result.
