(* ===== verification/Sse.v ===== *)
(** * Sse: the incremental parser of text/event-stream

    Source: src/connection/client/sse_event_parser.cc and its header. *)

From S2P Require Import Prelude Text.

Definition newline : ascii := "010"%char.
Definition carriage_return : ascii := "013"%char.

Record SseEvent := mkEvent {
  id : str;
  event : str;
  data : str;
  retry_ms : option Z;
}.

Definition empty_event : SseEvent := mkEvent [] [] [] None.

Record SseEventParser := mkParser {
  pending_ : str;
  current_ : SseEvent;
  has_field_ : bool;
}.

Definition new_parser : SseEventParser := mkParser [] empty_event false.
Definition Reset (_ : SseEventParser) : SseEventParser := new_parser.

(** ** Fields *)

Definition TrimLeadingSingleSpace (sv : str) : str :=
  match sv with c :: sv' => if c =c " "%char then sv' else sv | [] => [] end.

(** [std::from_chars] for [int]: an optional minus sign and digits; the value
    and what is left, or [None] for no digits and for a value out of range. *)
Definition is_digit (c : ascii) : bool :=
  (48 <=? nat_of_ascii c) && (nat_of_ascii c <=? 57).

Fixpoint scan_digits (s : str) (acc : Z) : Z * str :=
  match s with
  | c :: s' =>
      if is_digit c then scan_digits s' (10 * acc + (Z.of_nat (nat_of_ascii c) - 48))
      else (acc, s)
  | [] => (acc, [])
  end.

Definition from_chars (s : str) : option (Z * str) :=
  let '(neg, digits) :=
    match s with
    | c :: s' => if c =c "-"%char then (true, s') else (false, s)
    | [] => (false, s)
    end in
  match digits with
  | c :: _ =>
      if is_digit c then
        let '(n, rest) := scan_digits digits 0 in
        let n := if neg then (- n)%Z else n in
        if bool_decide (- 2 ^ 31 <= n <= 2 ^ 31 - 1)%Z then Some (n, rest) else None
      else None
  | [] => None
  end.

Definition ApplySseField (field value : str) (p : SseEventParser) : SseEventParser :=
  let e := current_ p in
  if field =s lit "data" then
    mkParser (pending_ p)
      (mkEvent (id e) (event e)
         ((match data e with [] => [] | d => d ++ [newline] end) ++ value) (retry_ms e)) true
  else if field =s lit "id" then
    mkParser (pending_ p) (mkEvent value (event e) (data e) (retry_ms e)) true
  else if field =s lit "event" then
    mkParser (pending_ p) (mkEvent (id e) value (data e) (retry_ms e)) true
  else if field =s lit "retry" then
    match from_chars value with
    | Some (retry, []) =>
        if (0 <=? retry)%Z
        then mkParser (pending_ p) (mkEvent (id e) (event e) (data e) (Some retry)) true
        else p
    | _ => p
    end
  else p.

(** ** Lines *)

Definition EmitEventIfReady (p : SseEventParser) (out : list SseEvent) :
    SseEventParser * list SseEvent :=
  if has_field_ p
  then (mkParser (pending_ p) empty_event false, out ++ [current_ p])
  else (p, out).

Definition ConsumeLine (line : str) (p : SseEventParser) (out : list SseEvent) :
    SseEventParser * list SseEvent :=
  match line with
  | [] => EmitEventIfReady p out
  | c :: _ =>
      if c =c ":"%char then (p, out)
      else
        let colon := find_char ":"%char line in
        let value := match colon with
                     | Some i => TrimLeadingSingleSpace (drop (i + 1) line)
                     | None => []
                     end in
        (ApplySseField (prefix_upto line colon) value p, out)
  end.

Definition strip_cr (line : str) : str :=
  match last line with
  | Some c => if c =c carriage_return then removelast line else line
  | None => line
  end.

(** The [while] loop of [FeedAllocated] on the unread part of [pending_]; the
    length of that part is enough fuel. *)
Fixpoint feed_loop (fuel : nat) (rest : str) (p : SseEventParser) (out : list SseEvent) :
    str * SseEventParser * list SseEvent :=
  match fuel with
  | 0 => (rest, p, out)
  | S fuel =>
      match find_char newline rest with
      | None => (rest, p, out)
      | Some line_end =>
          let '(p, out) := ConsumeLine (strip_cr (take line_end rest)) p out in
          feed_loop fuel (drop (line_end + 1) rest) p out
      end
  end.

Definition set_pending (s : str) (p : SseEventParser) : SseEventParser :=
  mkParser s (current_ p) (has_field_ p).

Definition FeedAllocated (chunk : str) (p : SseEventParser) :
    SseEventParser * list SseEvent :=
  let pending := pending_ p ++ chunk in
  let '(rest, p, events) := feed_loop (length pending) pending p [] in
  (set_pending rest p, events).

(** ** Lines as a list *)

(** The complete lines of a text, and what follows the last of them. *)
Fixpoint lines (s : str) : list str * str :=
  match s with
  | [] => ([], [])
  | c :: s' =>
      let '(ls, r) := lines s' in
      if c =c newline then ([] :: ls, r)
      else match ls with [] => ([], c :: r) | l :: ls => ((c :: l) :: ls, r) end
  end.

Definition consume_lines (ls : list str) (po : SseEventParser * list SseEvent) :
    SseEventParser * list SseEvent :=
  foldl (fun po l => ConsumeLine (strip_cr l) po.1 po.2) po ls.

Lemma lines_plain s : newline ∉ s -> lines s = ([], s).
Proof.
  induction s as [|c s IH]; [done|]. intros [Hc Hs]%not_elem_of_cons. simpl.
  rewrite IH by done. destruct (Ascii.eqb_spec c newline); [congruence|done].
Qed.

Lemma lines_cons l s :
  newline ∉ l -> lines (l ++ newline :: s) = (l :: (lines s).1, (lines s).2).
Proof.
  induction l as [|c l IH]; intros Hl; simpl.
  - by destruct (lines s).
  - apply not_elem_of_cons in Hl as [Hc Hl]. rewrite IH by done.
    destruct (Ascii.eqb_spec c newline); [congruence|done].
Qed.

Lemma feed_loop_lines fuel s p out :
  length s <= fuel ->
  feed_loop fuel s p out =
    ((lines s).2, (consume_lines (lines s).1 (p, out)).1, (consume_lines (lines s).1 (p, out)).2).
Proof.
  revert s p out. induction fuel as [|fuel IH]; intros s p out Hlen.
  { destruct s; [done|simpl in Hlen; lia]. }
  cbn [feed_loop]. destruct (find_char newline s) as [i|] eqn:Hf.
  - apply find_char_Some in Hf as (l & r & -> & Hl & <-).
    rewrite take_app_length, drop_app_ge by lia.
    replace (length l + 1 - length l) with 1 by lia. change (drop 1 (newline :: r)) with r.
    rewrite lines_cons by done. cbn [fst snd consume_lines foldl].
    destruct (ConsumeLine (strip_cr l) p out) as [p' out'].
    rewrite IH; [done|]. rewrite length_app in Hlen. simpl in Hlen. lia.
  - apply find_char_None in Hf. by rewrite lines_plain.
Qed.

(** Feeding is: consume the complete lines, keep the rest. *)
Lemma Feed_lines chunk p :
  FeedAllocated chunk p =
    let '(ls, r) := lines (pending_ p ++ chunk) in
    let po := consume_lines ls (p, []) in (set_pending r po.1, po.2).
Proof.
  unfold FeedAllocated. rewrite feed_loop_lines by done. by destruct (lines _).
Qed.

Lemma lines_app s b :
  lines (s ++ b) = ((lines s).1 ++ (lines ((lines s).2 ++ b)).1, (lines ((lines s).2 ++ b)).2).
Proof.
  induction s as [|c s IH]; [simpl; by destruct (lines b)|].
  cbn [app lines]. rewrite IH. destruct (lines s) as [ls r]. cbn [fst snd].
  destruct (Ascii.eqb_spec c newline) as [->|Hc]; [done|].
  destruct ls as [|l ls]; [|done]. cbn [fst snd app lines].
  destruct (lines (r ++ b)) as [ls' r']. cbn [fst snd].
  destruct (Ascii.eqb_spec c newline); [done|]. by destruct ls'.
Qed.

(** ** Chunking *)

Lemma ConsumeLine_out line p out :
  ConsumeLine line p out = ((ConsumeLine line p []).1, out ++ (ConsumeLine line p []).2).
Proof.
  unfold ConsumeLine, EmitEventIfReady. repeat case_match; simpl; by rewrite ?app_nil_r.
Qed.

Lemma consume_lines_out ls p out :
  consume_lines ls (p, out) =
    ((consume_lines ls (p, [])).1, out ++ (consume_lines ls (p, [])).2).
Proof.
  unfold consume_lines. revert p out. induction ls as [|l ls IH]; intros p out.
  { simpl. by rewrite app_nil_r. }
  cbn [foldl fst snd]. rewrite ConsumeLine_out.
  destruct (ConsumeLine (strip_cr l) p []) as [p1 o1]. cbn [fst snd].
  rewrite (IH p1 (out ++ o1)), (IH p1 o1). cbn [fst snd]. by rewrite app_assoc.
Qed.

(** Lines do not look at the buffer. *)
Lemma ApplySseField_pending s f v p :
  ApplySseField f v (set_pending s p) = set_pending s (ApplySseField f v p).
Proof. destruct p. unfold ApplySseField, set_pending. simpl. by repeat case_match. Qed.

Lemma ConsumeLine_pending s line p out :
  ConsumeLine line (set_pending s p) out =
    (set_pending s (ConsumeLine line p out).1, (ConsumeLine line p out).2).
Proof.
  unfold ConsumeLine, EmitEventIfReady. destruct line as [|c line].
  - cbn [has_field_ set_pending]. by destruct (has_field_ p).
  - destruct (c =c ":"%char); [done|]. by rewrite ApplySseField_pending.
Qed.

Lemma consume_lines_pending s ls p out :
  consume_lines ls (set_pending s p, out) =
    (set_pending s (consume_lines ls (p, out)).1, (consume_lines ls (p, out)).2).
Proof.
  unfold consume_lines. revert p out. induction ls as [|l ls IH]; intros p out; [done|].
  cbn [foldl fst snd]. rewrite ConsumeLine_pending.
  destruct (ConsumeLine (strip_cr l) p out) as [p1 o1]. apply IH.
Qed.

Lemma consume_lines_app a b po : consume_lines (a ++ b) po = consume_lines b (consume_lines a po).
Proof. unfold consume_lines. by rewrite foldl_app. Qed.

Lemma Feed_app a b p :
  FeedAllocated (a ++ b) p =
    let '(p1, e1) := FeedAllocated a p in
    let '(p2, e2) := FeedAllocated b p1 in (p2, e1 ++ e2).
Proof.
  rewrite !Feed_lines, app_assoc, lines_app.
  destruct (lines (pending_ p ++ a)) as [la ra]. cbn [fst snd].
  rewrite Feed_lines. cbn [pending_ set_pending].
  destruct (lines (ra ++ b)) as [lb rb]. cbn [fst snd].
  rewrite consume_lines_app, consume_lines_pending.
  destruct (consume_lines la (p, [])) as [p1 e1]. cbn [fst snd].
  rewrite consume_lines_out. cbn [fst snd]. by destruct (consume_lines lb (p1, [])).
Qed.

(** Feed the chunks one after the other; all events, in order. *)
Definition feed_all (chunks : list str) (p : SseEventParser) : SseEventParser * list SseEvent :=
  foldl (fun pe c => let '(p', e) := FeedAllocated c pe.1 in (p', pe.2 ++ e)) (p, []) chunks.

Lemma feed_all_concat (chunks : list str) (p : SseEventParser) :
  newline ∉ pending_ p -> feed_all chunks p = FeedAllocated (concat chunks) p.
Proof.
  intros Hp. unfold feed_all. induction chunks as [|c chunks IH] using rev_ind.
  - simpl. rewrite Feed_lines, app_nil_r, lines_plain by done. by destruct p.
  - rewrite foldl_app, IH, concat_app. cbn [foldl concat]. rewrite app_nil_r, Feed_app.
    by destruct (FeedAllocated (concat chunks) p).
Qed.

(** C30. Chunk boundaries do not matter.  However the transport cuts the
    stream, the parser delivers the same events in the same order and ends in
    the same state as if it had been given everything at once. *)
Theorem sse_chunking (chunks : list str) (p : SseEventParser) :
  newline ∉ pending_ p -> feed_all chunks p = FeedAllocated (concat chunks) p.
Proof. apply feed_all_concat. Qed.

(** ** What a well-formed event gives *)

(** A field value that fits in a line. *)
Definition value_ok (v : str) : Prop := newline ∉ v /\ last v <> Some carriage_return.

Definition field_line (name : str) (v : str) : str := name ++ lit ": " ++ v.

(** The lines of an event, and its text. *)
Definition event_lines (i ev : str) (ds : list str) : list str :=
  field_line (lit "id") i :: field_line (lit "event") ev
  :: (field_line (lit "data") <$> ds) ++ [[]].
Definition text (ls : list str) : str := concat ((fun l => l ++ [newline]) <$> ls).

(** The data lines joined by newlines, without the empty ones in front. *)
Fixpoint join_lines (ds : list str) : str :=
  match ds with
  | [] => []
  | [d] => d
  | d :: ds' => d ++ newline :: join_lines ds'
  end.
Fixpoint skip_empty (ds : list str) : list str :=
  match ds with [] :: ds' => skip_empty ds' | _ => ds end.

Lemma lines_text ls : Forall (fun l => newline ∉ l) ls -> lines (text ls) = (ls, []).
Proof.
  unfold text. induction 1 as [|l ls Hl _ IH]; [done|]. cbn [fmap list_fmap concat].
  rewrite <- app_assoc. cbn [app]. rewrite lines_cons by done.
  change (list_fmap _ _ ?f ls) with (f <$> ls). by rewrite IH.
Qed.

Lemma strip_cr_field name v : value_ok v -> strip_cr (field_line name v) = field_line name v.
Proof.
  intros [_ Hv]. unfold strip_cr, field_line. rewrite !last_app.
  destruct (last v) as [c|]; [|done].
  destruct (Ascii.eqb_spec c carriage_return); [congruence|done].
Qed.

Lemma ConsumeLine_field name v p out :
  name <> [] -> ":"%char ∉ name ->
  ConsumeLine (field_line name v) p out = (ApplySseField name v p, out).
Proof.
  intros Hn Hc. unfold field_line. change (lit ": " ++ v) with (":"%char :: " "%char :: v).
  pose proof (find_char_app ":"%char name (" "%char :: v) Hc) as Hf.
  destruct name as [|a name]; [done|]. apply not_elem_of_cons in Hc as [Ha _].
  unfold ConsumeLine. cbn [app] in *. rewrite Hf.
  destruct (Ascii.eqb_spec a ":"%char); [congruence|]. cbn [prefix_upto].
  change (a :: name ++ ":"%char :: " "%char :: v) with ((a :: name) ++ ":"%char :: " "%char :: v).
  rewrite take_app_length, drop_app_ge by lia.
  by replace (length (a :: name) + 1 - length (a :: name)) with 1 by lia.
Qed.

Lemma consume_field name v p out :
  value_ok v -> name <> [] -> ":"%char ∉ name ->
  ConsumeLine (strip_cr (field_line name v)) p out = (ApplySseField name v p, out).
Proof. intros. rewrite strip_cr_field by done. by apply ConsumeLine_field. Qed.

(** One more data line. *)
Definition add_data (d v : str) : str :=
  (match d with [] => [] | _ => d ++ [newline] end) ++ v.

Lemma consume_data ds i ev d r p out :
  Forall value_ok ds -> current_ p = mkEvent i ev d r -> has_field_ p = true ->
  consume_lines (field_line (lit "data") <$> ds) (p, out) =
    (mkParser (pending_ p) (mkEvent i ev (foldl add_data d ds) r) true, out).
Proof.
  unfold consume_lines. intros HF. revert d p.
  induction HF as [|v ds Hv _ IH]; intros d p Hc Hh.
  { simpl. destruct p. simpl in *. by subst. }
  rewrite fmap_cons. cbn [foldl fst snd].
  rewrite consume_field by (done || by apply (bool_decide_unpack _)).
  rewrite (IH (add_data d v)); [done| |done].
  unfold ApplySseField. rewrite Hc. by destruct d.
Qed.

Lemma add_data_nonempty d ds :
  d <> [] -> foldl add_data d ds = join_lines (d :: ds).
Proof.
  revert d. induction ds as [|v ds IH]; intros d Hd; [done|]. cbn [foldl].
  unfold add_data at 2. destruct d as [|c d]; [done|].
  rewrite IH by done. cbn [join_lines]. destruct ds as [|v' ds].
  - by rewrite <- app_assoc.
  - change (join_lines (v :: v' :: ds)) with (v ++ newline :: join_lines (v' :: ds)).
    by rewrite <- !app_assoc.
Qed.

Lemma add_data_skip ds : foldl add_data [] ds = join_lines (skip_empty ds).
Proof.
  induction ds as [|[|c d] ds IH]; [done|exact IH|].
  cbn [foldl skip_empty]. by apply add_data_nonempty.
Qed.

(** An event is delivered as sent.  The text of an event (id, type and any
    number of data lines, ended by a blank line) gives exactly one event with
    that id and type, and leaves the parser as new.  Its data are the data
    lines joined by newlines, except that empty data lines in front are lost:
    the separator is added only when something was received before. *)
Theorem sse_event_delivered i ev ds :
  value_ok i -> value_ok ev -> Forall value_ok ds ->
  FeedAllocated (text (event_lines i ev ds)) new_parser =
    (new_parser, [mkEvent i ev (join_lines (skip_empty ds)) None]).
Proof.
  intros Hi Hev Hds. rewrite Feed_lines. cbn [pending_ new_parser app].
  rewrite lines_text.
  2:{ assert (forall name v, newline ∉ name -> value_ok v -> newline ∉ field_line name v) as Hno.
      { intros name v Hn [Hv _]. unfold field_line. rewrite !elem_of_app.
        intros [?|[Hx|?]]; [done| |done]. revert Hx. by apply (bool_decide_unpack _). }
      unfold event_lines. repeat constructor.
      - apply Hno; [by apply (bool_decide_unpack _)|done].
      - apply Hno; [by apply (bool_decide_unpack _)|done].
      - apply Forall_app. split; [|repeat constructor; apply not_elem_of_nil].
        rewrite Forall_fmap. eapply Forall_impl; [exact Hds|]. intros v Hv.
        apply Hno; [by apply (bool_decide_unpack _)|done]. }
  unfold event_lines. cbn [consume_lines foldl fst snd].
  rewrite !consume_field by (done || by apply (bool_decide_unpack _)).
  change (foldl _ ?po ?l) with (consume_lines l po). rewrite consume_lines_app.
  rewrite (consume_data ds i ev [] None) by done. rewrite add_data_skip. done.
Qed.

(** ** Witnesses *)

Definition sample_text : str :=
  text (event_lines (lit "7") (lit "tick") [lit "one"; lit "two"]).

Lemma sse_chunking_witness :
  feed_all [take 5 sample_text; take 13 (drop 5 sample_text); drop 18 sample_text] new_parser
  = FeedAllocated sample_text new_parser.
Proof.
  rewrite (sse_chunking [take 5 sample_text; take 13 (drop 5 sample_text); drop 18 sample_text]
    new_parser) by apply not_elem_of_nil.
  f_equal. 
Defined.

Lemma sse_event_delivered_witness :
  FeedAllocated (text (event_lines (lit "7") (lit "tick") [[]; lit "x"])) new_parser =
    (new_parser, [mkEvent (lit "7") (lit "tick") (lit "x") None]).
Proof.
  apply (sse_event_delivered (lit "7") (lit "tick") [[]; lit "x"]);
    [split; by apply (bool_decide_unpack _)..|].
  repeat constructor; by apply (bool_decide_unpack _).
Defined.
