(* ===== verification/MultipartParser.v ===== *)
(** * Multipart form data: the parser

    [src/src/connection/server/multipart_parser.cc] and the helpers of
    [include/internal/server/request_body_processor_detail.h].  A [while] loop
    over a shrinking view is a [Fixpoint] with fuel; the lemmas
    [params_exists] and [params_first] and the theorem of this file show that
    the fuel given is enough.  [std::string_view::compare] throws when the
    position is past the end: an exception is the outcome [Thrown]. *)

From S2P Require Import Prelude Text ServerCookie.

Definition crlf : str := ["013"%char; "010"%char].

(** ** Headers *)

Definition TrimAscii (sv : str) : str := TrimView sv.
Definition ToLowerAscii (sv : str) : str := ToLowerString sv.

Definition Unquote (sv : str) : str := strip_quotes (TrimAscii sv).

(** The key of a [key=value] parameter, trimmed and in lower case, and the text
    after the '='. *)
Definition parameter (token : str) : option (str * str) :=
  let token := TrimAscii token in
  eq ← find_char "="%char token;
  Some (ToLowerAscii (TrimAscii (take eq token)), drop (eq + 1) token).

(** The loop over the parameters of [ExtractBoundary]. *)
Fixpoint boundary_loop (fuel : nat) (params : str) : option str :=
  match fuel, params with
  | 0, _ | _, [] => None
  | S fuel, _ =>
      let next := find_char ";"%char params in
      let continue_ :=
        match next with
        | None => None
        | Some next => boundary_loop fuel (drop (next + 1) params)
        end in
      match parameter (prefix_upto params next) with
      | Some (key, value) =>
          if key =s lit "boundary" then
            match Unquote value with [] => continue_ | boundary => Some boundary end
          else continue_
      | None => continue_
      end
  end.

Definition ExtractBoundary (content_type : str) : option str :=
  let semi := find_char ";"%char content_type in
  let mime := ToLowerAscii (TrimAscii (prefix_upto content_type semi)) in
  match semi with
  | Some semi =>
      if mime =s lit "multipart/form-data" then
        let params := drop (semi + 1) content_type in
        boundary_loop (S (length params)) params
      else None
  | None => None
  end.

(** The loop over the parameters of [ParseDisposition]. *)
Fixpoint disposition_loop (fuel : nat) (params : str) : bool :=
  match fuel, params with
  | 0, _ | _, [] => false
  | S fuel, _ =>
      let next := find_char ";"%char params in
      let continue_ :=
        match next with
        | None => false
        | Some next => disposition_loop fuel (drop (next + 1) params)
        end in
      match parameter (prefix_upto params next) with
      | Some (key, _) => if key =s lit "filename" then true else continue_
      | None => continue_
      end
  end.

Definition ParseDisposition (value : str) : bool :=
  match find_char ";"%char value with
  | None => false
  | Some first_semi =>
      let params := drop (first_semi + 1) value in
      disposition_loop (S (length params)) params
  end.

(** One header line, changing the content type and the file flag. *)
Definition parse_line (line : str) (acc : str * bool) : str * bool :=
  match find_char ":"%char line with
  | None => acc
  | Some colon =>
      let name := ToLowerAscii (TrimAscii (take colon line)) in
      let value := TrimAscii (drop (colon + 1) line) in
      if name =s lit "content-type" then (value, acc.2)
      else if name =s lit "content-disposition" then (acc.1, ParseDisposition value)
      else acc
  end.

Fixpoint header_loop (fuel : nat) (header_block : str) (acc : str * bool) : str * bool :=
  match fuel, header_block with
  | 0, _ | _, [] => acc
  | S fuel, _ =>
      let line_end := find_str crlf header_block in
      let acc := parse_line (prefix_upto header_block line_end) acc in
      match line_end with
      | None => acc
      | Some line_end => header_loop fuel (drop (line_end + 2) header_block) acc
      end
  end.

Definition ParsePartHeaders (header_block : str) : str * bool :=
  header_loop (S (length header_block)) header_block ([], false).

(** ** The body *)

Inductive outcome (A : Type) :=
  | Returned (a : A)
  | Thrown
  | OutOfFuel.
Arguments Returned {_} _.
Arguments Thrown {_}.
Arguments OutOfFuel {_}.

(** A [FileWriter] holds the bytes to be written. *)
Record PartData := mkPart {
  content_type : str;
  payload : str;
  is_file : bool;
  writer : option str;
}.

Definition PrepareMultipartBody (body delimiter : str) : bool := starts_with body delimiter.

(** [None] is [return false]; otherwise the content type, the file flag, the
    payload and the new cursor. *)
Definition ParseMultipartPart (body delimiter boundary_marker : str) (cursor : nat) :
    outcome (option (str * bool * str * nat)) :=
  match compare_at body cursor (length delimiter) delimiter with
  | None => Thrown
  | Some false => Returned None
  | Some true =>
      let cursor := cursor + length delimiter in
      match
        (if cursor + 2 <=? length body then compare_at body cursor 2 (lit "--") else Some false)
      with
      | None => Thrown
      | Some true => Returned None
      | Some false =>
          match
            (if length body <? cursor + 2 then Some false else compare_at body cursor 2 crlf)
          with
          | None => Thrown
          | Some false => Returned None
          | Some true =>
              let cursor := cursor + 2 in
              match find_str_from (crlf ++ crlf) body cursor with
              | None => Returned None
              | Some header_end =>
                  let '(ct, file) := ParsePartHeaders (substr body cursor (header_end - cursor)) in
                  let payload_start := header_end + 4 in
                  match find_str_from boundary_marker body payload_start with
                  | None => Returned None
                  | Some next_boundary =>
                      Returned (Some (ct, file,
                        substr body payload_start (next_boundary - payload_start),
                        next_boundary + 2))
                  end
              end
          end
      end
  end.

Definition ReachedMultipartTerminator (body : str) (cursor : nat) (delimiter : str) :
    option bool :=
  match compare_at body cursor (length delimiter) delimiter with
  | Some true =>
      if cursor + length delimiter + 2 <=? length body
      then compare_at body (cursor + length delimiter) 2 (lit "--") else Some false
  | r => r
  end.

Fixpoint parse_loop (fuel : nat) (body delimiter boundary_marker : str) (cursor : nat)
    (parts : list PartData) : outcome (list PartData) :=
  if length body <=? cursor then Returned parts else
  match fuel with
  | 0 => OutOfFuel
  | S fuel =>
      match ReachedMultipartTerminator body cursor delimiter with
      | None => Thrown
      | Some true => Returned parts
      | Some false =>
          match ParseMultipartPart body delimiter boundary_marker cursor with
          | Thrown => Thrown
          | OutOfFuel => OutOfFuel
          | Returned None => Returned []
          | Returned (Some (ct, file, pl, cursor)) =>
              let part :=
                if (file : bool) then mkPart ct [] true (Some pl) else mkPart ct pl false None in
              parse_loop fuel body delimiter boundary_marker cursor (parts ++ [part])
          end
      end
  end.

(** [Parse], given the value of the Content-Type field (empty when missing). *)
Definition Parse (content_type_value body : str) : outcome (list PartData) :=
  match ExtractBoundary content_type_value with
  | None => Returned []
  | Some boundary =>
      let delimiter := lit "--" ++ boundary in
      let boundary_marker := crlf ++ delimiter in
      if PrepareMultipartBody body delimiter
      then parse_loop (length body) body delimiter boundary_marker 0 []
      else Returned []
  end.

Definition GetPartCount (parts_ : list PartData) : nat := length parts_.
Definition GetPartType (parts_ : list PartData) (part_idx : nat) : str :=
  match parts_ !! part_idx with None => [] | Some p => content_type p end.
Definition IsFile (parts_ : list PartData) (part_idx : nat) : bool :=
  match parts_ !! part_idx with None => false | Some p => is_file p end.
Definition GetFileWriter (parts_ : list PartData) (part_idx : nat) : option str :=
  match parts_ !! part_idx with None => None | Some p => writer p end.

(** ** The fuel of the loops is enough *)

Definition is_filename (token : str) : bool :=
  match parameter token with Some (key, _) => key =s lit "filename" | None => false end.

Definition boundary_of (token : str) : option str :=
  match parameter token with
  | Some (key, value) =>
      if key =s lit "boundary"
      then match Unquote value with [] => None | b => Some b end else None
  | None => None
  end.

Lemma split_params params :
  split_on ";"%char params =
  match find_char ";"%char params with
  | None => [params]
  | Some next => take next params :: split_on ";"%char (drop (next + 1) params)
  end.
Proof.
  destruct (find_char ";"%char params) as [i|] eqn:E.
  - apply find_char_Some in E as (l & r & -> & Hl & <-). rewrite split_on_app by done.
    rewrite take_app_length, drop_app_ge by lia.
    replace (length l + 1 - length l) with 1 by lia. done.
  - apply find_char_None in E. by apply split_on_plain.
Qed.

(** The two loops look at the parameters between the semicolons in turn. *)
Lemma params_exists fuel params :
  length params < fuel ->
  disposition_loop fuel params = existsb is_filename (split_on ";"%char params).
Proof.
  revert params. induction fuel as [|fuel IH]; intros params Hf; [lia|].
  destruct params as [|c params]; [reflexivity|].
  cbn [disposition_loop]. rewrite split_params.
  destruct (find_char ";"%char (c :: params)) as [next|] eqn:E; cbn [prefix_upto existsb].
  - rewrite IH by (rewrite length_drop; cbn in Hf |- *; lia).
    unfold is_filename. destruct (parameter _) as [[k v]|]; [|done].
    by destruct (k =s lit "filename").
  - unfold is_filename. destruct (parameter _) as [[k v]|]; [|done].
    by destruct (k =s lit "filename").
Qed.

Lemma params_first fuel params :
  length params < fuel ->
  boundary_loop fuel params = head (omap boundary_of (split_on ";"%char params)).
Proof.
  revert params. induction fuel as [|fuel IH]; intros params Hf; [lia|].
  destruct params as [|c params]; [reflexivity|].
  cbn [boundary_loop]. rewrite split_params.
  destruct (find_char ";"%char (c :: params)) as [next|] eqn:E; cbn [prefix_upto omap list_omap].
  - rewrite IH by (rewrite length_drop; cbn in Hf |- *; lia).
    unfold boundary_of. destruct (parameter _) as [[k v]|]; [|done].
    destruct (k =s lit "boundary"); [|done]. by destruct (Unquote v).
  - unfold boundary_of. destruct (parameter _) as [[k v]|]; [|done].
    destruct (k =s lit "boundary"); [|done]. by destruct (Unquote v).
Qed.

(** ** Parsing is total and finds sections of the body *)

(** [pl] is a section of the body that the marker ends, and the marker does not
    begin before. *)
Definition section_of (body marker pl : str) : Prop :=
  exists pre post, body = pre ++ pl ++ marker ++ post /\
    find_str marker (pl ++ marker) = Some (length pl).

Lemma compare_at_inside s pos n t : pos <= length s -> compare_at s pos n t = Some (substr s pos n =s t).
Proof. intros. unfold compare_at. by destruct (decide _). Qed.

Lemma find_str_from_section p s pos i :
  find_str_from p s pos = Some i ->
  pos <= i /\ section_of s p (substr s pos (i - pos)).
Proof.
  unfold find_str_from. intros (k & Hk & ->)%fmap_Some.
  replace (pos + k - pos) with k by lia. split; [lia|].
  destruct (find_str_split _ _ _ Hk) as (r & Hs & Hlen & Hf).
  exists (take pos s), r. split; [|exact Hf]. unfold substr.
  rewrite <- Hs. by rewrite take_drop.
Qed.

Lemma ParseMultipartPart_total body delimiter marker cursor :
  cursor <= length body ->
  exists r, ParseMultipartPart body delimiter marker cursor = Returned r /\
    forall ct file pl c', r = Some (ct, file, pl, c') ->
      cursor + 1 < c' /\ section_of body marker pl.
Proof.
  intros Hc. unfold ParseMultipartPart. rewrite compare_at_inside by done.
  destruct (substr body cursor (length delimiter) =s delimiter) eqn:Hd; [|by exists None].
  apply str_eqb_eq in Hd. set (c1 := cursor + length delimiter).
  assert (c1 <= length body) as Hc1.
  { apply (f_equal length) in Hd. unfold substr in Hd. rewrite length_take, length_drop in Hd. lia. }
  rewrite !compare_at_inside by done.
  destruct (Nat.leb_spec (c1 + 2) (length body)) as [Hl|Hl];
    [|destruct (Nat.ltb_spec (length body) (c1 + 2)); [by exists None|lia]].
  destruct (substr body c1 2 =s lit "--"); [by exists None|].
  destruct (Nat.ltb_spec (length body) (c1 + 2)); [lia|].
  destruct (substr body c1 2 =s crlf); [|by exists None].
  destruct (find_str_from (crlf ++ crlf) body (c1 + 2)) as [he|] eqn:Hhe; [|by exists None].
  apply find_str_from_section in Hhe as [Hge _].
  destruct (ParsePartHeaders (substr body (c1 + 2) (he - (c1 + 2)))) as [ct file].
  destruct (find_str_from marker body (he + 4)) as [nb|] eqn:Hnb; [|by exists None].
  apply find_str_from_section in Hnb as [Hge' Hsec].
  eexists. split; [reflexivity|]. intros ? ? ? ? [= <- <- <- <-]. split; [lia|done].
Qed.

(** The bytes of a part: in the writer for a file, else in the payload. *)
Definition part_bytes (p : PartData) : str := default (payload p) (writer p).

Lemma parse_loop_total fuel body delimiter marker cursor parts :
  length body - cursor <= fuel ->
  Forall (fun p => section_of body marker (part_bytes p) /\ is_file p = bool_decide (is_Some (writer p))) parts ->
  exists parts', parse_loop fuel body delimiter marker cursor parts = Returned parts' /\
    Forall (fun p => section_of body marker (part_bytes p) /\ is_file p = bool_decide (is_Some (writer p))) parts'.
Proof.
  revert cursor parts. induction fuel as [|fuel IH]; intros cursor parts Hf Hp; cbn [parse_loop].
  { destruct (Nat.leb_spec (length body) cursor); [eauto|lia]. }
  destruct (Nat.leb_spec (length body) cursor) as [|Hlt]; [eauto|].
  assert (exists b, ReachedMultipartTerminator body cursor delimiter = Some b) as [b ->].
  { unfold ReachedMultipartTerminator. rewrite compare_at_inside by lia.
    destruct (_ =s delimiter); [|eauto].
    destruct (Nat.leb_spec (cursor + length delimiter + 2) (length body)); [|eauto].
    rewrite compare_at_inside by lia. eauto. }
  destruct b; [eauto|].
  destruct (ParseMultipartPart_total body delimiter marker cursor ltac:(lia)) as (r & -> & Hr).
  destruct r as [[[[ct file] pl] c']|]; [|eauto].
  destruct (Hr _ _ _ _ eq_refl) as [Hc' Hsec].
  apply IH; [lia|]. apply Forall_app. split; [done|]. by destruct file; repeat constructor.
Qed.

(** C33. Parsing a form is total.  Whatever a client sends as Content-Type and
    body, [Parse] returns: no position past the end is ever read (which would
    throw out of the constructor) and every loop ends.  Each part it gives is a
    section of the body that ends at the boundary and in which the boundary
    does not occur, handed to a file writer exactly when the part is a file. *)
Theorem multipart_parse_total content_type_value body :
  exists parts, Parse content_type_value body = Returned parts /\
    (forall p, p ∈ parts ->
       is_file p = bool_decide (is_Some (writer p)) /\
       exists boundary, ExtractBoundary content_type_value = Some boundary /\
         section_of body (crlf ++ lit "--" ++ boundary) (part_bytes p)).
Proof.
  unfold Parse. destruct (ExtractBoundary content_type_value) as [b|] eqn:Hb.
  2:{ exists []. split; [done|]. by intros p ?%elem_of_nil. }
  destruct (PrepareMultipartBody _ _).
  2:{ exists []. split; [done|]. by intros p ?%elem_of_nil. }
  destruct (parse_loop_total (length body) body (lit "--" ++ b) (crlf ++ lit "--" ++ b) 0 []
    ltac:(lia) (Forall_nil_2 _)) as (parts & Hp & HF).
  exists parts. split; [done|]. intros p Hin.
  pose proof (proj1 (Forall_forall _ _) HF p Hin) as [Hs Hw]. eauto.
Qed.
