(* ===== verification/MultipartGenerator.v ===== *)
(** * Multipart form data: the generator

    [src/src/connection/client/multipart_generator.cc]: collecting the parts,
    reading the files through an [AsyncSameTypeWaiter], building the body, and
    the promise to call back once.  Error codes and file readers are abstract;
    the file name of a reader's path and whether a reader accepts to read are
    parameters.  Together with [MultipartParser]: what the generator builds,
    the parser reads back. *)

From S2P Require Import Prelude Text AsyncWaiter ServerCookie CookieExchange MultipartParser.

Fixpoint EscapeQuotedParameter (value : str) : str :=
  match value with
  | [] => []
  | ch :: value =>
      if (ch =c "034"%char) || (ch =c "092"%char)
      then "092"%char :: ch :: EscapeQuotedParameter value
      else ch :: EscapeQuotedParameter value
  end.

(** The boundary, and the counter after [fetch_add]. *)
Definition BuildBoundary (counter : Z) : str * Z :=
  (lit "bsrvcore-boundary-" ++ to_string counter, to_size_t (counter + 1)).

Definition quote : str := ["034"%char].

(** ** Endpoints ([impl/http_url_parser.cc]) *)

(** What [boost::urls::parse_uri] gives. *)
Record url_view := mkUrl {
  scheme : str;
  u_host : str;
  u_port : option str;
  encoded_path : str;
  encoded_query : option str;
}.

Record ParsedUrl := mkParsed {
  url_https : bool;
  url_host : str;
  url_port : str;
  url_target : str;
}.

Definition ParseHttpUrl (parse_uri : str -> option url_view) (url : str) : option ParsedUrl :=
  u ← parse_uri url;
  if negb (scheme u =s lit "http") && negb (scheme u =s lit "https") then None else
  match u_host u with
  | [] => None
  | _ =>
      let https := scheme u =s lit "https" in
      let target := match encoded_path u with [] => lit "/" | _ => encoded_path u end in
      Some (mkParsed https (u_host u)
              (match u_port u with Some p => p | None => if https then lit "443" else lit "80" end)
              (match encoded_query u with Some q => target ++ "?"%char :: q | None => target end))
  end.

Lemma mapM_ext_seq {X} (f g : nat -> option X) n :
  (forall i, i < n -> f i = g i) -> mapM f (seq 0 n) = mapM g (seq 0 n).
Proof.
  intros Hfg. assert (forall l, Forall (fun i => i < n) l -> mapM f l = mapM g l) as Hl.
  { induction 1 as [|i l Hi _ IH]; [done|]. cbn. by rewrite Hfg, IH. }
  apply Hl, Forall_forall. intros i Hi%elem_of_seq. lia.
Qed.

Section generator.
Context {E : Type} (io_error invalid_argument operation_not_supported : E).
Context {R : Type} (filename_of : R -> str) (accepts_read : R -> bool).

Record PartSpec := mkSpec {
  spec_is_file : bool;
  file_index : nat;
  name : str;
  value : str;
  reader : option R;
  filename_override : str;
  content_type_override : str;
}.

(** What a read gives: an error code and the loaded content. *)
Record FileReadingState := mkReading {
  ec : option E;
  read_writer : option str;
}.

Definition DefaultFilename (r : option R) : str :=
  match r with
  | None => lit "file"
  | Some r => match filename_of r with [] => lit "file" | filename => filename end
  end.

Definition text_or (s d : str) : str := match s with [] => d | _ => s end.

(** One round of the loop over the parts: what it appends to the body, or the
    error it completes with. *)
Definition part_text (boundary : str) (states : list (option FileReadingState))
    (part : PartSpec) : E + str :=
  let head :=
    lit "--" ++ boundary ++ crlf
    ++ lit "Content-Disposition: form-data; name=" ++ quote
    ++ EscapeQuotedParameter (name part) ++ quote in
  if spec_is_file part then
    match states !! file_index part with
    | Some (Some state) =>
        match ec state, read_writer state with
        | Some e, _ => inl e
        | None, None => inl io_error
        | None, Some data =>
            let filename := text_or (filename_override part) (DefaultFilename (reader part)) in
            let content_type :=
              text_or (content_type_override part) (lit "application/octet-stream") in
            inr (head ++ lit "; filename=" ++ quote ++ EscapeQuotedParameter filename
                 ++ quote ++ crlf
                 ++ lit "Content-Type: " ++ content_type ++ crlf ++ crlf
                 ++ data ++ crlf)
        end
    | _ => inl io_error
    end
  else
    inr (head ++ quote ++ crlf
         ++ (match content_type_override part with
             | [] => []
             | ct => lit "Content-Type: " ++ ct ++ crlf
             end)
         ++ crlf ++ value part ++ crlf).

Fixpoint build_body (boundary : str) (states : list (option FileReadingState))
    (parts : list PartSpec) (body : str) : E + str :=
  match parts with
  | [] => inr (body ++ lit "--" ++ boundary ++ lit "--" ++ crlf)
  | part :: parts =>
      match part_text boundary states part with
      | inl e => inl e
      | inr text => build_body boundary states parts (body ++ text)
      end
  end.

(** The task that is created: a POST to the generator's endpoint. *)
Record Task := mkTask {
  task_https : bool;
  task_host : str;
  task_port : str;
  task_target : str;
  task_content_type : str;
  task_body : str;
}.

Record MultipartGenerator := mkGenerator {
  host_ : str;
  port_ : str;
  target_ : str;
  use_ssl_ : bool;
  parts_ : list PartSpec;
  file_part_count_ : nat;
  create_error_ : option E;
}.

Definition CreateHttp (host port target : str) : MultipartGenerator :=
  mkGenerator host port target false [] 0 None.

(** [ssl_ctx] says whether there is a TLS context. *)
Definition CreateHttps (ssl_ctx : bool) (host port target : str) : MultipartGenerator :=
  mkGenerator host port target true [] 0 (if ssl_ctx then None else Some invalid_argument).

(** The overload that takes the process-wide client TLS state: whether there is
    a context, and its error. *)
Definition CreateHttpsDefault (default_ssl : bool * option E) (host port target : str) :
    MultipartGenerator :=
  let g := CreateHttps default_ssl.1 host port target in
  match default_ssl.2 with
  | Some _ => mkGenerator (host_ g) (port_ g) (target_ g) (use_ssl_ g) (parts_ g)
                (file_part_count_ g) (Some io_error)
  | None => g
  end.

(** [parse_uri] is Boost.URL's; [default_ssl] is the process-wide client TLS
    state: whether there is a context, and its error. *)
Definition CreateFromUrl (parse_uri : str -> option url_view) (default_ssl : bool * option E)
    (url : str) : MultipartGenerator :=
  match ParseHttpUrl parse_uri url with
  | None => mkGenerator [] [] (lit "/") false [] 0 (Some invalid_argument)
  | Some parsed =>
      mkGenerator (url_host parsed) (url_port parsed) (url_target parsed) (url_https parsed) [] 0
        (if url_https parsed
         then match default_ssl.2 with Some _ => Some io_error | None => None end else None)
  end.

(** The overload with a TLS context of the caller's. *)
Definition CreateFromUrlWith (parse_uri : str -> option url_view) (ssl_ctx : bool) (url : str) :
    MultipartGenerator :=
  match ParseHttpUrl parse_uri url with
  | None => mkGenerator [] [] (lit "/") false [] 0 (Some invalid_argument)
  | Some parsed =>
      mkGenerator (url_host parsed) (url_port parsed) (url_target parsed) (url_https parsed) [] 0
        (if url_https parsed && negb ssl_ctx then Some invalid_argument else None)
  end.

Definition AddFilePart (name : str) (reader : option R) (filename_override : str)
    (content_type_override : str) (g : MultipartGenerator) : MultipartGenerator :=
  mkGenerator (host_ g) (port_ g) (target_ g) (use_ssl_ g)
    (parts_ g ++ [mkSpec true (file_part_count_ g) name [] reader filename_override
                    content_type_override])
    (S (file_part_count_ g)) (create_error_ g).

Definition AddTextPart (name value content_type : str) (g : MultipartGenerator) :
    MultipartGenerator :=
  mkGenerator (host_ g) (port_ g) (target_ g) (use_ssl_ g)
    (parts_ g ++ [mkSpec false 0 name value None [] content_type])
    (file_part_count_ g) (create_error_ g).

(** ** Building and completing *)

(** The state shared by the asynchronous steps, with the boundary counter and
    what was dispatched to the ready callback. *)
Record MultipartBuildState := mkBuild {
  done : bool;
  counter : Z;
  dispatched : list (E + Task);
}.

Definition Complete (r : E + Task) (st : MultipartBuildState) : MultipartBuildState :=
  if done st then st else mkBuild true (counter st) (dispatched st ++ [r]).

(** The result [BuildTask] completes with, for a boundary. *)
Definition built (g : MultipartGenerator) (boundary : str)
    (states : list (option FileReadingState)) : E + Task :=
  match build_body boundary states (parts_ g) [] with
  | inl e => inl e
  | inr body =>
      inr (mkTask (use_ssl_ g) (host_ g) (port_ g) (target_ g)
             (lit "multipart/form-data; boundary=" ++ boundary) body)
  end.

Definition BuildTask (g : MultipartGenerator) (states : list (option FileReadingState))
    (st : MultipartBuildState) : MultipartBuildState :=
  let '(boundary, next) := BuildBoundary (counter st) in
  Complete (built g boundary states) (mkBuild (done st) next (dispatched st)).

(** The loop that starts the reads: how many were started, and the error that
    ended it. *)
Fixpoint start_reads (parts : list PartSpec) (callback_index : nat) : nat * option E :=
  match parts with
  | [] => (callback_index, None)
  | part :: parts =>
      if negb (spec_is_file part) then start_reads parts callback_index
      else match reader part with
           | None => (callback_index, Some invalid_argument)
           | Some r =>
               if accepts_read r then start_reads parts (S callback_index)
               else (callback_index, Some operation_not_supported)
           end
  end.

(** [AsyncCreateTask] and everything it sets off.  [has_callback] says whether
    the ready callback is callable; [reads] lists the callbacks of the readers
    in the order they arrive, the slot with the state read (a null pointer is
    [None]); only a reader that was started calls back.  The completion of the
    waiter posts [BuildTask] with the states collected. *)
Definition AsyncCreateTask (has_callback : bool) (g : MultipartGenerator)
    (reads : list (nat * option FileReadingState)) (st : MultipartBuildState) :
    bool * MultipartBuildState :=
  if negb has_callback then (false, st) else
  match create_error_ g with
  | Some e => (true, Complete (inl e) st)
  | None =>
      if (file_part_count_ g =? 0)%nat then (true, BuildTask g [] st)
      else
        let '(started, err) := start_reads (parts_ g) 0 in
        let calls :=
          CallOnReady (Some ())
          :: (fulfil_call <$> filter (fun r => r.1 < started) reads) in
        let st := match err with Some e => Complete (inl e) st | None => st end in
        (true,
         foldl (fun st c => match c.2 with Some states => BuildTask g states st | None => st end)
           st (run_calls call (Create (file_part_count_ g)) calls).2)
  end.

(** The generators a client can have. *)
Inductive generator : MultipartGenerator -> Prop :=
  | from_http host port target : generator (CreateHttp host port target)
  | from_https ssl_ctx host port target : generator (CreateHttps ssl_ctx host port target)
  | from_https_default default_ssl host port target :
      generator (CreateHttpsDefault default_ssl host port target)
  | from_url parse_uri default_ssl url : generator (CreateFromUrl parse_uri default_ssl url)
  | from_url_with parse_uri ssl_ctx url : generator (CreateFromUrlWith parse_uri ssl_ctx url)
  | with_file n r f ct g : generator g -> generator (AddFilePart n r f ct g)
  | with_text n v ct g : generator g -> generator (AddTextPart n v ct g).

(** The file parts are numbered in order. *)
Lemma generator_numbered g :
  generator g ->
  file_index <$> filter (fun p => spec_is_file p = true) (parts_ g) = seq 0 (file_part_count_ g).
Proof.
  induction 1 as [| |[ctx [e|]] ? ? ?|parse_uri ? url| parse_uri ? url|n r f ct g _ IH|n v ct g _ IH]; try done.
  - unfold CreateFromUrl. by destruct (ParseHttpUrl parse_uri url).
  - unfold CreateFromUrlWith. by destruct (ParseHttpUrl parse_uri url).
  - cbn [AddFilePart parts_ file_part_count_]. rewrite filter_app, fmap_app, IH.
    by rewrite seq_S.
  - cbn [AddTextPart parts_ file_part_count_]. rewrite filter_app, fmap_app, IH.
    cbn. by rewrite app_nil_r.
Qed.

Lemma start_reads_spec parts k :
  let '(started, err) := start_reads parts k in
  let files := length (filter (fun p => spec_is_file p = true) parts) in
  match err with None => started = k + files | Some _ => k <= started < k + files end.
Proof.
  revert k. induction parts as [|p parts IH]; intros k; cbn [start_reads]; [cbn; lia|].
  rewrite filter_cons. destruct (spec_is_file p) eqn:Hp; cbn [negb].
  - destruct (decide (true = true)); [|done]. cbn [length].
    destruct (reader p) as [r|]; [|lia]. destruct (accepts_read r); [|lia].
    specialize (IH (S k)). destruct (start_reads parts (S k)) as [started []]; cbn zeta in *; lia.
  - destruct (decide (false = true)); [done|]. apply IH.
Qed.

(** What the ready callback is to be called with, if anything yet. *)
Definition expected (g : MultipartGenerator) (boundary : str)
    (reads : list (nat * option FileReadingState)) : option (E + Task) :=
  match create_error_ g, (start_reads (parts_ g) 0).2 with
  | Some e, _ | None, Some e => Some (inl e)
  | None, None =>
      states ← mapM (fun i => snd <$> head (filter (fun r => r.1 = i) reads))
                 (seq 0 (file_part_count_ g));
      Some (built g boundary states)
  end.

Lemma count_files g :
  generator g ->
  length (filter (fun p => spec_is_file p = true) (parts_ g)) = file_part_count_ g.
Proof.
  intros Hg. pose proof (generator_numbered g Hg) as Hn. apply (f_equal length) in Hn.
  by rewrite length_fmap, length_seq in Hn.
Qed.

(** The reads of the slots that were started. *)
Lemma head_started (reads : list (nat * option FileReadingState)) started i :
  head (filter (fun r => r.1 = i) (filter (fun r => r.1 < started) reads)) =
  if decide (i < started) then head (filter (fun r => r.1 = i) reads) else None.
Proof.
  rewrite list_filter_filter. destruct (decide (i < started)) as [Hi|Hi].
  - f_equal. apply list_filter_iff. intros r. split; [by intros [-> _]|]. by intros ->.
  - destruct (filter _ reads) as [|r l] eqn:Hl; [done|].
    assert (r ∈ r :: l) as Hr by left. rewrite <- Hl in Hr.
    apply list_elem_of_filter in Hr as [[<- ?] _]. done.
Qed.

(** The ready callback is called exactly once.  However the reads of the
    file parts come back, in any order, more than once, or not at all, the
    callback gets exactly one result as soon as it is determined: the creation
    error, the error of the first file part that cannot be read, or, when every
    read has come back, the task built from the states in the order of the
    parts; and none before. *)
Theorem generator_completes_once g reads c :
  generator g ->
  let '(ok, st) := AsyncCreateTask true g reads (mkBuild false c []) in
  ok = true /\ dispatched st = option_list (expected g (BuildBoundary c).1 reads).
Proof.
  intros Hg. unfold AsyncCreateTask, expected. cbn [negb].
  destruct (create_error_ g) as [e|]; [done|].
  pose proof (start_reads_spec (parts_ g) 0) as Hs. rewrite count_files in Hs by done.
  destruct (Nat.eqb_spec (file_part_count_ g) 0) as [H0|H0].
  { rewrite H0 in *. destruct (start_reads (parts_ g) 0) as [started [e|]]; cbn in Hs; [lia|].
    done. }
  destruct (start_reads (parts_ g) 0) as [started err]. cbn [snd].
  rewrite run_calls_completions, first_ready_registered.
  split; [done|]. destruct err as [e|]; cbn zeta in Hs.
  - destruct (mapM _ _) as [vs|] eqn:Hm; [|done]. exfalso.
    apply mapM_Some in Hm.
    assert (seq 0 (file_part_count_ g) !! started = Some started) as Hi
      by (rewrite lookup_seq_lt by lia; done).
    destruct (Forall2_lookup_l _ _ _ _ _ Hm Hi) as (v & _ & Hv).
    rewrite head_started in Hv. destruct (decide (started < started)); [lia|done].
  - subst started. cbn [Nat.add].
    erewrite (mapM_ext_seq _ (fun i => snd <$> head (filter (fun r => r.1 = i) reads))).
    2:{ intros i Hi. rewrite head_started. by destruct (decide _). }
    destruct (mapM _ _) as [vs|]; done.
Qed.
End generator.

(** Two files, read back in the other order, one of them twice. *)
Definition two_files : MultipartGenerator (E := nat) (R := nat) :=
  AddFilePart (lit "b") (Some 1) [] [] (AddFilePart (lit "a") (Some 0) [] []
    (CreateHttp (lit "h") (lit "80") (lit "/"))).

Definition read_ok (s : string) : option (FileReadingState (E := nat)) :=
  Some (mkReading None (Some (lit s))).

Lemma generator_completes_once_witness :
  dispatched (AsyncCreateTask 5 22 95 (fun _ => lit "f") (fun _ => true) true two_files
    [(1, read_ok "B"); (1, read_ok "X"); (0, read_ok "A"); (0, read_ok "Y")] (mkBuild false 3 [])).2
  = [built 5 (fun _ => lit "f") two_files (BuildBoundary 3).1 [read_ok "A"; read_ok "B"]].
Proof.
  apply (generator_completes_once 5 22 95 (fun _ => lit "f") (fun _ => true) two_files
    [(1, read_ok "B"); (1, read_ok "X"); (0, read_ok "A"); (0, read_ok "Y")] 3).
  unfold two_files. do 2 constructor. constructor.
Defined.
