(* ===== verification/FormExchange.v ===== *)
(** * Form data on the wire

    The client's [MultipartGenerator] and the server's [MultipartParser]
    together: the parser reads back what the generator builds. *)

From S2P Require Import Prelude Text ServerCookie CookieExchange MultipartParser MultipartGenerator.
From S2P Require Import ClientCookie.

(** ** Searching across a line end *)

(** A search for a text that starts with CR LF skips a line without LF. *)
Lemma find_crlf_line p l t :
  "010"%char ∉ l ->
  find_str (crlf ++ p) (l ++ crlf ++ t) =
  Nat.add (length l) <$> find_str (crlf ++ p) (crlf ++ t).
Proof.
  intros Hl. unfold crlf. cbn [app]. generalize ("010"%char :: t). clear t. intros t.
  induction l as [|d l IH]; [by destruct (find_str _ _)|].
  apply not_elem_of_cons in Hl as [Hd Hl]. cbn [app]. rewrite find_str_cons.
  assert (starts_with (l ++ "013"%char :: t) ("010"%char :: p) = false) as Hs.
  { destruct l as [|e l]; [done|]. cbn. apply not_elem_of_cons in Hl as [He _].
    rewrite (proj2 (Ascii.eqb_neq e "010"%char)) by congruence. done. }
  cbn [starts_with] in Hs |- *. rewrite Hs, andb_false_r, IH by done.
  by destruct (find_str _ ("013"%char :: t)).
Qed.

(** The headers of a part: one line, or two of which the second does not start
    with CR. *)
Definition header_block (l1 : str) (l2 : option str) : str :=
  match l2 with None => l1 | Some l2 => l1 ++ crlf ++ l2 end.

Definition line_ok (l : str) : Prop := "010"%char ∉ l /\ l <> [] /\ head l <> Some "013"%char.

(** Between two lines, the search for the end of the headers goes on. *)
Lemma find_crlf_next d l t :
  d <> "013"%char ->
  find_str (crlf ++ crlf) (crlf ++ d :: l ++ t) =
  Nat.add 2 <$> find_str (crlf ++ crlf) (d :: l ++ t).
Proof.
  intros Hd. unfold crlf. cbn [app]. rewrite !(find_str_cons _ "013"%char), !(find_str_cons _ "010"%char).
  cbn [starts_with]. rewrite (proj2 (Ascii.eqb_neq d "013"%char)) by done.
  generalize (find_str ["013"%char; "010"%char; "013"%char; "010"%char] (d :: l ++ t)).
  by intros [n|].
Qed.

Lemma find_header_end l1 l2 :
  line_ok l1 -> from_option line_ok True l2 ->
  find_str (crlf ++ crlf) (header_block l1 l2 ++ crlf ++ crlf) =
  Some (length (header_block l1 l2)).
Proof.
  intros [Hl1 _] Hl2.
  assert (forall l, "010"%char ∉ l ->
    find_str (crlf ++ crlf) (l ++ crlf ++ crlf) = Some (length l)) as Hend.
  { intros l Hl. rewrite find_crlf_line by done. cbn. f_equal. lia. }
  destruct l2 as [l2|]; cbn [header_block]; [|by apply Hend].
  destruct Hl2 as (Hn & Hne & Hh). destruct l2 as [|d l2]; [done|].
  rewrite <- !app_assoc, find_crlf_line by done. cbn [app].
  rewrite (find_crlf_next d l2 (crlf ++ crlf)) by (intros ->; by apply Hh).
  change (d :: l2 ++ crlf ++ crlf) with ((d :: l2) ++ crlf ++ crlf). rewrite (Hend _ Hn). cbn. f_equal. rewrite !length_app. cbn. lia.
Qed.

Lemma find_crlf_None l : "010"%char ∉ l -> find_str crlf l = None.
Proof.
  intros Hl. destruct (find_str crlf l) as [i|] eqn:E; [|done].
  destruct (find_str_Some _ _ _ E) as (a & b & -> & _). exfalso. apply Hl.
  apply elem_of_app. right. right. left.
Qed.

Lemma header_loop_last fuel l acc :
  "010"%char ∉ l -> l <> [] -> 0 < fuel -> header_loop fuel l acc = parse_line l acc.
Proof.
  intros Hl Hne Hf. destruct fuel; [lia|]. destruct l as [|d l]; [done|].
  cbn [header_loop]. by rewrite find_crlf_None.
Qed.

Lemma parse_headers l1 l2 :
  line_ok l1 -> from_option line_ok True l2 ->
  ParsePartHeaders (header_block l1 l2) =
  let acc := parse_line l1 ([], false) in
  match l2 with None => acc | Some l2 => parse_line l2 acc end.
Proof.
  intros (Hn1 & Hne1 & _) Hl2. unfold ParsePartHeaders.
  destruct l2 as [l2|]; cbn [header_block]; [|by apply header_loop_last; [..|lia]].
  destruct Hl2 as (Hn2 & Hne2 & _). cbn [header_loop].
  pose proof (find_crlf_line [] l1 l2 Hn1) as Hf. rewrite !app_nil_r, find_str_here in Hf.
  cbn [fmap option_fmap option_map] in Hf. rewrite Nat.add_0_r in Hf.
  destruct (l1 ++ crlf ++ l2) as [|d t] eqn:Ht; [by destruct l1|]. rewrite <- Ht in *.
  rewrite Hf. cbn [prefix_upto]. rewrite take_app_length, drop_app_ge by lia.
  replace (length l1 + 2 - length l1) with 2 by lia. cbn [crlf app drop].
  apply header_loop_last; [done|done|]. destruct l1; [done|]. cbn. lia.
Qed.

(** ** The lines the generator writes *)

(** Trimming keeps a text that starts and ends with non-blank characters, and
    what follows up to its last non-blank character. *)
Lemma TrimView_keeps c p d x :
  is_ws c = false -> is_ws d = false ->
  exists x', TrimView ((c :: p ++ [d]) ++ x) = (c :: p ++ [d]) ++ x'.
Proof.
  intros Hc Hd. unfold TrimView. cbn [app]. rewrite find_first_not_ws_cons by done.
  destruct (find_last_not_ws (c :: (p ++ [d]) ++ x)) as [j|] eqn:Hj.
  - exists (take (j + 1 - length (c :: p ++ [d])) x).
    destruct (find_last_not_ws_Some _ _ Hj) as (l & e & r & Hs & _ & <- & Hr).
    unfold substr. rewrite drop_0, Nat.sub_0_r.
    change (c :: (p ++ [d]) ++ ?y) with ((c :: p ++ [d]) ++ y). rewrite take_app.
    f_equal. apply take_ge.
    assert (length (c :: p) <= length l) as Hlen; [|cbn in *; rewrite length_app; cbn; lia].
    destruct (decide (length l < length (c :: p))) as [Hlt|]; [|lia]. exfalso.
    assert ((c :: (p ++ [d]) ++ x) !! length (c :: p) = Some d) as Hlk.
    { change (c :: (p ++ [d]) ++ x) with (((c :: p) ++ [d]) ++ x).
      rewrite <- app_assoc, lookup_app_r by lia. by rewrite Nat.sub_diag. }
    rewrite Hs, lookup_app_r in Hlk by lia.
    destruct (length (c :: p) - length l) as [|k] eqn:Ek; [lia|]. cbn in Hlk.
    apply list_elem_of_lookup_2 in Hlk.
    pose proof (proj1 (Forall_forall _ _) Hr _ Hlk) as Hw. cbn in Hw. congruence.
  - exfalso. clear -Hc Hj. cbn in Hj. destruct (find_last_not_ws _); [done|]. by rewrite Hc in Hj.
Qed.

Lemma split_on_front d s t :
  d ∉ s -> exists t1 ts, split_on d (s ++ t) = (s ++ t1) :: ts.
Proof.
  intros Hs. induction s as [|c s IH].
  - destruct (split_on d t) as [|t1 ts] eqn:E; [by apply split_on_nonnil in E|]. by exists t1, ts.
  - apply not_elem_of_cons in Hs as [Hc Hs]. destruct (IH Hs) as (t1 & ts & E).
    exists t1, ts. cbn. rewrite (proj2 (Ascii.eqb_neq c d)) by congruence. by rewrite E.
Qed.

Lemma escape_elem c s : c ∈ EscapeQuotedParameter s -> c ∈ s \/ c = "092"%char.
Proof.
  induction s as [|d s IH]; cbn; [by intros ?%elem_of_nil|].
  destruct ((d =c "034"%char) || (d =c "092"%char)); rewrite ?elem_of_cons; naive_solver.
Qed.

Lemma escape_without c s : c <> "092"%char -> c ∉ s -> c ∉ EscapeQuotedParameter s.
Proof. intros Hc Hs [?| ->]%escape_elem; done. Qed.

Lemma name_token t : is_filename (lit " name=" ++ quote ++ t) = false.
Proof.
  unfold is_filename, parameter, TrimAscii.
  change (lit " name=" ++ quote ++ t) with (" "%char :: (("n"%char :: lit "ame=" ++ ["034"%char]) ++ t)).
  rewrite TrimView_leading_space.
  by destruct (TrimView_keeps "n"%char (lit "ame=") "034"%char t) as [x' ->].
Qed.

Lemma filename_token t : is_filename (lit " filename=" ++ t) = true.
Proof.
  unfold is_filename, parameter, TrimAscii.
  change (lit " filename=" ++ t)
    with (" "%char :: (("f"%char :: lit "ilename" ++ ["="%char]) ++ t)).
  rewrite TrimView_leading_space.
  by destruct (TrimView_keeps "f"%char (lit "ilename") "="%char t) as [x' ->].
Qed.

Definition disposition (rest : str) : str :=
  lit "Content-Disposition: form-data; name=" ++ quote ++ rest ++ quote.

Lemma parse_disposition rest acc :
  parse_line (disposition rest) acc =
  (acc.1, existsb is_filename (split_on ";"%char (lit " name=" ++ quote ++ rest ++ quote))).
Proof.
  transitivity (acc.1, ParseDisposition (TrimAscii (" "%char :: lit "form-data; name=" ++ quote ++ rest ++ quote)));
    [reflexivity|]. f_equal. unfold TrimAscii. rewrite TrimView_leading_space, TrimView_trimmed_id.
  - rewrite <- (params_exists (S (length (lit " name=" ++ quote ++ rest ++ quote)))) by lia.
    reflexivity.
  - split; [done|]. exists (lit "form-data; name=" ++ quote ++ rest), "034"%char. split; [|done].
    by rewrite <- !app_assoc.
Qed.

(** Non-membership in concatenations of literals and escaped texts. *)
Ltac solve_notin :=
  repeat (apply not_elem_of_app; split);
  first [ assumption
        | by apply escape_without
        | by apply (bool_decide_unpack _) ].

(** A text part is no file when its name has no semicolon. *)
Lemma text_disposition n acc :
  ";"%char ∉ n -> parse_line (disposition (EscapeQuotedParameter n ++ quote)) acc = (acc.1, false).
Proof.
  intros Hn. rewrite parse_disposition. f_equal.
  rewrite split_on_plain by solve_notin. cbn [existsb]. by rewrite name_token.
Qed.

(** A parameter after a semicolon is taken for one wherever it stands. *)
Lemma filename_found n t :
  ";"%char ∉ n ->
  existsb is_filename (split_on ";"%char (n ++ ";"%char :: lit " filename=" ++ t)) = true.
Proof.
  intros Hn. rewrite split_on_app by done.
  destruct (split_on_front ";"%char (lit " filename=") t) as (t1 & ts & ->); [solve_notin|].
  cbn [existsb]. by rewrite filename_token, orb_true_r.
Qed.

Lemma file_disposition n s t acc :
  ";"%char ∉ n -> ";"%char ∉ s ->
  parse_line (disposition (EscapeQuotedParameter n ++ s ++ lit "; filename=" ++ t)) acc
  = (acc.1, true).
Proof.
  intros Hn Hs. rewrite parse_disposition. f_equal.
  etrans; [|apply (filename_found (lit " name=" ++ quote ++ EscapeQuotedParameter n ++ s)
                     (t ++ quote)); solve_notin].
  do 2 f_equal. by rewrite <- !app_assoc.
Qed.

Lemma type_line ct acc :
  trimmed ct -> parse_line (lit "Content-Type: " ++ ct) acc = (ct, acc.2).
Proof.
  intros Hct. transitivity (TrimAscii (" "%char :: ct), acc.2); [reflexivity|].
  unfold TrimAscii. by rewrite TrimView_leading_space, TrimView_trimmed_id.
Qed.

(** ** Parsing one part *)

Lemma compare_at_app pre s n t : compare_at (pre ++ s) (length pre) n t = Some (take n s =s t).
Proof.
  rewrite compare_at_inside by (rewrite length_app; lia). unfold substr. by rewrite drop_app_length.
Qed.

Lemma find_str_from_app p pre s : find_str_from p (pre ++ s) (length pre) = Nat.add (length pre) <$> find_str p s.
Proof. unfold find_str_from. by rewrite drop_app_length. Qed.

Lemma substr_app pre s n : substr (pre ++ s) (length pre) n = take n s.
Proof. unfold substr. by rewrite drop_app_length. Qed.

(** A well-formed part, wherever it stands in the body. *)
Lemma parse_part pre delim l1 l2 pl tail :
  line_ok l1 -> from_option line_ok True l2 ->
  find_str (crlf ++ delim) (pl ++ crlf ++ delim) = Some (length pl) ->
  let text := delim ++ crlf ++ header_block l1 l2 ++ crlf ++ crlf ++ pl ++ crlf in
  let '(ct, file) := ParsePartHeaders (header_block l1 l2) in
  ParseMultipartPart (pre ++ text ++ delim ++ tail) delim (crlf ++ delim) (length pre) =
  Returned (Some (ct, file, pl, length (pre ++ text))).
Proof.
  intros H1 H2 Hpl text. pose proof (find_header_end l1 l2 H1 H2) as Hh.
  destruct (ParsePartHeaders (header_block l1 l2)) as [ct file] eqn:Hp.
  unfold ParseMultipartPart. set (hb := header_block l1 l2) in *.
  rewrite compare_at_app. subst text. rewrite <- !app_assoc, take_app_length, str_eqb_refl.
  rewrite (app_assoc pre delim). rewrite <- length_app.
  set (pre1 := pre ++ delim). rewrite !compare_at_app.
  assert (forall u, take 2 (crlf ++ u) = crlf) as Htk by done. rewrite !Htk.
  assert (forall u, (length (pre1 ++ crlf ++ u) <? length pre1 + 2) = false) as Hlt.
  { intros u. apply Nat.ltb_ge. rewrite !length_app. cbn. lia. }
  rewrite Hlt, str_eqb_refl. change (crlf =s lit "--") with false.
  assert (forall b : bool, (if b then Some false else Some false) = Some false) as Hif by by intros [].
  rewrite Hif. clear Hif Hlt Htk.
  set (rest := hb ++ crlf ++ crlf ++ pl ++ crlf ++ delim ++ tail).
  set (pre2 := pre1 ++ crlf). rewrite (app_assoc pre1 crlf rest). fold pre2.
  replace (length pre1 + 2) with (length pre2) by (unfold pre2; by rewrite length_app).
  rewrite find_str_from_app. unfold rest.
  assert (find_str (crlf ++ crlf) (hb ++ crlf ++ crlf ++ pl ++ crlf ++ delim ++ tail)
          = Some (length hb)) as ->.
  { rewrite (app_assoc crlf crlf). by apply find_str_extend. }
  cbn [fmap option_fmap option_map]. rewrite substr_app.
  replace (length pre2 + length hb - length pre2) with (length hb) by lia.
  rewrite take_app_length, Hp.
  set (pre3 := pre2 ++ hb ++ crlf ++ crlf).
  assert (pre2 ++ hb ++ crlf ++ crlf ++ pl ++ crlf ++ delim ++ tail
          = pre3 ++ pl ++ (crlf ++ delim) ++ tail) as -> by (unfold pre3; by rewrite <- !app_assoc).
  replace (length pre2 + length hb + 4) with (length pre3)
    by (unfold pre3; rewrite !length_app; cbn; lia).
  rewrite find_str_from_app, (proj1 (find_str_extend _ _ tail) Hpl).
  cbn [fmap option_fmap option_map]. rewrite substr_app.
  replace (length pre3 + length pl - length pre3) with (length pl) by lia.
  rewrite take_app_length. do 3 f_equal.
  unfold pre3, pre2, pre1. rewrite !length_app. cbn. lia.
Qed.

(** A part is not the terminator, and the terminator is. *)
Lemma part_no_terminator pre delim s :
  ReachedMultipartTerminator (pre ++ delim ++ crlf ++ s) (length pre) delim = Some false.
Proof.
  unfold ReachedMultipartTerminator. rewrite compare_at_app, take_app_length, str_eqb_refl.
  rewrite (app_assoc pre delim), <- length_app, compare_at_app.
  by destruct (_ <=? _).
Qed.

Lemma terminator_reached pre delim :
  ReachedMultipartTerminator (pre ++ delim ++ lit "--" ++ crlf) (length pre) delim = Some true.
Proof.
  unfold ReachedMultipartTerminator. rewrite compare_at_app, take_app_length, str_eqb_refl.
  rewrite (app_assoc pre delim), <- length_app, compare_at_app.
  destruct (Nat.leb_spec (length (pre ++ delim) + 2) (length ((pre ++ delim) ++ lit "--" ++ crlf)))
    as [_|H]; [done|]. rewrite (length_app (pre ++ delim)) in H. cbn in H. lia.
Qed.

(** ** The boundary *)

Lemma boundary_extracted c :
  ExtractBoundary (lit "multipart/form-data; boundary=" ++ (BuildBoundary c).1) =
  Some (BuildBoundary c).1.
Proof.
  unfold BuildBoundary. cbn [fst]. destruct (to_string_ok c) as (Hne & Htr & Hsemi & _).
  set (ds := to_string c) in *. set (b := lit "bsrvcore-boundary-" ++ ds).
  assert (forall p x, is_ws x = false -> TrimView ((x :: p) ++ ds) = (x :: p) ++ ds) as Htrim.
  { intros p x Hx. apply TrimView_trimmed_id. destruct ds as [|d0 ds]; [done|].
    destruct Htr as [_ (l & d & Hl & Hd)]. split; [done|].
    exists ((x :: p) ++ l), d. by rewrite Hl, app_assoc. }
  transitivity (boundary_loop (S (length (lit " boundary=" ++ b))) (lit " boundary=" ++ b));
    [reflexivity|].
  rewrite params_first, split_on_plain by first [lia|unfold b; solve_notin].
  cbn [omap list_omap]. unfold boundary_of, parameter, TrimAscii.
  change (lit " boundary=" ++ b)
    with (" "%char :: ("b"%char :: lit "oundary=bsrvcore-boundary-") ++ ds).
  rewrite TrimView_leading_space, Htrim by done.
  match goal with |- context [match ?p with Some _ => _ | None => _ end] =>
    replace p with (Some (lit "boundary", b)) by reflexivity end.
  rewrite str_eqb_refl. unfold Unquote, TrimAscii.
  change b with (("b"%char :: lit "srvcore-boundary-") ++ ds). by rewrite Htrim.
Qed.

(** ** The whole form *)

(** The boundary does not begin inside the content. *)
Definition boundary_free (boundary data : str) : Prop :=
  find_str (crlf ++ lit "--" ++ boundary) (data ++ crlf ++ lit "--" ++ boundary)
    = Some (length data).

Section exchange.
Context {E : Type} (io_error : E) {R : Type} (filename_of : R -> str).

(** The bytes of a part, if it is a text or its file was read. *)
Definition part_data (states : list (option (FileReadingState (E := E)))) (part : PartSpec (R := R)) :
    option str :=
  if spec_is_file part then
    state ← mjoin (states !! file_index part);
    match ec state with None => read_writer state | Some _ => None end
  else Some (value part).

Definition part_type (part : PartSpec (R := R)) : str :=
  if spec_is_file part
  then text_or (content_type_override part) (lit "application/octet-stream")
  else content_type_override part.

Definition part_filename (part : PartSpec (R := R)) : str :=
  text_or (filename_override part) (DefaultFilename filename_of (reader part)).

(** Names without semicolon and line end, file names and content types without
    line end, the latter without surrounding blanks, files that were read, and
    no boundary inside the content. *)
Definition part_ok (boundary : str) (states : list (option (FileReadingState (E := E))))
    (part : PartSpec (R := R)) : Prop :=
  ";"%char ∉ name part /\ "010"%char ∉ name part /\
  trimmed (content_type_override part) /\ "010"%char ∉ content_type_override part /\
  "010"%char ∉ part_filename part /\
  exists data, part_data states part = Some data /\ boundary_free boundary data.

(** What the server should see. *)
Definition part_view (states : list (option (FileReadingState (E := E))))
    (part : PartSpec (R := R)) : PartData :=
  let data := default [] (part_data states part) in
  if spec_is_file part then mkPart (part_type part) [] true (Some data)
  else mkPart (part_type part) data false None.

Lemma disposition_ok rest : "010"%char ∉ rest -> line_ok (disposition rest).
Proof. intros Hr. split; [unfold disposition; solve_notin|done]. Qed.

Lemma type_line_ok ct : "010"%char ∉ ct -> line_ok (lit "Content-Type: " ++ ct).
Proof. intros Hr. split; [solve_notin|done]. Qed.

(** The text of a part as the parser sees it: delimiter, headers and content. *)
Definition carries (boundary : str) (states : list (option (FileReadingState (E := E))))
    (part : PartSpec (R := R)) (view : PartData) : Prop :=
  exists l1 l2 data,
    part_text io_error filename_of boundary states part =
      inr ((lit "--" ++ boundary) ++ crlf ++ header_block l1 l2 ++ crlf ++ crlf ++ data ++ crlf) /\
    line_ok l1 /\ from_option line_ok True l2 /\
    boundary_free boundary data /\
    view = let '(ct, file) := ParsePartHeaders (header_block l1 l2) in
           if (file : bool) then mkPart ct [] true (Some data) else mkPart ct data false None.

(** The text part of the given name and type. *)
Lemma text_part_text boundary states part :
  spec_is_file part = false ->
  part_text io_error filename_of boundary states part =
  inr ((lit "--" ++ boundary) ++ crlf
       ++ header_block (disposition (EscapeQuotedParameter (name part) ++ quote))
            (match content_type_override part with
             | [] => None | ct => Some (lit "Content-Type: " ++ ct) end)
       ++ crlf ++ crlf ++ value part ++ crlf).
Proof.
  intros Hf. unfold part_text. rewrite Hf. f_equal. unfold disposition, header_block.
  destruct (content_type_override part); rewrite <- !app_assoc; reflexivity.
Qed.

Lemma text_part_carries boundary states part :
  spec_is_file part = false -> part_ok boundary states part ->
  carries boundary states part (part_view states part).
Proof.
  intros Hf (Hsemi & Hnl & Htrim & Hct & Hfn & data & Hd & Hfind).
  unfold part_data in Hd. rewrite Hf in Hd. injection Hd as <-.
  eexists _, _, _. split; [by apply text_part_text|].
  assert (line_ok (disposition (EscapeQuotedParameter (name part) ++ quote))) as H1
    by (apply disposition_ok; solve_notin).
  unfold part_view, part_data, part_type. rewrite Hf. cbn [default from_option].
  destruct (content_type_override part) as [|c ct].
  - split; [done|]. split; [done|]. split; [done|]. rewrite parse_headers by done.
    cbn zeta. by rewrite text_disposition.
  - assert (line_ok (lit "Content-Type: " ++ c :: ct)) as H2 by by apply type_line_ok.
    split; [done|]. split; [done|]. split; [done|]. rewrite parse_headers by done.
    cbn zeta iota. by rewrite type_line, text_disposition.
Qed.

Lemma file_part_carries boundary states part :
  spec_is_file part = true -> part_ok boundary states part ->
  carries boundary states part (part_view states part).
Proof.
  intros Hf (Hsemi & Hnl & Htrim & Hct & Hfn & data & Hd & Hfind).
  unfold carries, part_view, part_type, part_text, part_filename in *.
  rewrite Hd, Hf in *. unfold part_data in Hd. rewrite Hf in Hd.
  apply bind_Some in Hd as (state & Hst & Hd).
  destruct (states !! file_index part) as [[st|]|]; cbn in Hst; simplify_eq.
  destruct (ec state) eqn:Hec; [done|]. rewrite Hd.
  set (ct := text_or (content_type_override part) (lit "application/octet-stream")) in *.
  assert (trimmed ct /\ "010"%char ∉ ct) as [Ht Hn].
  { unfold ct, text_or. destruct (content_type_override part); [|done].
    split; [|by apply (bool_decide_unpack _)].
    split; [done|]. by exists (lit "application/octet-strea"), "m"%char. }
  set (fn := text_or (filename_override part) (DefaultFilename filename_of (reader part))) in *.
  set (l1 := disposition (EscapeQuotedParameter (name part) ++ quote ++ lit "; filename="
                          ++ quote ++ EscapeQuotedParameter fn)).
  assert (line_ok l1) as H1 by (apply disposition_ok; solve_notin).
  assert (line_ok (lit "Content-Type: " ++ ct)) as H2 by by apply type_line_ok.
  exists l1, (Some (lit "Content-Type: " ++ ct)), data.
  split; [|split; [done|split; [done|split; [done|]]]].
  - f_equal. unfold l1, disposition, header_block. rewrite <- !app_assoc. reflexivity.
  - rewrite parse_headers by done. unfold l1. cbn zeta iota.
    rewrite type_line, file_disposition by first [done|solve_notin]. done.
Qed.

Lemma parse_built boundary states parts views pre :
  Forall2 (carries boundary states) parts views ->
  exists rest,
    build_body io_error filename_of boundary states parts pre =
      inr (pre ++ (lit "--" ++ boundary) ++ rest) /\
    forall fuel acc, length ((lit "--" ++ boundary) ++ rest) <= fuel ->
      parse_loop fuel (pre ++ (lit "--" ++ boundary) ++ rest) (lit "--" ++ boundary)
        (crlf ++ lit "--" ++ boundary) (length pre) acc = Returned (acc ++ views).
Proof.
  intros HF. revert pre. set (delim := lit "--" ++ boundary) in *.
  assert (forall u, 0 < length (delim ++ u)) as Hpos by (intros; rewrite length_app; cbn; lia).
  assert (forall pre u, (length (pre ++ delim ++ u) <=? length pre) = false) as Hin.
  { intros pre u. apply Nat.leb_gt. rewrite length_app. specialize (Hpos u). lia. }
  induction HF as [|part view parts views Hc HF IH]; intros pre; cbn [build_body].
  - exists (lit "--" ++ crlf). split; [unfold delim; by rewrite <- !app_assoc|].
    intros [|fuel] acc Hf; [specialize (Hpos (lit "--" ++ crlf)); lia|]. cbn [parse_loop].
    by rewrite Hin, terminator_reached, app_nil_r.
  - destruct Hc as (l1 & l2 & data & Htext & Hl1 & Hl2 & Hfind & ->). fold delim in Htext.
    rewrite Htext. set (hb := header_block l1 l2) in *.
    set (text := delim ++ crlf ++ hb ++ crlf ++ crlf ++ data ++ crlf) in *.
    destruct (IH (pre ++ text)) as (rest & Hb & Hloop).
    exists (crlf ++ hb ++ crlf ++ crlf ++ data ++ crlf ++ delim ++ rest).
    assert ((pre ++ text) ++ delim ++ rest =
            pre ++ delim ++ crlf ++ hb ++ crlf ++ crlf ++ data ++ crlf ++ delim ++ rest) as Hsplit
      by (unfold text; by rewrite <- !app_assoc).
    split; [by rewrite Hb, Hsplit|].
    intros [|fuel] acc Hf; [rewrite length_app in Hf; cbn in Hf; lia|]. cbn [parse_loop].
    rewrite Hin, part_no_terminator.
    pose proof (parse_part pre delim l1 l2 data rest Hl1 Hl2 Hfind) as Hpart.
    cbn zeta in Hpart. fold hb text in Hpart. destruct (ParsePartHeaders hb) as [ct file].
    rewrite <- Hsplit, <- app_assoc, Hpart. cbn iota beta.
    rewrite app_assoc, Hloop, <- app_assoc; [done|].
    rewrite !length_app in *. cbn in *. lia.
Qed.

(** The parser on what was built from parts that carry the given views. *)
Lemma parse_of_built g states c views :
  Forall2 (carries (BuildBoundary c).1 states) (parts_ g) views ->
  exists task, built io_error filename_of g (BuildBoundary c).1 states = inr task /\
    Parse (task_content_type task) (task_body task) = Returned views.
Proof.
  intros HF. destruct (parse_built _ states (parts_ g) views [] HF) as (rest & Hb & Hp).
  unfold built. rewrite Hb. eexists. split; [reflexivity|]. cbn [task_content_type task_body].
  unfold Parse. rewrite boundary_extracted. cbn [app] in Hp |- *.
  unfold PrepareMultipartBody. rewrite starts_with_app. by apply (Hp _ []).
Qed.

Lemma form_parsed g states c :
  Forall (part_ok (BuildBoundary c).1 states) (parts_ g) ->
  exists task, built io_error filename_of g (BuildBoundary c).1 states = inr task /\
    Parse (task_content_type task) (task_body task) = Returned (part_view states <$> parts_ g).
Proof.
  intros HF. apply parse_of_built. induction HF as [|part parts Hok HF IH]; constructor; [|done].
  destruct (spec_is_file part) eqn:Hf; [by apply file_part_carries|by apply text_part_carries].
Qed.

(** A form survives the wire.  Whatever the generator builds from parts
    with well-formed names and types, whose content does not contain the
    boundary and whose files were read, the server's [Parse] gives back exactly
    these parts in order: the content type (application/octet-stream for a file
    without one), whether it is a file, and every byte of the content. *)
Theorem form_round_trip g states c :
  Forall (part_ok (BuildBoundary c).1 states) (parts_ g) ->
  exists task, built io_error filename_of g (BuildBoundary c).1 states = inr task /\
    Parse (task_content_type task) (task_body task) = Returned (part_view states <$> parts_ g).
Proof. apply form_parsed. Qed.

Lemma escape_app s t :
  EscapeQuotedParameter (s ++ t) = EscapeQuotedParameter s ++ EscapeQuotedParameter t.
Proof.
  induction s as [|c s IH]; [done|]. cbn. rewrite IH. by destruct (_ || _).
Qed.

(** A field name can turn a text into a file.  The generator escapes
    quotes but the parser splits the disposition at every semicolon, quoted or
    not: a text part whose name goes on, after a semicolon, with "filename=" is
    received as a file upload with the text as content. *)
Theorem field_name_makes_file host port target n m v c :
  ";"%char ∉ n -> "010"%char ∉ n -> "010"%char ∉ m ->
  boundary_free (BuildBoundary c).1 v ->
  exists task,
    built io_error filename_of
      (AddTextPart (n ++ lit "; filename=" ++ m) v [] (CreateHttp host port target))
      (BuildBoundary c).1 [] = inr task /\
    Parse (task_content_type task) (task_body task) = Returned [mkPart [] [] true (Some v)].
Proof.
  intros Hn Hnl Hm Hv. apply parse_of_built. constructor; [|constructor].
  eexists _, _, _. split; [by apply text_part_text|]. cbn [name content_type_override value].
  assert (line_ok (disposition (EscapeQuotedParameter (n ++ lit "; filename=" ++ m) ++ quote))) as H1.
  { apply disposition_ok. apply not_elem_of_app. split; [|solve_notin].
    apply escape_without; [done|]. solve_notin. }
  split; [done|]. split; [done|]. split; [done|]. rewrite parse_headers by done. cbn zeta iota.
  rewrite !escape_app. change (EscapeQuotedParameter (lit "; filename=")) with (lit "; filename=").
  rewrite <- !app_assoc. change (lit "; filename=" ++ ?t) with ([] ++ lit "; filename=" ++ t).
  rewrite (file_disposition n []) by first [done|apply not_elem_of_nil]. done.
Qed.
End exchange.

(** ** Samples *)

(** A form with a text and a file, for error codes and readers that are
    numbers; the reader's number of letters is its file name. *)
Definition sample_generator : MultipartGenerator (E := nat) (R := nat) :=
  AddFilePart (lit "doc") (Some 2) [] []
    (AddTextPart (lit "title") (lit "hello; --there") (lit "text/plain")
       (CreateHttp (lit "h") (lit "80") (lit "/up"))).

Definition letters (n : nat) : str := replicate n "a"%char.

Definition sample_states : list (option (FileReadingState (E := nat))) :=
  [Some (mkReading None (Some (crlf ++ lit "--bsrv")))].

Lemma form_round_trip_witness :
  exists task, built 5 letters sample_generator (BuildBoundary 7).1 sample_states = inr task /\
    Parse (task_content_type task) (task_body task) =
    Returned [mkPart (lit "text/plain") (lit "hello; --there") false None;
              mkPart (lit "application/octet-stream") [] true (Some (crlf ++ lit "--bsrv"))].
Proof.
  apply (form_round_trip 5 letters sample_generator sample_states 7).
  repeat apply Forall_cons_2; [| |apply Forall_nil_2].
  - split; [by apply (bool_decide_unpack _)|]. split; [by apply (bool_decide_unpack _)|].
    split; [split; [done|]; by exists (lit "text/plai"), "n"%char|].
    split; [by apply (bool_decide_unpack _)|]. split; [by apply (bool_decide_unpack _)|].
    eexists. split; reflexivity.
  - split; [by apply (bool_decide_unpack _)|]. split; [by apply (bool_decide_unpack _)|].
    split; [done|].
    split; [by apply (bool_decide_unpack _)|]. split; [by apply (bool_decide_unpack _)|].
    eexists. split; reflexivity.
Defined.

Lemma field_name_makes_file_witness :
  exists task,
    built 5 letters (AddTextPart (lit "note; filename=x") (lit "hi") []
                       (CreateHttp (lit "h") (lit "80") (lit "/up"))) (BuildBoundary 0).1 [] = inr task /\
    Parse (task_content_type task) (task_body task) = Returned [mkPart [] [] true (Some (lit "hi"))].
Proof.
  apply (field_name_makes_file 5 letters (lit "h") (lit "80") (lit "/up") (lit "note") (lit "x")
           (lit "hi") 0); try (by apply (bool_decide_unpack _)); reflexivity.
Defined.
