(* ===== verification/Connection.v ===== *)
(** * The request cycle of a server connection

    [src/src/connection/server/http_server_connection.cc] and the HTTP part of
    [stream_server_connection_impl.h]: accept, read the header, route, read the
    body, hand the request over, write the response, and again.  Everything a
    connection does is a reaction to the completion of an asynchronous
    operation; [pending] lists the operations under way, so that starting a
    second one beside the first would show.  A timer that has expired before it
    is cancelled or set again still runs its handler: [expired] counts such
    handlers.  Reading and writing the bytes is Boost.Beast's; a completion
    carries its error flag, what it left in the read buffer and, for a header, what
    was parsed.

    While a request is handled its task may flush through the message queue,
    which writes to the same stream under the same timer; the task gives the
    connection up with one final action ([Lifecycle]).  What matters of the queue
    here is how many flushes are on their way to it ([dispatched]) and whether it
    writes ([queue]); [MessageQueue] has its contents, and [QueueView] shows that
    they agree.  [DoCycle] first waits for the queue ([Draining]); which threads
    can be lost in that wait is the subject of [Streaming]. *)

From S2P Require Import Prelude Text RouteTarget RouteLayer RouteTable.

Inductive HttpVerb := get | post | put | delete_ | patch | head_ | other_verb.

(** The values of [HttpRequestMethod]; every other verb is routed as GET. *)
Definition BeastHttpVerbToHttpRequestMethod (verb : HttpVerb) : nat :=
  match verb with
  | get => 0 | post => 1 | put => 2 | delete_ => 3 | patch => 4 | head_ => 5
  | other_verb => 0
  end.

(** Values without a verb give GET. *)
Definition HttpRequestMethodToBeastHttpVerb (method : nat) : HttpVerb :=
  match method with
  | 0 => get | 1 => post | 2 => put | 3 => delete_ | 4 => patch | 5 => head_
  | _ => get
  end.

Lemma verb_round_trip v :
  v <> other_verb -> HttpRequestMethodToBeastHttpVerb (BeastHttpVerbToHttpRequestMethod v) = v.
Proof. by destruct v. Qed.

(** What the parser knows once the header is done. *)
Record request_head := mkHead {
  verb : HttpVerb;
  req_target : str;
  content_length : option Z;
}.

(** The asynchronous operations that keep a connection going. *)
Inductive operation :=
  | PostedRun
  | ReadHeader
  | ReadBody
  | Handling
  | Draining
  | DispatchedWrite (keep_alive : bool) (write_expiry : Z)
  | WriteResponse (keep_alive : bool) (write_expiry : Z).

#[global] Instance operation_eq_dec : EqDecision operation.
Proof. solve_decision. Defined.

(** The final actions of a request on its connection. *)
Inductive final_action :=
  | Respond (keep_alive : bool) (write_expiry : Z)
  | Cycle
  | Close.

(** The message queue of a connection: nothing to write, a write under way and
    [more] messages beside the first, or given up ([connection_dead_]), after a
    failed write or because the connection was not usable any more. *)
Inductive queue_state := QueueIdle | QueueWriting (more : nat) | QueueDead.

(** The predicate of [MessageQueue::Wait]. *)
Definition drained (q : queue_state) : bool := match q with QueueWriting _ => false | _ => true end.

(** The read buffer: the bytes Boost.Beast has read and not consumed, and the
    capacity that was asked for. *)
Record FlatBuffer := mkFlatBuffer { readable : str; reserved : Z }.

Definition kInitialReadBufferReserveBytes : Z := 16 * 1024.
Definition uint32_max : Z := 2 ^ 32 - 1.

Section connection.
Context {H A : Type} (parse_segments : str -> option (list str)).
Context (table : HttpRouteTable H A).
Context (header_read_expiry_ keep_alive_timeout_ : Z).

Record StreamServerConnection := mkConnection {
  closed_ : bool;
  running : bool;
  timer : option Z;
  expired : nat;
  pending : list operation;
  parsed : option request_head;
  body_limit : option Z;
  route_result_ : option (HttpRouteResultInternal H A);
  buf_ : FlatBuffer;
  body_reserved : Z;
  dispatched : nat;
  queue : queue_state;
}.

Definition IsStreamAvailable (c : StreamServerConnection) : bool := negb (closed_ c).
Definition usable (c : StreamServerConnection) : bool := running c && IsStreamAvailable c.

Definition start (o : operation) (c : StreamServerConnection) : StreamServerConnection :=
  mkConnection (closed_ c) (running c) (timer c) (expired c) (pending c ++ [o])
    (parsed c) (body_limit c) (route_result_ c) (buf_ c) (body_reserved c) (dispatched c) (queue c).

Definition DoClose (c : StreamServerConnection) : StreamServerConnection :=
  mkConnection true (running c) (timer c) (expired c) (pending c)
    (parsed c) (body_limit c) (route_result_ c) (buf_ c) (body_reserved c) (dispatched c) (queue c).

Definition set_timer (t : option Z) (c : StreamServerConnection) : StreamServerConnection :=
  mkConnection (closed_ c) (running c) t (expired c) (pending c)
    (parsed c) (body_limit c) (route_result_ c) (buf_ c) (body_reserved c) (dispatched c) (queue c).

(** Setting the timer replaces the wait under way. *)
Definition ArmTimeout (timeout : Z) (c : StreamServerConnection) : StreamServerConnection :=
  if (timeout =? 0)%Z then c else set_timer (Some timeout) c.

Definition CancelTimeout (c : StreamServerConnection) : StreamServerConnection := set_timer None c.

Definition Run (c : StreamServerConnection) : StreamServerConnection :=
  if usable c then start PostedRun c else DoClose c.

Definition DoReadHeader (c : StreamServerConnection) : StreamServerConnection :=
  if usable c then start ReadHeader c else DoClose c.

Definition DoReadBody (c : StreamServerConnection) : StreamServerConnection :=
  if usable c then start ReadBody c else DoClose c.

Definition set_route (r : HttpRouteResultInternal H A) (c : StreamServerConnection) :
    StreamServerConnection :=
  mkConnection (closed_ c) (running c) (timer c) (expired c) (pending c)
    (parsed c) (body_limit c) (Some r) (buf_ c) (body_reserved c) (dispatched c) (queue c).

Definition set_body_limit (n : Z) (c : StreamServerConnection) : StreamServerConnection :=
  mkConnection (closed_ c) (running c) (timer c) (expired c) (pending c)
    (parsed c) (Some n) (route_result_ c) (buf_ c) (body_reserved c) (dispatched c) (queue c).

Definition set_buffer (b : FlatBuffer) (n : Z) (c : StreamServerConnection) : StreamServerConnection :=
  mkConnection (closed_ c) (running c) (timer c) (expired c) (pending c)
    (parsed c) (body_limit c) (route_result_ c) b n (dispatched c) (queue c).

Definition ReserveReadBuffer (bytes : Z) (c : StreamServerConnection) : StreamServerConnection :=
  if (bytes =? 0)%Z then c else
  set_buffer (mkFlatBuffer (readable (buf_ c)) (Z.max (reserved (buf_ c)) bytes)) (body_reserved c) c.

Definition ClearReadBuffer (c : StreamServerConnection) : StreamServerConnection :=
  if decide (length (readable (buf_ c)) = 0) then c else
  set_buffer (mkFlatBuffer (drop (length (readable (buf_ c))) (readable (buf_ c))) (reserved (buf_ c)))
    (body_reserved c) c.

Definition ReserveRequestBodyBuffer (bytes : Z) (c : StreamServerConnection) : StreamServerConnection :=
  if (bytes =? 0)%Z then c else
  set_buffer (buf_ c) (Z.max (body_reserved c) (if (uint32_max <? bytes)%Z then uint32_max else bytes)) c.

(** What a read leaves in the buffer. *)
Definition received (rest : str) (c : StreamServerConnection) : StreamServerConnection :=
  set_buffer (mkFlatBuffer rest (reserved (buf_ c))) (body_reserved c) c.

(** The limits of the route are applied; a declared length above the limit
    closes the connection, and [DoReadBody] then finds it closed. *)
Definition DoRoute (c : StreamServerConnection) : StreamServerConnection :=
  let c := CancelTimeout c in
  match parsed c with
  | None => DoClose c
  | Some req =>
      if negb (usable c) then DoClose c else
      let r := RouteInternal parse_segments
                 (BeastHttpVerbToHttpRequestMethod (verb req)) (req_target req) table in
      let c := set_route r c in
      match handler r with
      | None => DoClose c
      | Some _ =>
          let c := ArmTimeout (read_expiry r) c in
          let c :=
            if (max_body_size r =? 0)%Z then c else
            let c :=
              match content_length req with
              | Some n =>
                  if (max_body_size r <? n)%Z then DoClose c else
                  let reserve_bytes := Z.min n (max_body_size r) in
                  ReserveRequestBodyBuffer reserve_bytes (ReserveReadBuffer reserve_bytes c)
              | None => c
              end in
            set_body_limit (max_body_size r) c in
          DoReadBody c
      end
  end.

Definition DoForwardRequest (c : StreamServerConnection) : StreamServerConnection :=
  if usable c then start Handling (CancelTimeout c) else DoClose c.

Definition set_queue (n : nat) (q : queue_state) (c : StreamServerConnection) : StreamServerConnection :=
  mkConnection (closed_ c) (running c) (timer c) (expired c) (pending c)
    (parsed c) (body_limit c) (route_result_ c) (buf_ c) (body_reserved c) n q.

(** A new parser and an empty route result for the next request. *)
Definition fresh_request (c : StreamServerConnection) : StreamServerConnection :=
  mkConnection (closed_ c) (running c) (timer c) (expired c) (pending c) None None None (buf_ c) 0
    (dispatched c) (queue c).

(** [DoCycle] waits in [ClearMessage] for the queue, and then goes on. *)
Definition DoCycle (c : StreamServerConnection) : StreamServerConnection := start Draining c.

Definition cycle_on (c : StreamServerConnection) : StreamServerConnection :=
  if usable c
  then Run (ArmTimeout (to_size_t (header_read_expiry_ + keep_alive_timeout_))
              (ReserveReadBuffer kInitialReadBufferReserveBytes (ClearReadBuffer (fresh_request c))))
  else DoClose c.

Definition DoWriteResponse (keep_alive : bool) (write_expiry : Z) (c : StreamServerConnection) :
    StreamServerConnection :=
  if usable c then start (DispatchedWrite keep_alive write_expiry) c else DoClose c.

(** ** Completions *)

Definition on_run (c : StreamServerConnection) : StreamServerConnection :=
  DoReadHeader (ArmTimeout header_read_expiry_ c).

Definition set_parsed (req : request_head) (c : StreamServerConnection) : StreamServerConnection :=
  mkConnection (closed_ c) (running c) (timer c) (expired c) (pending c)
    (Some req) (body_limit c) (route_result_ c) (buf_ c) (body_reserved c) (dispatched c) (queue c).

(** [None] is an error. *)
Definition on_header (r : option request_head) (c : StreamServerConnection) :
    StreamServerConnection :=
  match r with None => DoClose c | Some req => DoRoute (set_parsed req c) end.

Definition on_body (ec : bool) (c : StreamServerConnection) : StreamServerConnection :=
  if ec then DoClose c else DoForwardRequest c.

Definition on_final (a : final_action) (c : StreamServerConnection) : StreamServerConnection :=
  match a with
  | Respond keep_alive write_expiry => DoWriteResponse keep_alive write_expiry c
  | Cycle => DoCycle c
  | Close => DoClose c
  end.

Definition on_dispatched_write (keep_alive : bool) (write_expiry : Z)
    (c : StreamServerConnection) : StreamServerConnection :=
  if usable c then start (WriteResponse keep_alive write_expiry) (ArmTimeout write_expiry c)
  else DoClose c.

Definition on_written (ec keep_alive : bool) (c : StreamServerConnection) :
    StreamServerConnection :=
  let c := CancelTimeout c in
  if ec || negb keep_alive then DoClose c else DoCycle c.

(** A flush reaches the queue ([EnqueueBodyOnStrand], [EnqueueHeaderOnStrand]); the
    next write starts under the timeout [e], or finds the connection gone. *)
Definition start_queue_write (more : nat) (e : Z) (c : StreamServerConnection) : StreamServerConnection :=
  if usable c then set_queue (dispatched c) (QueueWriting more) (ArmTimeout e c)
  else set_queue (dispatched c) QueueDead c.

Definition on_enqueued (e : Z) (c : StreamServerConnection) : StreamServerConnection :=
  match queue c with
  | QueueIdle => start_queue_write 0 e c
  | QueueWriting more => set_queue (dispatched c) (QueueWriting (S more)) c
  | QueueDead => c
  end.

(** A write of messages of the queue is over and [rest] are left
    ([HandleBodyWriteComplete], [HandleHeaderWriteComplete]). *)
Definition on_queue_written (ec : bool) (rest : nat) (e : Z) (c : StreamServerConnection) : StreamServerConnection :=
  let c := CancelTimeout c in
  if ec then set_queue (dispatched c) QueueDead (DoClose c) else
  match rest with
  | 0 => set_queue (dispatched c) QueueIdle c
  | S more => start_queue_write more e c
  end.

Definition on_timeout (c : StreamServerConnection) : StreamServerConnection := DoClose c.

(** The operation [o] is over. *)
Definition finish (o : operation) (c : StreamServerConnection) : option StreamServerConnection :=
  match list_find (fun o' => o' = o) (pending c) with
  | None => None
  | Some (i, _) =>
      Some (mkConnection (closed_ c) (running c) (timer c) (expired c) (delete i (pending c))
              (parsed c) (body_limit c) (route_result_ c) (buf_ c) (body_reserved c) (dispatched c) (queue c))
  end.

Definition set_environment (run : bool) (t : option Z) (n : nat) (c : StreamServerConnection) :
    StreamServerConnection :=
  mkConnection (closed_ c) run t n (pending c) (parsed c) (body_limit c) (route_result_ c) (buf_ c) (body_reserved c) (dispatched c) (queue c).

Definition accepted : StreamServerConnection :=
  ReserveReadBuffer kInitialReadBufferReserveBytes
    (mkConnection false true None 0 [] None None None (mkFlatBuffer [] 0) 0 0 QueueIdle).

(** What can happen to a connection.  A task whose server has stopped may drop
    the connection without a final action, and a task may close it.  A flush is made while the task has the
    connection; it is dispatched to the connection's executor, and the queue writes
    whenever it has something, whatever else is under way. *)
Inductive step : StreamServerConnection -> StreamServerConnection -> Prop :=
  | step_run c c' : finish PostedRun c = Some c' -> step c (on_run c')
  | step_header r rest c c' : finish ReadHeader c = Some c' -> step c (on_header r (received rest c'))
  | step_body ec rest c c' : finish ReadBody c = Some c' -> step c (on_body ec (received rest c'))
  | step_final a c c' : finish Handling c = Some c' -> step c (on_final a c')
  | step_dropped c c' : finish Handling c = Some c' -> running c = false -> step c c'
  | step_dispatched ka e c c' :
      finish (DispatchedWrite ka e) c = Some c' -> step c (on_dispatched_write ka e c')
  | step_written ec ka e c c' :
      finish (WriteResponse ka e) c = Some c' -> step c (on_written ec ka c')
  | step_expires t c :
      timer c = Some t -> step c (set_environment (running c) None (S (expired c)) c)
  | step_timeout n c :
      expired c = S n -> step c (on_timeout (set_environment (running c) (timer c) n c))
  | step_stop c : step c (set_environment false (timer c) (expired c) c)
  | step_drained c c' : finish Draining c = Some c' -> drained (queue c) = true -> step c (cycle_on c')
  | step_close c : Handling ∈ pending c -> step c (DoClose c)
  | step_flush c : Handling ∈ pending c -> step c (set_queue (S (dispatched c)) (queue c) c)
  | step_enqueued n e c : dispatched c = S n -> step c (on_enqueued e (set_queue n (queue c) c))
  | step_queue_written ec rest e more c :
      queue c = QueueWriting more -> rest <= more -> step c (on_queue_written ec rest e c).

(** A connection is run once it is accepted. *)
Definition reachable (c : StreamServerConnection) : Prop := rtc step (Run accepted) c.

(** ** The invariant *)

(** The timeout is running, or its handler is about to close the connection. *)
Definition armed (t : Z) (c : StreamServerConnection) : Prop :=
  t = 0%Z \/ timer c = Some t \/ 0 < expired c.

(** The request belongs to the route its target selects and its declared
    length is within the route's limit, which the parser enforces. *)
Definition within_limits (c : StreamServerConnection) : Prop :=
  exists req, parsed c = Some req /\
    let r := RouteInternal parse_segments
               (BeastHttpVerbToHttpRequestMethod (verb req)) (req_target req) table in
    route_result_ c = Some r /\ is_Some (handler r) /\
    (max_body_size r <> 0%Z ->
     body_limit c = Some (max_body_size r) /\
     forall n, content_length req = Some n -> (n <= max_body_size r)%Z).

(** Only a request within the limits is read on and handled. *)
Definition limited (c : StreamServerConnection) (o : operation) : Prop :=
  match o with ReadBody | Handling => within_limits c | _ => True end.

(** The timeout of a read or of the write of a response is running. *)
Definition timed (c : StreamServerConnection) (o : operation) : Prop :=
  match o with
  | ReadHeader => armed header_read_expiry_ c
  | ReadBody => forall r, route_result_ c = Some r -> armed (read_expiry r) c
  | WriteResponse _ write_expiry => armed write_expiry c
  | PostedRun | Handling | Draining | DispatchedWrite _ _ => True
  end.

(** Something of the task's is still to be written by the queue. *)
Definition flushing (c : StreamServerConnection) : Prop := 0 < dispatched c \/ drained (queue c) = false.

(** A step in which the connection is not given up too early: a response is not
    given to it while the queue still writes, nor does a cycle get past its wait
    while a flush is still on its way to the queue. *)
Definition orderly (c c' : StreamServerConnection) : Prop :=
  step c c' /\
  (forall ka e, pending c = [Handling] -> pending c' = [DispatchedWrite ka e] -> ~ flushing c) /\
  (pending c = [Draining] -> pending c' = [PostedRun] -> dispatched c = 0).

(** What holds of every connection, and what of one that is used in order. *)
Definition cycle_inv (c : StreamServerConnection) : Prop :=
  length (pending c) <= 1 /\
  (running c = true -> closed_ c = false -> exists o, pending c = [o] /\ limited c o).

Definition timed_inv (c : StreamServerConnection) : Prop :=
  (usable c = true -> forall o, pending c = [o] -> timed c o) /\
  (flushing c -> pending c = [] \/ pending c = [Handling] \/ pending c = [Draining]).

Lemma finish_spec o c c' :
  length (pending c) <= 1 -> finish o c = Some c' ->
  pending c = [o] /\
  c' = mkConnection (closed_ c) (running c) (timer c) (expired c) []
         (parsed c) (body_limit c) (route_result_ c) (buf_ c) (body_reserved c) (dispatched c) (queue c).
Proof.
  unfold finish. intros Hlen. destruct (list_find _ _) as [[i o']|] eqn:Hf; [|done].
  intros [= <-]. apply list_find_Some in Hf as (Hi & -> & _).
  destruct (pending c) as [|o1 [|]] eqn:Hp; [done| |cbn in Hlen; lia].
  destruct i; [|done]. cbn in Hi. by simplify_eq.
Qed.

Lemma closed_inv c : length (pending c) <= 1 -> closed_ c = true -> cycle_inv c.
Proof. intros Hl Hc. split; [done|]. congruence. Qed.

Lemma start_inv o c :
  pending c = [] -> (closed_ c = false -> limited (start o c) o) -> cycle_inv (start o c).
Proof.
  intros Hp Hg. split; cbn; rewrite Hp; [done|]. intros _ Hc. eauto.
Qed.

(** Starting an operation when the connection is usable, closing it if not. *)
Lemma start_or_close_inv o c :
  pending c = [] -> (usable c = true -> limited (start o c) o) ->
  cycle_inv (if usable c then start o c else DoClose c).
Proof.
  intros Hp Hg. destruct (usable c) eqn:Hu.
  - apply start_inv; [done|]. auto.
  - apply closed_inv; cbn; [rewrite Hp; cbn; lia|done].
Qed.

Lemma armed_arm t c : armed t (ArmTimeout t c).
Proof. unfold armed, ArmTimeout. destruct (Z.eqb_spec t 0); cbn; auto. Qed.

Lemma pending_arm t c : pending (ArmTimeout t c) = pending c.
Proof. unfold ArmTimeout. by destruct (t =? 0)%Z. Qed.

Lemma usable_arm t c : usable (ArmTimeout t c) = usable c.
Proof. unfold ArmTimeout. by destruct (t =? 0)%Z. Qed.

(** The buffer functions change nothing but the buffers. *)
Definition buffers_only (f : StreamServerConnection -> StreamServerConnection) : Prop :=
  forall c, f c = set_buffer (buf_ (f c)) (body_reserved (f c)) c.

Lemma ReserveReadBuffer_only n : buffers_only (ReserveReadBuffer n).
Proof. intros []. unfold ReserveReadBuffer. by case_match. Qed.
Lemma ClearReadBuffer_only : buffers_only ClearReadBuffer.
Proof. intros []. unfold ClearReadBuffer. by case_match. Qed.
Lemma ReserveRequestBodyBuffer_only n : buffers_only (ReserveRequestBodyBuffer n).
Proof. intros []. unfold ReserveRequestBodyBuffer. by case_match. Qed.

Lemma closes_inv c : pending c = [] -> cycle_inv (DoClose c).
Proof. intros Hp. apply closed_inv; [|done]. cbn. rewrite Hp. cbn. lia. Qed.

Lemma on_run_inv c : pending c = [] -> cycle_inv (on_run c).
Proof.
  intros Hp. unfold on_run, DoReadHeader. by apply start_or_close_inv; [rewrite pending_arm|].
Qed.

Lemma DoCycle_inv c : pending c = [] -> cycle_inv (DoCycle c).
Proof. intros Hp. by apply start_inv. Qed.

Lemma cycle_on_inv c : pending c = [] -> cycle_inv (cycle_on c).
Proof.
  intros Hp. unfold cycle_on. destruct (usable c); [|by apply closes_inv].
  apply start_or_close_inv; [|done]. rewrite pending_arm, ReserveReadBuffer_only, ClearReadBuffer_only. done.
Qed.

Lemma DoRoute_inv c : pending c = [] -> cycle_inv (DoRoute c).
Proof.
  intros Hp. unfold DoRoute. destruct (parsed (CancelTimeout c)) as [req|] eqn:Hreq;
    [|by apply closes_inv].
  cbn in Hreq. destruct (negb _); [by apply closes_inv|].
  set (r := RouteInternal _ _ _ _).
  destruct (handler r) as [h|] eqn:Hh; [|by apply closes_inv].
  set (c1 := ArmTimeout (read_expiry r) (set_route r (CancelTimeout c))).
  assert (pending c1 = [] /\ parsed c1 = Some req /\ route_result_ c1 = Some r) as (Hp1 & Hq1 & Hr1).
  { unfold c1. rewrite pending_arm. split_and!; [done|unfold ArmTimeout; by destruct (_ =? 0)%Z..]. }
  assert (forall c2, pending c2 = [] -> parsed c2 = Some req -> route_result_ c2 = Some r ->
    (usable c2 = true -> max_body_size r <> 0%Z -> body_limit c2 = Some (max_body_size r) /\
       forall n, content_length req = Some n -> (n <= max_body_size r)%Z) ->
    cycle_inv (DoReadBody c2)) as Hread.
  { intros c2 Hp2 Hq2 Hr2 Hl2. unfold DoReadBody. apply start_or_close_inv; [done|].
    intros Hu. exists req. cbn. fold r. rewrite Hh. eauto 10. }
  destruct (Z.eqb_spec (max_body_size r) 0) as [H0|H0]; [by apply Hread|].
  destruct (content_length req) as [n|] eqn:Hn; [destruct (Z.ltb_spec (max_body_size r) n)|];
    try rewrite ReserveRequestBodyBuffer_only, ReserveReadBuffer_only;
    apply Hread; try done; intros Hu _.
  - unfold usable, IsStreamAvailable in Hu. cbn in Hu. by rewrite andb_false_r in Hu.
  - split; [done|]. intros n' [= <-]. done.
Qed.

Lemma on_written_inv ec ka c : pending c = [] -> cycle_inv (on_written ec ka c).
Proof.
  intros Hp. unfold on_written. destruct (ec || negb ka); [by apply closes_inv|by apply DoCycle_inv].
Qed.

(** The next state after an operation is over. *)
Lemma finish_inv o c c' f :
  cycle_inv c -> finish o c = Some c' ->
  (forall d, pending d = [] -> cycle_inv (f d)) -> cycle_inv (f c').
Proof.
  intros [Hl _] Hf Hd. destruct (finish_spec _ _ _ Hl Hf) as [_ ->]. by apply Hd.
Qed.

(** What the environment and the queue change leaves the operation as it is. *)
Definition same_cycle (c c' : StreamServerConnection) : Prop :=
  pending c' = pending c /\ parsed c' = parsed c /\ body_limit c' = body_limit c /\
  route_result_ c' = route_result_ c /\ (usable c' = true -> usable c = true).

Lemma usable_spec c : usable c = true <-> running c = true /\ closed_ c = false.
Proof. unfold usable, IsStreamAvailable. by rewrite andb_true_iff, negb_true_iff. Qed.

Lemma same_cycle_inv c c' : cycle_inv c -> same_cycle c c' -> cycle_inv c'.
Proof.
  intros [Hl Hc] (Hp & Hq & Hb & Hr & Hu). split; [by rewrite Hp|]. intros H1 H2.
  destruct (Hc) as (o & Ho & Hg); [apply usable_spec, Hu, usable_spec; auto..|].
  exists o. rewrite Hp. split; [done|]. destruct o; try done;
    (destruct Hg as (req & Hg); exists req; rewrite Hq, Hr, Hb; exact Hg).
Qed.

Lemma arm_same t c : same_cycle c (ArmTimeout t c).
Proof. unfold ArmTimeout. case_match; done. Qed.

Lemma start_queue_write_same n e c : same_cycle c (start_queue_write n e c).
Proof. unfold start_queue_write. destruct (usable c) eqn:Hu; [|done]. by destruct (arm_same e c) as (?&?&?&?&?). Qed.

Lemma on_enqueued_same e c : same_cycle c (on_enqueued e c).
Proof. unfold on_enqueued. destruct (queue c); [apply start_queue_write_same|done|done]. Qed.

Lemma on_queue_written_same ec rest e c : same_cycle c (on_queue_written ec rest e c).
Proof.
  unfold on_queue_written. destruct ec.
  - split_and!; try done. unfold usable, IsStreamAvailable. cbn. by rewrite andb_false_r.
  - destruct rest; [done|]. exact (start_queue_write_same _ e (CancelTimeout c)).
Qed.

Lemma cycle_step_inv c c' : cycle_inv c -> step c c' -> cycle_inv c'.
Proof.
  intros Hinv Hstep.
  destruct Hstep as [c c' Hf|r rest c c' Hf|ec rest c c' Hf|a c c' Hf|c c' Hf Hr|ka e c c' Hf|ec ka e c c' Hf
                    |t c Ht|n c Hn|c|c c' Hf Hd|c Hin|c Hin|n e c Hn|ec rest e more c Hq Hm].
  - eapply finish_inv; [done|done|]. apply on_run_inv.
  - eapply (finish_inv _ _ _ (fun d => on_header r (received rest d))); [done|done|]. intros d Hd. destruct r as [req|].
    + by apply DoRoute_inv.
    + by apply closes_inv.
  - destruct (finish_spec _ _ _ (proj1 Hinv) Hf) as [Hp ->].
    destruct Hinv as [_ Hg]. unfold on_body. destruct ec; [by apply closes_inv|].
    unfold DoForwardRequest. destruct (usable _) eqn:Hu; [|by apply closes_inv].
    apply start_inv; [done|]. intros Hc. apply usable_spec in Hu as [Hu _]. destruct (Hg Hu Hc) as (o & Ho & Hgo).
    rewrite Hp in Ho. injection Ho as <-. apply Hgo.
  - eapply (finish_inv _ _ _ (on_final a)); [done|done|]. intros d Hd. destruct a; cbn [on_final].
    + apply start_or_close_inv; done.
    + by apply DoCycle_inv.
    + by apply closes_inv.
  - destruct (finish_spec _ _ _ (proj1 Hinv) Hf) as [_ ->]. split; [cbn; lia|]. cbn. congruence.
  - eapply (finish_inv _ _ _ (on_dispatched_write ka e)); [done|done|]. intros d Hd.
    unfold on_dispatched_write. rewrite <- (usable_arm e d).
    destruct (usable (ArmTimeout e d)); [|by apply closes_inv].
    apply start_inv; [by rewrite pending_arm|done].
  - eapply (finish_inv _ _ _ (on_written ec ka)); [done|done|]. apply on_written_inv.
  - by apply (same_cycle_inv c).
  - apply closed_inv; [|done]. apply Hinv.
  - by apply (same_cycle_inv c).
  - eapply finish_inv; [done|done|]. apply cycle_on_inv.
  - apply closed_inv; [|done]. apply Hinv.
  - by apply (same_cycle_inv c).
  - apply (same_cycle_inv (set_queue n (queue c) c)); [by apply (same_cycle_inv c)|apply on_enqueued_same].
  - apply (same_cycle_inv c); [done|apply on_queue_written_same].
Qed.

Lemma reachable_cycle_inv c : reachable c -> cycle_inv c.
Proof.
  intros Hc. eapply rtc_invariant; [apply cycle_step_inv|exact Hc|]. by apply start_inv.
Qed.

(** ** The timeouts *)

(** What is left of the task's flushes is the queue's business alone. *)
Definition same_queue (c c' : StreamServerConnection) : Prop := dispatched c' = dispatched c /\ queue c' = queue c.

Lemma arm_same_queue t c : same_queue c (ArmTimeout t c).
Proof. unfold ArmTimeout. by case_match. Qed.

Lemma reserve_same_queue n m c : same_queue c (ReserveRequestBodyBuffer n (ReserveReadBuffer m c)).
Proof. by rewrite ReserveRequestBodyBuffer_only, ReserveReadBuffer_only. Qed.

Lemma DoRoute_same_queue c : same_queue c (DoRoute c).
Proof.
  unfold DoRoute. destruct (parsed _) as [req|]; [|done]. destruct (negb _); [done|]. set (r := RouteInternal _ _ _ _).
  destruct (handler r); [|done]. set (c1 := ArmTimeout _ _).
  assert (same_queue c c1) as H1 by apply (arm_same_queue (read_expiry r) (set_route r (CancelTimeout c))).
  assert (forall d, same_queue c d -> same_queue c (DoReadBody d)) as Hread
    by (intros d Hd; unfold DoReadBody; by destruct (usable d)).
  apply Hread. destruct (_ =? 0)%Z; [done|]. destruct (content_length req) as [n|]; [|done].
  destruct (_ <? _)%Z; [done|]. by rewrite ReserveRequestBodyBuffer_only, ReserveReadBuffer_only.
Qed.

(** No operation is timed that has no timeout of its own. *)
Definition untimed (o : operation) : bool :=
  match o with PostedRun | Handling | Draining | DispatchedWrite _ _ => true | _ => false end.

Lemma untimed_timed c o : untimed o = true -> timed c o.
Proof. by destruct o. Qed.

(** After an operation: closed, or the next one is under way and timed, and the
    queue is done unless that one goes with it. *)
Lemma next_timed_inv o c :
  pending c = [] -> (usable c = true -> timed (start o c) o) ->
  (flushing c -> usable c = true -> o = Handling \/ o = Draining) ->
  timed_inv (if usable c then start o c else DoClose c).
Proof.
  intros Hp Ht Hf. destruct (usable c) eqn:Hu.
  - split; cbn; rewrite Hp; [by intros _ o' [= <-]; auto|]. intros Hfl. destruct (Hf Hfl eq_refl) as [-> | ->]; auto.
  - split; cbn; [unfold usable, IsStreamAvailable; cbn; by rewrite andb_false_r|auto].
Qed.

Lemma closed_timed_inv c : pending c = [] -> timed_inv (DoClose c).
Proof. intros Hp. split; [unfold usable, IsStreamAvailable; cbn; by rewrite andb_false_r|auto]. Qed.

Lemma same_queue_flushing c c' : same_queue c c' -> flushing c' <-> flushing c.
Proof. intros [H1 H2]. unfold flushing. by rewrite H1, H2. Qed.

Lemma on_run_timed c : pending c = [] -> ~ flushing c -> timed_inv (on_run c).
Proof.
  intros Hp Hf. apply next_timed_inv; [by rewrite pending_arm|intros _; apply armed_arm|].
  by rewrite (same_queue_flushing c) by apply arm_same_queue.
Qed.

Lemma DoRoute_timed c : pending c = [] -> ~ flushing c -> timed_inv (DoRoute c).
Proof.
  intros Hp Hf. split; [|by rewrite (same_queue_flushing _ _ (DoRoute_same_queue c))].
  revert Hp. unfold DoRoute. destruct (parsed _) as [req|]; [|by intros Hp; apply closed_timed_inv].
  destruct (negb _); [by intros Hp; apply closed_timed_inv|]. set (r := RouteInternal _ _ _ _).
  destruct (handler r); [|by intros Hp; apply closed_timed_inv]. intros Hp. set (c1 := ArmTimeout _ _).
  assert (pending c1 = [] /\ route_result_ c1 = Some r /\ armed (read_expiry r) c1) as (Hp1 & Hr1 & Ha1).
  { unfold c1. rewrite pending_arm. split_and!; [done|unfold ArmTimeout; by destruct (_ =? 0)%Z|apply armed_arm]. }
  assert (forall d, pending d = [] -> route_result_ d = Some r -> armed (read_expiry r) d ->
    usable (DoReadBody d) = true -> forall o, pending (DoReadBody d) = [o] -> timed (DoReadBody d) o) as Hread.
  { intros d Hpd Hrd Had. unfold DoReadBody. destruct (usable d); cbn; rewrite Hpd; [|done].
    intros _ o [= <-] r'. cbn. rewrite Hrd. by intros [= <-]. }
  destruct (_ =? 0)%Z; [by apply Hread|]. destruct (content_length req) as [n|]; [|by apply Hread].
  destruct (_ <? _)%Z; [by apply Hread|]. rewrite ReserveRequestBodyBuffer_only, ReserveReadBuffer_only. by apply Hread.
Qed.

Lemma cycle_on_timed c :
  pending c = [] -> (pending (cycle_on c) = [PostedRun] -> ~ flushing c) -> timed_inv (cycle_on c).
Proof.
  intros Hp Hf. unfold cycle_on in *. destruct (usable c); [|by apply closed_timed_inv]. set (d := ArmTimeout _ _) in *.
  assert (pending d = [] /\ same_queue c d) as [Hpd Hqd].
  { unfold d. rewrite pending_arm. split; [by rewrite ReserveReadBuffer_only, ClearReadBuffer_only|].
    destruct (arm_same_queue (to_size_t (header_read_expiry_ + keep_alive_timeout_)) (ReserveReadBuffer
      kInitialReadBufferReserveBytes (ClearReadBuffer (fresh_request c)))) as [H1 H2].
    split; [rewrite H1|rewrite H2]; by rewrite ReserveReadBuffer_only, ClearReadBuffer_only. }
  apply next_timed_inv; [done|done|]. rewrite (same_queue_flushing _ _ Hqd). intros Hfl Hu. destruct Hf; [|done].
  unfold Run. rewrite Hu. cbn. by rewrite Hpd.
Qed.

(** The operation that is over was not one that goes with the queue. *)
Lemma not_flushing o c :
  timed_inv c -> pending c = [o] -> o <> Handling -> o <> Draining -> ~ flushing c.
Proof. intros [_ Hq] Hp H1 H2 Hf. destruct (Hq Hf) as [Hx|[Hx|Hx]]; rewrite Hp in Hx; by simplify_eq. Qed.

Lemma finished_timed c c' a :
  length (pending c) <= 1 -> timed_inv c -> finish Handling c = Some c' ->
  (forall ka e, pending (on_final a c') = [DispatchedWrite ka e] -> ~ flushing c) -> timed_inv (on_final a c').
Proof.
  intros Hl Hi Hf Ho. destruct (finish_spec _ _ _ Hl Hf) as [Hp Hc]. assert (pending c' = []) as Hp' by by subst.
  assert (flushing c' <-> flushing c) as Hfl by by subst. destruct a as [ka e| |]; cbn [on_final] in *.
  - apply next_timed_inv; [done|done|]. rewrite Hfl. intros Hx Hu. exfalso. apply (Ho ka e); [|done].
    unfold DoWriteResponse. rewrite Hu. cbn. by rewrite Hp'.
  - split; cbn; rewrite Hp'; [by intros _ o [= <-]|auto].
  - by apply closed_timed_inv.
Qed.

(** What happens while the queue works is no read and no write of a response. *)
Lemma beside_timed c c' :
  timed_inv c -> flushing c -> same_cycle c c' -> timed_inv c'.
Proof.
  intros [_ Hq] Hf (Hp & _). destruct (Hq Hf) as [Hx|[Hx|Hx]]; rewrite Hx in Hp; split; rewrite Hp; auto;
    intros _ o [= <-]; done.
Qed.

Lemma timed_step_inv c c' : cycle_inv c -> timed_inv c -> orderly c c' -> timed_inv c'.
Proof.
  intros [Hl _] Hi (Hs & Hr1 & Hr2). pose proof (fun o => not_flushing o c Hi) as Hnf.
  destruct Hs as [c c' Hf|r rest c c' Hf|ec rest c c' Hf|a c c' Hf|c c' Hf Hr|ka e c c' Hf|ec ka e c c' Hf
                 |t c Ht|n c Hn|c|c c' Hf Hd|c Hin|c Hin|n e c Hn|ec rest e more c Hq Hm];
    try (destruct (finish_spec _ _ _ Hl Hf) as [Hp Hc]; assert (pending c' = []) as Hp' by (by subst);
         assert (same_queue c c') as Hsq by by subst).
  - apply on_run_timed; [done|]. rewrite (same_queue_flushing _ _ Hsq). by eapply Hnf.
  - destruct r; [|by apply closed_timed_inv]. apply DoRoute_timed; [done|].
    rewrite (same_queue_flushing c) by done. by eapply Hnf.
  - unfold on_body, DoForwardRequest. destruct ec; [by apply closed_timed_inv|].
    destruct (usable _); [|by apply closed_timed_inv]. split; cbn; rewrite Hp'; [by intros _ o [= <-]|auto].
  - eapply finished_timed; [done|done|done|]. intros ka e. by apply Hr1.
  - split; [by subst; unfold usable; cbn; rewrite Hr|auto].
  - unfold on_dispatched_write. destruct (usable c') eqn:Hu; [|by apply closed_timed_inv].
    split; cbn; rewrite pending_arm, Hp'; [intros _ o [= <-]; apply armed_arm|].
    intros Hfl. exfalso. eapply (Hnf (DispatchedWrite ka e)); [done..|].
    apply (same_queue_flushing c c' Hsq), (same_queue_flushing c' (ArmTimeout e c') (arm_same_queue e c')). exact Hfl.
  - unfold on_written. destruct (ec || _); [by apply closed_timed_inv|]. split; cbn; rewrite Hp'; [by intros _ o [= <-]|auto].
  - split; [|apply Hi]. intros Hu o Ho. destruct o; try done; try (intros r Hr); right; right; cbn; lia.
  - split; [unfold usable, IsStreamAvailable; cbn; by rewrite andb_false_r|apply Hi].
  - split; [done|apply Hi].
  - apply cycle_on_timed; [done|]. intros Hc'. rewrite (same_queue_flushing _ _ Hsq). unfold flushing.
    rewrite (Hr2 Hp Hc'), Hd. intros [?|?]; [lia|done].
  - split; [unfold usable, IsStreamAvailable; cbn; by rewrite andb_false_r|apply Hi].
  - destruct Hi as [H1 H2]. split; [done|]. intros _.
    destruct (pending c) as [|o [|]] eqn:Hpc; [by left| |cbn in Hl; lia]. apply list_elem_of_singleton in Hin as <-. cbn. rewrite Hpc. auto.
  - apply (beside_timed c); [done|left; lia|apply (on_enqueued_same e (set_queue n (queue c) c))].
  - apply (beside_timed c); [done|right; by rewrite Hq|apply on_queue_written_same].
Qed.

Definition orderly_reachable (c : StreamServerConnection) : Prop := rtc orderly (Run accepted) c.

Lemma orderly_inv c : orderly_reachable c -> cycle_inv c /\ timed_inv c.
Proof.
  intros Hc. refine (rtc_invariant orderly (fun d => cycle_inv d /\ timed_inv d) _ _ _ Hc _).
  - intros a b [Ha Hb] Hs. split; [eapply cycle_step_inv; [done|apply Hs]|by eapply timed_step_inv].
  - split; [by apply start_inv|]. split; [by intros _ o [= <-]|]. intros [Hx|Hx]; [by apply Nat.lt_irrefl in Hx|done].
Qed.

(** C15. A connection is never lost, and waits under its timeouts as long as its
    queue is respected.  In every reachable state the cycle has at most one
    operation under way, and exactly one while the server runs and the connection is
    open; only a request that has a handler and whose declared length is within the
    limit of its route, which the parser has been given, has its body read and is
    handled.  In a run in which no response is handed over while the queue still
    writes, and no cycle gets past its wait while a flush is on its way, a header is
    moreover read under the header timeout (alone: the keep-alive time that [DoCycle]
    adds is replaced when the read starts), a body under the read timeout of the
    route, a response is written under its write timeout, and the queue writes only
    while a request is handled or a cycle waits for it, so that nothing else of the
    connection is written or read then.  ([response_unguarded] and [header_unguarded]
    below: without the order the timeout is lost.) *)
Theorem connection_guarded (c : StreamServerConnection) :
  (reachable c ->
   length (pending c) <= 1 /\
   (running c = true -> closed_ c = false -> exists o, pending c = [o] /\ limited c o)) /\
  (orderly_reachable c -> running c = true -> closed_ c = false ->
   exists o, pending c = [o] /\ timed c o /\ (flushing c -> o = Handling \/ o = Draining)).
Proof.
  split; [apply reachable_cycle_inv|]. intros Hc Hr Hcl. destruct (orderly_inv c Hc) as [[_ H1] [H2 H3]].
  destruct (H1 Hr Hcl) as (o & Ho & _). exists o. split_and!; [done|apply H2; [by apply usable_spec|done]|].
  intros Hf. destruct (H3 Hf) as [Hx|[Hx|Hx]]; rewrite Ho in Hx; simplify_eq; auto.
Qed.

(** ** The buffers *)

(** No trace of an earlier request: an empty buffer and a new parser. *)
Definition clean (c : StreamServerConnection) : Prop :=
  readable (buf_ c) = [] /\ parsed c = None /\ body_limit c = None /\ route_result_ c = None /\
  body_reserved c = 0%Z.

Definition within (B : Z) (c : StreamServerConnection) : Prop :=
  (reserved (buf_ c) <= Z.max kInitialReadBufferReserveBytes B)%Z /\
  (body_reserved c <= Z.max 0 (Z.min B uint32_max))%Z.

Definition buffers_inv (B : Z) (c : StreamServerConnection) : Prop :=
  within B c /\ (pending c = [PostedRun] \/ pending c = [ReadHeader] -> clean c).

Lemma arm_buffers t c : buf_ (ArmTimeout t c) = buf_ c /\ body_reserved (ArmTimeout t c) = body_reserved c.
Proof. unfold ArmTimeout. by case_match. Qed.

Lemma arm_clean t c : clean c -> clean (ArmTimeout t c).
Proof. unfold ArmTimeout. by case_match. Qed.

Lemma arm_within B t c : within B c -> within B (ArmTimeout t c).
Proof. unfold within. by destruct (arm_buffers t c) as [-> ->]. Qed.

(** Starting one of the other operations, and closing. *)
Lemma idle_buffers_inv B c : within B c -> pending c = [] -> buffers_inv B c.
Proof. intros Hw Hp. split; [done|]. rewrite Hp. by intros [?|?]. Qed.

Lemma start_buffers_inv B o c :
  within B c -> pending c = [] -> (o = PostedRun \/ o = ReadHeader -> clean c) ->
  buffers_inv B (if usable c then start o c else DoClose c).
Proof.
  intros Hw Hp Hc. case_match; [|by apply idle_buffers_inv]. split; [done|]. cbn. rewrite Hp.
  intros [[= ->]|[= ->]]; apply Hc; auto.
Qed.

Lemma ClearReadBuffer_readable c : readable (buf_ (ClearReadBuffer c)) = [].
Proof. unfold ClearReadBuffer. case_match; [by apply nil_length_inv|]. apply drop_all. Qed.

Lemma ReserveReadBuffer_within B n c :
  (n <= Z.max kInitialReadBufferReserveBytes B)%Z -> within B c -> within B (ReserveReadBuffer n c).
Proof. intros Hn [H1 H2]. unfold ReserveReadBuffer. case_match; [done|]. split; cbn; lia. Qed.

Lemma ReserveRequestBodyBuffer_within B n c :
  (n <= B)%Z -> within B c -> within B (ReserveRequestBodyBuffer n c).
Proof.
  intros Hn [H1 H2]. unfold ReserveRequestBodyBuffer. case_match; [done|]. split; cbn; [done|].
  case_match; reflect_bools; lia.
Qed.

Lemma DoCycle_buffers_inv B c : within B c -> pending c = [] -> buffers_inv B (DoCycle c).
Proof. intros Hw Hp. split; [done|]. cbn. rewrite Hp. by intros [?|?]. Qed.

Lemma cycle_on_buffers_inv B c : within B c -> pending c = [] -> buffers_inv B (cycle_on c).
Proof.
  intros Hw Hp. unfold cycle_on. case_match; [|by apply idle_buffers_inv].
  set (d := ReserveReadBuffer _ _).
  assert (within B d) as Hd.
  { apply ReserveReadBuffer_within; [lia|]. destruct Hw as [H1 H2]. unfold ClearReadBuffer.
    case_match; split; cbn in *; lia. }
  assert (clean d) as Hc.
  { subst d. unfold ReserveReadBuffer. case_match; [done|]. unfold clean. cbn.
    rewrite ClearReadBuffer_readable, ClearReadBuffer_only. cbn. unfold ClearReadBuffer. by case_match. }
  unfold Run. apply start_buffers_inv; [by apply arm_within| |by intros _; apply arm_clean].
  rewrite pending_arm. subst d. by rewrite ReserveReadBuffer_only, ClearReadBuffer_only.
Qed.

Lemma DoRoute_buffers_inv B c :
  (forall m target, (max_body_size (RouteInternal parse_segments m target table) <= B)%Z) ->
  within B c -> pending c = [] -> buffers_inv B (DoRoute c).
Proof.
  intros HB Hw Hp. unfold DoRoute. destruct (parsed (CancelTimeout c)) as [req|]; [|by apply idle_buffers_inv].
  case_match; [by apply idle_buffers_inv|]. set (r := RouteInternal _ _ _ _).
  specialize (HB (BeastHttpVerbToHttpRequestMethod (verb req)) (req_target req)). fold r in HB.
  destruct (handler r); [|by apply idle_buffers_inv].
  set (c1 := ArmTimeout (read_expiry r) (set_route r (CancelTimeout c))).
  assert (within B c1 /\ pending c1 = []) as [Hw1 Hp1] by (split; [by apply arm_within|by unfold c1; rewrite pending_arm]).
  assert (forall d, within B d -> pending d = [] -> buffers_inv B (DoReadBody d)) as Hread
    by (intros d Hd Hpd; apply start_buffers_inv; [done|done|by intros [?|?]]).
  case_match; [by apply Hread|]. apply Hread.
  - case_match; [|done]. case_match; [done|]. apply ReserveRequestBodyBuffer_within; [lia|].
    apply ReserveReadBuffer_within; [lia|done].
  - case_match; [|done]. case_match; [done|]. by rewrite ReserveRequestBodyBuffer_only, ReserveReadBuffer_only.
Qed.

(** The queue has no business with the buffers. *)
Definition same_buffers (c c' : StreamServerConnection) : Prop :=
  exists cl run t ex n q,
    c' = mkConnection cl run t ex (pending c) (parsed c) (body_limit c) (route_result_ c) (buf_ c) (body_reserved c) n q.

Lemma same_buffers_inv B c c' : buffers_inv B c -> same_buffers c c' -> buffers_inv B c'.
Proof. by intros Hi (cl & run & t & ex & n & q & ->). Qed.

Lemma start_queue_write_buffers n e c : same_buffers c (start_queue_write n e c).
Proof. unfold start_queue_write, ArmTimeout. repeat case_match; unfold same_buffers; repeat eexists. Qed.

Lemma on_enqueued_buffers n e c : same_buffers c (on_enqueued e (set_queue n (queue c) c)).
Proof.
  unfold on_enqueued. cbn. destruct (queue c); [exact (start_queue_write_buffers 0 e (set_queue n QueueIdle c))|unfold same_buffers; repeat eexists..].
Qed.

Lemma on_queue_written_buffers ec rest e c : same_buffers c (on_queue_written ec rest e c).
Proof.
  unfold on_queue_written. destruct ec; [unfold same_buffers; repeat eexists|].
  destruct rest as [|more]; [unfold same_buffers; repeat eexists|exact (start_queue_write_buffers more e (CancelTimeout c))].
Qed.

Lemma step_buffers_inv B c c' :
  (forall m target, (max_body_size (RouteInternal parse_segments m target table) <= B)%Z) ->
  cycle_inv c -> buffers_inv B c -> step c c' -> buffers_inv B c'.
Proof.
  intros HB [Hl _] [Hw Hc] Hs.
  destruct Hs as [c c' Hf|r rest c c' Hf|ec rest c c' Hf|a c c' Hf|c c' Hf Hr|ka e c c' Hf|ec ka e c c' Hf
                 |t c Ht|n c Hn|c|c c' Hf Hd|c Hin|c Hin|n e c Hn|ec rest e more c Hq Hm];
    try (destruct (finish_spec _ _ _ Hl Hf) as [Hp ->]); try done.
  - apply start_buffers_inv; [by apply arm_within|by rewrite pending_arm|]. intros _. apply arm_clean, Hc. auto.
  - destruct r; [by apply DoRoute_buffers_inv|by apply idle_buffers_inv].
  - unfold on_body, DoForwardRequest. destruct ec; [by apply idle_buffers_inv|].
    case_match; [|by apply idle_buffers_inv]. split; [done|]. cbn. by intros [?|?].
  - destruct a; cbn [on_final]; [|by apply DoCycle_buffers_inv|by apply idle_buffers_inv].
    apply start_buffers_inv; [done|done|]. by intros [?|?].
  - by apply idle_buffers_inv.
  - unfold on_dispatched_write. rewrite <- (usable_arm e).
    case_match; [|by apply idle_buffers_inv].
    split; [by apply arm_within|]. cbn. rewrite pending_arm. by intros [?|?].
  - unfold on_written. case_match; [by apply idle_buffers_inv|by apply DoCycle_buffers_inv].
  - by apply cycle_on_buffers_inv.
  - apply (same_buffers_inv B c); [done|apply on_enqueued_buffers].
  - apply (same_buffers_inv B c); [done|apply on_queue_written_buffers].
Qed.

Lemma reachable_buffers_inv B c :
  (forall m target, (max_body_size (RouteInternal parse_segments m target table) <= B)%Z) ->
  reachable c -> buffers_inv B c.
Proof.
  intros HB Hc. refine (proj2 (rtc_invariant step (fun d => cycle_inv d /\ buffers_inv B d) _ _ _ Hc _)).
  - intros a b [Ha Hb] Hs. split; [by eapply cycle_step_inv|by eapply step_buffers_inv].
  - split; [by apply start_inv|]. split; [|done].
    split; [exact (Z.le_max_l kInitialReadBufferReserveBytes B)|apply Z.le_max_l].
Qed.

(** C16. What a client sends decides neither how much is reserved nor how the
    next request is read.  Whatever lengths the clients of a connection declare,
    the read buffer is never asked for more than the initial 16 KiB or the
    largest body limit of a route, nor the body for more than that limit and
    2^32 - 1 bytes; and when the header of a request is read, nothing is left of
    the request before it: the buffer is empty, the parser new, no route chosen. *)
Theorem connection_buffers (B : Z) (c : StreamServerConnection) :
  (forall m target, (max_body_size (RouteInternal parse_segments m target table) <= B)%Z) ->
  reachable c ->
  (reserved (buf_ c) <= Z.max kInitialReadBufferReserveBytes B)%Z /\
  (body_reserved c <= Z.max 0 (Z.min B uint32_max))%Z /\
  (pending c = [ReadHeader] -> clean c).
Proof. intros HB Hc. destruct (reachable_buffers_inv B c HB Hc) as [[H1 H2] H3]. auto. Qed.

(** [GetKeepAliveTimeout]: what the Keep-Alive header announces, in seconds. *)
Definition GetKeepAliveTimeout : Z :=
  if (keep_alive_timeout_ / 1000 =? 0)%Z then 1 else keep_alive_timeout_ / 1000.

(** The announced time is positive, and no more than the configured one from one
    second on. *)
Lemma announced_keep_alive :
  (0 <= keep_alive_timeout_ ->
   0 < GetKeepAliveTimeout /\ (1000 <= keep_alive_timeout_ -> GetKeepAliveTimeout * 1000 <= keep_alive_timeout_))%Z.
Proof.
  unfold GetKeepAliveTimeout. intros Hk. pose proof (Z.div_pos keep_alive_timeout_ 1000 Hk ltac:(lia)).
  pose proof (Z.mul_div_le keep_alive_timeout_ 1000 ltac:(lia)).
  destruct (Z.eqb_spec (keep_alive_timeout_ / 1000) 0); lia.
Qed.
End connection.

(** ** A sample: a POST whose body is being read *)

Definition upload_table : HttpRouteTable nat nat :=
  (AddRouteEntry 1 (lit "/up") (Some 5) (new_table 0)).2.

Definition upload : request_head := mkHead post (lit "/up") (Some 100%Z).

(** The body comes with the first bytes of a pipelined request; the request is
    answered, and the connection reads the next header. *)
Abbreviation sample_conn := (StreamServerConnection (H := nat) (A := nat)).
Abbreviation sample_step := (step plain_segments upload_table 3000 15000).
Abbreviation sample_reachable := (reachable plain_segments upload_table 3000 15000).

Definition after (o : operation) (f : sample_conn -> sample_conn) (c : sample_conn) : sample_conn :=
  from_option f c (finish o c).

Definition reading_header : sample_conn := after PostedRun (on_run 3000) (Run accepted).
Definition reading_upload : sample_conn :=
  after ReadHeader (fun c => on_header plain_segments upload_table (Some upload) (received [] c)) reading_header.
Definition body_read : sample_conn := after ReadBody (fun c => on_body false (received (lit "GET /next") c)) reading_upload.
Definition writing : sample_conn := after Handling (on_final (Respond true 4000)) body_read.
Definition written : sample_conn := after (DispatchedWrite true 4000) (on_dispatched_write true 4000) writing.
Definition waiting : sample_conn := after (WriteResponse true 4000) (on_written false true) written.
Definition posted_again : sample_conn := after Draining (cycle_on 3000 15000) waiting.
Definition next_header : sample_conn := after PostedRun (on_run 3000) posted_again.

Lemma sample_next o f c :
  match finish o c with Some _ => true | None => false end = true ->
  (forall c', finish o c = Some c' -> sample_step c (f c')) -> sample_reachable c -> sample_reachable (after o f c).
Proof.
  unfold after. destruct (finish o c) as [c'|]; [|done]. intros _ Hs Hc. eapply rtc_r; [exact Hc|]. by apply Hs.
Qed.

Lemma orderly_next o f c :
  match finish o c with Some _ => true | None => false end = true ->
  (forall c', finish o c = Some c' -> sample_step c (f c')) ->
  dispatched c = 0 -> drained (queue c) = true ->
  orderly plain_segments upload_table 3000 15000 c (after o f c).
Proof.
  unfold after. destruct (finish o c) as [c'|]; [|done]. intros _ Hs Hd Hq. split_and!; [by apply Hs| |done].
  intros ka e _ _ [Hx|Hx]; [lia|congruence].
Qed.

Tactic Notation "sample" uconstr(K) :=
  apply sample_next; [vm_compute; reflexivity|intros c' Hf; apply K; first [exact Hf|vm_compute; reflexivity]|].
Tactic Notation "orderly_sample" uconstr(K) :=
  eapply rtc_r; [|apply orderly_next;
    [vm_compute; reflexivity|intros c' Hf; apply K; first [exact Hf|vm_compute; reflexivity]|vm_compute; reflexivity..]].

Lemma body_read_reachable : sample_reachable body_read.
Proof. sample step_body. sample step_header. sample step_run. apply rtc_refl. Qed.

Lemma next_header_reachable : sample_reachable next_header.
Proof.
  sample step_run. sample step_drained. sample (step_written _ _ _ _ false true 4000). sample step_dispatched.
  sample step_final. exact body_read_reachable.
Qed.

Lemma written_orderly : orderly_reachable plain_segments upload_table 3000 15000 written.
Proof.
  unfold orderly_reachable. orderly_sample step_dispatched. orderly_sample step_final. orderly_sample step_body.
  orderly_sample step_header. orderly_sample step_run. apply rtc_refl.
Qed.

Lemma connection_guarded_witness :
  pending written = [WriteResponse true 4000] /\
  (exists o, pending written = [o] /\ timed 3000 written o /\ (flushing written -> o = Handling \/ o = Draining)) /\
  (exists o, pending body_read = [o] /\ limited plain_segments upload_table body_read o).
Proof.
  split_and!; [vm_compute; reflexivity| |].
  - apply (connection_guarded plain_segments upload_table 3000 15000 written);
      [exact written_orderly|vm_compute; reflexivity..].
  - apply (connection_guarded plain_segments upload_table 3000 15000 body_read);
      [exact body_read_reachable|vm_compute; reflexivity..].
Defined.

(** ** What the order is for *)

Definition flushed (c : sample_conn) : sample_conn := set_queue (S (dispatched c)) (queue c) c.
Definition enqueued (c : sample_conn) : sample_conn := on_enqueued 5000 (set_queue (pred (dispatched c)) (queue c) c).
Definition queue_done (c : sample_conn) : sample_conn := on_queue_written false 0 5000 c.

Lemma flushed_reachable c : pending c = [Handling] -> sample_reachable c -> sample_reachable (flushed c).
Proof. intros Hp Hc. eapply rtc_r; [exact Hc|]. apply step_flush. rewrite Hp. apply list_elem_of_here. Qed.

Lemma enqueued_reachable c : 0 < dispatched c -> sample_reachable c -> sample_reachable (enqueued c).
Proof. intros Hd Hc. eapply rtc_r; [exact Hc|]. apply step_enqueued. lia. Qed.

Lemma queue_done_reachable c : drained (queue c) = false -> sample_reachable c -> sample_reachable (queue_done c).
Proof.
  intros Hd Hc. eapply rtc_r; [exact Hc|]. destruct (queue c) eqn:Hq; try done. eapply step_queue_written; [exact Hq|lia].
Qed.

(** A body is flushed and the framework answers in automatic mode: the queue's
    write ends first and cancels the timer of the response, which is then written
    with no timeout. *)
Definition unguarded_write : sample_conn :=
  queue_done (after (DispatchedWrite true 4000) (on_dispatched_write true 4000)
    (after Handling (on_final (Respond true 4000)) (enqueued (flushed body_read)))).

Lemma response_unguarded :
  sample_reachable unguarded_write /\ usable unguarded_write = true /\
  pending unguarded_write = [WriteResponse true 4000] /\ ~ timed 3000 unguarded_write (WriteResponse true 4000).
Proof.
  split_and!; [|vm_compute; reflexivity..|].
  - apply queue_done_reachable; [vm_compute; reflexivity|]. sample step_dispatched. sample step_final.
    apply enqueued_reachable; [vm_compute; lia|]. apply flushed_reachable; [vm_compute; reflexivity|].
    exact body_read_reachable.
  - vm_compute. intros [?|[?|?]]; [done|done|lia].
Qed.

(** A body is flushed by another thread, which then cycles: the flush is still on
    its way, so the wait finds an empty queue; the queue's write falls into the read
    of the next header and takes its timer away. *)
Definition unguarded_read : sample_conn :=
  queue_done (enqueued (after PostedRun (on_run 3000) (after Draining (cycle_on 3000 15000)
    (after Handling (on_final Cycle) (flushed body_read))))).

Lemma header_unguarded :
  sample_reachable unguarded_read /\ usable unguarded_read = true /\
  pending unguarded_read = [ReadHeader] /\ ~ timed 3000 unguarded_read ReadHeader.
Proof.
  split_and!; [|vm_compute; reflexivity..|].
  - apply queue_done_reachable; [vm_compute; reflexivity|]. apply enqueued_reachable; [vm_compute; lia|].
    sample step_run. sample step_drained. sample step_final. apply flushed_reachable; [vm_compute; reflexivity|]. exact body_read_reachable.
  - vm_compute. intros [?|[?|?]]; [done|done|lia].
Qed.

(** The limits of a table follow from those of a set of layers that its walks
    do not leave. *)
Section limits.
Context {H A : Type} (parse_segments : str -> option (list str)) (table : HttpRouteTable H A).
Context (P : HttpRouteTableLayer H A -> Prop).
Hypothesis P_route : forall l seg l', P l -> GetRoute seg l = Some l' -> P l'.
Hypothesis P_default : forall l l', P l -> GetDefaultRoute l = Some l' -> P l'.

Lemma match_loop_within segs w w' : P (route_layer w) -> match_loop segs w = Some w' -> P (route_layer w').
Proof.
  revert w. induction segs as [|[|a seg] segs IH]; intros w Hw; cbn [match_loop]; [by intros [= <-]|by apply IH|].
  destruct (GetRoute _ _) as [l|] eqn:Hr; [apply IH; cbn; eauto|].
  destruct (ignore_default_route_ _); [by intros [= <-]|].
  destruct (GetDefaultRoute _) as [l|] eqn:Hd; [apply IH; cbn; eauto|done].
Qed.

Lemma table_limits B :
  (default_max_body_size_ table <= B)%Z ->
  (forall m root, entrance_ table !! m = Some root -> P root) ->
  (forall l, P l -> (max_body_size_ (data_ l) <= B)%Z) ->
  forall m target, (max_body_size (RouteInternal parse_segments m target table) <= B)%Z.
Proof.
  intros Hd Hroot HP m target. unfold RouteInternal.
  destruct (entrance_ table !! m) as [root|] eqn:Hr; [|done]. destruct (parse_segments target) as [segs|]; [|done].
  unfold MatchSegments. destruct (match_loop _ _) as [w|] eqn:Hw; [|done]. cbn [mbind option_bind route_layer].
  apply match_loop_within in Hw; [|cbn; by eapply Hroot]. case_match; [|done]. cbn. unfold nonzero_or.
  case_match; [done|]. by apply HP.
Qed.
End limits.

Definition upload_root : HttpRouteTableLayer nat nat := default new_layer (entrance_ upload_table !! 1).
Definition upload_leaf : HttpRouteTableLayer nat nat := default new_layer (GetRoute (lit "up") upload_root).

Lemma upload_limits m target : (max_body_size (RouteInternal plain_segments m target upload_table) <= 16384)%Z.
Proof.
  apply (table_limits plain_segments upload_table (fun l => l ∈ [new_layer; upload_root; upload_leaf])).
  - intros l seg l' Hl Hg. apply assoc_find_elem in Hg.
    repeat (apply elem_of_cons in Hl as [-> | Hl]; [vm_compute in Hg|]); [| | |by apply not_elem_of_nil in Hl].
    + by apply not_elem_of_nil in Hg.
    + apply list_elem_of_singleton in Hg. injection Hg as _ ->. do 2 apply list_elem_of_further. apply list_elem_of_here.
    + by apply not_elem_of_nil in Hg.
  - intros l l' Hl Hg. by repeat (apply elem_of_cons in Hl as [-> | Hl]; [vm_compute in Hg; discriminate|]); apply not_elem_of_nil in Hl.
  - vm_compute. discriminate.
  - intros m' root Hr. apply list_elem_of_lookup_2 in Hr.
    change (entrance_ upload_table) with ([new_layer; upload_root] ++ replicate 7 (@new_layer nat nat)) in Hr.
    apply elem_of_app in Hr as [Hr|Hr]; [set_solver|]. apply elem_of_replicate in Hr as [-> _]. apply list_elem_of_here.
  - intros l Hl. repeat (apply elem_of_cons in Hl as [-> | Hl]; [vm_compute; discriminate|]). by apply not_elem_of_nil in Hl.
Qed.

Lemma connection_buffers_witness :
  readable (buf_ body_read) = lit "GET /next" /\ body_reserved body_read = 100%Z /\
  pending next_header = [ReadHeader] /\ clean next_header.
Proof.
  split_and!; [vm_compute; reflexivity..|].
  apply (connection_buffers plain_segments upload_table 3000 15000 16384 next_header upload_limits
           next_header_reachable).
  vm_compute; reflexivity.
Defined.
