(* ===== verification/QueueView.v ===== *)
(** * The message queue as the connection sees it

    [Connection] keeps of its message queue only whether it writes and how many
    messages are left; [MessageQueue] has the messages, the batches and the stream.
    Here the second is shown to be an implementation of the first: whenever a
    message reaches the queue, or one of its writes is over, the two do the same to
    the timer, the stream and the connection (stream_server_connection_message_queue.h). *)

From S2P Require Import Prelude RouteLayer RouteTable MessageQueue Connection.

Section view.
Context {F H A : Type}.
Abbreviation queue_t := (MessageQueue.MessageQueue F).
Abbreviation conn_t := (StreamServerConnection (H := H) (A := A)).

Definition queue_view (q : queue_t) : queue_state :=
  if connection_dead_ q then QueueDead else
  match queue_ q with [] => QueueIdle | _ :: items => QueueWriting (length items) end.

(** A queue that is given up has no connection to write to, and does not write. *)
Record agrees (q : queue_t) (c : conn_t) : Prop := {
  agrees_running : server_running q = running c;
  agrees_closed : MessageQueue.closed_ q = Connection.closed_ c;
  agrees_timer : timer_ q = timer c;
  agrees_queue : queue c = queue_view q;
  agrees_dead : connection_dead_ q = true -> available q = false /\ is_writing_ q = false;
}.

Lemma agrees_usable (q : queue_t) (c : conn_t) : server_running q = running c -> MessageQueue.closed_ q = Connection.closed_ c -> available q = usable c.
Proof. intros H1 H2. unfold available, usable, IsStreamAvailable. by rewrite H1, H2. Qed.

(** A write starts, or the connection is found gone. *)
Lemma start_agrees (q : queue_t) (c : conn_t) m items :
  server_running q = running c -> MessageQueue.closed_ q = Connection.closed_ c -> timer_ q = timer c ->
  connection_dead_ q = false -> is_writing_ q = false -> queue_ q = m :: items ->
  exists e, agrees (StartWriteIfNeeded q) (start_queue_write (length items) e c).
Proof.
  intros Hr Hc Ht Hd Hw Hq. pose proof (agrees_usable q c Hr Hc) as Hu.
  unfold StartWriteIfNeeded. rewrite Hw, Hq.
  assert (forall op ch e, usable c = true ->
    agrees (async_write ch op (MessageQueue.ArmTimeout e (set_writing true q))) (start_queue_write (length items) e c)) as Hstart.
  { intros op ch e Huc. unfold start_queue_write, MessageQueue.ArmTimeout, ArmTimeout. rewrite Huc.
    destruct (e =? 0)%Z; split; cbn; unfold queue_view; cbn; rewrite ?Hd, ?Hq; done. }
  assert (usable c = false ->
    agrees (HandleConnectionUnavailable (set_writing true q)) (start_queue_write (length items) 0 c)) as Hgone.
  { intros Huc. unfold start_queue_write. rewrite Huc. split; try done. cbn. intros _. split; [|done].
    change (available q = false). by rewrite Hu. }
  destruct m as [s e|h e]; unfold StartWriteBody, StartWriteHeader; change (available (set_writing true q)) with (available q);
    rewrite Hu; destruct (usable c) eqn:Huc; cbn [negb]; try (exists 0%Z; by apply Hgone).
  - cbn [queue_ set_writing]. rewrite Hq. cbn [batch]. destruct (batch items _) as [k w]. cbn [Nat.eqb].
    exists w. by apply Hstart.
  - exists e. by apply Hstart.
Qed.

(** While a write is under way the queue has its messages. *)
Lemma writing_messages (q : queue_t) :
  queue_inv q -> connection_dead_ q = false ->
  match queue_ q with
  | [] => is_writing_ q = false
  | _ => exists op, outstanding q = Some op /\ is_writing_ q = true /\ 0 < op_count op <= length (queue_ q)
  end.
Proof.
  intros [(d & n & Hacc & Hn) Hs Hwk] Hdq. pose proof (acc_le _ _ _ Hacc) as Hle.
  destruct (queue_ q) as [|m items] eqn:Hqq; destruct (outstanding q) as [op|] eqn:Ho.
  - cbn in Hle. lia.
  - by rewrite Hs.
  - destruct Hn as [-> Hpos]. exists op. split_and!; [done|by rewrite Hs|done|done].
  - rewrite Hwk in Hdq by done. done.
Qed.

(** A message reaches the queue. *)
Lemma enqueue_agrees m (q : queue_t) (c : conn_t) n :
  queue_inv q -> agrees q c ->
  exists e, agrees (EnqueueOnStrand m q) (on_enqueued e (Connection.set_queue n (queue c) c)).
Proof.
  intros Hi [Hr Hc Ht Hq Hd]. unfold on_enqueued. cbn [queue Connection.set_queue]. rewrite Hq.
  pose proof (writing_messages q Hi) as Hw. unfold queue_view. destruct (connection_dead_ q) eqn:Hdq.
  - destruct (Hd eq_refl) as [Hav Hnw]. exists 0%Z. unfold EnqueueOnStrand, StartWriteIfNeeded. cbn [is_writing_ queue_].
    rewrite Hnw. destruct (queue_ q ++ [m]) as [|[s e|h e] l] eqn:Hl; [by destruct (queue_ q)|..];
      unfold StartWriteBody, StartWriteHeader, available; cbn; unfold available in Hav; rewrite Hav; by split.
  - specialize (Hw eq_refl). unfold EnqueueOnStrand. destruct (queue_ q) as [|m0 items] eqn:Hqq.
    + by apply (start_agrees _ _ m []).
    + destruct Hw as (op & Ho & Hw & _). exists 0%Z. unfold StartWriteIfNeeded. cbn [is_writing_]. rewrite Hw.
      split; try done; cbn; [|by rewrite Hdq]. unfold queue_view. cbn. by rewrite Hdq, length_app, Nat.add_1_r.
Qed.

(** A write of the queue is over, and what is left goes on. *)
Lemma after_write_agrees (q : queue_t) (c : conn_t) :
  server_running q = running c -> MessageQueue.closed_ q = Connection.closed_ c -> timer_ q = timer c ->
  connection_dead_ q = false ->
  exists e, agrees (after_write q)
    (match length (queue_ q) with
     | 0 => Connection.set_queue (dispatched c) QueueIdle c
     | S more => start_queue_write more e c
     end).
Proof.
  intros Hr Hc Ht Hd. unfold after_write. cbn [queue_ set_writing]. destruct (queue_ q) as [|m items] eqn:Hqq; cbn [length].
  - exists 0%Z. split; try done; cbn; [|by rewrite Hd]. unfold queue_view. cbn. by rewrite Hd, Hqq.
  - by apply (start_agrees (set_writing false q) c m items).
Qed.

Lemma complete_agrees ec op (q : queue_t) (c : conn_t) more :
  queue_inv q -> agrees q c -> outstanding q = Some op -> queue c = QueueWriting more ->
  exists rest e, rest <= more /\ agrees (complete ec op q) (on_queue_written ec rest e c).
Proof.
  intros Hi [Hr Hc Ht Hq Hd] Ho Hqc. pose proof (writing_messages q Hi) as Hw. rewrite Hqc in Hq. unfold queue_view in Hq.
  destruct (connection_dead_ q) eqn:Hdq; [done|]. specialize (Hw eq_refl).
  destruct (queue_ q) as [|m items] eqn:Hqq; [done|]. injection Hq as Hmore. destruct Hw as (op' & Ho' & _ & Hpos & Hle).
  rewrite Ho in Ho'. injection Ho' as <-. destruct ec.
  - exists 0, 0%Z. split; [lia|]. destruct op; split; try done; intros _; split; try done;
      unfold available; cbn; by rewrite andb_false_r.
  - set (q' := match op with WriteBody n => PopFrontNAndNotifyIfEmpty n (MessageQueue.CancelTimeout (finished q))
               | WriteHeader => PopFrontAndNotifyIfEmpty (MessageQueue.CancelTimeout (finished q)) end).
    assert (queue_ q' = drop (op_count op) (m :: items) /\ server_running q' = running c /\
      MessageQueue.closed_ q' = Connection.closed_ c /\ timer_ q' = None /\ connection_dead_ q' = false) as (H1 & H2 & H3 & H4 & H5).
    { unfold q'. destruct op as [k|]; cbn [op_count] in *; [|cbn; rewrite Hqq; done].
      unfold PopFrontNAndNotifyIfEmpty. destruct (Nat.eqb_spec k 0); [lia|]. cbn [queue_ MessageQueue.CancelTimeout finished].
      rewrite Hqq, Nat.min_l by done. done. }
    destruct (after_write_agrees q' (CancelTimeout c) H2 H3 H4 H5) as [e He]. rewrite H1 in He.
    exists (length (drop (op_count op) (m :: items))), e. split; [rewrite length_drop; cbn [length]; lia|].
    replace (complete false op q) with (after_write q') by by destruct op. exact He.
Qed.

(** The wait of [ClearMessage] is over in the one when it is in the other. *)
Lemma wait_agrees (q : queue_t) (c : conn_t) :
  queue_inv q -> agrees q c -> (Z.of_nat (length (queue_ q)) < size_t_mod)%Z -> Wait_ready q = drained (queue c).
Proof.
  intros [(d & n & Hacc & _) _ _] [_ _ _ -> _] Hl. unfold Wait_ready, queue_view. rewrite (acc_size _ _ _ Hacc).
  rewrite to_size_t_small by (unfold is_size_t; lia). destruct (connection_dead_ q); [done|].
  destruct (queue_ q); [done|]. cbn. done.
Qed.
End view.
