(* ===== verification/Closing.v ===== *)
(** * Closing the stream of a server connection

    [DoClose], [CloseStreamBestEffort], [EnsureMessageQueueCreated] and the flush
    calls of stream_server_connection_impl.h.  [Connection] only has the flag
    [closed_]; here is what becomes of the socket.  [DoClose] may be called from any
    thread and any number of times; the first call dispatches a job to the executor
    of the connection, which closes the socket or, for a TLS stream that is not a
    WebSocket, first exchanges the closing alerts with the peer.  The calls on the
    socket are a history. *)

From S2P Require Import Prelude.

Inductive socket_call := Shutdown | CloseSocket.

#[global] Instance socket_call_eq_dec : EqDecision socket_call.
Proof. solve_decision. Defined.

Section closing.
(** The stream is a TLS stream ([IsBeastSslStream]). *)
Context (is_ssl : bool).

Record StreamServerConnectionImpl := mkImpl {
  closed_ : bool;
  ws_stream_ : bool;                 (** the stream was moved into a WebSocket *)
  message_queue_ : bool;
  owned : bool;                      (** by a [shared_ptr] *)
  is_open : bool;                    (** the lowest socket *)
  close_jobs : nat;                  (** dispatched by [DoClose], not yet run *)
  shutting_down : bool;              (** [async_shutdown] is under way *)
  socket_calls : list socket_call;
  shutdowns : nat;                   (** times [async_shutdown] was started *)
}.

(** The constructor, and the factory that makes the message queue. *)
Definition construct : StreamServerConnectionImpl := mkImpl false false false false true 0 false [] 0.
Definition Create : StreamServerConnectionImpl := mkImpl false false true true true 0 false [] 0.

Definition set_closing (jobs : nat) (c : StreamServerConnectionImpl) : StreamServerConnectionImpl :=
  mkImpl true (ws_stream_ c) (message_queue_ c) (owned c) (is_open c) jobs (shutting_down c) (socket_calls c) (shutdowns c).

(** [socket.shutdown] and [socket.close], or the latter alone. *)
Definition call_socket (calls : list socket_call) (c : StreamServerConnectionImpl) : StreamServerConnectionImpl :=
  mkImpl (closed_ c) (ws_stream_ c) (message_queue_ c) (owned c) false (close_jobs c) (shutting_down c)
    (socket_calls c ++ calls) (shutdowns c).

Definition set_shutting (b : bool) (n : nat) (c : StreamServerConnectionImpl) : StreamServerConnectionImpl :=
  mkImpl (closed_ c) (ws_stream_ c) (message_queue_ c) (owned c) (is_open c) (close_jobs c) b (socket_calls c) n.

Definition DoClose (c : StreamServerConnectionImpl) : StreamServerConnectionImpl :=
  if closed_ c then c else set_closing (S (close_jobs c)) c.

(** The job. *)
Definition run_close (c : StreamServerConnectionImpl) : StreamServerConnectionImpl :=
  if negb (is_open c) then c
  else if ws_stream_ c then call_socket [Shutdown; CloseSocket] c
  else if is_ssl then set_shutting true (S (shutdowns c)) c
  else call_socket [Shutdown; CloseSocket] c.

(** The peer has answered, or the shutdown failed. *)
Definition on_shutdown (c : StreamServerConnectionImpl) : StreamServerConnectionImpl :=
  call_socket [CloseSocket] (set_shutting false (shutdowns c) c).

Definition CloseStreamBestEffort (c : StreamServerConnectionImpl) : StreamServerConnectionImpl :=
  if closed_ c then c
  else let c := set_closing (close_jobs c) c in
       if is_open c then call_socket [Shutdown; CloseSocket] c else c.

Definition EnsureMessageQueueCreated (c : StreamServerConnectionImpl) : bool * StreamServerConnectionImpl :=
  if message_queue_ c then (true, c)
  else if negb (owned c) then (false, c)
  else (true, mkImpl (closed_ c) (ws_stream_ c) true (owned c) (is_open c) (close_jobs c) (shutting_down c)
                (socket_calls c) (shutdowns c)).

(** [DoFlushResponseHeader] and [DoFlushResponseBody]: whether the message gets to
    the queue. *)
Definition DoFlushResponse (c : StreamServerConnectionImpl) : bool * StreamServerConnectionImpl :=
  let '(ok, c) := EnsureMessageQueueCreated c in
  if ok then (true, c) else (false, CloseStreamBestEffort c).

(** The dispatched part of [DoWebSocketAccept] that takes the stream. *)
Definition take_stream (c : StreamServerConnectionImpl) : StreamServerConnectionImpl :=
  if closed_ c || ws_stream_ c then c
  else mkImpl (closed_ c) true (message_queue_ c) (owned c) (is_open c) (close_jobs c) (shutting_down c)
         (socket_calls c) (shutdowns c).

Inductive event := CallClose | CloseJob | PeerAnswers | CallFlush | UpgradeStream.

Inductive closing_step : event -> StreamServerConnectionImpl -> StreamServerConnectionImpl -> Prop :=
  | step_close c : closing_step CallClose c (DoClose c)
  | step_job n c : close_jobs c = S n -> closing_step CloseJob c (run_close (set_closing n c))
  | step_answer c : shutting_down c = true -> closing_step PeerAnswers c (on_shutdown c)
  | step_flush c : closing_step CallFlush c (DoFlushResponse c).2
  | step_upgrade c : closing_step UpgradeStream c (take_stream c).

Definition closing_moves (c c' : StreamServerConnectionImpl) : Prop := exists e, closing_step e c c'.
Definition closing_reachable (c : StreamServerConnectionImpl) : Prop := rtc closing_moves Create c.

(** How far closing has come. *)
Inductive stage (c : StreamServerConnectionImpl) : Prop :=
  | stage_open :
      closed_ c = false -> is_open c = true -> close_jobs c = 0 -> shutting_down c = false ->
      socket_calls c = [] -> shutdowns c = 0 -> stage c
  | stage_job :
      closed_ c = true -> is_open c = true -> close_jobs c = 1 -> shutting_down c = false ->
      socket_calls c = [] -> shutdowns c = 0 -> stage c
  | stage_shutdown :
      closed_ c = true -> is_open c = true -> close_jobs c = 0 -> shutting_down c = true ->
      socket_calls c = [] -> shutdowns c = 1 -> is_ssl = true -> ws_stream_ c = false -> stage c
  | stage_closed :
      closed_ c = true -> is_open c = false -> close_jobs c = 0 -> shutting_down c = false ->
      (socket_calls c = [Shutdown; CloseSocket] /\ shutdowns c = 0 \/ socket_calls c = [CloseSocket] /\ shutdowns c = 1) ->
      stage c.

Definition closing_inv (c : StreamServerConnectionImpl) : Prop := message_queue_ c = true /\ stage c.

Lemma flush_inv c : closing_inv c -> DoFlushResponse c = (true, c).
Proof. intros [Hq _]. unfold DoFlushResponse, EnsureMessageQueueCreated. by rewrite Hq. Qed.

Lemma DoClose_inv c : closing_inv c -> closing_inv (DoClose c).
Proof.
  intros [Hq Hs]. unfold DoClose. destruct (closed_ c) eqn:Hc; [done|]. destruct Hs as [_ Ho Hj Hsh Hcalls Hns| | |]; try congruence.
  split; [done|]. apply stage_job; cbn; congruence.
Qed.

Lemma job_inv n c : close_jobs c = S n -> closing_inv c -> closing_inv (run_close (set_closing n c)).
Proof.
  intros Hn [Hq Hs]. destruct Hs as [|Hc Ho Hj Hsh Hcalls Hns| |]; try congruence. assert (n = 0) as -> by congruence.
  unfold run_close. cbn [is_open ws_stream_ set_closing shutdowns]. rewrite Ho. cbn [negb].
  assert (stage (call_socket [Shutdown; CloseSocket] (set_closing 0 c))) as Hdone
    by (apply stage_closed; cbn; try done; left; by rewrite Hcalls).
  destruct (ws_stream_ c) eqn:Hw; [done|]. destruct is_ssl eqn:Hssl; [|done].
  split; [done|]. apply stage_shutdown; cbn; congruence.
Qed.

Lemma answer_inv c : shutting_down c = true -> closing_inv c -> closing_inv (on_shutdown c).
Proof.
  intros Ha [Hq Hs]. destruct Hs as [| |Hc Ho Hj Hsh Hcalls Hns _ _|]; try congruence.
  split; [done|]. apply stage_closed; cbn; try done. right. by rewrite Hcalls.
Qed.

Lemma take_stream_inv c : closing_inv c -> closing_inv (take_stream c).
Proof.
  intros [Hq Hs]. unfold take_stream. destruct (closed_ c || ws_stream_ c) eqn:Hg; [done|]. reflect_bools.
  destruct Hs; try congruence. split; [done|]. by apply stage_open.
Qed.

Lemma closing_step_inv e c c' : closing_inv c -> closing_step e c c' -> closing_inv c'.
Proof.
  intros Hi Hs. destruct Hs; [by apply DoClose_inv|by apply job_inv|by apply answer_inv|by rewrite flush_inv|by apply take_stream_inv].
Qed.

Lemma closing_reachable_inv c : closing_reachable c -> closing_inv c.
Proof.
  intros Hc. refine (rtc_invariant closing_moves closing_inv _ _ _ Hc _).
  - intros a b Ha [e He]. by eapply closing_step_inv.
  - split; [done|]. by apply stage_open.
Qed.

(** The stream is closed exactly once.  Whoever closes it, how often, and in
    whatever order the jobs run: it is open as long as nobody has asked, its socket
    is closed at most once and TLS is shut down at most once; when nothing of the
    close is under way any more the socket is closed; and streamed messages always
    get to the queue, so [CloseStreamBestEffort] is never needed. *)
Theorem stream_closed_once c :
  closing_reachable c ->
  (closed_ c = false -> is_open c = true) /\
  length (filter (fun s => s = CloseSocket) (socket_calls c)) = (if is_open c then 0 else 1) /\ shutdowns c <= 1 /\
  (closed_ c = true -> close_jobs c = 0 -> shutting_down c = false -> is_open c = false) /\
  DoFlushResponse c = (true, c).
Proof.
  intros Hr. pose proof (closing_reachable_inv c Hr) as Hi. pose proof (flush_inv c Hi) as Hf. destruct Hi as [_ Hs].
  destruct Hs as [Hc Ho Hj Hsh -> -> |Hc Ho Hj Hsh -> -> |Hc Ho Hj Hsh -> -> _ _|Hc Ho Hj Hsh [[-> ->] | [-> ->]]];
    rewrite Hc, Ho, ?Hj, ?Hsh; split_and!; (done || lia).
Qed.

(** ** When a close is over *)

Inductive closing_run : list event -> StreamServerConnectionImpl -> StreamServerConnectionImpl -> Prop :=
  | run_nil c : closing_run [] c c
  | run_cons e es c c1 c' : closing_step e c c1 -> closing_run es c1 c' -> closing_run (e :: es) c c'.

(** A close ends: after its job, and for TLS the answer of the peer. *)
Theorem close_completes c :
  closing_reachable c -> closed_ c = true ->
  exists es c', closing_run es c c' /\ is_open c' = false /\ es ⊆ [CloseJob; PeerAnswers] /\
    (is_ssl = false \/ ws_stream_ c = true -> PeerAnswers ∉ es).
Proof.
  intros Hr Hcl. destruct (closing_reachable_inv c Hr) as [_ Hs].
  destruct Hs as [|Hc Ho Hj Hsh Hcalls Hns|Hc Ho Hj Hsh Hcalls Hns Hssl Hw|Hc Ho]; [congruence| | |].
  - set (c1 := run_close (set_closing 0 c)). assert (closing_step CloseJob c c1) as H1 by by apply step_job.
    destruct (is_open c1) eqn:Ho1.
    + assert (shutting_down c1 = true /\ is_ssl = true /\ ws_stream_ c = false) as (Hs1 & -> & ->).
      { revert Ho1. unfold c1, run_close. cbn. rewrite Ho. cbn. by repeat case_match. }
      exists [CloseJob; PeerAnswers], (on_shutdown c1). split_and!; [|done|set_solver|by intros [?|?]].
      eapply run_cons; [exact H1|]. eapply run_cons; [by apply step_answer|constructor].
    + exists [CloseJob], c1. split_and!; [|done|set_solver|set_solver]. eapply run_cons; [exact H1|constructor].
  - exists [PeerAnswers], (on_shutdown c). split_and!; [|done|set_solver|rewrite Hssl, Hw; by intros [?|?]].
    eapply run_cons; [by apply step_answer|constructor].
  - exists [], c. split_and!; [constructor|done|set_solver|set_solver].
Qed.

(** Closing TLS is up to the peer: [async_shutdown] waits for its answer, no timer
    runs, and neither another close nor anything else ends it.  Until then socket
    and connection stay, and the place of the connection in the limit is taken. *)
Theorem tls_close_waits_for_peer es c c' :
  closing_reachable c -> shutting_down c = true -> closing_run es c c' -> PeerAnswers ∉ es ->
  shutting_down c' = true /\ is_open c' = true.
Proof.
  intros Hr Hsh Hrun. pose proof (closing_reachable_inv c Hr) as Hi. clear Hr.
  induction Hrun as [c|e es c c1 c' He Hrun IH]; intros Hes.
  - destruct Hi as [_ Hs]. split; [done|]. by destruct Hs; congruence.
  - apply not_elem_of_cons in Hes as [Hne Hes]. apply IH; [| |done]; [|by eapply closing_step_inv].
    destruct Hi as [Hq Hs]. destruct Hs as [| |Hc Ho Hj _ Hcalls Hns Hssl Hw|]; try congruence.
    destruct He as [c|n c Hn|c _|c|c]; [unfold DoClose; by rewrite Hc|congruence|done| |unfold take_stream; by rewrite Hc].
    unfold DoFlushResponse, EnsureMessageQueueCreated. by rewrite Hq.
Qed.
End closing.
