(* ===== verification/StreamBuilder.v ===== *)
(** * Client streams: direct, pooled, through a proxy

    [src/src/connection/client/stream_builder.cc] and the slot and key of
    stream_slot.h.  [StreamBuilder] is an abstract class with decorators; here it
    is a type class on the builder's state, with one instance per subclass.

    A call of [Acquire] changes the state at once and then goes on
    asynchronously: its second result is a tree of network operations
    ([net]), each with a continuation on its outcome, whose leaf is what the
    callback gets.  [runs] relates a tree to the traces it can leave.  The
    network decides the outcomes; timeouts set on the streams show as errors. *)

From S2P Require Import Prelude Text Sse MultipartParser.

(** ** Keys, streams, slots *)

(** A TLS context is the identity of a shared pointer. *)
Record ConnectionKey := mkKey {
  scheme : str;
  host : str;
  port : str;
  ssl_ctx : option nat;
  verify_peer : bool;
  proxy_host : str;
  proxy_port : str;
  proxy_ssl_ctx : option nat;
}.

Definition has_proxy (k : ConnectionKey) : bool := negb (proxy_host k =s []).

(** [operator==] of keys; [proxy_ssl_ctx] is not compared. *)
Definition key_eqb (k l : ConnectionKey) : bool :=
  (scheme k =s scheme l) && (host k =s host l) && (port k =s port l)
  && bool_decide (ssl_ctx k = ssl_ctx l) && Bool.eqb (verify_peer k) (verify_peer l)
  && (proxy_host k =s proxy_host l) && (proxy_port k =s proxy_port l).

(** A connected socket: its identity, the endpoint it was connected to, and the
    target of the tunnel made through it, if any. *)
Record socket := mkSocket {
  socket_id : nat;
  peer : str * str;
  tunnel : option str;
}.

(** A finished TLS handshake: the context, the server name and whether the
    certificate was checked against it. *)
Record tls := mkTls { tls_ctx : nat; tls_sni : str; tls_verify : bool }.

Inductive ClientStream := NoStream | TcpStream (s : socket) | SslStream (s : socket) (t : tls).

Record StreamSlot := mkSlot {
  stream_ : ClientStream;
  key : ConnectionKey;
  sni_hostname : str;
  http_version : Z;
  upstream_closed : bool;
  requests_served : Z;
  idle_deadline : option Z;
  deferred_ssl_ctx : option nat;
  deferred_verify_peer : bool;
}.

Definition IsCompatible (slot : StreamSlot) (other : ConnectionKey) : bool := key_eqb (key slot) other.

Definition IsReusable (now : Z) (slot : StreamSlot) : bool :=
  match stream_ slot with
  | NoStream => false
  | _ =>
      if upstream_closed slot then false
      else match idle_deadline slot with Some d => (now <? d)%Z | None => true end
  end.

Definition stream_socket (s : ClientStream) : option socket :=
  match s with NoStream => None | TcpStream c | SslStream c _ => Some c end.

(** ** Network operations *)

Inductive net (E A : Type) : Type :=
  | Done (a : A)
  | AsyncResolve (h p : str) (k : option E -> net E A)
  | AsyncConnect (h p : str) (k : E + nat -> net E A)
  | SetSni (h : str) (k : option E -> net E A)
  | AsyncHandshake (t : tls) (k : option E -> net E A)
  | AsyncWrite (data : str) (k : option E -> net E A)
  | AsyncReadUntil (delim : str) (k : E + str -> net E A).
Arguments Done {_ _} _.
Arguments AsyncResolve {_ _} _ _ _.
Arguments AsyncConnect {_ _} _ _ _.
Arguments SetSni {_ _} _ _.
Arguments AsyncHandshake {_ _} _ _.
Arguments AsyncWrite {_ _} _ _.
Arguments AsyncReadUntil {_ _} _ _.

Fixpoint net_bind {E A B} (m : net E A) (f : A -> net E B) : net E B :=
  match m with
  | Done a => f a
  | AsyncResolve h p k => AsyncResolve h p (fun r => net_bind (k r) f)
  | AsyncConnect h p k => AsyncConnect h p (fun r => net_bind (k r) f)
  | SetSni h k => SetSni h (fun r => net_bind (k r) f)
  | AsyncHandshake t k => AsyncHandshake t (fun r => net_bind (k r) f)
  | AsyncWrite d k => AsyncWrite d (fun r => net_bind (k r) f)
  | AsyncReadUntil d k => AsyncReadUntil d (fun r => net_bind (k r) f)
  end.

(** What was done, and how it went. *)
Inductive event (E : Type) :=
  | Resolved (h p : str) (r : option E)
  | Connected (h p : str) (r : E + nat)
  | SniSet (h : str) (r : option E)
  | Handshaken (t : tls) (r : option E)
  | Wrote (data : str) (r : option E)
  | Received (r : E + str).
Arguments Resolved {_} _ _ _.
Arguments Connected {_} _ _ _.
Arguments SniSet {_} _ _.
Arguments Handshaken {_} _ _.
Arguments Wrote {_} _ _.
Arguments Received {_} _.

Inductive runs {E A : Type} : net E A -> list (event E) -> A -> Prop :=
  | runs_done a : runs (Done a) [] a
  | runs_resolve h p k r tr a : runs (k r) tr a -> runs (AsyncResolve h p k) (Resolved h p r :: tr) a
  | runs_connect h p k r tr a : runs (k r) tr a -> runs (AsyncConnect h p k) (Connected h p r :: tr) a
  | runs_sni h k r tr a : runs (k r) tr a -> runs (SetSni h k) (SniSet h r :: tr) a
  | runs_handshake t k r tr a :
      runs (k r) tr a -> runs (AsyncHandshake t k) (Handshaken t r :: tr) a
  | runs_write d k r tr a : runs (k r) tr a -> runs (AsyncWrite d k) (Wrote d r :: tr) a
  | runs_read d k r tr a : runs (k r) tr a -> runs (AsyncReadUntil d k) (Received r :: tr) a.

(** ** The interface *)

Class StreamBuilder (E S : Type) := {
  Acquire : ConnectionKey -> (nat -> Z) -> S -> S * net E (E + StreamSlot);
  Return : StreamSlot -> Z -> Z -> S -> S;
}.

Section builders.
Context {E : Type} (invalid_argument protocol_error connection_refused : E).

Definition fail (e : E) : net E (E + StreamSlot) := Done (inl e).

(** [StreamSlot slot;] then the fields that are set. *)
Definition new_slot (st : ClientStream) (k : ConnectionKey) (sni : str) : StreamSlot :=
  mkSlot st k sni 11 false 0 None None true.

(** ** [DirectStreamBuilder] *)

Definition DoDirectTcpConnect (k : ConnectionKey) : net E (E + StreamSlot) :=
  AsyncConnect (host k) (port k) (fun r =>
    match r with
    | inl e => fail e
    | inr id => Done (inr (new_slot (TcpStream (mkSocket id (host k, port k) None)) k []))
    end).

Definition DoDirectSslConnect (ctx : nat) (k : ConnectionKey) : net E (E + StreamSlot) :=
  AsyncConnect (host k) (port k) (fun r =>
    match r with
    | inl e => fail e
    | inr id =>
        SetSni (host k) (fun r =>
          match r with
          | Some e => fail e
          | None =>
              let session := mkTls ctx (host k) (verify_peer k) in
              AsyncHandshake session (fun r =>
                match r with
                | Some e => fail e
                | None =>
                    Done (inr (new_slot (SslStream (mkSocket id (host k, port k) None) session)
                                 k (host k)))
                end)
          end)
    end).

Definition DirectAcquire (k : ConnectionKey) : net E (E + StreamSlot) :=
  if (scheme k =s lit "https") && bool_decide (ssl_ctx k = None) then fail invalid_argument
  else
    AsyncResolve (host k) (port k) (fun r =>
      match r with
      | Some e => fail e
      | None =>
          match ssl_ctx k with
          | Some ctx => DoDirectSslConnect ctx k
          | None => DoDirectTcpConnect k
          end
      end).

(** The state of the direct builder: the streams it has closed. *)
Inductive DirectStreamBuilder := mkDirect (closed_streams : list ClientStream).

Definition DirectReturn (slot : StreamSlot) (b : DirectStreamBuilder) : DirectStreamBuilder :=
  let 'mkDirect closed := b in mkDirect (closed ++ [stream_ slot]).

#[local] Instance direct_builder : StreamBuilder E DirectStreamBuilder := {
  Acquire k _ b := (b, DirectAcquire k);
  Return slot _ _ b := DirectReturn slot b;
}.

(** ** [PooledStreamBuilder] *)

Section pooled.
Context {S : Type} `{StreamBuilder E S}.

Record PooledStreamBuilder := mkPooled {
  idle_timeout_ : Z;
  pool_ : list (ConnectionKey * list StreamSlot);
  pooled_inner_ : S;
}.

Fixpoint pool_find (k : ConnectionKey) (pool : list (ConnectionKey * list StreamSlot)) :
    option (list StreamSlot) :=
  match pool with
  | [] => None
  | (k', dq) :: pool => if key_eqb k' k then Some dq else pool_find k pool
  end.

(** [pool_.erase(it)], or the deque under a key replaced. *)
Fixpoint pool_update (k : ConnectionKey) (dq : option (list StreamSlot))
    (pool : list (ConnectionKey * list StreamSlot)) : list (ConnectionKey * list StreamSlot) :=
  match pool with
  | [] => []
  | (k', dq') :: pool =>
      if key_eqb k' k
      then match dq with Some dq => (k', dq) :: pool | None => pool end
      else (k', dq') :: pool_update k dq pool
  end.

(** [pool_[k].push_back(slot)] *)
Fixpoint pool_push (k : ConnectionKey) (slot : StreamSlot)
    (pool : list (ConnectionKey * list StreamSlot)) : list (ConnectionKey * list StreamSlot) :=
  match pool with
  | [] => [(k, [slot])]
  | (k', dq) :: pool =>
      if key_eqb k' k then (k', dq ++ [slot]) :: pool else (k', dq) :: pool_push k slot pool
  end.

(** The loop over the deque: the first slot that can be reused, and what is
    left behind it; the [i]-th look at the clock gives [now i]. *)
Fixpoint take_reusable (k : ConnectionKey) (now : nat -> Z) (i : nat) (dq : list StreamSlot) :
    option (StreamSlot * list StreamSlot) :=
  match dq with
  | [] => None
  | slot :: dq =>
      if IsCompatible slot k && IsReusable (now i) slot then Some (slot, dq)
      else take_reusable k now (Datatypes.S i) dq
  end.

Definition PooledAcquire (k : ConnectionKey) (now : nat -> Z) (b : PooledStreamBuilder) :
    PooledStreamBuilder * net E (E + StreamSlot) :=
  let miss pool :=
    let '(inner, m) := Acquire k now (pooled_inner_ b) in
    (mkPooled (idle_timeout_ b) pool inner, m) in
  match pool_find k (pool_ b) with
  | None => miss (pool_ b)
  | Some dq =>
      match take_reusable k now 0 dq with
      | Some (slot, dq) =>
          (mkPooled (idle_timeout_ b) (pool_update k (Some dq) (pool_ b)) (pooled_inner_ b),
           Done (inr slot))
      | None => miss (pool_update k None (pool_ b))
      end
  end.

Definition set_deadline (d : Z) (slot : StreamSlot) : StreamSlot :=
  mkSlot (stream_ slot) (key slot) (sni_hostname slot) (http_version slot)
    (upstream_closed slot) (requests_served slot) (Some d) (deferred_ssl_ctx slot)
    (deferred_verify_peer slot).

Definition PooledReturn (slot : StreamSlot) (now now' : Z) (b : PooledStreamBuilder) :
    PooledStreamBuilder :=
  if IsReusable now slot then
    let slot := set_deadline (to_int64 (now' + idle_timeout_ b)) slot in
    mkPooled (idle_timeout_ b) (pool_push (key slot) slot (pool_ b)) (pooled_inner_ b)
  else mkPooled (idle_timeout_ b) (pool_ b) (Return slot now now' (pooled_inner_ b)).

#[local] Instance pooled_builder : StreamBuilder E PooledStreamBuilder := {
  Acquire := PooledAcquire;
  Return := PooledReturn;
}.
End pooled.

(** ** [ProxyStreamBuilder] *)

Definition connect_target (k : ConnectionKey) : str := host k ++ ":"%char :: port k.

Definition connect_request (k : ConnectionKey) : str :=
  lit "CONNECT " ++ connect_target k ++ lit " HTTP/1.1" ++ crlf ++ lit "Host: "
  ++ connect_target k ++ crlf ++ lit "Proxy-Connection: Keep-Alive" ++ crlf ++ crlf.

(** The status code of the proxy's answer. *)
Definition connect_status (resp : str) : option Z :=
  match find_char " "%char resp with
  | None => None
  | Some space1 =>
      if length resp <=? space1 + 1 then None
      else
        let status_sv :=
          match find_char_from " "%char resp (space1 + 1) with
          | None => drop (space1 + 1) resp
          | Some space2 => substr resp (space1 + 1) (space2 - space1 - 1)
          end in
        fst <$> from_chars status_sv
  end.

Definition DoProxyTlsHandshake (ctx : nat) (original_key : ConnectionKey) (s : socket) :
    net E (E + StreamSlot) :=
  SetSni (host original_key) (fun r =>
    match r with
    | Some e => fail e
    | None =>
        let session := mkTls ctx (host original_key) (verify_peer original_key) in
        AsyncHandshake session (fun r =>
          match r with
          | Some e => fail e
          | None => Done (inr (new_slot (SslStream s session) original_key (host original_key)))
          end)
    end).

Definition DoProxyConnect (original_key : ConnectionKey) (s : socket) : net E (E + StreamSlot) :=
  match proxy_ssl_ctx original_key with
  | None => fail invalid_argument
  | Some ctx =>
      AsyncWrite (connect_request original_key) (fun r =>
        match r with
        | Some e => fail e
        | None =>
            AsyncReadUntil (crlf ++ crlf) (fun r =>
              match r with
              | inl e => fail e
              | inr resp =>
                  match connect_status resp with
                  | None => fail protocol_error
                  | Some status =>
                      if (status =? 200)%Z
                      then DoProxyTlsHandshake ctx original_key
                             (mkSocket (socket_id s) (peer s) (Some (connect_target original_key)))
                      else fail connection_refused
                  end
              end)
        end)
  end.

Definition OnProxyTcpAcquired (original_key : ConnectionKey) (r : E + StreamSlot) :
    net E (E + StreamSlot) :=
  match r with
  | inl e => fail e
  | inr slot =>
      match stream_ slot with
      | TcpStream s => DoProxyConnect original_key s
      | _ => fail invalid_argument
      end
  end.

Definition proxy_key (k : ConnectionKey) : ConnectionKey :=
  mkKey (lit "http") (proxy_host k) (proxy_port k) None false [] [] None.

Section proxy.
Context {S : Type} `{StreamBuilder E S}.

Inductive ProxyStreamBuilder := mkProxy (proxy_inner_ : S).

Definition ProxyAcquire (k : ConnectionKey) (now : nat -> Z) (b : ProxyStreamBuilder) :
    ProxyStreamBuilder * net E (E + StreamSlot) :=
  let '(mkProxy inner) := b in
  if (scheme k =s lit "https") && has_proxy k && bool_decide (proxy_ssl_ctx k = None)
  then (b, fail invalid_argument)
  else if negb (has_proxy k) || negb (scheme k =s lit "https") then
    let '(inner, m) := Acquire k now inner in (mkProxy inner, m)
  else
    let '(inner, m) := Acquire (proxy_key k) now inner in
    (mkProxy inner, net_bind m (OnProxyTcpAcquired k)).

Definition ProxyReturn (slot : StreamSlot) (now now' : Z) (b : ProxyStreamBuilder) : ProxyStreamBuilder :=
  let 'mkProxy inner := b in mkProxy (Return slot now now' inner).

#[local] Instance proxy_builder : StreamBuilder E ProxyStreamBuilder := {
  Acquire := ProxyAcquire;
  Return := ProxyReturn;
}.
End proxy.

(** ** [WebSocketStreamBuilder] *)

Definition DoWebSocketTcpConnect (k : ConnectionKey) : net E (E + StreamSlot) :=
  AsyncConnect (host k) (port k) (fun r =>
    match r with
    | inl e => fail e
    | inr id =>
        Done (inr (mkSlot (TcpStream (mkSocket id (host k, port k) None)) k (host k) 11 false 0
                     None (ssl_ctx k) (verify_peer k)))
    end).

Section websocket.
Context {S : Type} `{StreamBuilder E S}.

Inductive WebSocketStreamBuilder := mkWebSocket (ws_inner_ : S).

Definition WebSocketAcquire (k : ConnectionKey) (now : nat -> Z) (b : WebSocketStreamBuilder) :
    WebSocketStreamBuilder * net E (E + StreamSlot) :=
  let '(mkWebSocket inner) := b in
  if (scheme k =s lit "https") && bool_decide (ssl_ctx k = None) then (b, fail invalid_argument)
  else
    match ssl_ctx k with
    | None => let '(inner, m) := Acquire k now inner in (mkWebSocket inner, m)
    | Some _ =>
        (b, AsyncResolve (host k) (port k) (fun r =>
              match r with Some e => fail e | None => DoWebSocketTcpConnect k end))
    end.

Definition WebSocketReturn (slot : StreamSlot) (now now' : Z) (b : WebSocketStreamBuilder) :
    WebSocketStreamBuilder :=
  let 'mkWebSocket inner := b in mkWebSocket (Return slot now now' inner).

#[local] Instance websocket_builder : StreamBuilder E WebSocketStreamBuilder := {
  Acquire := WebSocketAcquire;
  Return := WebSocketReturn;
}.
End websocket.
End builders.

Arguments PooledStreamBuilder : clear implicits.
Arguments ProxyStreamBuilder : clear implicits.
Arguments WebSocketStreamBuilder : clear implicits.

(** ** What every builder promises *)

(** The connections made in a trace. *)
Definition connected {E} (tr : list (event E)) : list nat :=
  omap (fun e => match e with Connected _ _ (inr id) => Some id | _ => None end) tr.

Definition slot_id (slot : StreamSlot) : option nat := socket_id <$> stream_socket (stream_ slot).

(** A TLS session with the host of the key, verified as the key asks, over a
    direct connection with the key's context or through the proxy's tunnel to
    that host with the proxy context, if the key is for https and has a proxy. *)
Definition secure_stream (k : ConnectionKey) (st : ClientStream) : Prop :=
  exists id ctx,
    st = SslStream (mkSocket id (host k, port k) None) (mkTls ctx (host k) (verify_peer k))
      /\ ssl_ctx k = Some ctx \/
    st = SslStream (mkSocket id (proxy_host k, proxy_port k) (Some (connect_target k)))
           (mkTls ctx (host k) (verify_peer k))
      /\ proxy_ssl_ctx k = Some ctx /\ scheme k = lit "https" /\ has_proxy k = true.

(** A plain connection to the host of the key, for a key without TLS. *)
Definition plain_stream (k : ConnectionKey) (st : ClientStream) : Prop :=
  exists id, st = TcpStream (mkSocket id (host k, port k) None) /\
    ssl_ctx k = None /\ scheme k <> lit "https".

(** The stream is the one the key describes, down to the TLS context; a key that is
    not for https is taken at its own host, whether it names a proxy or not. *)
Definition delivers (k : ConnectionKey) (st : ClientStream) : Prop := secure_stream k st \/ plain_stream k st.

(** A slot whose stream was made for the key it carries, which is one of those
    that are asked with. *)
Definition stream_ok (allowed : ConnectionKey -> Prop) (slot : StreamSlot) : Prop :=
  allowed (key slot) /\ delivers (key slot) (stream_ slot).

(** The laws of a builder that is asked with [allowed] keys and has [stored]
    connections in its state: [Acquire]
    takes some of them out for good; what the callback gets matches the key, is
    as good as its own key says, and is one that was taken out or made in the
    meantime; [Return] stores no other connection than the one returned. *)
Class BuilderOk (E S : Type) `{StreamBuilder E S} (allowed : ConnectionKey -> Prop) (inv : S -> Prop)
    (stored : S -> list nat) := {
  acquire_inv k now s : inv s -> allowed k -> inv (Acquire k now s).1;
  acquire_reserves k now s :
    inv s -> allowed k ->
    exists reserved, reserved ++ stored (Acquire k now s).1 ⊆+ stored s /\
      forall tr slot, runs (Acquire k now s).2 tr (inr slot) ->
        key_eqb (key slot) k = true /\ stream_ok allowed slot /\
        exists id, slot_id slot = Some id /\ id ∈ reserved ++ connected tr;
  return_inv slot now now' s : inv s -> stream_ok allowed slot -> inv (Return slot now now' s);
  return_stored slot now now' s :
    stored (Return slot now now' s) ⊆+ option_list (slot_id slot) ++ stored s;
}.

(** ** Lemmas *)

Lemma key_eqb_refl k : key_eqb k k = true.
Proof.
  unfold key_eqb. rewrite !str_eqb_refl, eqb_reflx. by rewrite bool_decide_true.
Qed.

Lemma key_eqb_spec k l :
  key_eqb k l = true <->
  scheme k = scheme l /\ host k = host l /\ port k = port l /\ ssl_ctx k = ssl_ctx l /\
  verify_peer k = verify_peer l /\ proxy_host k = proxy_host l /\ proxy_port k = proxy_port l.
Proof.
  unfold key_eqb. rewrite !andb_true_iff, !str_eqb_eq, bool_decide_eq_true, eqb_true_iff. tauto.
Qed.

Lemma runs_bind {E A B} (m : net E A) (f : A -> net E B) tr b :
  runs (net_bind m f) tr b ->
  exists tr1 tr2 a, tr = tr1 ++ tr2 /\ runs m tr1 a /\ runs (f a) tr2 b.
Proof.
  revert tr. induction m as [a|h p k IH|h p k IH|h k IH|t k IH|d k IH|d k IH]; intros tr Hr; cbn in Hr;
    [by exists [], tr, a; repeat split; try done; constructor|..];
    inversion Hr as [| | | | | |]; simplify_eq;
    match goal with Hk : runs _ _ _ |- _ => apply IH in Hk as (tr1 & tr2 & a & -> & H1 & H2) end;
    eexists (_ :: tr1), tr2, a; (split; [done|]); (split; [by constructor|done]).
Qed.

Lemma runs_bind_intro {E A B} (m : net E A) (f : A -> net E B) tr1 tr2 a b :
  runs m tr1 a -> runs (f a) tr2 b -> runs (net_bind m f) (tr1 ++ tr2) b.
Proof. induction 1; intros; cbn; [done|constructor; auto..]. Qed.

Lemma connected_app {E} (tr1 tr2 : list (event E)) :
  connected (tr1 ++ tr2) = connected tr1 ++ connected tr2.
Proof. apply omap_app. Qed.

(** Take the run of a concrete tree apart. *)
Ltac run_inv :=
  repeat match goal with
  | H : runs (Done _) _ _ |- _ => inversion H; clear H; subst
  | H : runs (fail _) _ _ |- _ => inversion H; clear H; subst
  | H : runs (match ?x with _ => _ end) _ _ |- _ => destruct x eqn:?
  | H : runs (AsyncResolve _ _ _) _ _ |- _ => inversion H; clear H; subst
  | H : runs (AsyncConnect _ _ _) _ _ |- _ => inversion H; clear H; subst
  | H : runs (SetSni _ _) _ _ |- _ => inversion H; clear H; subst
  | H : runs (AsyncHandshake _ _) _ _ |- _ => inversion H; clear H; subst
  | H : runs (AsyncWrite _ _) _ _ |- _ => inversion H; clear H; subst
  | H : runs (AsyncReadUntil _ _) _ _ |- _ => inversion H; clear H; subst
  end; simplify_eq/=.

(** ** The builders keep the promise *)

Section laws.
Context {E : Type} (invalid_argument protocol_error connection_refused : E).
Context (allowed : ConnectionKey -> Prop).

#[local] Existing Instance direct_builder.

Lemma direct_acquired k tr slot :
  runs (DirectAcquire invalid_argument k) tr (inr slot) ->
  key slot = k /\ delivers k (stream_ slot) /\ exists id, slot_id slot = Some id /\ id ∈ connected tr.
Proof.
  unfold DirectAcquire, DoDirectSslConnect, DoDirectTcpConnect. intros Hr. run_inv.
  - split; [done|]. split; [|eexists; split; [done|]; apply list_elem_of_here].
    left. eexists _, _. by left.
  - split; [done|]. split; [|eexists; split; [done|]; apply list_elem_of_here].
    right. eexists. split; [done|]. split; [done|].
    match goal with H : _ && true = false |- _ => rewrite andb_true_r in H; by apply str_eqb_neq in H end.
Qed.

#[export] Instance direct_ok :
  BuilderOk E DirectStreamBuilder (H := direct_builder invalid_argument)
    allowed (fun _ => True) (fun _ => []).
Proof.
  split; try done.
  - intros k now s _ Hk. exists []. split; [done|]. intros tr slot Hr.
    destruct (direct_acquired _ _ _ Hr) as (<- & Hok & Hid). by rewrite key_eqb_refl.
  - intros. apply submseteq_nil_l.
Qed.

(** *** The pool *)

Lemma submseteq_omap {A B} (f : A -> option B) l l' : l ⊆+ l' -> omap f l ⊆+ omap f l'.
Proof.
  intros (k & Hk)%submseteq_Permutation. rewrite Hk, omap_app. apply submseteq_inserts_r. done.
Qed.

Lemma stream_ok_id slot : stream_ok allowed slot -> exists id, slot_id slot = Some id.
Proof.
  unfold slot_id. intros [_ Hd]. destruct Hd as [(id & ctx & [[-> _]|[-> _]])|(id & -> & _)]; by exists id.
Qed.

Definition pooled_slots (pool : list (ConnectionKey * list StreamSlot)) : list StreamSlot :=
  concat (snd <$> pool).

Lemma pool_find_split k pool dq :
  pool_find k pool = Some dq ->
  exists l1 l2 k', pool = l1 ++ (k', dq) :: l2 /\
    (forall dq', pool_update k (Some dq') pool = l1 ++ (k', dq') :: l2) /\
    pool_update k None pool = l1 ++ l2.
Proof.
  induction pool as [|[k' dq1] pool IH]; cbn; [done|]. destruct (key_eqb k' k).
  - intros [= ->]. by exists [], pool, k'.
  - intros (l1 & l2 & k2 & -> & Hu & Hn)%IH. exists ((k', dq1) :: l1), l2, k2.
    split; [done|]. split; [intros dq'; by rewrite Hu|by rewrite Hn].
Qed.

Lemma take_reusable_split k now i dq slot dq' :
  take_reusable k now i dq = Some (slot, dq') ->
  exists pre, dq = pre ++ slot :: dq' /\ key_eqb (key slot) k = true.
Proof.
  revert i. induction dq as [|s dq IH]; intros i; cbn; [done|].
  destruct (IsCompatible s k && IsReusable (now i) s) eqn:Hc.
  - intros [= -> ->]. apply andb_true_iff in Hc as [Hc _]. by exists [].
  - intros (pre & -> & Hk)%IH. by exists (s :: pre).
Qed.

Lemma pooled_slots_push k slot pool :
  pooled_slots (pool_push k slot pool) ≡ₚ slot :: pooled_slots pool.
Proof.
  unfold pooled_slots. induction pool as [|[k' dq] pool IH]; cbn; [done|].
  destruct (key_eqb k' k); cbn.
  - rewrite <- app_assoc. cbn. by rewrite Permutation_middle.
  - rewrite IH. by rewrite Permutation_middle.
Qed.

Lemma pooled_slots_app p q : pooled_slots (p ++ q) = pooled_slots p ++ pooled_slots q.
Proof. unfold pooled_slots. by rewrite fmap_app, concat_app. Qed.

Lemma Forall_submseteq {A} (P : A -> Prop) l l' : l ⊆+ l' -> Forall P l' -> Forall P l.
Proof. rewrite !Forall_forall. intros Hs HF x Hx. apply HF. by eapply elem_of_submseteq. Qed.

Lemma pool_hit k now pool dq slot dq' :
  pool_find k pool = Some dq -> take_reusable k now 0 dq = Some (slot, dq') ->
  slot :: pooled_slots (pool_update k (Some dq') pool) ⊆+ pooled_slots pool /\
  key_eqb (key slot) k = true.
Proof.
  intros (l1 & l2 & k' & -> & Hu & _)%pool_find_split (pre & -> & Hk)%take_reusable_split.
  split; [|done]. rewrite Hu, !pooled_slots_app. unfold pooled_slots. cbn.
  rewrite Permutation_middle. apply submseteq_app; [done|].
  rewrite <- app_assoc. cbn. by apply submseteq_inserts_l.
Qed.

Lemma pool_drop k pool dq :
  pool_find k pool = Some dq -> pooled_slots (pool_update k None pool) ⊆+ pooled_slots pool.
Proof.
  intros (l1 & l2 & k' & -> & _ & ->)%pool_find_split.
  rewrite !pooled_slots_app. unfold pooled_slots. cbn.
  apply submseteq_app; [done|]. by apply submseteq_inserts_l.
Qed.

Section pooled_laws.
Context {S : Type} `{BuilderOk E S allowed inv stored}.
#[local] Existing Instance pooled_builder.

Definition pooled_inv (b : PooledStreamBuilder S) : Prop :=
  Forall (stream_ok allowed) (pooled_slots (pool_ b)) /\ inv (pooled_inner_ b).

Definition pooled_stored (b : PooledStreamBuilder S) : list nat :=
  omap slot_id (pooled_slots (pool_ b)) ++ stored (pooled_inner_ b).

(** A miss: the inner builder is asked, with part of the pool dropped. *)
Lemma pooled_miss k now b pool :
  pooled_inv b -> allowed k -> pooled_slots pool ⊆+ pooled_slots (pool_ b) ->
  let '(inner, m) := Acquire k now (pooled_inner_ b) in
  let b' := mkPooled (idle_timeout_ b) pool inner in
  pooled_inv b' /\
  exists reserved, reserved ++ pooled_stored b' ⊆+ pooled_stored b /\
    forall tr slot, runs m tr (inr slot) ->
      key_eqb (key slot) k = true /\ stream_ok allowed slot /\
      exists id, slot_id slot = Some id /\ id ∈ reserved ++ connected tr.
Proof.
  intros [Hp Hi] Hk Hsub. pose proof (acquire_inv k now _ Hi Hk) as Hi'.
  destruct (acquire_reserves k now _ Hi Hk) as (reserved & Hr & Hruns).
  destruct (Acquire k now (pooled_inner_ b)) as [inner m]. cbn in *. split.
  - split; [|done]. apply Forall_forall. intros s Hs. rewrite Forall_forall in Hp. apply Hp.
    by eapply elem_of_submseteq.
  - exists reserved. split; [|done]. unfold pooled_stored. cbn.
    rewrite Permutation_app_swap_app. apply submseteq_app; [by apply submseteq_omap|done].
Qed.

(** [PooledAcquire] with its two outcomes. *)
Lemma pooled_acquire k now b :
  pooled_inv b -> allowed k ->
  let '(b', m) := PooledAcquire k now b in
  pooled_inv b' /\
  exists reserved, reserved ++ pooled_stored b' ⊆+ pooled_stored b /\
    forall tr slot, runs m tr (inr slot) ->
      key_eqb (key slot) k = true /\ stream_ok allowed slot /\
      exists id, slot_id slot = Some id /\ id ∈ reserved ++ connected tr.
Proof.
  intros Hinv Hak. unfold PooledAcquire.
  pose proof (pooled_miss k now b (pool_ b) Hinv Hak ltac:(done)) as Hmiss.
  destruct (pool_find k (pool_ b)) as [dq|] eqn:Hf;
    [|destruct (Acquire k now (pooled_inner_ b)); exact Hmiss]. clear Hmiss.
  destruct (take_reusable k now 0 dq) as [[slot dq']|] eqn:Ht.
  - destruct (pool_hit _ _ _ _ _ _ Hf Ht) as [Hsub Hk]. destruct Hinv as [Hp Hi].
    pose proof (Forall_submseteq _ _ _ Hsub Hp) as [Hok Hp']%Forall_cons.
    destruct (stream_ok_id _ Hok) as [id Hid]. split; [done|]. exists [id]. split.
    + unfold pooled_stored. cbn. rewrite app_comm_cons. apply submseteq_app; [|done].
      apply (submseteq_omap slot_id) in Hsub. cbn in Hsub. by rewrite Hid in Hsub.
    + intros tr s Hr. inversion Hr; subst. split; [done|]. split; [done|]. exists id.
      split; [done|]. left.
  - pose proof (pooled_miss k now b (pool_update k None (pool_ b)) Hinv Hak (pool_drop _ _ _ Hf)) as Hm.
    destruct (Acquire k now (pooled_inner_ b)). exact Hm.
Qed.

#[export] Instance pooled_ok : BuilderOk E (PooledStreamBuilder S) allowed pooled_inv pooled_stored.
Proof.
  split; cbn [Acquire Return pooled_builder].
  - intros k now b Hinv Hk. pose proof (pooled_acquire k now b Hinv Hk) as Ha.
    destruct (PooledAcquire k now b). apply Ha.
  - intros k now b Hinv Hk. pose proof (pooled_acquire k now b Hinv Hk) as Ha.
    destruct (PooledAcquire k now b). apply Ha.
  - intros slot now now' b [Hp Hi] Hok. unfold PooledReturn. destruct (IsReusable now slot).
    + split; [|done]. cbn [pool_]. rewrite pooled_slots_push. by constructor.
    + split; [done|]. cbn. by apply return_inv.
  - intros slot now now' b. unfold PooledReturn.
    destruct (IsReusable now slot); unfold pooled_stored; cbn [pool_ pooled_inner_].
    + rewrite pooled_slots_push. cbn [omap list_omap].
      change (slot_id (set_deadline _ slot)) with (slot_id slot). by destruct (slot_id slot).
    + rewrite Permutation_app_swap_app. apply submseteq_app; [done|]. apply return_stored.
Qed.
End pooled_laws.

(** *** The proxy *)

(** What the tunnel's continuation makes of a slot of the inner builder. *)
Lemma tunnel_acquired k r tr slot :
  scheme k = lit "https" -> has_proxy k = true ->
  runs (OnProxyTcpAcquired invalid_argument protocol_error connection_refused k r) tr (inr slot) ->
  exists inner, r = inr inner /\
    (delivers (key inner) (stream_ inner) -> key_eqb (key inner) (proxy_key k) = true ->
     key slot = k /\ delivers k (stream_ slot) /\ slot_id slot = slot_id inner).
Proof.
  unfold OnProxyTcpAcquired, DoProxyConnect, DoProxyTlsHandshake. intros Hhttps Hhp Hr. run_inv.
  eexists. split; [done|]. intros Hok (_ & Hh & Hp & _)%key_eqb_spec. cbn in Hh, Hp.
  match goal with Hs : stream_ _ = TcpStream _ |- _ => rename Hs into Hst end.
  assert (exists id, s0 = mkSocket id (proxy_host k, proxy_port k) None) as [id ->].
  { destruct Hok as [(id & ctx & [[Hs _]|[Hs _]])|(id & Hs & _)]; rewrite Hst in Hs; [done..|].
    injection Hs as ->. exists id. by rewrite Hh, Hp. }
  split; [done|]. split; [|unfold slot_id; cbn; by rewrite Hst].
  left. eexists id, _. right. by cbn.
Qed.

Section proxy_laws.
Context {S : Type} `{BuilderOk E S allowed inv stored}.
Hypothesis allowed_proxy : forall k, allowed k -> allowed (proxy_key k).
#[local] Existing Instance proxy_builder.

Definition proxy_state (b : ProxyStreamBuilder S) : S := let 'mkProxy inner := b in inner.

Lemma proxy_acquire k now b :
  inv (proxy_state b) -> allowed k ->
  let '(b', m) := ProxyAcquire invalid_argument protocol_error connection_refused k now b in
  inv (proxy_state b') /\
  exists reserved, reserved ++ stored (proxy_state b') ⊆+ stored (proxy_state b) /\
    forall tr slot, runs m tr (inr slot) ->
      key_eqb (key slot) k = true /\ stream_ok allowed slot /\
      exists id, slot_id slot = Some id /\ id ∈ reserved ++ connected tr.
Proof.
  destruct b as [inner]. intros Hinv Hak. cbn [proxy_state] in *. unfold ProxyAcquire.
  destruct (_ && _); [|destruct (_ || _) eqn:Hproxy].
  - split; [done|]. exists []. split; [done|]. intros tr slot Hr. inversion Hr.
  - pose proof (acquire_inv k now _ Hinv Hak). pose proof (acquire_reserves k now _ Hinv Hak).
    by destruct (Acquire k now inner).
  - pose proof (acquire_inv (proxy_key k) now _ Hinv (allowed_proxy k Hak)).
    destruct (acquire_reserves (proxy_key k) now _ Hinv (allowed_proxy k Hak)) as (reserved & Hsub & Hruns).
    destruct (Acquire (proxy_key k) now inner) as [inner' m]. cbn in *. split; [done|].
    exists reserved. split; [done|]. intros tr slot Hr.
    apply runs_bind in Hr as (tr1 & tr2 & r & -> & Hr1 & Hr2).
    apply orb_false_iff in Hproxy as [Hhp%negb_false_iff Hhttps%negb_false_iff%str_eqb_eq].
    apply (tunnel_acquired _ _ _ _ Hhttps Hhp) in Hr2 as (s & -> & Ht).
    destruct (Hruns _ _ Hr1) as (Hk & [_ Hok] & id & Hid & Hin).
    destruct (Ht Hok Hk) as (<- & Hok' & Heq). rewrite key_eqb_refl. split; [done|].
    split; [done|]. exists id. rewrite Heq. split; [done|].
    rewrite connected_app, app_assoc. apply elem_of_app. by left.
Qed.

#[export] Instance proxy_ok :
  BuilderOk E (ProxyStreamBuilder S)
    (H := proxy_builder invalid_argument protocol_error connection_refused)
    allowed (fun b => inv (proxy_state b)) (fun b => stored (proxy_state b)).
Proof.
  split; cbn [Acquire Return proxy_builder].
  - intros k now b Hinv Hk. pose proof (proxy_acquire k now b Hinv Hk) as Ha.
    destruct (ProxyAcquire _ _ _ k now b). apply Ha.
  - intros k now b Hinv Hk. pose proof (proxy_acquire k now b Hinv Hk) as Ha.
    destruct (ProxyAcquire _ _ _ k now b). apply Ha.
  - intros slot now now' [inner] Hinv Hok. cbn in *. by apply return_inv.
  - intros slot now now' [inner]. cbn. apply return_stored.
Qed.
End proxy_laws.
End laws.

(** ** Stacks of builders *)

Inductive stack := Direct | Pooled (idle_timeout : Z) (inner : stack) | Proxied (inner : stack).

Fixpoint stack_state (b : stack) : Type :=
  match b with
  | Direct => DirectStreamBuilder
  | Pooled _ b => PooledStreamBuilder (stack_state b)
  | Proxied b => ProxyStreamBuilder (stack_state b)
  end.

(** [Create] of each builder, innermost first. *)
Fixpoint Create (b : stack) : stack_state b :=
  match b with
  | Direct => mkDirect []
  | Pooled t b => mkPooled t [] (Create b)
  | Proxied b => mkProxy (Create b)
  end.

(** The connections in the pools of a stack; each is as its key says. *)
Fixpoint stack_stored (b : stack) : stack_state b -> list nat :=
  match b with
  | Direct => fun _ => []
  | Pooled _ b => pooled_stored (stored := stack_stored b)
  | Proxied b => fun s => stack_stored b (proxy_state s)
  end.

Fixpoint stack_inv (allowed : ConnectionKey -> Prop) (b : stack) : stack_state b -> Prop :=
  match b with
  | Direct => fun _ => True
  | Pooled _ b => pooled_inv allowed (inv := stack_inv allowed b)
  | Proxied b => fun s => stack_inv allowed b (proxy_state s)
  end.

Lemma Create_ok allowed b : stack_inv allowed b (Create b) /\ stack_stored b (Create b) = [].
Proof. induction b as [|t b [IH1 IH2]|b [IH1 IH2]]; [done| |done]. by repeat constructor. Qed.

Section stacks.
Context {E : Type} (invalid_argument protocol_error connection_refused : E).

Fixpoint stack_builder (b : stack) : StreamBuilder E (stack_state b) :=
  match b with
  | Direct => direct_builder invalid_argument
  | Pooled _ b => pooled_builder (H := stack_builder b)
  | Proxied b => proxy_builder invalid_argument protocol_error connection_refused (H := stack_builder b)
  end.

#[local] Existing Instance stack_builder.

Lemma stack_ok (allowed : ConnectionKey -> Prop) b :
  (forall k, allowed k -> allowed (proxy_key k)) ->
  BuilderOk E (stack_state b) allowed (stack_inv allowed b) (stack_stored b).
Proof.
  intros Hp. induction b as [|t b IH|b IH].
  - exact (direct_ok invalid_argument allowed).
  - exact (pooled_ok allowed).
  - exact (proxy_ok invalid_argument protocol_error connection_refused allowed Hp).
Qed.
End stacks.

(** ** Clients of a builder *)

(** One network operation of an acquisition comes back. *)
Inductive net_step {E A : Type} : net E A -> event E -> net E A -> Prop :=
  | step_resolve h p k r : net_step (AsyncResolve h p k) (Resolved h p r) (k r)
  | step_connect h p k r : net_step (AsyncConnect h p k) (Connected h p r) (k r)
  | step_sni h k r : net_step (SetSni h k) (SniSet h r) (k r)
  | step_handshake t k r : net_step (AsyncHandshake t k) (Handshaken t r) (k r)
  | step_write d k r : net_step (AsyncWrite d k) (Wrote d r) (k r)
  | step_read d k r : net_step (AsyncReadUntil d k) (Received r) (k r).

Lemma runs_step {E A} (m m' : net E A) e tr a : net_step m e m' -> runs m' tr a -> runs m (e :: tr) a.
Proof. destruct 1; by constructor. Qed.

(** The builder, the acquisitions under way with the key each asked for, the
    slots given to tasks with that key, and every connection ever made. *)
Record client (E S : Type) := mkClient {
  builder : S;
  pending : list (ConnectionKey * net E (E + StreamSlot));
  held : list (ConnectionKey * StreamSlot);
  sockets : list nat;
}.
Arguments mkClient {_ _} _ _ _ _.
Arguments builder {_ _} _.
Arguments pending {_ _} _.
Arguments held {_ _} _.
Arguments sockets {_ _} _.

(** Acquisitions and returns interleave in any order; a new connection is not
    one of those made before.  A task may change the bookkeeping of a slot it
    holds, but not its stream or key.  The keys that tasks ask with are [allowed]. *)
Inductive client_step {E S : Type} `{StreamBuilder E S} (allowed : ConnectionKey -> Prop) :
    client E S -> client E S -> Prop :=
  | client_acquire k now s s' m p h n :
      allowed k -> Acquire k now s = (s', m) ->
      client_step allowed (mkClient s p h n) (mkClient s' (p ++ [(k, m)]) h n)
  | client_network s l1 l2 k m e m' h n :
      net_step m e m' -> Forall (fun id => id ∉ n) (connected [e]) ->
      client_step allowed (mkClient s (l1 ++ (k, m) :: l2) h n)
        (mkClient s (l1 ++ (k, m') :: l2) h (connected [e] ++ n))
  | client_error s l1 l2 k e h n :
      client_step allowed (mkClient s (l1 ++ (k, Done (inl e)) :: l2) h n) (mkClient s (l1 ++ l2) h n)
  | client_acquired s l1 l2 k slot h n :
      client_step allowed (mkClient s (l1 ++ (k, Done (inr slot)) :: l2) h n)
        (mkClient s (l1 ++ l2) (h ++ [(k, slot)]) n)
  | client_use s p l1 l2 k slot slot' n :
      stream_ slot' = stream_ slot -> key slot' = key slot ->
      client_step allowed (mkClient s p (l1 ++ (k, slot) :: l2) n) (mkClient s p (l1 ++ (k, slot') :: l2) n)
  | client_return s p l1 l2 k slot now now' n :
      client_step allowed (mkClient s p (l1 ++ (k, slot) :: l2) n)
        (mkClient (Return slot now now' s) p (l1 ++ l2) n)
  | client_drop s p l1 l2 k slot n :
      client_step allowed (mkClient s p (l1 ++ (k, slot) :: l2) n) (mkClient s p (l1 ++ l2) n).

Section clients.
Context {E S : Type} `{BuilderOk E S allowed inv stored}.

(** An acquisition for [k] that owns the connections [ids]. *)
Definition owns (ids : list nat) (p : ConnectionKey * net E (E + StreamSlot)) : Prop :=
  allowed p.1 /\
  forall tr slot, runs p.2 tr (inr slot) ->
    key_eqb (key slot) p.1 = true /\ stream_ok allowed slot /\
    exists id, slot_id slot = Some id /\ id ∈ ids ++ connected tr.

Definition held_ids (l : list (ConnectionKey * StreamSlot)) : list nat := omap (fun p => slot_id p.2) l.

Definition slot_for (p : ConnectionKey * StreamSlot) : Prop :=
  allowed p.1 /\ key_eqb (key p.2) p.1 = true /\ stream_ok allowed p.2.

Definition client_inv (c : client E S) : Prop :=
  exists owned,
    Forall2 owns owned (pending c) /\ Forall slot_for (held c) /\ inv (builder c) /\
    NoDup (concat owned ++ held_ids (held c) ++ stored (builder c)) /\
    concat owned ++ held_ids (held c) ++ stored (builder c) ⊆ sockets c.

Lemma owns_step ids k m e m' : net_step m e m' -> owns ids (k, m) -> owns (ids ++ connected [e]) (k, m').
Proof.
  intros Hs [Ha Ho]. split; [done|]. intros tr slot Hr. destruct (Ho (e :: tr) slot (runs_step _ _ _ _ _ Hs Hr)) as (Hk & Hok & id & Hid & Hin).
  split; [done|]. split; [done|]. exists id. split; [done|].
  by rewrite <- app_assoc, <- connected_app.
Qed.

(** The connections known afterwards are among those known before. *)
Lemma client_inv_shrink (owned owned' : list (list nat)) h h' s s' (n : list nat) :
  concat owned' ++ held_ids h' ++ stored s' ⊆+ concat owned ++ held_ids h ++ stored s ->
  NoDup (concat owned ++ held_ids h ++ stored s) -> concat owned ++ held_ids h ++ stored s ⊆ n ->
  NoDup (concat owned' ++ held_ids h' ++ stored s') /\ concat owned' ++ held_ids h' ++ stored s' ⊆ n.
Proof.
  intros Hsub Hnd Hn. apply submseteq_Permutation in Hsub as [l Hl]. rewrite Hl in Hnd. split.
  - by apply NoDup_app in Hnd as [? _].
  - intros x Hx. apply Hn. rewrite Hl. apply elem_of_app. by left.
Qed.
Lemma held_ids_app l1 l2 : held_ids (l1 ++ l2) = held_ids l1 ++ held_ids l2.
Proof. apply omap_app. Qed.

Lemma held_ids_cons k slot l : held_ids ((k, slot) :: l) = option_list (slot_id slot) ++ held_ids l.
Proof. unfold held_ids. cbn. by destruct (slot_id slot). Qed.

Lemma client_inv_acquire k now s s' m p h n :
  allowed k -> Acquire k now s = (s', m) ->
  client_inv (mkClient s p h n) -> client_inv (mkClient s' (p ++ [(k, m)]) h n).
Proof.
  intros Hk Ha (owned & Hp & Hh & Hi & Hnd & Hn). cbn [pending held builder sockets] in *.
  pose proof (acquire_inv k now s Hi Hk) as Hi'.
  destruct (acquire_reserves k now s Hi Hk) as (reserved & Hsub & Hr). rewrite Ha in Hi', Hsub, Hr. cbn in *.
  exists (owned ++ [reserved]). cbn [pending held builder sockets]. split; [apply Forall2_app; [done|constructor; [done|constructor]]|].
  split; [done|]. split; [done|]. apply (client_inv_shrink owned _ h _ s); [|done..].
  rewrite concat_app. cbn. rewrite app_nil_r, <- app_assoc. apply submseteq_app; [done|].
  rewrite Permutation_app_swap_app. by apply submseteq_app.
Qed.

Lemma client_inv_network s l1 l2 k m e m' h n :
  net_step m e m' -> Forall (fun id => id ∉ n) (connected [e]) ->
  client_inv (mkClient s (l1 ++ (k, m) :: l2) h n) ->
  client_inv (mkClient s (l1 ++ (k, m') :: l2) h (connected [e] ++ n)).
Proof.
  intros Hs Hf (owned & Hp & Hh & Hi & Hnd & Hn). cbn [pending held builder sockets] in *.
  apply Forall2_app_inv_r in Hp as (o1 & o2' & H1 & (ids & o2 & Ho & H2 & ->)%Forall2_cons_inv_r & ->).
  exists (o1 ++ (ids ++ connected [e]) :: o2). cbn [pending held builder sockets].
  split; [apply Forall2_app; [done|]; constructor; [by eapply owns_step|done]|].
  split; [done|]. split; [done|].
  assert (concat (o1 ++ (ids ++ connected [e]) :: o2) ++ held_ids h ++ stored s
    ≡ₚ connected [e] ++ (concat (o1 ++ ids :: o2) ++ held_ids h ++ stored s)) as Hperm.
  { rewrite !concat_app. cbn [concat]. solve_Permutation. }
  rewrite Hperm. split.
  - apply NoDup_app. split; [destruct e as [|? ? []| | | |]; repeat constructor; set_solver|].
    split; [|done]. rewrite Forall_forall in Hf. intros x Hx Hx'. by apply (Hf x Hx), Hn.
  - intros x. rewrite !(elem_of_app (connected [e])). intros [?|?]; [by left|right; by apply Hn].
Qed.

Lemma client_inv_error s l1 l2 k e h n :
  client_inv (mkClient s (l1 ++ (k, Done (inl e)) :: l2) h n) -> client_inv (mkClient s (l1 ++ l2) h n).
Proof.
  intros (owned & Hp & Hh & Hi & Hnd & Hn). cbn [pending held builder sockets] in *.
  apply Forall2_app_inv_r in Hp as (o1 & o2' & H1 & (ids & o2 & Ho & H2 & ->)%Forall2_cons_inv_r & ->).
  exists (o1 ++ o2). cbn [pending held builder sockets]. split; [by apply Forall2_app|]. split; [done|]. split; [done|].
  eapply client_inv_shrink; [|done..]. rewrite !concat_app. cbn. solve_submseteq.
Qed.

Lemma client_inv_acquired s l1 l2 k slot h n :
  client_inv (mkClient s (l1 ++ (k, Done (inr slot)) :: l2) h n) ->
  client_inv (mkClient s (l1 ++ l2) (h ++ [(k, slot)]) n).
Proof.
  intros (owned & Hp & Hh & Hi & Hnd & Hn). cbn [pending held builder sockets] in *.
  apply Forall2_app_inv_r in Hp as (o1 & o2' & H1 & (ids & o2 & Ho & H2 & ->)%Forall2_cons_inv_r & ->).
  destruct Ho as [Ha Ho]. destruct (Ho [] slot) as (Hk & Hok & id & Hid & Hin); [by constructor|].
  cbn in Hin. rewrite app_nil_r in Hin.
  exists (o1 ++ o2). cbn [pending held builder sockets]. split; [by apply Forall2_app|].
  split; [apply Forall_app; split; [done|]; by apply Forall_singleton|]. split; [done|].
  eapply client_inv_shrink; [|done..].
  rewrite !concat_app, held_ids_app, held_ids_cons, Hid. cbn.
  apply list_elem_of_split in Hin as (i1 & i2 & ->). solve_submseteq.
Qed.

Lemma client_inv_use s p l1 l2 k slot slot' n :
  stream_ slot' = stream_ slot -> key slot' = key slot ->
  client_inv (mkClient s p (l1 ++ (k, slot) :: l2) n) ->
  client_inv (mkClient s p (l1 ++ (k, slot') :: l2) n).
Proof.
  intros Hs Hk (owned & Hp & Hh & Hi & Hnd & Hn). exists owned. cbn [pending held builder sockets] in *.
  assert (slot_id slot' = slot_id slot) as Hid by (unfold slot_id; by rewrite Hs).
  rewrite held_ids_app, held_ids_cons in *. rewrite Hid.
  split; [done|]. split; [|done]. apply Forall_app in Hh as [H1 [(Ha & Hk1 & Hok) H2]%Forall_cons].
  apply Forall_app. split; [done|]. constructor; [|done].
  unfold slot_for, stream_ok in *. cbn in *. by rewrite Hk, Hs.
Qed.

Lemma client_inv_return s p l1 l2 k slot now now' n :
  client_inv (mkClient s p (l1 ++ (k, slot) :: l2) n) ->
  client_inv (mkClient (Return slot now now' s) p (l1 ++ l2) n).
Proof.
  intros (owned & Hp & Hh & Hi & Hnd & Hn). exists owned. cbn [pending held builder sockets] in *.
  apply Forall_app in Hh as [H1 [(Ha & Hk1 & Hok) H2]%Forall_cons].
  split; [done|]. split; [by apply Forall_app|]. split; [by apply return_inv|].
  eapply client_inv_shrink; [|done..]. rewrite !held_ids_app, held_ids_cons.
  pose proof (return_stored slot now now' s) as Hr.
  etrans; [apply submseteq_app; [done|]; apply submseteq_app; [done|exact Hr]|]. solve_submseteq.
Qed.

Lemma client_inv_drop s p l1 l2 k slot n :
  client_inv (mkClient s p (l1 ++ (k, slot) :: l2) n) -> client_inv (mkClient s p (l1 ++ l2) n).
Proof.
  intros (owned & Hp & Hh & Hi & Hnd & Hn). exists owned. cbn [pending held builder sockets] in *.
  apply Forall_app in Hh as [H1 [_ H2]%Forall_cons].
  split; [done|]. split; [by apply Forall_app|]. split; [done|].
  eapply client_inv_shrink; [|done..]. rewrite !held_ids_app, held_ids_cons. solve_submseteq.
Qed.

#[local] Hint Resolve client_inv_acquire client_inv_network client_inv_error client_inv_acquired
  client_inv_use client_inv_return client_inv_drop : core.

Lemma client_inv_steps c c' : rtc (client_step allowed) c c' -> client_inv c -> client_inv c'.
Proof. induction 1 as [|c1 c2 c3 Hs _ IH]; [done|]. intros Hc. apply IH. destruct Hs; eauto. Qed.
End clients.

(** ** Theorems *)

Lemma delivers_same k k' st :
  key_eqb k' k = true -> has_proxy k = false \/ proxy_ssl_ctx k' = proxy_ssl_ctx k -> delivers k' st -> delivers k st.
Proof.
  intros (H1 & H2 & H3 & H4 & H5 & H6 & H7)%key_eqb_spec Hc Hd.
  unfold delivers, secure_stream, plain_stream, has_proxy, connect_target in *.
  destruct Hd as [(id & ctx & [[-> Hx]|(-> & Hx & Hs & Hp)])|(id & -> & Hx & Hs)].
  - left. exists id, ctx. left. rewrite <- H2, <- H3, <- H4, <- H5. done.
  - left. exists id, ctx. right. destruct Hc as [Hc|Hc]; [rewrite <- H6 in Hc; congruence|].
    rewrite <- H1, <- H2, <- H3, <- H5, <- H6, <- H7, <- Hc. done.
  - right. exists id. rewrite <- H1, <- H2, <- H3, <- H4. done.
Qed.

Lemma delivers_http k st :
  delivers k st -> scheme k <> lit "https" ->
  exists s, stream_socket st = Some s /\ peer s = (host k, port k) /\ tunnel s = None.
Proof.
  intros [(id & ctx & [[-> _]|(_ & _ & Hs & _)])|(id & -> & _)] Hn; [by eexists|done|by eexists].
Qed.


Lemma key_eqb_same k k' l : key_eqb k l = true -> key_eqb k' k = key_eqb k' l.
Proof.
  intros (H1 & H2 & H3 & H4 & H5 & H6 & H7)%key_eqb_spec.
  unfold key_eqb. by rewrite H1, H2, H3, H4, H5, H6, H7.
Qed.

Lemma pool_find_push k slot pool :
  key_eqb (key slot) k = true ->
  pool_find k (pool_push (key slot) slot pool) = Some (default [] (pool_find k pool) ++ [slot]).
Proof.
  intros Hk. induction pool as [|[k' dq] pool IH]; cbn; [by rewrite Hk|].
  rewrite (key_eqb_same _ k' _ Hk). destruct (key_eqb k' k) eqn:He; cbn; by rewrite He.
Qed.

Lemma take_reusable_last k now i dq slot :
  key_eqb (key slot) k = true -> (forall j, IsReusable (now j) slot = true) ->
  exists j slot' dq', take_reusable k now i (dq ++ [slot]) = Some (slot', dq') /\
    slot' ∈ dq ++ [slot] /\ key_eqb (key slot') k = true /\ IsReusable (now j) slot' = true.
Proof.
  intros Hk Hr. revert i. induction dq as [|s dq IH]; intros i; cbn [app take_reusable].
  - unfold IsCompatible. rewrite Hk, Hr. exists i, slot, []. set_solver.
  - destruct (IsCompatible s k && IsReusable (now i) s) eqn:Hs.
    + apply andb_true_iff in Hs as [Hs1 Hs2]. exists i, s, (dq ++ [slot]). set_solver.
    + destruct (IH (Datatypes.S i)) as (j & s' & dq' & -> & Hin & Hs1 & Hs2).
      exists j, s', dq'. set_solver.
Qed.

(** A pool gives back what it was given: after a reusable slot was
    returned, a request for an equal key before the idle timeout runs out (at
    whatever times the clock is looked at) is served without any network
    operation, with a slot of that key that is reusable at that time, either the
    one returned or one that was in the pool before it. *)
Theorem returned_stream_reused {E S : Type} `{StreamBuilder E S} (slot : StreamSlot) (now now' : Z)
    (k : ConnectionKey) (clock : nat -> Z) (b : PooledStreamBuilder S) :
  IsReusable now slot = true -> key_eqb (key slot) k = true ->
  is_int64 (now' + idle_timeout_ b) -> (forall i, clock i < now' + idle_timeout_ b)%Z ->
  exists slot' i,
    (PooledAcquire (E := E) k clock (PooledReturn slot now now' b)).2 = Done (inr slot') /\
    key_eqb (key slot') k = true /\ IsReusable (clock i) slot' = true /\
    (stream_ slot' = stream_ slot \/ slot' ∈ default [] (pool_find k (pool_ b))).
Proof.
  intros Hr Hk Hd Hc. unfold PooledReturn. rewrite Hr. unfold PooledAcquire. cbn [pool_].
  set (s := set_deadline _ slot).
  assert (forall i, IsReusable (clock i) s = true) as Hs.
  { intros i. unfold IsReusable in *. cbn. rewrite to_int64_small by done.
    destruct (stream_ slot); [done|..]; (destruct (upstream_closed slot); [done|]); apply Z.ltb_lt, Hc. }
  rewrite (pool_find_push k s) by done.
  destruct (take_reusable_last k clock 0 (default [] (pool_find k (pool_ b))) s Hk Hs)
    as (j & s' & dq' & -> & Hin & Hk' & Hs'). cbn.
  exists s', j. split; [done|]. split; [done|]. split; [done|].
  apply elem_of_app in Hin as [Hin|Hin%list_elem_of_singleton]; [by right|left; by subst].
Qed.

(** A pooled tunnel is handed to a request whose key has another TLS context for
    the tunnel: the session was made, and the peer checked, with the old one. *)
Theorem tunnel_context_not_compared {E S : Type} `{StreamBuilder E S} (t : Z) (inner : S)
    (slot : StreamSlot) (ctx : option nat) (now now' : Z) (clock : nat -> Z) :
  IsReusable now slot = true -> is_int64 (now' + t) -> (forall i, clock i < now' + t)%Z ->
  let k := key slot in
  let k' := mkKey (scheme k) (host k) (port k) (ssl_ctx k) (verify_peer k) (proxy_host k)
              (proxy_port k) ctx in
  exists slot',
    (PooledAcquire (E := E) k' clock (PooledReturn slot now now' (mkPooled t [] inner))).2 =
      Done (inr slot') /\
    stream_ slot' = stream_ slot.
Proof.
  intros Hr Hd Hc k k'. assert (key_eqb k k' = true) as Hk by (by apply key_eqb_spec).
  unfold PooledReturn. rewrite Hr. unfold PooledAcquire. cbn [pool_ idle_timeout_].
  rewrite (pool_find_push k') by done. cbn [pool_find default app take_reusable].
  unfold IsCompatible. cbn [key set_deadline]. fold k. rewrite Hk.
  rewrite to_int64_small by done. unfold IsReusable in *. cbn [stream_ set_deadline upstream_closed idle_deadline].
  specialize (Hc 0). apply Z.ltb_lt in Hc. rewrite Hc.
  destruct (stream_ slot) eqn:Hs; [done|..]; (destruct (upstream_closed slot); [done|]);
    eexists; (split; [reflexivity|]); exact Hs.
Qed.

(** A WebSocket over TLS gets a plain connection to the host of the key, with
    what the task needs for the handshake it makes itself; a key for https
    without a context is refused before anything is sent. *)
Theorem wss_stream_deferred {E S : Type} `{StreamBuilder E S} (invalid_argument : E)
    (k : ConnectionKey) (now : nat -> Z) (b : WebSocketStreamBuilder S) :
  (forall ctx tr slot,
     ssl_ctx k = Some ctx -> runs (WebSocketAcquire invalid_argument k now b).2 tr (inr slot) ->
     exists id, tr = [Resolved (host k) (port k) None; Connected (host k) (port k) (inr id)] /\
       stream_ slot = TcpStream (mkSocket id (host k, port k) None) /\ key slot = k /\
       deferred_ssl_ctx slot = Some ctx /\ deferred_verify_peer slot = verify_peer k /\
       sni_hostname slot = host k) /\
  (scheme k = lit "https" -> ssl_ctx k = None ->
   WebSocketAcquire invalid_argument k now b = (b, Done (inl invalid_argument))).
Proof.
  destruct b as [inner]. unfold WebSocketAcquire, DoWebSocketTcpConnect. split.
  - intros ctx tr slot Hc Hr. rewrite Hc, (bool_decide_false (Some ctx = None)), andb_false_r in Hr by done.
    cbn [snd] in Hr. run_inv. by eexists.
  - intros Hs Hc. by rewrite Hs, Hc, str_eqb_refl.
Qed.

(** ** Samples *)

Definition sample_http_key : ConnectionKey :=
  mkKey (lit "http") (lit "origin.example") (lit "80") None true [] [] None.

Definition sample_socket : socket := mkSocket 7 (lit "origin.example", lit "80") None.

Definition sample_slot : StreamSlot := new_slot (TcpStream sample_socket) sample_http_key [].

Definition sample_stack : stack := Pooled 60 (Proxied (Pooled 60 Direct)).

(** A task gets a connection, returns it, and another task gets it again. *)
Definition sample_client : client nat (stack_state sample_stack) :=
  mkClient
    (mkPooled 60 [(sample_http_key, [])] (Create (Proxied (Pooled 60 Direct))))
    [] [(sample_http_key, set_deadline 70 sample_slot)] [7].

Lemma sample_client_reachable :
  rtc (client_step (H := stack_builder 1 2 3 sample_stack) (fun _ => True))
    (mkClient (Create sample_stack) [] [] []) sample_client.
Proof.
  eapply rtc_l; [by eapply (client_acquire _ sample_http_key (fun _ => 0%Z))|].
  eapply rtc_l; [eapply (client_network _ _ [] []); [apply (step_resolve _ _ _ None)|constructor]|].
  eapply rtc_l;
    [eapply (client_network _ _ [] []); [apply (step_connect _ _ _ (inr 7))|repeat constructor; set_solver]|].
  eapply rtc_l; [apply (client_acquired _ _ [] [])|].
  eapply rtc_l; [apply (client_return _ _ _ [] [] _ _ 10%Z 10%Z)|].
  eapply rtc_l; [by eapply (client_acquire _ sample_http_key (fun _ => 20%Z))|].
  eapply rtc_l; [apply (client_acquired _ _ [] [])|].
  apply rtc_refl.
Qed.


Lemma returned_stream_reused_witness :
  exists slot',
    (PooledAcquire (E := nat) (H := direct_builder 1) sample_http_key (fun _ => 69%Z)
       (PooledReturn (E := nat) (H := direct_builder 1) sample_slot 10 10
          (mkPooled 60 [] (mkDirect [])))).2 = Done (inr slot').
Proof.
  destruct (returned_stream_reused (E := nat) (H := direct_builder 1) sample_slot 10 10 sample_http_key
              (fun _ => 69%Z) (mkPooled 60 [] (mkDirect []))) as (slot' & i & Hd & _);
    [reflexivity|reflexivity|by vm_compute|intros i; reflexivity|].
  exists slot'. exact Hd.
Defined.
