(* ===== verification/PoolIndex.v ===== *)
(** * The pool as a hash table

    [PooledStreamBuilder] keeps its idle streams in an [unordered_map] with
    [ConnectionKeyHash] (stream_slot.h); [StreamBuilder] searches its keys one by one.
    Both find the same: [operator==] of keys, which leaves [proxy_ssl_ctx] out, is an
    equivalence that the hash respects. *)

From S2P Require Import Prelude Text StreamBuilder.

(** ** Keys up to [operator==] *)

#[global] Instance key_equiv : Equiv ConnectionKey := fun k l => key_eqb k l = true.

#[global] Instance key_equivalence : Equivalence (≡@{ConnectionKey}).
Proof.
  split.
  - intros k. apply key_eqb_refl.
  - intros k l. unfold equiv, key_equiv. rewrite !key_eqb_spec. naive_solver.
  - intros k l m. unfold equiv, key_equiv. rewrite !key_eqb_spec. intuition congruence.
Qed.

#[global] Instance key_eqb_proper : Proper ((≡@{ConnectionKey}) ==> (≡) ==> (=)) key_eqb.
Proof.
  intros k k' Hk l l' Hl. apply key_eqb_spec in Hk as (H1 & H2 & H3 & H4 & H5 & H6 & H7).
  apply key_eqb_spec in Hl as (L1 & L2 & L3 & L4 & L5 & L6 & L7).
  unfold key_eqb. by rewrite H1, H2, H3, H4, H5, H6, H7, L1, L2, L3, L4, L5, L6, L7.
Qed.

#[global] Instance pool_find_proper : Proper ((≡@{ConnectionKey}) ==> (=) ==> (=)) pool_find.
Proof.
  intros k k' Hk pool ? <-. induction pool as [|[l dq] pool IH]; [done|]. cbn. rewrite IH.
  by rewrite (key_eqb_proper l l (reflexivity l) k k' Hk).
Qed.

Section hash.
(** [std::hash] of strings, pointers and [bool]. *)
Context (hash_string : str -> Z) (hash_pointer : option nat -> Z) (hash_bool : bool -> Z).

(** On [std::size_t]: every sum and shift wraps around. *)
Definition combine (h v : Z) : Z :=
  Z.lxor h (to_size_t (to_size_t (to_size_t (v + 0x9e3779b9) + to_size_t (Z.shiftl h 6)) + Z.shiftr h 2)).

Definition ConnectionKeyHash (k : ConnectionKey) : Z :=
  foldl combine 0%Z
    [hash_string (scheme k); hash_string (host k); hash_string (port k); hash_pointer (ssl_ctx k);
     hash_bool (verify_peer k); hash_string (proxy_host k); hash_string (proxy_port k)].

Lemma combine_range h v : is_size_t h -> is_size_t (combine h v).
Proof.
  unfold is_size_t, size_t_mod. intros Hh. unfold combine. set (x := to_size_t _).
  assert (0 <= x < 2 ^ 64)%Z as Hx by apply to_size_t_range. split; [by apply Z.lxor_nonneg; lia|].
  destruct (Z.eq_dec (Z.lxor h x) 0) as [->|Hne]; [lia|].
  assert (0 <= Z.lxor h x)%Z by (apply Z.lxor_nonneg; lia). apply Z.log2_lt_pow2; [lia|].
  eapply Z.le_lt_trans; [apply Z.log2_lxor; lia|].
  assert (forall y, 0 <= y < 2 ^ 64 -> Z.log2 y < 64)%Z as Hlog.
  { intros y Hy. destruct (Z.eq_dec y 0) as [->|]; [done|]. apply Z.log2_lt_pow2; lia. }
  apply Z.max_lub_lt; by apply Hlog.
Qed.

(** The hash is a [std::size_t], and equal keys have the same. *)
Lemma hash_range k : is_size_t (ConnectionKeyHash k).
Proof. unfold ConnectionKeyHash. cbn [foldl]. repeat apply combine_range. unfold is_size_t, size_t_mod. lia. Qed.

#[global] Instance hash_proper : Proper ((≡@{ConnectionKey}) ==> (=)) ConnectionKeyHash.
Proof.
  intros k l Hk. apply key_eqb_spec in Hk as (H1 & H2 & H3 & H4 & H5 & H6 & H7).
  unfold ConnectionKeyHash. by rewrite H1, H2, H3, H4, H5, H6, H7.
Qed.

(** ** Searching a bucket *)

Definition bucket (n : Z) (k : ConnectionKey) (pool : list (ConnectionKey * list StreamSlot)) :
    list (ConnectionKey * list StreamSlot) :=
  filter (fun e => (ConnectionKeyHash e.1 mod n)%Z = (ConnectionKeyHash k mod n)%Z) pool.

(** The hash table finds what is there.  Whatever [std::hash] is and however many
    buckets there are, a search of the bucket of a key finds what a search of the
    whole pool finds, for every key equal to it. *)
Theorem bucket_search_complete (n : Z) (k l : ConnectionKey) (pool : list (ConnectionKey * list StreamSlot)) :
  k ≡ l -> pool_find l (bucket n k pool) = pool_find l pool.
Proof.
  intros Hk. unfold bucket. induction pool as [|[k' dq] pool IH]; [done|]. cbn [pool_find].
  destruct (key_eqb k' l) eqn:Hl.
  - rewrite filter_cons_True; [cbn [pool_find]; by rewrite Hl|]. cbn [fst]. f_equal.
    apply hash_proper. etrans; [exact Hl|by symmetry].
  - destruct (decide ((ConnectionKeyHash k' mod n)%Z = (ConnectionKeyHash k mod n)%Z)).
    + rewrite filter_cons_True by done. cbn [pool_find]. rewrite Hl. exact IH.
    + rewrite filter_cons_False by done. exact IH.
Qed.
End hash.
