(* ===== verification/ClientPipeline.v ===== *)
(** * Client pipeline: assembling a request and getting its stream

    The request assemblers of [src/src/connection/client/request_assembler.cc]
    (default, with cookies, through a proxy) and what they and the stream
    builders do together.  The abstract class [RequestAssembler] is a type
    class; [ProxyRequestAssembler] is proved against it.

    Of a request the assemblers read and write the target and the header
    fields.  [keep_alive] and [prepare_payload] are operations of Boost.Beast's
    message: parameters, of which only what they leave alone is used. *)

From S2P Require Import Prelude Text HttpFields ClientCookie CookieExchange StreamBuilder.

(** ** Requests and options *)

Record HttpClientRequest (F : Type) := mkRequest { target : str; fields : F }.
Arguments mkRequest {_} _ _.
Arguments target {_} _.
Arguments fields {_} _.

Record HttpClientOptions := mkOptions {
  user_agent : str;
  opt_keep_alive : bool;
  opt_verify_peer : bool;
}.

Record ProxyConfig := mkProxyConfig { cfg_host : str; cfg_port : str; cfg_auth : str }.

Definition enabled (p : ProxyConfig) : bool := negb (cfg_host p =s []).

(** What Boost.Beast's message operations leave alone. *)
Class BeastMessage (F : Type) `{HttpFields F} := {
  keep_alive : bool -> HttpClientRequest F -> HttpClientRequest F;
  prepare_payload : HttpClientRequest F -> HttpClientRequest F;
  keep_alive_target b r : target (keep_alive b r) = target r;
  prepare_payload_target r : target (prepare_payload r) = target r;
  keep_alive_fields b r k :
    IEquals k (lit "Connection") = false ->
    f_values k (fields (keep_alive b r)) = f_values k (fields r);
  prepare_payload_fields r k :
    IEquals k (lit "Content-Length") = false -> IEquals k (lit "Transfer-Encoding") = false ->
    f_values k (fields (prepare_payload r)) = f_values k (fields r);
}.

Section assemblers.
Context {F : Type} `{BeastMessage F}.

Definition has_field (k : str) (r : HttpClientRequest F) : bool :=
  negb (bool_decide (f_values k (fields r) = [])).

Definition set_field (k v : str) (r : HttpClientRequest F) : HttpClientRequest F :=
  mkRequest (target r) (f_set k v (fields r)).

Definition AssemblyResult : Type := HttpClientRequest F * ConnectionKey.

(** [Assemble], with the time it is called at. *)
Class RequestAssembler (A : Type) := {
  Assemble : HttpClientRequest F -> HttpClientOptions -> str -> str -> str -> option nat -> Z -> A ->
    A * AssemblyResult;
}.

(** The lines both assemblers begin with. *)
Definition set_defaults (r : HttpClientRequest F) (options : HttpClientOptions) (host : str) :
    HttpClientRequest F :=
  let r := if has_field (lit "Host") r then r else set_field (lit "Host") host r in
  let r :=
    if negb (has_field (lit "User-Agent") r) && negb (user_agent options =s [])
    then set_field (lit "User-Agent") (user_agent options) r else r in
  keep_alive (opt_keep_alive options) r.

(** The key both assemblers end with; the other fields have their defaults. *)
Definition target_key (options : HttpClientOptions) (scheme host port : str) (ssl_ctx : option nat) :
    ConnectionKey :=
  mkKey scheme host port ssl_ctx (opt_verify_peer options) [] [] None.

Definition DefaultAssemble (r : HttpClientRequest F) (options : HttpClientOptions)
    (scheme host port : str) (ssl_ctx : option nat) : AssemblyResult :=
  (prepare_payload (set_defaults r options host), target_key options scheme host port ssl_ctx).

#[local] Instance default_assembler : RequestAssembler unit := {
  Assemble r options scheme host port ssl_ctx _ a :=
    (a, DefaultAssemble r options scheme host port ssl_ctx);
}.

(** The jar of a session is its state. *)
Definition SessionAssemble (sort : list (nat * nat) -> list (nat * nat))
    (r : HttpClientRequest F) (options : HttpClientOptions) (scheme host port : str)
    (ssl_ctx : option nat) (now : Z) (cookies : list Cookie) : list Cookie * AssemblyResult :=
  let r := set_defaults r options host in
  let '(header, cookies) :=
    MaybeInjectCookies sort now (has_field (lit "Cookie") r) host (target r)
      (scheme =s lit "https") cookies in
  let r := match header with Some cookie => set_field (lit "Cookie") cookie r | None => r end in
  (cookies, (prepare_payload r, target_key options scheme host port ssl_ctx)).

#[local] Instance session_assembler sort : RequestAssembler (list Cookie) := {
  Assemble := SessionAssemble sort;
}.

(** ** [ProxyRequestAssembler] *)

Definition absolute_url (key : ConnectionKey) (original_target : str) : str :=
  lit "http://" ++ StreamBuilder.host key
  ++ (if port key =s lit "80" then [] else lit ":" ++ port key) ++ original_target.

Section proxy.
Context {A : Type} `{RequestAssembler A}.

Definition ProxyAssemble (proxy_ : ProxyConfig) (r : HttpClientRequest F)
    (options : HttpClientOptions) (scheme host port : str) (ssl_ctx : option nat) (now : Z)
    (inner_ : A) : A * AssemblyResult :=
  let '(inner_, (r, key)) := Assemble r options scheme host port ssl_ctx now inner_ in
  if negb (enabled proxy_) then (inner_, (r, key))
  else
    let is_https := StreamBuilder.scheme key =s lit "https" in
    let r := if is_https then r else mkRequest (absolute_url key (target r)) (fields r) in
    let key :=
      mkKey (StreamBuilder.scheme key) (StreamBuilder.host key) (StreamBuilder.port key)
        (if is_https then None else StreamBuilder.ssl_ctx key) (verify_peer key)
        (cfg_host proxy_) (cfg_port proxy_)
        (if is_https then StreamBuilder.ssl_ctx key else proxy_ssl_ctx key) in
    let r :=
      if cfg_auth proxy_ =s [] then r
      else set_field (lit "Proxy-Authorization") (cfg_auth proxy_) r in
    (inner_, (r, key)).
End proxy.

(** What the assemblers promise: the key names the target that was asked for,
    the request keeps its target. *)
Class AssemblerOk (A : Type) `{RequestAssembler A} := {
  assemble_key r options scheme host port ssl_ctx now a :
    (Assemble r options scheme host port ssl_ctx now a).2.2 =
      target_key options scheme host port ssl_ctx;
  assemble_target r options scheme host port ssl_ctx now a :
    target (Assemble r options scheme host port ssl_ctx now a).2.1 = target r;
}.

Lemma set_defaults_target r options host : target (set_defaults r options host) = target r.
Proof. unfold set_defaults. rewrite keep_alive_target. by repeat case_match. Qed.

#[local] Instance default_assembler_ok : AssemblerOk unit.
Proof. split; [done|]. intros. cbn. by rewrite prepare_payload_target, set_defaults_target. Qed.

#[local] Instance session_assembler_ok sort : AssemblerOk (list Cookie) (H1 := session_assembler sort).
Proof.
  split; intros; cbn; unfold SessionAssemble;
    destruct (MaybeInjectCookies _ _ _ _ _ _ _) as [[cookie|] jar]; cbn; [done..| |];
    rewrite prepare_payload_target; apply set_defaults_target.
Qed.

(** ** Through a proxy *)

Section through_proxy.
Context {A E : Type} `{AssemblerOk A}.
Context (invalid_argument protocol_error connection_refused : E).
Context (proxy_ : ProxyConfig) (options : HttpClientOptions) (host port : str).

(** What a client with a [ProxyRequestAssembler] and a [ProxyStreamBuilder]
    over a [DirectStreamBuilder] does for a request. *)
Definition proxied_stream (key : ConnectionKey) : net E (E + StreamSlot) :=
  (ProxyAcquire invalid_argument protocol_error connection_refused
     (H := direct_builder invalid_argument) key (fun _ => 0%Z) (mkProxy (mkDirect []))).2.

Lemma proxy_assemble_key r scheme ctx now a :
  enabled proxy_ = true ->
  (ProxyAssemble proxy_ r options scheme host port ctx now a).2.2 =
    if scheme =s lit "https"
    then mkKey scheme host port None (opt_verify_peer options) (cfg_host proxy_) (cfg_port proxy_) ctx
    else mkKey scheme host port ctx (opt_verify_peer options) (cfg_host proxy_) (cfg_port proxy_) None.
Proof.
  intros Hp. unfold ProxyAssemble.
  pose proof (assemble_key r options scheme host port ctx now a) as Hk.
  destruct (Assemble r options scheme host port ctx now a) as [a' [r' key]]. cbn in Hk. subst key.
  rewrite Hp. cbn [target_key negb StreamBuilder.scheme]. by destruct (scheme =s lit "https").
Qed.

(** The trace of a tunnel that is set up, and the slot it gives. *)
Definition tunnel_trace (ctx id : nat) (resp : str) (k : ConnectionKey) : list (event E) :=
  [Resolved (proxy_host k) (proxy_port k) None;
   Connected (proxy_host k) (proxy_port k) (inr id);
   Wrote (connect_request k) None;
   Received (inr resp);
   SniSet (StreamBuilder.host k) None;
   Handshaken (mkTls ctx (StreamBuilder.host k) (verify_peer k)) None].

Definition tunnel_slot (ctx id : nat) (k : ConnectionKey) : StreamSlot :=
  new_slot
    (SslStream (mkSocket id (proxy_host k, proxy_port k) (Some (connect_target k)))
       (mkTls ctx (StreamBuilder.host k) (verify_peer k)))
    k (StreamBuilder.host k).

(** The three stages of a tunnel, each with the runs that succeed. *)
Lemma plain_runs k tr slot :
  runs (DirectAcquire invalid_argument (proxy_key k)) tr (inr slot) <->
  exists id, tr = [Resolved (proxy_host k) (proxy_port k) None;
                   Connected (proxy_host k) (proxy_port k) (inr id)] /\
    slot = new_slot (TcpStream (mkSocket id (proxy_host k, proxy_port k) None)) (proxy_key k) [].
Proof.
  change (DirectAcquire invalid_argument (proxy_key k)) with
    (AsyncResolve (proxy_host k) (proxy_port k) (fun r : option E =>
       match r with Some e => fail e | None => DoDirectTcpConnect (proxy_key k) end)).
  unfold DoDirectTcpConnect. cbn [StreamBuilder.host StreamBuilder.port proxy_key]. split.
  - intros Hr. run_inv. by eexists.
  - intros (id & -> & ->). repeat constructor.
Qed.

Lemma connect_runs ctx k s tr slot :
  proxy_ssl_ctx k = Some ctx ->
  runs (DoProxyConnect invalid_argument protocol_error connection_refused k s) tr (inr slot) <->
  exists resp, connect_status resp = Some 200%Z /\
    tr = [Wrote (connect_request k) None; Received (inr resp); SniSet (StreamBuilder.host k) None;
          Handshaken (mkTls ctx (StreamBuilder.host k) (verify_peer k)) None] /\
    slot = new_slot (SslStream (mkSocket (socket_id s) (peer s) (Some (connect_target k)))
                       (mkTls ctx (StreamBuilder.host k) (verify_peer k))) k (StreamBuilder.host k).
Proof.
  intros Hc. unfold DoProxyConnect, DoProxyTlsHandshake. rewrite Hc. split.
  - intros Hr. run_inv. eexists. split; [|done].
    match goal with Hs : (_ =? 200)%Z = true |- _ => apply Z.eqb_eq in Hs as -> end. done.
  - intros (resp & Hs & -> & ->). do 2 constructor. rewrite Hs. repeat constructor.
Qed.

Lemma tunnel_runs ctx k tr slot :
  scheme k = lit "https" -> proxy_host k <> [] -> proxy_ssl_ctx k = Some ctx ->
  runs (proxied_stream k) tr (inr slot) <->
  exists id resp, connect_status resp = Some 200%Z /\ tr = tunnel_trace ctx id resp k /\
    slot = tunnel_slot ctx id k.
Proof.
  intros Hs Hh%str_eqb_neq Hc. unfold proxied_stream, ProxyAcquire, has_proxy.
  rewrite Hs, Hh, Hc, str_eqb_refl. cbn [andb orb negb bool_decide snd Acquire direct_builder].
  rewrite bool_decide_false by done. cbn [snd]. split.
  - intros (tr1 & tr2 & [e|s] & -> & Hr1 & Hr2)%runs_bind; [by inversion Hr2|].
    apply plain_runs in Hr1 as (id & -> & ->).
    apply (connect_runs ctx) in Hr2 as (resp & Hst & -> & ->); [|done]. by exists id, resp.
  - intros (id & resp & Hst & -> & ->).
    eapply (runs_bind_intro _ _ [_; _]); [apply plain_runs; by exists id|].
    apply (connect_runs ctx); [done|]. by exists resp.
Qed.

(** An https request through a proxy: the stream is given to the task
    exactly after connecting to the proxy, a CONNECT for the target answered
    with status 200, and a TLS handshake with the target, checked as the options
    say, in this order; nothing else is ever sent to the proxy in the clear. *)
Theorem https_proxy_tunnel r ctx now a :
  enabled proxy_ = true ->
  let key := (ProxyAssemble proxy_ r options (lit "https") host port (Some ctx) now a).2.2 in
  key = mkKey (lit "https") host port None (opt_verify_peer options) (cfg_host proxy_)
          (cfg_port proxy_) (Some ctx) /\
  forall tr slot,
    runs (proxied_stream key) tr (inr slot) <->
    exists id resp, connect_status resp = Some 200%Z /\ tr = tunnel_trace ctx id resp key /\
      slot = tunnel_slot ctx id key.
Proof.
  intros Hp key. subst key. rewrite proxy_assemble_key by done. rewrite str_eqb_refl.
  split; [done|]. intros tr slot. apply negb_true_iff, str_eqb_neq in Hp. by apply tunnel_runs.
Qed.

Lemma proxy_assemble_request r scheme ctx now a :
  enabled proxy_ = true ->
  let r' := (Assemble r options scheme host port ctx now a).2.1 in
  let r' := if scheme =s lit "https" then r'
            else mkRequest (absolute_url (target_key options scheme host port ctx) (target r')) (fields r') in
  (ProxyAssemble proxy_ r options scheme host port ctx now a).2.1 =
    if cfg_auth proxy_ =s [] then r'
    else set_field (lit "Proxy-Authorization") (cfg_auth proxy_) r'.
Proof.
  intros Hp. unfold ProxyAssemble.
  pose proof (assemble_key r options scheme host port ctx now a) as Hk.
  destruct (Assemble r options scheme host port ctx now a) as [a' [r' key]]. cbn in Hk. subst key.
  rewrite Hp. by cbn [target_key negb StreamBuilder.scheme fst snd].
Qed.

(** A plain http request through a proxy has its target rewritten to the
    absolute form a proxy needs, but the stream for its key is connected to the
    target host itself: no run connects anywhere else, so unless the proxy is
    the target, the proxy is bypassed. *)
Theorem http_proxy_bypassed r now a :
  enabled proxy_ = true ->
  let result := (ProxyAssemble proxy_ r options (lit "http") host port None now a).2 in
  target result.1 =
    lit "http://" ++ host ++ (if port =s lit "80" then [] else lit ":" ++ port) ++ target r /\
  proxy_host result.2 = cfg_host proxy_ /\
  (forall tr res, runs (proxied_stream result.2) tr res ->
     forall h p x, Connected h p x ∈ tr -> h = host /\ p = port) /\
  exists slot, runs (proxied_stream result.2) [Resolved host port None; Connected host port (inr 0)]
    (inr slot).
Proof.
  intros Hp result. subst result. split.
  { rewrite proxy_assemble_request by done. cbv zeta. change (lit "http" =s lit "https") with false.
    destruct (cfg_auth proxy_ =s []); cbn [target set_field]; by rewrite assemble_target. }
  rewrite proxy_assemble_key by done. change (lit "http" =s lit "https") with false.
  cbv iota. split; [done|].
  unfold proxied_stream, ProxyAcquire. cbn [scheme]. change (lit "http" =s lit "https") with false.
  rewrite andb_false_l. cbn [andb negb orb]. rewrite orb_true_r.
  cbn [Acquire direct_builder snd]. unfold DirectAcquire, DoDirectTcpConnect.
  cbn [scheme ssl_ctx StreamBuilder.host StreamBuilder.port].
  change (lit "http" =s lit "https") with false. rewrite andb_false_l. cbv iota. split.
  - intros tr res Hr h p x Hin. run_inv; set_solver.
  - eexists. repeat constructor.
Qed.
End through_proxy.

(** The credentials for the proxy are put on the request, which for https goes
    through the tunnel to the target; the key, all that the CONNECT request is
    made from, does not depend on them. *)
Theorem proxy_credentials_sent_to_target {A} `{AssemblerOk A} proxy_host proxy_port auth auth' r options
    host port ctx now (a : A) :
  proxy_host <> [] -> auth <> [] ->
  let assemble auth :=
    (ProxyAssemble (mkProxyConfig proxy_host proxy_port auth) r options (lit "https") host port
       (Some ctx) now a).2 in
  f_values (lit "Proxy-Authorization") (fields (assemble auth).1) = [auth] /\
  connect_request (assemble auth).2 = connect_request (assemble auth').2.
Proof.
  intros Hh Ha. assert (forall a, enabled (mkProxyConfig proxy_host proxy_port a) = true) as He.
  { intros x. unfold enabled. by apply negb_true_iff, str_eqb_neq. }
  cbv beta zeta. rewrite !proxy_assemble_key, proxy_assemble_request by done. split; [|done].
  cbn [cfg_auth]. apply str_eqb_neq in Ha as ->. cbn [fields set_field]. by rewrite f_values_set.
Qed.
End assemblers.

(** ** Samples *)

(** A message for the samples: the fields in a list, [keep_alive] as the
    Connection field, no body. *)
#[export] Program Instance sample_message : BeastMessage (list (str * str)) := {
  keep_alive b r :=
    mkRequest (target r)
      (f_set (lit "Connection") (if b then lit "keep-alive" else lit "close") (fields r));
  prepare_payload r := r;
}.
Next Obligation. done. Qed.
Next Obligation. done. Qed.
Next Obligation. intros b r k Hk. cbn [fields]. rewrite f_values_set. by rewrite IEquals_sym, Hk. Qed.
Next Obligation. done. Qed.

Definition sample_proxy : ProxyConfig := mkProxyConfig (lit "proxy.example") (lit "3128") (lit "Basic eA==").
Definition sample_options : HttpClientOptions := mkOptions [] false true.
Definition sample_request : HttpClientRequest (list (str * str)) := mkRequest (lit "/a") [].
Definition sample_answer : str := lit "HTTP/1.1 200 OK" ++ MultipartParser.crlf ++ MultipartParser.crlf.

Definition assembled (scheme : str) (ctx : option nat) : HttpClientRequest (list (str * str)) * ConnectionKey :=
  (ProxyAssemble (H1 := default_assembler) sample_proxy sample_request sample_options scheme
     (lit "origin.example") (lit "443") ctx 0 tt).2.

Lemma https_proxy_tunnel_witness :
  let key := (assembled (lit "https") (Some 4)).2 in
  runs (proxied_stream 1 2 3 key) (tunnel_trace 4 7 sample_answer key) (inr (tunnel_slot 4 7 key)).
Proof.
  destruct (https_proxy_tunnel (H2 := default_assembler_ok) 1 2 3 sample_proxy sample_options
              (lit "origin.example") (lit "443") sample_request 4 0 tt) as [_ Hr]; [reflexivity|].
  intros key. apply Hr. exists 7, sample_answer. repeat split; reflexivity.
Defined.

Lemma http_proxy_bypassed_witness :
  target (assembled (lit "http") None).1 = lit "http://origin.example:443/a" /\
  exists slot,
    runs (proxied_stream 1 2 3 (assembled (lit "http") None).2)
      [Resolved (lit "origin.example") (lit "443") None;
       Connected (lit "origin.example") (lit "443") (inr 0)] (inr slot).
Proof.
  destruct (http_proxy_bypassed (H2 := default_assembler_ok) 1 2 3 sample_proxy sample_options
              (lit "origin.example") (lit "443") sample_request 0 tt) as (Ht & _ & _ & Hr); [reflexivity|].
  split; [exact Ht|exact Hr].
Defined.
