(* ===== verification/ClientTask.v ===== *)
(** * The HTTP client task

    [src/src/connection/client/http_client_task_flow.cc], with the state of
    impl/http_client_task_impl.h and the factories of http_client_task.cc: one
    request from [Start] to its last callback.  The member functions run on the
    task's strand, so each is one step; what they start is listed in
    [operations] until it completes, what they post to the callback executor in
    [posted], and the slots given to the done hook in [returned].

    There is one exception.  [OnAcquireComplete] is bound to the strand, but the
    builder takes it as a [std::function] (stream_builder.h), which forgets the
    executor, so it runs on whatever thread the builder completes on, beside a
    [DoCancel] on the strand.  It is two steps: after the first the stream is in
    place, or the cancellation flag has been read, and a cancellation may come
    before the second.  (Torn accesses to [stream_] itself are not modelled.)

    Boost.Beast's parser is a value that a completed read replaces; the step
    relation says what reads do to it.  [stream_.Ssl()] and [stream_.Tcp()]
    assert that there is a stream: [asserted] turns false when an operation is
    started without one, or on one that was moved away. *)

From S2P Require Import Prelude Text HttpFields ClientCookie StreamBuilder ClientPipeline.
From S2P Require Import MultipartGenerator.

(** The error codes that the client tasks tell apart. *)
Inductive error_code :=
  | operation_aborted | end_of_stream | partial_message | eof | closed_by_peer
  | invalid_argument | not_connected | protocol_error
  | operation_not_permitted | operation_in_progress
  | ssl_error (n : nat)
  | other_error (n : nat).

#[export] Instance error_code_eq_dec : EqDecision error_code.
Proof. solve_decision. Defined.

(** ** Results *)

Inductive HttpClientStage := kConnected | kHeader | kChunk | kDone.

Inductive HttpClientErrorStage :=
  | kNone | kCreate | kResolve | kConnect | kTlsHandshake | kWriteRequest | kReadHeader | kReadBody.

#[export] Instance stage_eq_dec : EqDecision HttpClientStage.
Proof. solve_decision. Defined.

Definition ErrorStageToCallbackStage (s : HttpClientErrorStage) : HttpClientStage :=
  match s with
  | kCreate | kResolve | kConnect | kTlsHandshake => kConnected
  | kWriteRequest | kReadHeader => kHeader
  | kReadBody => kChunk
  | kNone => kDone
  end.

Record HttpResponseHeader (F : Type) := mkHeader {
  hdr_version : Z;
  hdr_result : Z;
  hdr_fields : F;
}.
Arguments mkHeader {_} _ _ _.
Arguments hdr_version {_} _.
Arguments hdr_result {_} _.
Arguments hdr_fields {_} _.

(** A message, with what [keep_alive()] says of it. *)
Record HttpClientResponse (F : Type) := mkResponse {
  rsp_header : HttpResponseHeader F;
  rsp_body : str;
  rsp_keep_alive : bool;
}.
Arguments mkResponse {_} _ _ _.
Arguments rsp_header {_} _.
Arguments rsp_body {_} _.
Arguments rsp_keep_alive {_} _.

Record HttpClientResult (F : Type) := mkResult {
  res_ec : option error_code;
  res_stage : HttpClientStage;
  res_error_stage : HttpClientErrorStage;
  res_cancelled : bool;
  res_header : option (HttpResponseHeader F);
  res_response : option (HttpClientResponse F);
  res_chunk : str;
}.
Arguments mkResult {_} _ _ _ _ _ _ _.
Arguments res_ec {_} _.
Arguments res_stage {_} _.
Arguments res_error_stage {_} _.
Arguments res_cancelled {_} _.
Arguments res_header {_} _.
Arguments res_response {_} _.
Arguments res_chunk {_} _.

(** [parser_]: the message so far and whether it is complete. *)
Record response_parser (F : Type) := mkParser { msg : HttpClientResponse F; is_done : bool }.
Arguments mkParser {_} _ _.
Arguments msg {_} _.
Arguments is_done {_} _.

(** ** The task *)

Inductive LifecycleState := kIdle | kRunning | kFinished.
Inductive CompletionState := kIncomplete | kSuccess | kFailure | kCancelled.
Inductive CancellationState := kNotCancelled | kRequested.

Record TaskOptions := mkTaskOptions {
  request_options : HttpClientOptions;
  write_timeout : Z;
  read_header_timeout : Z;
  read_body_timeout : Z;
  max_response_body_bytes : Z;
}.

(** What is posted to the strand or under way on the transport, with the
    timeout it runs under. *)
Inductive operation :=
  | PostedStart
  | PostedCancel
  | Acquiring (k : ConnectionKey)
  | TakingStream
  | FailingAcquire (ec : error_code) (cancelled : bool)
  | WritingRequest (timeout : Z)
  | ReadingHeader (timeout limit : Z)
  | ReadingBodyAll (timeout : Z)
  | ReadingBodySome (timeout : Z).

Record task_request (F : Type) := mkTaskRequest {
  request_ : HttpClientRequest F;
  host_ : str;
  port_ : str;
  target_ : str;
  use_ssl_ : bool;
  ssl_ctx_ : option nat;
  connection_key_ : ConnectionKey;
}.
Arguments mkTaskRequest {_} _ _ _ _ _ _ _.
Arguments request_ {_} _.
Arguments host_ {_} _.
Arguments port_ {_} _.
Arguments target_ {_} _.
Arguments use_ssl_ {_} _.
Arguments ssl_ctx_ {_} _.
Arguments connection_key_ {_} _.

Record task_state := mkState {
  lifecycle_state_ : LifecycleState;
  completion_state_ : CompletionState;
  cancellation_state_ : CancellationState;
  error_code_ : option error_code;
  error_stage_ : HttpClientErrorStage;
}.

(** A callback is an identity. *)
Record callbacks := mkCallbacks {
  on_connected_ : option nat;
  on_header_ : option nat;
  on_chunk_ : option nat;
  on_done_ : option nat;
}.

(** The socket of the stream: in use, closed by [Close], or moved away, which
    leaves the alternative of the variant in place. *)
Inductive socket_state := Open | Closed | Moved.

Record transport (F : Type) := mkTransport {
  stream_ : ClientStream;
  socket_ : socket_state;
  parser_ : option (response_parser F);
  last_emitted_body_size_ : nat;
}.
Arguments mkTransport {_} _ _ _ _.
Arguments stream_ {_} _.
Arguments socket_ {_} _.
Arguments parser_ {_} _.
Arguments last_emitted_body_size_ {_} _.

Record effects (F : Type) := mkEffects {
  operations : list operation;
  posted : list (nat * HttpClientResult F);
  returned : list StreamSlot;
  asserted : bool;
}.
Arguments mkEffects {_} _ _ _ _.
Arguments operations {_} _.
Arguments posted {_} _.
Arguments returned {_} _.
Arguments asserted {_} _.

Record HttpClientTask (F A : Type) := mkTask {
  options_ : TaskOptions;
  create_error_ : option (error_code * HttpClientErrorStage);
  done_hook_ : bool;
  assembler_ : option A;
  req : task_request F;
  cbs : callbacks;
  st : task_state;
  io : transport F;
  fx : effects F;
}.
Arguments mkTask {_ _} _ _ _ _ _ _ _ _ _.
Arguments options_ {_ _} _.
Arguments create_error_ {_ _} _.
Arguments done_hook_ {_ _} _.
Arguments assembler_ {_ _} _.
Arguments req {_ _} _.
Arguments cbs {_ _} _.
Arguments st {_ _} _.
Arguments io {_ _} _.
Arguments fx {_ _} _.

(** [OnResponseHeader] of the assemblers, at a time, for a host and a target. *)
Class HeaderSync (F A : Type) := {
  OnResponseHeader : Z -> F -> str -> str -> A -> A;
}.

#[export] Instance default_sync F : HeaderSync F unit := { OnResponseHeader _ _ _ _ a := a }.

Definition session_sync F `{HttpFields F} (get_time : str -> option tm) : HeaderSync F (list Cookie) := {|
  OnResponseHeader now header host target cookies :=
    ClientCookie.OnResponseHeader get_time now host target (f_values (lit "Set-Cookie") header) cookies
|}.

Section task.
Context {F A : Type} `{BeastMessage F} `{!RequestAssembler (F := F) A} `{!HeaderSync F A}.

Abbreviation Task := (HttpClientTask F A).
Abbreviation Result := (HttpClientResult F).

(** ** Setters *)

Definition set_st (s : task_state) (t : Task) : Task :=
  mkTask (options_ t) (create_error_ t) (done_hook_ t) (assembler_ t) (req t) (cbs t) s (io t) (fx t).

Definition set_io (x : transport F) (t : Task) : Task :=
  mkTask (options_ t) (create_error_ t) (done_hook_ t) (assembler_ t) (req t) (cbs t) (st t) x (fx t).

Definition set_fx (e : effects F) (t : Task) : Task :=
  mkTask (options_ t) (create_error_ t) (done_hook_ t) (assembler_ t) (req t) (cbs t) (st t) (io t) e.

Definition set_assembler (a : option A) (t : Task) : Task :=
  mkTask (options_ t) (create_error_ t) (done_hook_ t) a (req t) (cbs t) (st t) (io t) (fx t).

Definition set_req (r : task_request F) (t : Task) : Task :=
  mkTask (options_ t) (create_error_ t) (done_hook_ t) (assembler_ t) r (cbs t) (st t) (io t) (fx t).

Definition set_cbs (c : callbacks) (t : Task) : Task :=
  mkTask (options_ t) (create_error_ t) (done_hook_ t) (assembler_ t) (req t) c (st t) (io t) (fx t).

Definition set_lifecycle (l : LifecycleState) (t : Task) : Task :=
  set_st (mkState l (completion_state_ (st t)) (cancellation_state_ (st t)) (error_code_ (st t))
            (error_stage_ (st t))) t.

Definition set_parser (p : response_parser F) (t : Task) : Task :=
  set_io (mkTransport (stream_ (io t)) (socket_ (io t)) (Some p) (last_emitted_body_size_ (io t))) t.

Definition set_emitted (n : nat) (t : Task) : Task :=
  set_io (mkTransport (stream_ (io t)) (socket_ (io t)) (parser_ (io t)) n) t.

Definition set_stream (s : ClientStream) (t : Task) : Task :=
  set_io (mkTransport s (socket_ (io t)) (parser_ (io t)) (last_emitted_body_size_ (io t))) t.

(** [boost::asio::post] to the strand, or an asynchronous operation. *)
Definition start (o : operation) (t : Task) : Task :=
  set_fx (mkEffects (operations (fx t) ++ [o]) (posted (fx t)) (returned (fx t)) (asserted (fx t))) t.

(** An operation on [stream_.Ssl()] or [stream_.Tcp()]. *)
Definition start_io (o : operation) (t : Task) : Task :=
  match stream_ (io t), socket_ (io t) with
  | NoStream, _ | _, Moved =>
      set_fx (mkEffects (operations (fx t)) (posted (fx t)) (returned (fx t)) false) t
  | _, _ => start o t
  end.

(** ** Callbacks *)

(** An empty [std::function] un-sets a callback. *)
Definition SetOnConnected (cb : option nat) (t : Task) : Task :=
  set_cbs (mkCallbacks cb (on_header_ (cbs t)) (on_chunk_ (cbs t)) (on_done_ (cbs t))) t.
Definition SetOnHeader (cb : option nat) (t : Task) : Task :=
  set_cbs (mkCallbacks (on_connected_ (cbs t)) cb (on_chunk_ (cbs t)) (on_done_ (cbs t))) t.
Definition SetOnChunk (cb : option nat) (t : Task) : Task :=
  set_cbs (mkCallbacks (on_connected_ (cbs t)) (on_header_ (cbs t)) cb (on_done_ (cbs t))) t.
Definition SetOnDone (cb : option nat) (t : Task) : Task :=
  set_cbs (mkCallbacks (on_connected_ (cbs t)) (on_header_ (cbs t)) (on_chunk_ (cbs t)) cb) t.

Definition GetCallbackCopy (stage : HttpClientStage) (t : Task) : option nat :=
  match stage with
  | kConnected => on_connected_ (cbs t)
  | kHeader => on_header_ (cbs t)
  | kChunk => on_chunk_ (cbs t)
  | kDone => on_done_ (cbs t)
  end.

Definition GetDoneCallbackCopy (t : Task) : option nat := on_done_ (cbs t).

Definition HasChunkCallback (t : Task) : bool := bool_decide (on_chunk_ (cbs t) <> None).

Definition DispatchCallback (cb : nat) (result : Result) (t : Task) : Task :=
  set_fx (mkEffects (operations (fx t)) (posted (fx t) ++ [(cb, result)]) (returned (fx t))
            (asserted (fx t))) t.

Definition EmitStageByResult (result : Result) (t : Task) : Task :=
  match GetCallbackCopy (res_stage result) t with
  | None => t
  | Some cb => DispatchCallback cb result t
  end.

Definition EmitConnected (ec : option error_code) (t : Task) : Task :=
  match GetCallbackCopy kConnected t with
  | None => t
  | Some cb => DispatchCallback cb (mkResult ec kConnected kNone false None None []) t
  end.

Definition EmitHeader (header : HttpResponseHeader F) (ec : option error_code) (t : Task) : Task :=
  match GetCallbackCopy kHeader t with
  | None => t
  | Some cb => DispatchCallback cb (mkResult ec kHeader kNone false (Some header) None []) t
  end.

Definition EmitChunk (chunk : str) (t : Task) : Task :=
  match GetCallbackCopy kChunk t with
  | None => t
  | Some cb => DispatchCallback cb (mkResult None kChunk kNone false None None chunk) t
  end.

Definition EmitDone (result : Result) (t : Task) : Task :=
  match GetDoneCallbackCopy t with
  | None => t
  | Some cb => DispatchCallback cb result t
  end.

(** ** Completion *)

(** The slot made for the done hook; the stream is moved into it. *)
Definition call_done_hook (upstream_closed : bool) (t : Task) : Task :=
  if done_hook_ t then
    let slot := mkSlot (stream_ (io t)) (connection_key_ (req t)) [] 11 upstream_closed 0 None None true in
    let t := set_io (mkTransport (stream_ (io t)) Moved (parser_ (io t))
                       (last_emitted_body_size_ (io t))) t in
    set_fx (mkEffects (operations (fx t)) (posted (fx t)) (returned (fx t) ++ [slot])
              (asserted (fx t))) t
  else t.

(** Whether a failure with this error is told as a cancellation. *)
Definition fail_cancelled (ec : error_code) (t : Task) : bool :=
  match cancellation_state_ (st t) with
  | kRequested => true
  | kNotCancelled => bool_decide (ec = operation_aborted)
  end.

(** [Fail], from the point where that is known. *)
Definition Fail_with (cancelled : bool) (error_stage : HttpClientErrorStage) (ec : error_code) (t : Task) : Task :=
  match lifecycle_state_ (st t) with
  | kFinished => t
  | _ =>
      let t := set_st (mkState (lifecycle_state_ (st t)) (if cancelled then kCancelled else kFailure)
                         (cancellation_state_ (st t)) (Some ec) error_stage) t in
      let stage_result :=
        mkResult (Some ec) (ErrorStageToCallbackStage error_stage) error_stage cancelled None None [] in
      let t := EmitStageByResult stage_result t in
      let done_result := mkResult (Some ec) kDone error_stage cancelled None None [] in
      let t := EmitDone done_result t in
      call_done_hook true (set_lifecycle kFinished t)
  end.

Definition Fail (error_stage : HttpClientErrorStage) (ec : error_code) (t : Task) : Task :=
  Fail_with (fail_cancelled ec t) error_stage ec t.

Definition Succeed (response : HttpClientResponse F) (t : Task) : Task :=
  match lifecycle_state_ (st t) with
  | kFinished => t
  | _ =>
      let t := set_st (mkState (lifecycle_state_ (st t)) kSuccess (cancellation_state_ (st t))
                         (error_code_ (st t)) (error_stage_ (st t))) t in
      let t := EmitDone (mkResult None kDone kNone false None (Some response) []) t in
      call_done_hook (negb (rsp_keep_alive response)) (set_lifecycle kFinished t)
  end.

Definition Failed (t : Task) : bool :=
  match completion_state_ (st t) with kFailure | kCancelled => true | _ => false end.

(** ** The flow *)

Definition Start (t : Task) : Task := start PostedStart t.
Definition Cancel (t : Task) : Task := start PostedCancel t.

Definition DoWriteRequest (t : Task) : Task :=
  start_io (WritingRequest (write_timeout (options_ t))) t.

Definition DoAcquire (now : Z) (a : A) (t : Task) : Task :=
  let r := req t in
  let scheme := if use_ssl_ r then lit "https" else lit "http" in
  let '(a, (request, key)) :=
    Assemble (request_ r) (request_options (options_ t)) scheme (host_ r) (port_ r) (ssl_ctx_ r) now a in
  let t := set_assembler (Some a) t in
  let t := set_req (mkTaskRequest request (host key) (port key) (target request)
                      (StreamBuilder.scheme key =s lit "https") (ssl_ctx key) key) t in
  start (Acquiring key) t.

(** Whether the stream given to a raw task is of the kind it needs. *)
Definition raw_stream_ok (t : Task) : bool :=
  match stream_ (io t) with
  | NoStream => false
  | TcpStream _ => negb (use_ssl_ (req t))
  | SslStream _ _ => use_ssl_ (req t)
  end.

Definition DoStart (now : Z) (t : Task) : Task :=
  match lifecycle_state_ (st t) with
  | kIdle =>
      let t := set_lifecycle kRunning t in
      match create_error_ t with
      | Some (ec, stage) => Fail stage ec t
      | None =>
          match assembler_ t with
          | Some a => DoAcquire now a t
          | None =>
              if raw_stream_ok t then DoWriteRequest (EmitConnected None t)
              else Fail kCreate invalid_argument t
          end
      end
  | _ => t
  end.

Definition OnAcquireComplete (r : error_code + StreamSlot) (t : Task) : Task :=
  match r with
  | inl ec => Fail kConnect ec t
  | inr slot =>
      match StreamBuilder.stream_ slot with
      | NoStream => Fail kConnect invalid_argument t
      | s => DoWriteRequest (EmitConnected None (set_io (mkTransport s Open (parser_ (io t))
               (last_emitted_body_size_ (io t))) t))
      end
  end.

(** Its two pieces. *)
Definition begin_acquired (r : error_code + StreamSlot) (t : Task) : operation * Task :=
  match r with
  | inl ec => (FailingAcquire ec (fail_cancelled ec t), t)
  | inr slot =>
      match StreamBuilder.stream_ slot with
      | NoStream => (FailingAcquire invalid_argument (fail_cancelled invalid_argument t), t)
      | s => (TakingStream, set_io (mkTransport s Open (parser_ (io t)) (last_emitted_body_size_ (io t))) t)
      end
  end.

Definition start_acquired (r : error_code + StreamSlot) (t : Task) : Task :=
  let '(o, t) := begin_acquired r t in start o t.

Definition end_acquired (o : operation) (t : Task) : Task :=
  match o with
  | FailingAcquire ec cancelled => Fail_with cancelled kConnect ec t
  | _ => DoWriteRequest (EmitConnected None t)
  end.

Lemma OnAcquireComplete_pieces r t :
  OnAcquireComplete r t = end_acquired (begin_acquired r t).1 (begin_acquired r t).2.
Proof. destruct r as [ec|slot]; [done|]. cbn. by destruct (StreamBuilder.stream_ slot). Qed.

(** [parser_.emplace()]: a parser that has seen nothing. *)
Definition new_parser : response_parser F := mkParser (mkResponse (mkHeader 11 200 f_empty) [] true) false.

Definition OnWriteRequest (ec : option error_code) (t : Task) : Task :=
  match ec with
  | Some ec => Fail kWriteRequest ec t
  | None =>
      start_io (ReadingHeader (read_header_timeout (options_ t)) (max_response_body_bytes (options_ t)))
        (set_parser new_parser t)
  end.

Definition DoReadBodyAll (t : Task) : Task :=
  start_io (ReadingBodyAll (read_body_timeout (options_ t))) t.

Definition DoReadBodySome (t : Task) : Task :=
  start_io (ReadingBodySome (read_body_timeout (options_ t))) t.

(** The header is copied field by field with [set]. *)
Definition header_copy (p : response_parser F) : HttpResponseHeader F :=
  let h := rsp_header (msg p) in
  mkHeader (hdr_version h) (hdr_result h) (copy_by_set (hdr_fields h)).

Definition OnReadHeader (now : Z) (ec : option error_code) (p : response_parser F) (t : Task) : Task :=
  let t := set_parser p t in
  match ec with
  | Some ec => Fail kReadHeader ec t
  | None =>
      let header := header_copy p in
      let t :=
        match assembler_ t with
        | Some a =>
            set_assembler
              (Some (OnResponseHeader now (hdr_fields header) (host_ (req t)) (target_ (req t)) a)) t
        | None => t
        end in
      let t := EmitHeader header None t in
      if HasChunkCallback t then DoReadBodySome (set_emitted (length (rsp_body (msg p))) t)
      else DoReadBodyAll t
  end.

(** The two ends of a stream that a body read takes as the end of the body. *)
Definition body_end (ec : error_code) : bool :=
  bool_decide (ec = end_of_stream) || bool_decide (ec = partial_message).

Definition OnReadBodyAll (ec : option error_code) (p : response_parser F) (t : Task) : Task :=
  let t := set_parser p t in
  match ec with
  | Some e => if body_end e then Succeed (msg p) t else Fail kReadBody e t
  | None => Succeed (msg p) t
  end.

Definition body_read (p : response_parser F) (t : Task) : Task :=
  let body := rsp_body (msg p) in
  let n := last_emitted_body_size_ (io t) in
  let t := if n <? length body then set_emitted (length body) (EmitChunk (drop n body) t) else t in
  if is_done p then Succeed (msg p) t else DoReadBodySome t.

Definition OnReadBodySome (ec : option error_code) (p : response_parser F) (t : Task) : Task :=
  let t := set_parser p t in
  match ec with
  | Some e => if body_end e then body_read p t else Fail kReadBody e t
  | None => body_read p t
  end.

Definition CloseTransports (t : Task) : Task :=
  match stream_ (io t) with
  | NoStream => t
  | s => set_io (mkTransport s Closed (parser_ (io t)) (last_emitted_body_size_ (io t))) t
  end.

Definition DoCancel (t : Task) : Task :=
  match lifecycle_state_ (st t) with
  | kFinished => t
  | _ =>
      CloseTransports
        (set_st (mkState (lifecycle_state_ (st t)) (completion_state_ (st t)) kRequested
                   (error_code_ (st t)) (error_stage_ (st t))) t)
  end.

(** ** Factories *)

Definition default_key : ConnectionKey := mkKey [] [] [] None true [] [] None.

Definition no_callbacks : callbacks := mkCallbacks None None None None.

(** [Impl::Impl] *)
Definition make_impl (options : TaskOptions) (host port target : str) (use_ssl : bool)
    (ssl_ctx : option nat) : Task :=
  mkTask options None false None
    (mkTaskRequest (mkRequest target f_empty) host port target use_ssl ssl_ctx default_key)
    no_callbacks (mkState kIdle kIncomplete kNotCancelled None kNone)
    (mkTransport NoStream Open None 0) (mkEffects [] [] [] true).

Definition SetCreateError (ec : error_code) (stage : HttpClientErrorStage) (t : Task) : Task :=
  mkTask (options_ t) (Some (ec, stage)) (done_hook_ t) (assembler_ t) (req t) (cbs t) (st t) (io t) (fx t).

Definition SetDoneHook (t : Task) : Task :=
  mkTask (options_ t) (create_error_ t) true (assembler_ t) (req t) (cbs t) (st t) (io t) (fx t).

(** [CreateAssembledTask] and [CreateSessionTask]: the assembler is given. *)
Definition CreateAssembledTask (a : A) (options : TaskOptions) (scheme host port target : str)
    (ssl_ctx : option nat) (create_ec : option error_code) : Task :=
  let t := set_assembler (Some a)
             (make_impl options host port target (scheme =s lit "https") ssl_ctx) in
  match create_ec with Some ec => SetCreateError ec kCreate t | None => t end.

Definition CreateHttp (a : A) (options : TaskOptions) (host port target : str) : Task :=
  CreateAssembledTask a options (lit "http") host port target None None.

(** With the default context and the error of making it, or with a given one. *)
Definition CreateHttps (a : A) (options : TaskOptions) (host port target : str)
    (ssl_ctx : option nat) (create_ec : option error_code) : Task :=
  CreateAssembledTask a options (lit "https") host port target ssl_ctx create_ec.

Definition CreateFromUrl (parse_uri : str -> option url_view) (url : str) (a : A)
    (options : TaskOptions) (ssl_ctx : option nat) (create_ec : option error_code) : Task :=
  match ParseHttpUrl parse_uri url with
  | None => SetCreateError invalid_argument kCreate (make_impl options [] [] (lit "/") false None)
  | Some u =>
      if url_https u then
        CreateAssembledTask a options (lit "https") (url_host u) (url_port u) (url_target u) ssl_ctx create_ec
      else CreateAssembledTask a options (lit "http") (url_host u) (url_port u) (url_target u) None None
  end.

Definition CreateHttpRaw (options : TaskOptions) (s : socket) (host target : str) : Task :=
  set_stream (TcpStream s) (make_impl options host [] target false None).

Definition CreateHttpsRaw (options : TaskOptions) (s : socket) (session : tls) (host target : str) : Task :=
  set_stream (SslStream s session) (make_impl options host [] target true None).


(** ** The task and its environment *)

Definition set_operations (l : list operation) (t : Task) : Task :=
  set_fx (mkEffects l (posted (fx t)) (returned (fx t)) (asserted (fx t))) t.

(** A read appends to the body and leaves the header alone. *)
Definition grows (p p' : response_parser F) : Prop :=
  rsp_header (msg p') = rsp_header (msg p) /\ exists x, rsp_body (msg p') = rsp_body (msg p) ++ x.

Definition after_acquire (o : operation) : bool :=
  match o with TakingStream | FailingAcquire _ _ => true | _ => false end.

(** The user calls the task; operations complete in any order, each with any
    outcome.  Reading the header reads none of the body. *)
Inductive task_step : Task -> Task -> Prop :=
  | step_call_start t : task_step t (Start t)
  | step_call_cancel t : task_step t (Cancel t)
  | step_on_connected cb t : task_step t (SetOnConnected cb t)
  | step_on_header cb t : task_step t (SetOnHeader cb t)
  | step_on_chunk cb t : task_step t (SetOnChunk cb t)
  | step_on_done cb t : task_step t (SetOnDone cb t)
  | step_start now t l1 l2 :
      operations (fx t) = l1 ++ PostedStart :: l2 ->
      task_step t (DoStart now (set_operations (l1 ++ l2) t))
  | step_cancel t l1 l2 :
      operations (fx t) = l1 ++ PostedCancel :: l2 ->
      task_step t (DoCancel (set_operations (l1 ++ l2) t))
  | step_acquired r t k l1 l2 :
      operations (fx t) = l1 ++ Acquiring k :: l2 ->
      task_step t (start_acquired r (set_operations (l1 ++ l2) t))
  | step_acquire_done o t l1 l2 :
      operations (fx t) = l1 ++ o :: l2 -> after_acquire o = true ->
      task_step t (end_acquired o (set_operations (l1 ++ l2) t))
  | step_written ec t d l1 l2 :
      operations (fx t) = l1 ++ WritingRequest d :: l2 ->
      task_step t (OnWriteRequest ec (set_operations (l1 ++ l2) t))
  | step_header now ec p t d lim l1 l2 :
      operations (fx t) = l1 ++ ReadingHeader d lim :: l2 -> rsp_body (msg p) = [] ->
      task_step t (OnReadHeader now ec p (set_operations (l1 ++ l2) t))
  | step_body_all ec p p' t d l1 l2 :
      operations (fx t) = l1 ++ ReadingBodyAll d :: l2 -> parser_ (io t) = Some p -> grows p p' ->
      task_step t (OnReadBodyAll ec p' (set_operations (l1 ++ l2) t))
  | step_body_some ec p p' t d l1 l2 :
      operations (fx t) = l1 ++ ReadingBodySome d :: l2 -> parser_ (io t) = Some p -> grows p p' ->
      task_step t (OnReadBodySome ec p' (set_operations (l1 ++ l2) t)).

(** A step that does not un-set the callback. *)
Definition keeping (cb : callbacks -> option nat) (t t' : Task) : Prop :=
  task_step t t' /\ (cb (cbs t) <> None -> cb (cbs t') <> None).

(** What the factories make, and what is set before the start. *)
Record fresh (t : Task) : Prop := {
  fresh_st : st t = mkState kIdle kIncomplete kNotCancelled None kNone;
  fresh_fx : fx t = mkEffects [] [] [] true;
  fresh_socket : socket_ (io t) = Open;
  fresh_create : forall ec stage, create_error_ t = Some (ec, stage) -> stage = kCreate;
}.

(** ** What a task shows to the outside *)

Definition stages (t : Task) : list HttpClientStage := (fun x => res_stage x.2) <$> posted (fx t).

Definition chunk_of (r : Result) : str :=
  match res_stage r with kChunk => res_chunk r | _ => [] end.

(** The text handed to the chunk callback so far. *)
Definition chunks (t : Task) : str := concat ((fun x => chunk_of x.2) <$> posted (fx t)).

Definition responses (t : Task) : list (HttpClientResponse F) :=
  omap (fun x => res_response x.2) (posted (fx t)).

(** The order of callbacks as an automaton: connected once, header once, any
    number of chunks, done once. *)
Definition accept (n : nat) (s : HttpClientStage) : option nat :=
  match s with
  | kConnected => if n =? 0 then Some 1 else None
  | kHeader => if n <=? 1 then Some 2 else None
  | kChunk => if n <=? 2 then Some 2 else None
  | kDone => if n <=? 2 then Some 3 else None
  end.

Definition run_order (n : nat) (l : list HttpClientStage) : option nat :=
  foldl (fun o s => o ≫= fun n => accept n s) (Some n) l.

Lemma run_order_snoc n l s : run_order n (l ++ [s]) = run_order n l ≫= fun m => accept m s.
Proof. unfold run_order. by rewrite foldl_app. Qed.

(** The transport operations among those under way. *)
Definition is_transport (o : operation) : bool :=
  match o with PostedStart | PostedCancel => false | _ => true end.

Definition transport_ops (t : Task) : list operation :=
  filter (fun o => is_transport o = true) (operations (fx t)).

(** ** The invariant *)

Section invariant.
(** Whether a chunk and a done callback were there from the beginning, to stay. *)
Context (chunked with_done : bool).

Record kept (t : Task) : Prop := {
  kept_asserted : asserted (fx t) = true;
  kept_chunk : chunked = true -> on_chunk_ (cbs t) <> None;
  kept_done : with_done = true -> on_done_ (cbs t) <> None;
  kept_create : forall ec stage, create_error_ t = Some (ec, stage) -> stage = kCreate;
}.

(** Callbacks up to the stage [limit], and no answer yet. *)
Record progress (limit : nat) (t : Task) : Prop := {
  progress_order : exists n, run_order 0 (stages t) = Some n /\ n <= limit;
  progress_responses : responses t = [];
  progress_returned : returned (fx t) = [];
}.

(** The task has not come to its end. *)
Record undone (t : Task) : Prop := {
  undone_completion : completion_state_ (st t) = kIncomplete;
  undone_socket : socket_ (io t) <> Moved;
}.

Definition has_stream (t : Task) : Prop := stream_ (io t) <> NoStream.

(** What holds while the operation is the one under way. *)
Definition phase (o : operation) (t : Task) : Prop :=
  match o with
  | PostedStart | PostedCancel => False
  | Acquiring k => progress 0 t /\ chunks t = [] /\ k = connection_key_ (req t)
  | TakingStream => progress 0 t /\ chunks t = [] /\ has_stream t
  | FailingAcquire _ _ => progress 0 t /\ chunks t = []
  | WritingRequest d =>
      progress 1 t /\ chunks t = [] /\ has_stream t /\ d = write_timeout (options_ t)
  | ReadingHeader d lim =>
      progress 1 t /\ chunks t = [] /\ has_stream t /\ d = read_header_timeout (options_ t) /\
      lim = max_response_body_bytes (options_ t)
  | ReadingBodyAll d =>
      progress 2 t /\ chunked = false /\ has_stream t /\ d = read_body_timeout (options_ t) /\
      is_Some (parser_ (io t))
  | ReadingBodySome d =>
      progress 2 t /\ has_stream t /\ d = read_body_timeout (options_ t) /\
      exists p, parser_ (io t) = Some p /\ (chunked = true ->
        last_emitted_body_size_ (io t) <= length (rsp_body (msg p)) /\
        chunks t = take (last_emitted_body_size_ (io t)) (rsp_body (msg p)))
  end.

Record finished (t : Task) : Prop := {
  finished_ops : transport_ops t = [];
  finished_order : exists n, run_order 0 (stages t) = Some n /\ (with_done = true -> n = 3);
  finished_completion : completion_state_ (st t) <> kIncomplete;
  finished_returned : length (returned (fx t)) = if done_hook_ t then 1 else 0;
  finished_response :
    forall r, r ∈ responses t -> completion_state_ (st t) = kSuccess /\ (chunked = true -> chunks t = rsp_body r);
}.

Definition task_inv (t : Task) : Prop :=
  kept t /\
  match lifecycle_state_ (st t) with
  | kIdle => undone t /\ transport_ops t = [] /\ progress 0 t /\ chunks t = []
  | kRunning => undone t /\ exists o, transport_ops t = [o] /\ phase o t
  | kFinished => finished t
  end.

(** *** Dispatching *)

Lemma stages_dispatch cb r t : stages (DispatchCallback cb r t) = stages t ++ [res_stage r].
Proof. unfold stages. cbn [DispatchCallback set_fx fx posted]. by rewrite fmap_app. Qed.

Lemma task_chunks_dispatch cb r t : chunks (DispatchCallback cb r t) = chunks t ++ chunk_of r.
Proof.
  unfold chunks. cbn [DispatchCallback set_fx fx posted]. rewrite fmap_app, concat_app. cbn.
  by rewrite app_nil_r.
Qed.

Lemma responses_dispatch cb r t :
  responses (DispatchCallback cb r t) = responses t ++ option_list (res_response r).
Proof.
  unfold responses. cbn [DispatchCallback set_fx fx posted]. rewrite omap_app. cbn.
  by destruct (res_response r).
Qed.

(** Every emission is a dispatch, if its callback is set. *)
Definition emit (cb : option nat) (r : Result) (t : Task) : Task :=
  match cb with None => t | Some cb => DispatchCallback cb r t end.

Lemma accept_mono m limit s n :
  accept limit s = Some n -> m <= limit -> exists n', accept m s = Some n' /\ n' <= n.
Proof.
  destruct s; cbn; intros Ha Hm; repeat case_match; simplify_eq;
    rewrite ?Nat.eqb_eq, ?Nat.leb_le, ?Nat.leb_gt, ?Nat.eqb_neq in *; try lia; eauto.
Qed.

Lemma accept_ge limit s n : accept limit s = Some n -> limit <= n.
Proof. destruct s; cbn; intros; case_match; simplify_eq; rewrite ?Nat.eqb_eq, ?Nat.leb_le in *; lia. Qed.

Lemma order_emit limit cb r t n :
  (exists m, run_order 0 (stages t) = Some m /\ m <= limit) -> accept limit (res_stage r) = Some n ->
  exists m, run_order 0 (stages (emit cb r t)) = Some m /\ m <= n /\ (cb <> None -> res_stage r = kDone -> m = 3).
Proof.
  intros (m & Ho & Hm) Ha. destruct cb as [cb|]; cbn [emit].
  - destruct (accept_mono m _ _ _ Ha Hm) as (n' & Ha' & Hn'). exists n'.
    rewrite stages_dispatch, run_order_snoc, Ho. split; [done|]. split; [done|]. intros _ Hs.
    rewrite Hs in Ha'. cbn in Ha'. by case_match; simplify_eq.
  - exists m. apply accept_ge in Ha. split; [done|]. split; [lia|done].
Qed.

Lemma progress_emit limit cb r t n :
  progress limit t -> res_response r = None -> accept limit (res_stage r) = Some n ->
  progress n (emit cb r t).
Proof.
  intros [Ho Hr Hret] Hnone Ha. destruct (order_emit _ cb _ _ _ Ho Ha) as (m & Hm & Hle & _).
  constructor; [by exists m|..]; destruct cb; cbn [emit]; try done.
  by rewrite responses_dispatch, Hnone, Hr.
Qed.

(** *** The end of a task *)

Lemma kept_emit cb r t : kept t -> kept (emit cb r t).
Proof. intros []. by destruct cb. Qed.

(** The effects of the hook, whose slot is the only thing it adds. *)
Lemma call_done_hook_fields b t :
  let t' := call_done_hook b t in
  operations (fx t') = operations (fx t) /\ posted (fx t') = posted (fx t) /\
  length (returned (fx t')) = length (returned (fx t)) + (if done_hook_ t then 1 else 0) /\
  asserted (fx t') = asserted (fx t) /\ st t' = st t /\ cbs t' = cbs t /\
  create_error_ t' = create_error_ t /\ done_hook_ t' = done_hook_ t.
Proof.
  unfold call_done_hook. destruct (done_hook_ t) eqn:Hh; cbn [set_fx set_io fx operations posted returned asserted st
    cbs create_error_ done_hook_]; rewrite ?length_app; repeat split; try done; cbn; lia.
Qed.

Lemma finish b r t :
  kept t -> transport_ops t = [] -> progress 2 t -> res_stage r = kDone ->
  completion_state_ (st t) <> kIncomplete ->
  (forall x, res_response r = Some x ->
     completion_state_ (st t) = kSuccess /\ (chunked = true -> chunks t = rsp_body x)) ->
  task_inv (call_done_hook b (set_lifecycle kFinished (EmitDone r t))).
Proof.
  intros Hk Hops [Ho Hresp Hret] Hst Hcs Hr. change (EmitDone r t) with (emit (on_done_ (cbs t)) r t).
  destruct (order_emit 2 (on_done_ (cbs t)) r t 3 Ho) as (m & Hm & _ & Hd); [by rewrite Hst|].
  assert (chunk_of r = []) as Hchunk by (unfold chunk_of; by rewrite Hst).
  pose proof (kept_emit (on_done_ (cbs t)) r t Hk) as Hk'.
  assert (done_hook_ (emit (on_done_ (cbs t)) r t) = done_hook_ t
    /\ returned (fx (emit (on_done_ (cbs t)) r t)) = [] /\ st (emit (on_done_ (cbs t)) r t) = st t
    /\ operations (fx (emit (on_done_ (cbs t)) r t)) = operations (fx t)
    /\ forall x, x ∈ responses (emit (on_done_ (cbs t)) r t) -> res_response r = Some x
         /\ chunks (emit (on_done_ (cbs t)) r t) = chunks t) as (Hhook & Hret' & Hst' & Hops' & Hresp').
  { destruct (on_done_ (cbs t)); cbn [emit]; [|by rewrite Hresp; split_and!; try done; intros ? ?%elem_of_nil].
    rewrite responses_dispatch, Hresp, task_chunks_dispatch, Hchunk, app_nil_r. split_and!; try done.
    intros x. destruct (res_response r); cbn; [|by intros ?%elem_of_nil].
    by intros ->%list_elem_of_singleton. }
  assert (with_done = true -> m = 3) as Hm3 by (intros Hw; apply Hd; [by apply Hk|done]).
  set (t1 := emit (on_done_ (cbs t)) r t) in *. clearbody t1.
  destruct (call_done_hook_fields b (set_lifecycle kFinished t1)) as (F1 & F2 & F3 & F4 & F5 & F6 & F7 & F8).
  cbn [set_lifecycle set_st fx cbs create_error_ done_hook_ st] in *.
  destruct Hk' as [K1 K2 K3 K4]. split; [by constructor; rewrite ?F4, ?F6, ?F7|].
  rewrite F5. cbn [lifecycle_state_]. constructor.
  - unfold transport_ops. by rewrite F1, Hops'.
  - exists m. unfold stages. by rewrite F2.
  - by rewrite F5, Hst'.
  - rewrite F3, F8, Hret', Hhook. done.
  - intros x. unfold responses, chunks. rewrite F2, F5. intros Hx. cbn [completion_state_].
    destruct (Hresp' x Hx) as [Hx' Hch]. rewrite Hst'. fold (chunks t1). rewrite Hch. by apply Hr.
Qed.

Lemma Fail_inv c s e limit n t :
  lifecycle_state_ (st t) <> kFinished -> kept t -> transport_ops t = [] -> progress limit t ->
  accept limit (ErrorStageToCallbackStage s) = Some n -> n <= 2 -> task_inv (Fail_with c s e t).
Proof.
  intros Hl Hk Hops Hp Ha Hn. unfold Fail_with.
  set (t1 := set_st _ t). set (sr := mkResult (Some e) (ErrorStageToCallbackStage s) s _ None None []).
  assert (progress limit t1) as Hp1 by (by destruct Hp).
  assert (kept t1) as Hk1 by (by destruct Hk).
  set (t2 := EmitStageByResult sr t1). set (dr := mkResult (Some e) kDone s _ None None []).
  change t2 with (emit (GetCallbackCopy (res_stage sr) t1) sr t1) in *.
  assert (task_inv (call_done_hook true (set_lifecycle kFinished
    (EmitDone dr (emit (GetCallbackCopy (res_stage sr) t1) sr t1))))) as Hgoal.
  { apply finish; try done.
    - by apply kept_emit.
    - by destruct (GetCallbackCopy (res_stage sr) t1).
    - destruct (progress_emit limit (GetCallbackCopy (res_stage sr) t1) sr t1 n Hp1 eq_refl Ha)
        as [(m & Hm & ?) ? ?]. constructor; [exists m; split; [done|lia]|done..].
    - destruct (GetCallbackCopy (res_stage sr) t1); cbn; by repeat case_match. }
  by destruct (lifecycle_state_ (st t)).
Qed.

Lemma Succeed_inv r t :
  lifecycle_state_ (st t) <> kFinished -> kept t -> transport_ops t = [] -> progress 2 t ->
  (chunked = true -> chunks t = rsp_body r) -> task_inv (Succeed r t).
Proof.
  intros Hl Hk Hops Hp Hr. unfold Succeed.
  destruct (lifecycle_state_ (st t)) eqn:Hlife; [..|done];
  (apply finish; try done; [by destruct Hk|by destruct Hp|]; by intros x [= <-]).
Qed.
(** *** Starting and completing operations *)

(** Facts about a part of the task survive a change of another part. *)
Lemma kept_frame t t' :
  asserted (fx t') = asserted (fx t) -> cbs t' = cbs t -> create_error_ t' = create_error_ t ->
  kept t -> kept t'.
Proof. intros H1 H2 H3 []. constructor; by rewrite ?H1, ?H2, ?H3. Qed.

Lemma progress_frame limit t t' :
  posted (fx t') = posted (fx t) -> returned (fx t') = returned (fx t) ->
  progress limit t -> progress limit t'.
Proof. intros H1 H2 []. unfold stages, responses in *. constructor; unfold stages, responses; by rewrite ?H1, ?H2. Qed.

Lemma progress_weaken limit limit' t : limit <= limit' -> progress limit t -> progress limit' t.
Proof. intros ? [(n & ? & ?) ? ?]. constructor; [exists n; split; [done|lia]|done..]. Qed.

Lemma transport_ops_start o t :
  is_transport o = true -> transport_ops (start o t) = transport_ops t ++ [o].
Proof.
  intros Ho. unfold transport_ops. cbn [start set_fx fx operations].
  by rewrite filter_app, filter_cons_True, filter_nil.
Qed.

Lemma transport_ops_remove o t l1 l2 :
  operations (fx t) = l1 ++ o :: l2 ->
  if is_transport o
  then forall x, transport_ops t = [x] -> o = x /\ transport_ops (set_operations (l1 ++ l2) t) = []
  else transport_ops (set_operations (l1 ++ l2) t) = transport_ops t.
Proof.
  unfold transport_ops. cbn [set_operations set_fx fx operations]. intros ->. rewrite !filter_app.
  destruct (is_transport o) eqn:Ho.
  - rewrite filter_cons_True by done. intros x. destruct (filter _ l1) as [|y l]; cbn.
    + intros Hx. injection Hx as -> Hl. by rewrite Hl.
    + intros Hx. injection Hx as _ Hl. by destruct l.
  - by rewrite filter_cons_False by (by rewrite Ho).
Qed.

Lemma task_start_inv o t :
  lifecycle_state_ (st t) = kRunning -> kept t -> undone t -> transport_ops t = [] ->
  is_transport o = true -> phase o t -> task_inv (start o t).
Proof.
  intros Hl Hk Hu Hops Ho Hph. split; [by apply (kept_frame t)|].
  cbn [start set_fx st]. rewrite Hl. split; [by destruct Hu|]. exists o.
  rewrite transport_ops_start, Hops by done. split; [done|].
  assert (forall n, progress n t -> progress n (start o t)) as Hp by (intros n; by apply progress_frame).
  destruct o; cbn [phase] in *; intuition.
Qed.

Lemma start_io_inv o t :
  lifecycle_state_ (st t) = kRunning -> kept t -> undone t -> transport_ops t = [] ->
  has_stream t -> is_transport o = true -> phase o t -> task_inv (start_io o t).
Proof.
  intros Hl Hk Hu Hops Hs Ho Hph. pose proof (task_start_inv o t Hl Hk Hu Hops Ho Hph) as Hinv.
  unfold start_io, has_stream in *. destruct Hu as [_ Hm].
  by destruct (stream_ (io t)), (socket_ (io t)).
Qed.

(** *** The handlers *)

(** The state a handler of a transport operation finds: running, with nothing
    else under way. *)
Record handling (t : Task) : Prop := {
  handling_life : lifecycle_state_ (st t) = kRunning;
  handling_kept : kept t;
  handling_undone : undone t;
  handling_ops : transport_ops t = [];
}.

Lemma handling_frame t t' :
  st t' = st t -> fx t' = fx t -> cbs t' = cbs t -> create_error_ t' = create_error_ t ->
  socket_ (io t') <> Moved -> handling t -> handling t'.
Proof.
  intros H1 H2 H3 H4 H5 [L K [U _] O]. unfold transport_ops in *.
  constructor; [by rewrite H1|by apply (kept_frame t); rewrite ?H2|constructor; [by rewrite H1|done]|].
  unfold transport_ops. by rewrite H2.
Qed.

Lemma handling_emit cb r t : handling t -> handling (emit cb r t).
Proof.
  intros [L K U O]. destruct cb; [|done]. constructor; try done; [by apply (kept_emit (Some _))|].
  by destruct U.
Qed.

Lemma Fail_handling c s e limit n t :
  handling t -> progress limit t -> accept limit (ErrorStageToCallbackStage s) = Some n -> n <= 2 ->
  task_inv (Fail_with c s e t).
Proof. intros [] ? ? ?. eapply Fail_inv; eauto. congruence. Qed.

Lemma chunks_emit cb r t : chunk_of r = [] -> chunks (emit cb r t) = chunks t.
Proof. intros Hc. destruct cb; cbn [emit]; [|done]. by rewrite task_chunks_dispatch, Hc, app_nil_r. Qed.

Lemma task_write_inv t :
  handling t -> progress 0 t -> chunks t = [] -> has_stream t ->
  task_inv (DoWriteRequest (EmitConnected None t)).
Proof.
  intros Hh Hp Hc Hs. unfold DoWriteRequest. set (r := mkResult (F := F) None kConnected kNone false None None []).
  change (EmitConnected None t) with (emit (on_connected_ (cbs t)) r t).
  pose proof (progress_emit 0 (on_connected_ (cbs t)) r t 1 Hp eq_refl eq_refl) as Hp1.
  pose proof (chunks_emit (on_connected_ (cbs t)) r t eq_refl) as Hc1.
  destruct (handling_emit (on_connected_ (cbs t)) r t Hh) as [L K U O].
  assert (has_stream (emit (on_connected_ (cbs t)) r t)) as Hs1 by (by destruct (on_connected_ (cbs t))).
  apply start_io_inv; try done. cbn [phase]. rewrite Hc1. by split_and!.
Qed.

(** Close the goal of a failing branch. *)
Ltac fails := eapply Fail_handling; [done|done|reflexivity|lia].

Lemma begin_acquired_inv r t :
  handling t -> progress 0 t -> chunks t = [] ->
  task_inv (start_acquired r t).
Proof.
  intros Hh Hp Hc. unfold start_acquired. assert (forall ec c, task_inv (start (FailingAcquire ec c) t)) as Hfail
    by (intros ec c; destruct Hh as [L K U O]; by apply task_start_inv).
  destruct r as [ec|slot]; cbn [begin_acquired]; [apply Hfail|].
  destruct (StreamBuilder.stream_ slot) as [|s|s tl] eqn:Hs; [apply Hfail|..];
    (match goal with |- task_inv (start _ ?x) => assert (handling x) as [L K U O] by by apply (handling_frame t) end);
    (apply task_start_inv; try done; cbn [phase]; split_and!; try done; by apply (progress_frame 0 t)).
Qed.

Lemma end_acquired_inv o t :
  after_acquire o = true -> handling t -> phase o t -> task_inv (end_acquired o t).
Proof.
  intros Ho Hh Hph. destruct o; try done; cbn [end_acquired phase] in *.
  - destruct Hph as (? & ? & ?). by apply task_write_inv.
  - destruct Hph as [? ?]. by fails.
Qed.

Lemma OnWriteRequest_inv ec t :
  handling t -> progress 1 t -> chunks t = [] -> has_stream t -> task_inv (OnWriteRequest ec t).
Proof.
  intros Hh Hp Hc Hs. destruct ec as [ec|]; cbn [OnWriteRequest]; [by fails|].
  assert (handling (set_parser new_parser t)) as [L K U O]
    by (apply (handling_frame t); try done; apply Hh).
  apply start_io_inv; try done. cbn [phase]. split_and!; try done. by apply (progress_frame 1 t).
Qed.

Lemma OnReadHeader_inv now ec p t :
  handling t -> progress 1 t -> chunks t = [] -> has_stream t -> rsp_body (msg p) = [] ->
  task_inv (OnReadHeader now ec p t).
Proof.
  intros Hh Hp Hc Hs Hb. unfold OnReadHeader. cbv zeta.
  assert (handling (set_parser p t)) as Hh1 by (apply (handling_frame t); try done; apply Hh).
  assert (progress 1 (set_parser p t)) as Hp1 by (by apply (progress_frame 1 t)).
  destruct ec as [ec|]; [by fails|].
  set (r := mkResult None kHeader kNone false (Some (header_copy p)) None []).
  match goal with |- context [EmitHeader _ None ?x] => set (t2 := x) end.
  assert (handling t2 /\ progress 1 t2 /\ chunks t2 = [] /\ has_stream t2 /\ parser_ (io t2) = Some p
          /\ options_ t2 = options_ t) as (Hh2 & Hp2 & Hc2 & Hs2 & Hpar & Hopt).
  { subst t2. destruct (assembler_ (set_parser p t)); split_and!; try done.
    - apply (handling_frame (set_parser p t)); try done. apply Hh1.
    - by apply (progress_frame 1 (set_parser p t)). }
  clearbody t2.
  change (EmitHeader (header_copy p) None t2) with (emit (on_header_ (cbs t2)) r t2).
  pose proof (progress_emit 1 (on_header_ (cbs t2)) r t2 2 Hp2 eq_refl eq_refl) as Hp3.
  pose proof (handling_emit (on_header_ (cbs t2)) r t2 Hh2) as Hh3.
  pose proof (chunks_emit (on_header_ (cbs t2)) r t2 eq_refl) as Hc3.
  assert (has_stream (emit (on_header_ (cbs t2)) r t2) /\
          parser_ (io (emit (on_header_ (cbs t2)) r t2)) = Some p) as [Hs3 Hpar3]
    by (by destruct (on_header_ (cbs t2))).
  set (t3 := emit (on_header_ (cbs t2)) r t2) in *. clearbody t3. rewrite Hc2 in Hc3.
  unfold HasChunkCallback. case_bool_decide as Hcb.
  - assert (handling (set_emitted (length (rsp_body (msg p))) t3)) as [L K U O]
      by (apply (handling_frame t3); try done; apply Hh3).
    apply start_io_inv; try done. cbn [phase]. rewrite Hb. split_and!; try done.
    + by apply (progress_frame 2 t3).
    + exists p. by rewrite Hb.
  - destruct Hh3 as [L K U O]. apply start_io_inv; try done. cbn [phase]. split_and!; try done.
    apply not_true_is_false. intros E. by destruct (kept_chunk _ K E).
Qed.

Lemma OnReadBodyAll_inv ec p t :
  handling t -> progress 2 t -> chunked = false -> task_inv (OnReadBodyAll ec p t).
Proof.
  intros Hh Hp Hc. unfold OnReadBodyAll. cbv zeta.
  assert (handling (set_parser p t)) as Hh1 by (apply (handling_frame t); try done; apply Hh).
  assert (progress 2 (set_parser p t)) as Hp1 by (by apply (progress_frame 2 t)).
  assert (task_inv (Succeed (msg p) (set_parser p t))) as Hsucc.
  { destruct Hh1 as [L K U O]. apply Succeed_inv; try done; [by rewrite L|by rewrite Hc]. }
  destruct ec as [ec|]; [|done]. destruct (body_end ec); [done|by fails].
Qed.

Lemma body_read_inv p t :
  handling t -> progress 2 t -> has_stream t -> parser_ (io t) = Some p ->
  (chunked = true -> last_emitted_body_size_ (io t) <= length (rsp_body (msg p)) /\
     chunks t = take (last_emitted_body_size_ (io t)) (rsp_body (msg p))) ->
  task_inv (body_read p t).
Proof.
  intros Hh Hp Hs Hpar Hch. unfold body_read. cbv zeta.
  set (n := last_emitted_body_size_ (io t)) in *. set (body := rsp_body (msg p)) in *.
  match goal with |- task_inv (if _ then Succeed _ ?x else _) => set (t1 := x) end.
  assert (handling t1 /\ progress 2 t1 /\ has_stream t1 /\ parser_ (io t1) = Some p /\
    (chunked = true -> last_emitted_body_size_ (io t1) = length body /\ chunks t1 = body))
    as (Hh1 & Hp1 & Hs1 & Hpar1 & Hch1).
  { subst t1. destruct (n <? length body) eqn:Hn.
    - set (r := mkResult (F := F) None kChunk kNone false None None (drop n body)).
      change (EmitChunk (drop n body) t) with (emit (on_chunk_ (cbs t)) r t).
      split_and!; [|apply (progress_frame 2 (emit (on_chunk_ (cbs t)) r t)); try done; by apply (progress_emit 2)
        |by destruct (on_chunk_ (cbs t))|by destruct (on_chunk_ (cbs t))|].
      + apply (handling_frame (emit (on_chunk_ (cbs t)) r t)); try done; [destruct (on_chunk_ (cbs t)); apply Hh|].
        by apply handling_emit.
      + intros Hc. split; [done|]. destruct (Hch Hc) as [_ Ht]. change (chunks (emit (on_chunk_ (cbs t)) r t) = body).
        pose proof (kept_chunk _ (handling_kept _ Hh) Hc) as Hon. destruct (on_chunk_ (cbs t)) as [cb|]; [|done].
        cbn [emit]. rewrite task_chunks_dispatch, Ht. apply take_drop.
    - apply Nat.ltb_ge in Hn. split_and!; try done. intros Hc. destruct (Hch Hc) as [Hle Ht].
      assert (n = length body) as Hn' by lia. split; [done|]. by rewrite Ht, Hn', firstn_all. }
  clearbody t1. destruct (is_done p).
  - destruct Hh1 as [L K U O]. apply Succeed_inv; try done; [by rewrite L|]. intros Hc. by apply Hch1.
  - destruct Hh1 as [L K U O]. apply start_io_inv; try done. cbn [phase]. split_and!; try done.
    exists p. split; [done|]. intros Hc. destruct (Hch1 Hc) as [-> ->]. split; [done|]. by rewrite firstn_all.
Qed.

Lemma OnReadBodySome_inv ec p p' t :
  handling t -> progress 2 t -> has_stream t ->
  (chunked = true -> last_emitted_body_size_ (io t) <= length (rsp_body (msg p)) /\
     chunks t = take (last_emitted_body_size_ (io t)) (rsp_body (msg p))) -> grows p p' ->
  task_inv (OnReadBodySome ec p' t).
Proof.
  intros Hh Hp Hs Hch [_ [x Hx]]. unfold OnReadBodySome. cbv zeta.
  assert (handling (set_parser p' t)) as Hh1 by (apply (handling_frame t); try done; apply Hh).
  assert (progress 2 (set_parser p' t)) as Hp1 by (by apply (progress_frame 2 t)).
  assert (task_inv (body_read p' (set_parser p' t))) as Hread.
  { apply body_read_inv; try done. cbn [set_parser set_io io last_emitted_body_size_]. intros Hc.
    destruct (Hch Hc) as [Hle Ht]. rewrite Hx. split; [rewrite length_app; lia|]. rewrite take_app_le by done. exact Ht. }
  destruct ec as [ec|]; [|done]. destruct (body_end ec); [done|by fails].
Qed.

Lemma DoStart_inv now t : task_inv t -> task_inv (DoStart now t).
Proof.
  intros Hinv. unfold DoStart. destruct (lifecycle_state_ (st t)) eqn:Hl; [|done..].
  destruct Hinv as [Hk Hi]. rewrite Hl in Hi. destruct Hi as (Hu & Hops & Hp & Hc).
  assert (handling (set_lifecycle kRunning t)) as Hh 
    by (constructor; [done|by apply (kept_frame t)|by destruct Hu|done]).
  assert (progress 0 (set_lifecycle kRunning t)) as Hp1 by (by apply (progress_frame 0 t)).
  change (create_error_ (set_lifecycle kRunning t)) with (create_error_ t).
  destruct (create_error_ t) as [[ec stage]|] eqn:He.
  { destruct Hk as [_ _ _ Hcr]. rewrite (Hcr _ _ He). by fails. }
  change (assembler_ (set_lifecycle kRunning t)) with (assembler_ t).
  destruct (assembler_ t) as [a|].
  - unfold DoAcquire. cbv zeta. destruct (Assemble _ _ _ _ _ _ now a) as [a' [request key]].
    destruct Hh as [L K U O].
    apply task_start_inv; [done|by apply (kept_frame t)|by destruct U|done..|].
    cbn [phase]. split_and!; try done. by apply (progress_frame 0 (set_lifecycle kRunning t)).
  - destruct (raw_stream_ok _) eqn:Hraw; [|by fails]. apply task_write_inv; try done.
    unfold raw_stream_ok, has_stream in *. cbn [set_lifecycle set_st io] in *. by destruct (stream_ (io t)).
Qed.

Lemma phase_frame o t t' :
  posted (fx t') = posted (fx t) -> returned (fx t') = returned (fx t) -> options_ t' = options_ t ->
  req t' = req t ->
  stream_ (io t') = stream_ (io t) -> parser_ (io t') = parser_ (io t) ->
  last_emitted_body_size_ (io t') = last_emitted_body_size_ (io t) -> phase o t -> phase o t'.
Proof.
  intros H1 H2 H3 H4 H6 H7 H8.
  assert (forall n, progress n t -> progress n t') as Hp by (intros n; by apply progress_frame).
  unfold phase, chunks, has_stream. rewrite H1, H3, H4, H6, H7, H8.
  destruct o; intuition.
Qed.

(** What neither callbacks nor the end of the task depend on. *)
Lemma task_inv_frame t t' :
  asserted (fx t') = asserted (fx t) -> transport_ops t' = transport_ops t ->
  posted (fx t') = posted (fx t) -> returned (fx t') = returned (fx t) ->
  options_ t' = options_ t -> req t' = req t -> create_error_ t' = create_error_ t ->
  done_hook_ t' = done_hook_ t -> lifecycle_state_ (st t') = lifecycle_state_ (st t) ->
  completion_state_ (st t') = completion_state_ (st t) ->
  (chunked = true -> on_chunk_ (cbs t) <> None -> on_chunk_ (cbs t') <> None) ->
  (with_done = true -> on_done_ (cbs t) <> None -> on_done_ (cbs t') <> None) ->
  stream_ (io t') = stream_ (io t) -> parser_ (io t') = parser_ (io t) ->
  last_emitted_body_size_ (io t') = last_emitted_body_size_ (io t) ->
  (socket_ (io t) <> Moved -> socket_ (io t') <> Moved) ->
  task_inv t -> task_inv t'.
Proof.
  intros E1 E2 E3 E4 E5 E6 E7 E8 E9 E10 E11 E12 E13 E14 E15 E16 [[K1 K2 K3 K4] Hi].
  split; [constructor; rewrite ?E1, ?E7; auto|]. rewrite E9.
  assert (undone t -> undone t') as Hu by (intros []; constructor; [by rewrite E10|auto]).
  destruct (lifecycle_state_ (st t)).
  - rewrite E2. unfold chunks in *. rewrite E3. destruct Hi as (? & ? & Hp & ?). split_and!; auto.
    by apply (progress_frame 0 t).
  - destruct Hi as (? & o & Ho & Hph). split; [auto|]. exists o. rewrite E2. split; [done|].
    by apply (phase_frame o t).
  - destruct Hi as [F1 F2 F3 F4 F5]. unfold stages, responses, chunks in *.
    constructor; unfold stages, responses, chunks; by rewrite ?E2, ?E3, ?E4, ?E8, ?E10.
Qed.

Lemma DoCancel_inv t : task_inv t -> task_inv (DoCancel t).
Proof.
  intros Hinv. unfold DoCancel, CloseTransports.
  destruct (lifecycle_state_ (st t)) eqn:Hl; [..|done]; cbn [set_st io];
    destruct (stream_ (io t)) eqn:Hs; apply (task_inv_frame t); try done; cbn; congruence.
Qed.

Lemma transport_ops_post o t :
  is_transport o = false -> transport_ops (start o t) = transport_ops t.
Proof.
  intros Ho. unfold transport_ops. cbn [start set_fx fx operations].
  by rewrite filter_app, filter_cons_False, filter_nil, app_nil_r by (by rewrite Ho).
Qed.

(** A handler of a posted call leaves the transport operations alone. *)
Lemma posted_inv o t l1 l2 :
  is_transport o = false -> operations (fx t) = l1 ++ o :: l2 -> task_inv t ->
  task_inv (set_operations (l1 ++ l2) t).
Proof.
  intros Ho Hops. pose proof (transport_ops_remove _ _ _ _ Hops) as Hr. rewrite Ho in Hr.
  by apply task_inv_frame.
Qed.

(** A completed transport operation is the one under way, and its phase holds. *)
Lemma completed_inv o t l1 l2 :
  operations (fx t) = l1 ++ o :: l2 -> task_inv t -> is_transport o = true ->
  handling (set_operations (l1 ++ l2) t) /\ phase o t.
Proof.
  intros Hops [Hk Hi] Ho. pose proof (transport_ops_remove _ _ _ _ Hops) as Hr. rewrite Ho in Hr.
  assert (transport_ops t <> []) as Hne.
  { unfold transport_ops. rewrite Hops, filter_app, filter_cons_True by done. by intros [_ ?]%app_nil. }
  destruct (lifecycle_state_ (st t)) eqn:Hl.
  - by destruct Hi as (_ & ? & _).
  - destruct Hi as (Hu & x & Hx & Hph). destruct (Hr x Hx) as [-> Hops']. split; [|done].
    constructor; [done|by apply (kept_frame t)|by destruct Hu|done].
  - by destruct Hi.
Qed.

Lemma task_step_inv t t' :
  task_step t t' -> (chunked = true -> on_chunk_ (cbs t) <> None -> on_chunk_ (cbs t') <> None) ->
  (with_done = true -> on_done_ (cbs t) <> None -> on_done_ (cbs t') <> None) ->
  task_inv t -> task_inv t'.
Proof.
  intros Hstep Hkc Hkd Hinv. destruct Hstep as [t|t|cb t|cb t|cb t|cb t|now t l1 l2 Ho|t l1 l2 Ho|r t k l1 l2 Ho
    |o t l1 l2 Ho Ha|ec t d l1 l2 Ho|now ec p t d lim l1 l2 Ho Hb|ec p p' t d l1 l2 Ho Hpar Hg|ec p p' t d l1 l2 Ho Hpar Hg].
  1-2: by apply (task_inv_frame t); try done; apply transport_ops_post.
  1-4: by apply (task_inv_frame t).
  1: by apply DoStart_inv, (posted_inv PostedStart).
  1: by apply DoCancel_inv, (posted_inv PostedCancel).
  2: { assert (is_transport o = true) as Ht by (by destruct o).
       destruct (completed_inv _ _ _ _ Ho Hinv Ht) as [Hh Hph]. apply end_acquired_inv; [done|done|].
       by apply (phase_frame _ t). }
  all: destruct (completed_inv _ _ _ _ Ho Hinv eq_refl) as [Hh Hph];
    apply (phase_frame _ _ (set_operations (l1 ++ l2) t)) in Hph; try done.
  - destruct Hph as (? & ? & _). by apply begin_acquired_inv.
  - destruct Hph as (? & ? & ? & _). by apply OnWriteRequest_inv.
  - destruct Hph as (? & ? & ? & _). by apply OnReadHeader_inv.
  - destruct Hph as (? & ? & _). by apply OnReadBodyAll_inv.
  - destruct Hph as (? & ? & _ & p0 & Hp0 & ?). cbn in Hp0. simplify_eq.
    by eapply OnReadBodySome_inv.
Qed.
End invariant.

Lemma fresh_inv chunked with_done t :
  fresh t -> (chunked = true -> on_chunk_ (cbs t) <> None) -> (with_done = true -> on_done_ (cbs t) <> None) ->
  task_inv chunked with_done t.
Proof.
  intros [H1 H2 H3 H4] Hc Hd. split.
  - constructor; [by rewrite H2|done..].
  - rewrite H1. unfold transport_ops, chunks. rewrite H2. cbn. split_and!; try done.
    + constructor; [by rewrite H1|by rewrite H3].
    + constructor; unfold stages, responses; rewrite H2; [|done..].
      by exists 0.
Qed.

(** Of any run, and of one that keeps a callback. *)
Lemma task_steps_inv t t' : fresh t -> rtc task_step t t' -> task_inv false false t'.
Proof.
  intros Hf Hs. refine (rtc_invariant task_step (task_inv false false) _ _ _ Hs _); [|by apply fresh_inv].
  intros a b Ha Hab. by eapply task_step_inv.
Qed.

Lemma kept_chunk_inv t t' :
  fresh t -> on_chunk_ (cbs t) <> None -> rtc (keeping on_chunk_) t t' -> task_inv true false t'.
Proof.
  intros Hf Hc Hs. refine (rtc_invariant (keeping on_chunk_) (task_inv true false) _ _ _ Hs _); [|by apply fresh_inv].
  intros a b Ha [Hab Hk]. eapply task_step_inv; [done|by intros _|done|done].
Qed.

Lemma kept_done_inv t t' :
  fresh t -> on_done_ (cbs t) <> None -> rtc (keeping on_done_) t t' -> task_inv false true t'.
Proof.
  intros Hf Hc Hs. refine (rtc_invariant (keeping on_done_) (task_inv false true) _ _ _ Hs _); [|by apply fresh_inv].
  intros a b Ha [Hab Hk]. eapply task_step_inv; [done|done|by intros _|done].
Qed.

(** ** Theorems *)

(** The shape of the callbacks of a task. *)
Definition callback_order (l : list HttpClientStage) : Prop :=
  exists a b c d, a <= 1 /\ b <= 1 /\ d <= 1 /\
    l = replicate a kConnected ++ replicate b kHeader ++ replicate c kChunk ++ replicate d kDone.

Lemma run_order_shape l n :
  run_order 0 l = Some n ->
  exists a b c d, a <= 1 /\ b <= 1 /\
    l = replicate a kConnected ++ replicate b kHeader ++ replicate c kChunk ++ replicate d kDone /\
    (n = 0 -> a = 0 /\ b = 0 /\ c = 0 /\ d = 0) /\ (n = 1 -> b = 0 /\ c = 0 /\ d = 0) /\
    (n = 2 -> d = 0) /\ (n = 3 -> d = 1) /\ n <= 3.
Proof.
  revert n. induction l as [|s l IH] using rev_ind; intros n.
  { intros [= <-]. exists 0, 0, 0, 0. cbn. split_and!; lia || done. }
  rewrite run_order_snoc. destruct (run_order 0 l) as [m|]; [|done]. cbn.
  destruct (IH m eq_refl) as (a & b & c & d & Ha & Hb & -> & H0' & H1 & H2 & H3 & H4). clear IH.
  destruct s; cbn; case_match eqn:E; intros; simplify_eq; rewrite ?Nat.eqb_eq, ?Nat.leb_le in E.
  - exists 1, 0, 0, 0. destruct (H0' E) as (-> & -> & -> & ->). cbn. split_and!; lia || done.
  - exists a, 1, 0, 0. assert (b = 0 /\ c = 0 /\ d = 0) as (-> & -> & ->).
    { destruct (decide (m = 0)); [destruct H0'; [done|tauto]|apply H1; lia]. }
    cbn. rewrite app_nil_r. split_and!; lia || done.
  - exists a, b, (S c), 0. assert (d = 0) as ->.
    { destruct (decide (m = 0)); [apply H0'; done|]. destruct (decide (m = 1)); [apply H1; done|apply H2; lia]. }
    cbn [replicate]. rewrite !app_nil_r, <- !app_assoc, <- replicate_cons_app. split_and!; lia || done.
  - exists a, b, c, 1. assert (d = 0) as ->.
    { destruct (decide (m = 0)); [apply H0'; done|]. destruct (decide (m = 1)); [apply H1; done|apply H2; lia]. }
    cbn [replicate]. rewrite app_nil_r, <- !app_assoc. split_and!; lia || done.
Qed.

Lemma order_before_done l n : run_order 0 l = Some n -> n <= 2 -> callback_order l /\ kDone ∉ l.
Proof.
  intros (a & b & c & d & Ha & Hb & -> & H0' & H1 & H2 & H3 & H4)%run_order_shape Hn.
  assert (d = 0) as ->.
  { destruct (decide (n = 0)); [apply H0'; done|]. destruct (decide (n = 1)); [apply H1; done|apply H2; lia]. }
  split; [exists a, b, c, 0; split_and!; lia || done|].
  rewrite !elem_of_app, !elem_of_replicate. naive_solver.
Qed.

Lemma order_finished l n :
  run_order 0 l = Some n -> callback_order l /\ (n = 3 -> exists l', l = l' ++ [kDone] /\ kDone ∉ l').
Proof.
  intros (a & b & c & d & Ha & Hb & -> & H0' & H1 & H2 & H3 & H4)%run_order_shape. split.
  - exists a, b, c, d. split_and!; try done.
    destruct (decide (n = 0)); [destruct H0' as (_ & _ & _ & ->); [done|lia]|].
    destruct (decide (n = 1)); [destruct H1 as (_ & _ & ->); [done|lia]|].
    destruct (decide (n = 2)); [rewrite H2 by done; lia|]. rewrite H3 by lia. lia.
  - intros Hn. rewrite (H3 Hn). exists (replicate a kConnected ++ replicate b kHeader ++ replicate c kChunk).
    rewrite <- !app_assoc. split; [done|]. rewrite !elem_of_app, !elem_of_replicate. naive_solver.
Qed.

(** C27. One request, one life.  However the user calls the task, sets and un-sets its
    callbacks, whatever comes back, in whatever order, and also if a cancellation
    falls into the completion of the acquisition, which does not run on the strand:
    the callbacks posted are connected, header,
    chunks and done, in this order and each but the chunks at most once; a
    running task has exactly one transport operation under way, has not called
    done and not given its stream to a done hook; a finished one has none, has called done
    as its last callback if it had one from the start that was not un-set, and has
    given its stream to the done hook exactly once if one is set (the factories set
    none, and then the stream stays with the task).  No operation is ever started
    without a stream. *)
Theorem client_task_protocol (t t' : Task) :
  fresh t -> rtc task_step t t' ->
  asserted (fx t') = true /\ callback_order (stages t') /\
  match lifecycle_state_ (st t') with
  | kIdle => transport_ops t' = [] /\ returned (fx t') = []
  | kRunning =>
      (exists o, transport_ops t' = [o]) /\ kDone ∉ stages t' /\ returned (fx t') = [] /\
      completion_state_ (st t') = kIncomplete
  | kFinished =>
      transport_ops t' = [] /\ completion_state_ (st t') <> kIncomplete /\
      length (returned (fx t')) = (if done_hook_ t' then 1 else 0) /\
      (on_done_ (cbs t) <> None -> rtc (keeping on_done_) t t' ->
       exists l, stages t' = l ++ [kDone] /\ kDone ∉ l)
  end.
Proof.
  intros Hf Hs. destruct (task_steps_inv _ _ Hf Hs) as [[Ha _ _ _] Hi].
  pose proof (kept_done_inv t t' Hf) as Hkd.
  split; [done|]. destruct (lifecycle_state_ (st t')) eqn:Hl.
  - destruct Hi as (_ & Hops & [(n & Ho & Hn) _ Hr] & _). destruct (order_before_done _ _ Ho); [lia|done].
  - destruct Hi as ([Hc _] & o & Hops & Hph).
    assert (progress 2 t') as [(n & Ho & Hn) _ Hr].
    { destruct o; cbn [phase] in Hph; [done|done|..]; destruct Hph as [Hp _]; revert Hp;
        apply progress_weaken; lia. }
    destruct (order_before_done _ _ Ho Hn). split_and!; try done. by exists o.
  - destruct Hi as [Hops (n & Ho & _) Hc Hr _]. destruct (order_finished _ _ Ho) as [Hord _].
    split_and!; try done. intros Hon Hk. destruct (Hkd Hon Hk) as [_ Hi]. rewrite Hl in Hi.
    destruct Hi as [_ (m & Hm & Hn) _ _ _]. destruct (order_finished _ _ Hm) as [_ Hd]. by apply Hd, Hn.
Qed.

(** C28. Nothing of a body is lost.  With a chunk callback set before the start, and
    not un-set afterwards,
    the chunks posted so far are a beginning of the body read so far, and when
    the response is delivered they are its whole body. *)
Theorem chunks_are_the_body (t t' : Task) :
  fresh t -> on_chunk_ (cbs t) <> None -> rtc (keeping on_chunk_) t t' ->
  (forall r, r ∈ responses t' -> chunks t' = rsp_body r) /\
  (lifecycle_state_ (st t') = kRunning ->
   chunks t' = [] \/ exists p, parser_ (io t') = Some p /\ chunks t' `prefix_of` rsp_body (msg p)).
Proof.
  intros Hf Hc Hs. destruct (kept_chunk_inv _ _ Hf Hc Hs) as [_ Hi]. split.
  - intros r Hr. destruct (lifecycle_state_ (st t')).
    + destruct Hi as (_ & _ & [_ Hn _] & _). rewrite Hn in Hr. by apply elem_of_nil in Hr.
    + destruct Hi as (_ & o & _ & Hph). destruct o; cbn [phase] in Hph; [done|done|..];
        destruct Hph as [[_ Hn _] _]; rewrite Hn in Hr; by apply elem_of_nil in Hr.
    + destruct Hi as [_ _ _ _ Hresp]. by apply Hresp.
  - intros Hl. rewrite Hl in Hi. destruct Hi as (_ & o & _ & Hph).
    destruct o; cbn [phase] in Hph; [done|done|left; tauto..|by destruct Hph as (_ & ? & _)|].
    destruct Hph as (_ & _ & _ & p & Hp & Hch). right. exists p. split; [done|].
    destruct (Hch eq_refl) as [_ ->]. eexists. symmetry. apply take_drop.
Qed.

(** *** Termination *)

Definition rank (t : Task) : nat :=
  match transport_ops t with
  | [Acquiring _] => 5
  | [TakingStream] | [FailingAcquire _ _] => 4
  | [WritingRequest _] => 3
  | [ReadingHeader _ _] => 2
  | [ReadingBodyAll _] | [ReadingBodySome _] => 1
  | _ => 0
  end.

(** A transport operation completes; a partial read of the body counts only if
    it ends the body or fails. *)
Inductive transport_step : Task -> Task -> Prop :=
  | transport_acquired r t k l1 l2 :
      operations (fx t) = l1 ++ Acquiring k :: l2 ->
      transport_step t (start_acquired r (set_operations (l1 ++ l2) t))
  | transport_acquire_done o t l1 l2 :
      operations (fx t) = l1 ++ o :: l2 -> after_acquire o = true ->
      transport_step t (end_acquired o (set_operations (l1 ++ l2) t))
  | transport_written ec t d l1 l2 :
      operations (fx t) = l1 ++ WritingRequest d :: l2 ->
      transport_step t (OnWriteRequest ec (set_operations (l1 ++ l2) t))
  | transport_header now ec p t d lim l1 l2 :
      operations (fx t) = l1 ++ ReadingHeader d lim :: l2 -> rsp_body (msg p) = [] ->
      transport_step t (OnReadHeader now ec p (set_operations (l1 ++ l2) t))
  | transport_body_all ec p p' t d l1 l2 :
      operations (fx t) = l1 ++ ReadingBodyAll d :: l2 -> parser_ (io t) = Some p -> grows p p' ->
      transport_step t (OnReadBodyAll ec p' (set_operations (l1 ++ l2) t))
  | transport_body_some ec p p' t d l1 l2 :
      operations (fx t) = l1 ++ ReadingBodySome d :: l2 -> parser_ (io t) = Some p -> grows p p' ->
      is_done p' = true \/ (exists e, ec = Some e /\ body_end e = false) ->
      transport_step t (OnReadBodySome ec p' (set_operations (l1 ++ l2) t)).

Lemma transport_step_task t t' : transport_step t t' -> task_step t t'.
Proof. destruct 1; econstructor; eauto. Qed.

Lemma rank_ops t t' : transport_ops t' = transport_ops t -> rank t' = rank t.
Proof. intros Hops. unfold rank. by rewrite Hops. Qed.

Lemma transport_ops_emit cb r t : transport_ops (emit cb r t) = transport_ops t.
Proof. by destruct cb. Qed.

Lemma transport_ops_hook b t : transport_ops (call_done_hook b t) = transport_ops t.
Proof.
  destruct (call_done_hook_fields b t) as [Hops _]. unfold transport_ops. by rewrite Hops.
Qed.

Lemma transport_ops_Fail c s e t : transport_ops (Fail_with c s e t) = transport_ops t.
Proof.
  unfold Fail_with. set (sr := mkResult (Some e) (ErrorStageToCallbackStage s) s _ None None []).
  destruct (lifecycle_state_ (st t)); [..|done]; rewrite transport_ops_hook;
    match goal with |- context [EmitDone ?r (EmitStageByResult sr ?x)] =>
      change (transport_ops (emit (on_done_ (cbs (EmitStageByResult sr x))) r
        (emit (GetCallbackCopy (res_stage sr) x) sr x)) = transport_ops t)
    end; by rewrite !transport_ops_emit.
Qed.

Lemma transport_ops_Succeed r t : transport_ops (Succeed r t) = transport_ops t.
Proof.
  unfold Succeed. destruct (lifecycle_state_ (st t)); [..|done]; rewrite transport_ops_hook;
    match goal with |- context [EmitDone ?r ?x] =>
      change (transport_ops (emit (on_done_ (cbs x)) r x) = transport_ops t)
    end; by rewrite transport_ops_emit.
Qed.

Lemma completed_op chunked with_done o t l1 l2 :
  operations (fx t) = l1 ++ o :: l2 -> task_inv chunked with_done t -> is_transport o = true ->
  transport_ops t = [o] /\ transport_ops (set_operations (l1 ++ l2) t) = [] /\
  lifecycle_state_ (st (set_operations (l1 ++ l2) t)) <> kIdle.
Proof.
  intros Ho Hinv Htr. destruct (completed_inv _ _ _ _ _ _ Ho Hinv Htr) as [[Hl _ _ Hops] _].
  split_and!; [|done|by rewrite Hl]. unfold transport_ops in *. cbn in Hops.
  rewrite Ho. rewrite filter_app in *. apply app_nil in Hops as [-> Hl2].
  by rewrite filter_cons_True, Hl2.
Qed.

(** What a handler leaves: nothing of rank above [n], and not an idle task. *)
Definition lowered (n : nat) (t : Task) : Prop := rank t <= n /\ lifecycle_state_ (st t) <> kIdle.

Lemma lowered_none n t : transport_ops t = [] -> lifecycle_state_ (st t) <> kIdle -> lowered n t.
Proof. intros Hops Hl. split; [|done]. unfold rank. rewrite Hops. lia. Qed.

Lemma lowered_Fail n c s e t : transport_ops t = [] -> lifecycle_state_ (st t) <> kIdle -> lowered n (Fail_with c s e t).
Proof.
  intros Hops Hl. apply lowered_none; [by rewrite transport_ops_Fail|].
  unfold Fail_with. destruct (lifecycle_state_ (st t)) eqn:E; [done| |by rewrite E].
  unfold call_done_hook. by case_match.
Qed.

Lemma lowered_Succeed n r t : transport_ops t = [] -> lifecycle_state_ (st t) <> kIdle -> lowered n (Succeed r t).
Proof.
  intros Hops Hl. apply lowered_none; [by rewrite transport_ops_Succeed|].
  unfold Succeed. destruct (lifecycle_state_ (st t)) eqn:E; [done| |by rewrite E].
  unfold call_done_hook. by case_match.
Qed.

Definition op_rank (o : operation) : nat :=
  match o with
  | Acquiring _ => 5 | TakingStream | FailingAcquire _ _ => 4 | WritingRequest _ => 3 | ReadingHeader _ _ => 2
  | ReadingBodyAll _ | ReadingBodySome _ => 1 | PostedStart | PostedCancel => 0
  end.

Lemma lowered_start_io n o t :
  transport_ops t = [] -> lifecycle_state_ (st t) <> kIdle -> op_rank o <= n ->
  is_transport o = true -> lowered n (start_io o t).
Proof.
  intros Hops Hl Hn Ho. unfold start_io.
  assert (lowered n (start o t)).
  { split; [|done]. unfold rank. rewrite transport_ops_start, Hops by done. by destruct o. }
  assert (lowered n (set_fx (mkEffects (operations (fx t)) (posted (fx t)) (returned (fx t)) false) t))
    by (by apply lowered_none).
  by destruct (stream_ (io t)), (socket_ (io t)).
Qed.

Lemma life_emit cb r t : lifecycle_state_ (st (emit cb r t)) = lifecycle_state_ (st t).
Proof. by destruct cb. Qed.

Section lowered.
Context (t : Task) (Hops : transport_ops t = []) (Hl : lifecycle_state_ (st t) <> kIdle).

Lemma lowered_start n o : op_rank o <= n -> is_transport o = true -> lowered n (start o t).
Proof using Hl Hops.
  intros Hn Ho. split; [|done]. unfold rank. rewrite transport_ops_start, Hops by done. by destruct o.
Qed.

Lemma lowered_ended o : after_acquire o = true -> lowered 3 (end_acquired o t).
Proof using Hl Hops.
  destruct o; try done; intros _; cbn [end_acquired]; [|by apply lowered_Fail].
  apply lowered_start_io; try done; unfold EmitConnected; by case_match.
Qed.

Lemma lowered_written ec : lowered 2 (OnWriteRequest ec t).
Proof using Hl Hops.
  destruct ec as [e|]; cbn [OnWriteRequest]; [by apply lowered_Fail|by apply lowered_start_io].
Qed.

Lemma lowered_header now ec p : lowered 1 (OnReadHeader now ec p t).
Proof using Hl Hops.
  unfold OnReadHeader. cbv zeta. destruct ec as [e|]; [by apply lowered_Fail|].
  match goal with |- context [EmitHeader _ None ?x] => set (t2 := x) end.
  assert (transport_ops t2 = [] /\ lifecycle_state_ (st t2) <> kIdle) as [Hops2 Hl2]
    by (subst t2; by destruct (assembler_ (set_parser p t))).
  clearbody t2. change (EmitHeader (header_copy p) None t2) with
    (emit (on_header_ (cbs t2)) (mkResult None kHeader kNone false (Some (header_copy p)) None []) t2).
  case_match; apply lowered_start_io; try done; cbn; rewrite ?life_emit; try done.
  all: by rewrite transport_ops_emit || (unfold transport_ops; cbn; by destruct (on_header_ (cbs t2))).
Qed.

Lemma lowered_body_all ec p : lowered 0 (OnReadBodyAll ec p t).
Proof using Hl Hops.
  unfold OnReadBodyAll. destruct ec as [e|]; [|by apply lowered_Succeed].
  destruct (body_end e); [by apply lowered_Succeed|by apply lowered_Fail].
Qed.

Lemma lowered_body_some ec p :
  is_done p = true \/ (exists e, ec = Some e /\ body_end e = false) -> lowered 0 (OnReadBodySome ec p t).
Proof using Hl Hops.
  intros Hd. unfold OnReadBodySome. cbv zeta.
  assert (is_done p = true -> lowered 0 (body_read p (set_parser p t))) as Hread.
  { intros Hdone. unfold body_read. cbv zeta. rewrite Hdone.
    apply lowered_Succeed; case_match; try done; unfold EmitChunk; by case_match. }
  destruct ec as [e|]; [|destruct Hd as [Hd|(e & ? & _)]; [auto|done]].
  destruct (body_end e) eqn:He; [|by apply lowered_Fail].
  destruct Hd as [Hd|(e' & [= <-] & He')]; [auto|congruence].
Qed.
End lowered.

Lemma lowered_acquired r t :
  transport_ops t = [] -> lifecycle_state_ (st t) <> kIdle -> lowered 4 (start_acquired r t).
Proof.
  intros Hops Hl. unfold start_acquired. destruct r as [ec|slot]; cbn [begin_acquired]; [by apply lowered_start|].
  destruct (StreamBuilder.stream_ slot); by apply lowered_start.
Qed.

(** A task does not run for ever.  Every completion of a transport
    operation of a reachable task brings it closer to its end, unless it is a
    partial read that leaves the body unfinished; so after at most five other
    completions nothing is under way, and then the task is finished. *)
Theorem client_task_terminates (t0 t t' : Task) :
  fresh t0 -> rtc task_step t0 t -> transport_step t t' ->
  rank t' < rank t <= 5 /\ (rank t' = 0 -> lifecycle_state_ (st t') = kFinished).
Proof.
  intros Hf Hs Hst. pose proof (task_steps_inv _ _ Hf Hs) as Hinv.
  assert (task_inv false false t') as [_ Hi'] by (eapply task_step_inv; [by apply transport_step_task|done|done|done]).
  assert (exists o, transport_ops t = [o] /\ 0 < op_rank o <= 5 /\ lowered (op_rank o - 1) t')
    as (o & Hops & Ho & Hr & Hl).
  { destruct Hst as [r t k l1 l2 Ho|o t l1 l2 Ho Ha|ec t d l1 l2 Ho|now ec p t d lim l1 l2 Ho Hb|ec p p' t d l1 l2 Ho Hp Hg
      |ec p p' t d l1 l2 Ho Hp Hg Hd];
      try (assert (is_transport o = true) as Htr by (by destruct o);
           destruct (completed_op _ _ _ _ _ _ Ho Hinv Htr) as (Hops & Hops' & Hl); exists o;
           split; [exact Hops|]; (split; [destruct o; try done; cbn; lia|]);
           replace (op_rank o - 1) with 3 by (by destruct o); by apply lowered_ended);
      destruct (completed_op _ _ _ _ _ _ Ho Hinv eq_refl) as (Hops & Hops' & Hl);
      eexists; (split; [exact Hops|]); (split; [cbn; lia|]); cbn [op_rank Nat.sub].
    - by apply lowered_acquired.
    - by apply lowered_written.
    - by apply lowered_header.
    - by apply lowered_body_all.
    - by apply lowered_body_some. }
  assert (rank t = op_rank o) as Hrank by (unfold rank; rewrite Hops; by destruct o).
  split; [lia|]. intros H0'. destruct (lifecycle_state_ (st t')); [done| |done].
  destruct Hi' as (_ & o' & Hops' & Hph). unfold rank in H0'. rewrite Hops' in H0'. by destruct o'.
Qed.

(** *** Truncated bodies *)

(** A connection that is lost in the middle of a body.  Without a chunk
    callback the part that came is delivered as a success.  With one, the read
    that finds the end of the stream ([partial_message]) leaves the task exactly
    as it was, so it reads again and again and neither fails nor completes. *)
Theorem truncated_body (t : Task) (p : response_parser F) (d : Z) :
  lifecycle_state_ (st t) = kRunning -> has_stream t -> socket_ (io t) <> Moved ->
  parser_ (io t) = Some p -> is_done p = false ->
  (operations (fx t) = [ReadingBodyAll d] ->
   let t' := OnReadBodyAll (Some partial_message) p (set_operations [] t) in
   completion_state_ (st t') = kSuccess /\
   (on_done_ (cbs t) <> None -> exists l, responses t' = l ++ [msg p])) /\
  (operations (fx t) = [ReadingBodySome d] -> d = read_body_timeout (options_ t) ->
   last_emitted_body_size_ (io t) = length (rsp_body (msg p)) ->
   OnReadBodySome (Some partial_message) p (set_operations [] t) = t).
Proof.
  intros Hl Hs Hm Hp Hd. split.
  - intros Hops t'. subst t'. unfold OnReadBodyAll. cbn [body_end].
    change (body_end partial_message) with true. cbv iota zeta. unfold Succeed. cbn [set_parser set_io set_operations set_fx st].
    rewrite Hl. set (r := mkResult None kDone kNone false None (Some (msg p)) []).
    match goal with |- context [EmitDone r ?x] => set (t1 := x) end.
    destruct (call_done_hook_fields (negb (rsp_keep_alive (msg p))) (set_lifecycle kFinished (EmitDone r t1)))
      as (_ & Hpost & _ & _ & Hst & _).
    split.
    + rewrite Hst. unfold EmitDone. by case_match.
    + intros Hon. unfold responses. rewrite Hpost. unfold EmitDone.
      assert (GetDoneCallbackCopy t1 <> None) as Hcb by done.
      destruct (GetDoneCallbackCopy t1) as [cb|]; [|done]. exists (responses t1).
      apply (responses_dispatch cb r).
  - intros Hops -> Hn. unfold OnReadBodySome. change (body_end partial_message) with true. cbv iota zeta.
    unfold body_read. cbn [set_parser set_io set_operations set_fx io last_emitted_body_size_].
    rewrite Hn, Nat.ltb_irrefl, Hd.
    destruct t as [opt ce hk a rq cb s [stream sock par n] [ops po re as_]]. cbn in *. subst.
    unfold DoReadBodySome, start_io. cbn. unfold has_stream in Hs. cbn in Hs.
    by destruct stream, sock.
Qed.

(** *** Cancellation *)

(** A cancellation that comes while a stream is being acquired does not stop the
    request: it is written as soon as the stream is there, and if the answer
    comes it is delivered as a success that was not cancelled. *)
Theorem cancel_while_acquiring (t : Task) k slot :
  lifecycle_state_ (st t) = kRunning -> stream_ (io t) = NoStream ->
  operations (fx t) = [Acquiring k] -> StreamBuilder.stream_ slot <> NoStream ->
  let t' := OnAcquireComplete (inr slot) (set_operations [] (DoCancel t)) in
  operations (fx t') = [WritingRequest (write_timeout (options_ t))] /\
  stream_ (io t') = StreamBuilder.stream_ slot /\ socket_ (io t') = Open /\
  lifecycle_state_ (st t') = kRunning /\ cancellation_state_ (st t') = kRequested.
Proof.
  intros Hl Hns Hops Hs t'. subst t'. unfold DoCancel. rewrite Hl. unfold CloseTransports.
  cbn [set_st io]. rewrite Hns. cbn [OnAcquireComplete].
  destruct (StreamBuilder.stream_ slot); [done|..]; unfold DoWriteRequest, start_io, EmitConnected;
    cbn [GetCallbackCopy set_io set_operations set_fx set_st cbs];
    destruct (on_connected_ (cbs t)); cbn; by rewrite ?Hl.
Qed.

(** *** Cookies *)

(** Of several Set-Cookie fields in a response the assembler is shown the last
    one only, because the header is copied with [set]. *)
Theorem only_last_set_cookie p :
  f_values (lit "Set-Cookie") (hdr_fields (header_copy p)) =
    option_list (last (f_values (lit "Set-Cookie") (hdr_fields (rsp_header (msg p))))).
Proof. apply f_values_copy_by_set. Qed.

End task.

(** ** Samples *)

Module TaskSample.
#[local] Existing Instance default_assembler.

Abbreviation F := (list (str * str)).

Definition options : TaskOptions := mkTaskOptions sample_options 2000 2000 5000 4194304.

(** A request with a chunk and a done callback, and a hook for its stream. *)
Definition created : HttpClientTask F unit :=
  SetDoneHook (SetOnDone (Some 4) (SetOnChunk (Some 3) (CreateHttp tt options (lit "origin.example") (lit "80") (lit "/a")))).

Definition header : response_parser F :=
  mkParser (mkResponse (mkHeader 11 200 [(lit "Content-Length", lit "5")]) [] true) false.
Definition half : response_parser F :=
  mkParser (mkResponse (mkHeader 11 200 [(lit "Content-Length", lit "5")]) (lit "he") true) false.
Definition whole : response_parser F :=
  mkParser (mkResponse (mkHeader 11 200 [(lit "Content-Length", lit "5")]) (lit "hello") true) true.

Definition started : HttpClientTask F unit := DoStart 0 (set_operations [] (Start created)).
Definition taken : HttpClientTask F unit := start_acquired (inr sample_slot) (set_operations [] started).
Definition acquired : HttpClientTask F unit := end_acquired TakingStream (set_operations [] taken).
Definition written : HttpClientTask F unit := OnWriteRequest None (set_operations [] acquired).
Definition reading : HttpClientTask F unit := OnReadHeader 0 None header (set_operations [] written).
Definition halfway : HttpClientTask F unit := OnReadBodySome None half (set_operations [] reading).
Definition done_task : HttpClientTask F unit := OnReadBodySome None whole (set_operations [] halfway).

Lemma task_created_fresh : fresh created.
Proof. by constructor. Qed.

(** The operation each state has under way. *)
Lemma task_sample_operations :
  operations (fx (Start created)) = [PostedStart] /\
  (exists k, operations (fx started) = [Acquiring k]) /\
  operations (fx taken) = [TakingStream] /\
  operations (fx acquired) = [WritingRequest 2000] /\
  operations (fx written) = [ReadingHeader 2000 4194304] /\
  operations (fx reading) = [ReadingBodySome 5000] /\ parser_ (io reading) = Some header /\
  operations (fx halfway) = [ReadingBodySome 5000] /\ parser_ (io halfway) = Some half.
Proof. split_and!; [|eexists|..]; vm_compute; reflexivity. Qed.

(** No callback is un-set. *)
Lemma halfway_kept cb : rtc (keeping cb) created halfway.
Proof.
  destruct task_sample_operations as (H1 & [k H2] & H2' & H3 & H4 & H5 & H6 & _).
  apply (rtc_l _ _ (Start created)); [exact (conj (step_call_start _) (fun Hx => Hx))|].
  apply (rtc_l _ _ started); [exact (conj (step_start 0 _ [] [] H1) (fun Hx => Hx))|].
  apply (rtc_l _ _ taken); [exact (conj (step_acquired (inr sample_slot) _ k [] [] H2) (fun Hx => Hx))|].
  apply (rtc_l _ _ acquired); [exact (conj (step_acquire_done TakingStream _ [] [] H2' eq_refl) (fun Hx => Hx))|].
  apply (rtc_l _ _ written); [exact (conj (step_written None _ _ [] [] H3) (fun Hx => Hx))|].
  apply (rtc_l _ _ reading); [exact (conj (step_header 0 None header _ _ _ [] [] H4 eq_refl) (fun Hx => Hx))|].
  apply rtc_once. refine (conj (step_body_some None header half _ _ [] [] H5 H6 _) (fun Hx => Hx)). by (split; [|eexists]).
Qed.

Lemma last_read : transport_step halfway done_task.
Proof.
  destruct task_sample_operations as (_ & _ & _ & _ & _ & _ & _ & H1 & H2).
  apply (transport_body_some None half whole _ _ [] [] H1 H2); [by (split; [|eexists])|by left].
Qed.

Lemma done_kept cb : rtc (keeping cb) created done_task.
Proof. eapply rtc_r; [apply halfway_kept|]. exact (conj (transport_step_task _ _ last_read) (fun Hx => Hx)). Qed.

Lemma keeping_steps cb (t t' : HttpClientTask F unit) : rtc (keeping cb) t t' -> rtc task_step t t'.
Proof. induction 1 as [|x y z [Hxy _] _ IH]; [apply rtc_refl|by eapply rtc_l]. Qed.

Lemma halfway_reachable : rtc task_step created halfway.
Proof. exact (keeping_steps on_done_ _ _ (halfway_kept on_done_)). Qed.

Lemma done_reachable : rtc task_step created done_task.
Proof. exact (keeping_steps on_done_ _ _ (done_kept on_done_)). Qed.

(** A cancellation between the two pieces: the stream is closed and the request is
    written all the same, to fail there. *)
Lemma cancelled_between :
  let t := end_acquired TakingStream (set_operations [] (DoCancel taken)) in
  socket_ (io t) = Closed /\ operations (fx t) = [WritingRequest 2000] /\ asserted (fx t) = true /\
  cancellation_state_ (st t) = kRequested.
Proof. vm_compute. done. Qed.

Lemma client_task_protocol_witness :
  callback_order (stages done_task) /\ length (returned (fx done_task)) = 1 /\
  exists l, stages done_task = l ++ [kDone] /\ kDone ∉ l.
Proof.
  destruct (client_task_protocol created done_task task_created_fresh done_reachable)
    as (_ & Ho & _ & _ & Hr & Hd).
  split; [exact Ho|]. split; [exact Hr|]. apply Hd; [done|exact (done_kept on_done_)].
Defined.

Lemma chunks_are_the_body_witness : chunks done_task = lit "hello".
Proof.
  destruct (chunks_are_the_body created done_task task_created_fresh ltac:(done) (done_kept on_chunk_)) as [Hc _].
  apply (Hc (msg whole)). apply list_elem_of_here.
Defined.

Lemma client_task_terminates_witness : rank done_task < rank halfway <= 5.
Proof.
  destruct (client_task_terminates created halfway done_task task_created_fresh halfway_reachable last_read)
    as [Hr _]. exact Hr.
Defined.

Lemma truncated_body_witness :
  OnReadBodySome (Some partial_message) half (set_operations [] halfway) = halfway.
Proof.
  destruct (truncated_body halfway half 5000) as [_ Ht]; [reflexivity|done|done|reflexivity|reflexivity|].
  by apply Ht.
Defined.

Lemma cancel_while_acquiring_witness :
  stream_ (io (OnAcquireComplete (inr sample_slot) (set_operations [] (DoCancel started)))) =
    TcpStream sample_socket.
Proof.
  apply (cancel_while_acquiring started _ sample_slot eq_refl eq_refl eq_refl). done.
Defined.
End TaskSample.
