(* ===== verification/SseTask.v ===== *)
(** * The event-stream client task

    [src/src/connection/client/http_sse_client_task_startup.cc] and
    http_sse_client_task_stream.cc, with the state of
    impl/http_sse_client_task_impl.h and the factories of
    http_sse_client_task.cc.  [Start] connects, sends the request and checks the
    header of the answer; then each [Next] reads once and hands the new part of
    the body to its callback, which feeds it to the event parser ([Sse]).  The
    member functions run on the task's strand and are one step each, as in
    [ClientTask], whose requests, parsers and transports are used here;
    [OnAcquireComplete] loses the strand in the builder's [std::function], as there,
    and is two steps.

    [next_calls] and [start_calls] are a history: the callbacks that [Next] and
    [Start] were run with on the strand. *)

From S2P Require Import Prelude Text HttpFields Sse MultipartParser MultipartGenerator.
From S2P Require Import StreamBuilder ClientPipeline ClientTask.

Inductive SseStage := kStart | kNext.

(** [HttpSseClientErrorStage] has the names of [HttpClientErrorStage]. *)
Record HttpSseClientResult (F : Type) := mkSseResult {
  sse_ec : option error_code;
  sse_stage : SseStage;
  sse_error_stage : HttpClientErrorStage;
  sse_cancelled : bool;
  sse_eof : bool;
  sse_header : option (HttpResponseHeader F);
  sse_chunk : str;
}.
Arguments mkSseResult {_} _ _ _ _ _ _ _.
Arguments sse_ec {_} _.
Arguments sse_stage {_} _.
Arguments sse_error_stage {_} _.
Arguments sse_cancelled {_} _.
Arguments sse_eof {_} _.
Arguments sse_header {_} _.
Arguments sse_chunk {_} _.

Inductive SseLifecycle := SseIdle | SseStarting | SseStreaming | SseDone.
Inductive TerminationState := NotTerminated | TerminatedEof | TerminatedFailure | TerminatedCancelled.
Inductive NextReadState := NextIdle | NextPending.

Record SseOptions := mkSseOptions {
  sse_request_options : HttpClientOptions;
  sse_write_timeout : Z;
  sse_read_header_timeout : Z;
  sse_read_body_timeout : Z;
}.

Inductive sse_operation :=
  | SsePostedStart (cb : nat)
  | SsePostedNext (cb : nat)
  | SsePostedCancel
  | SseAcquiring (k : ConnectionKey)
  | SseTakingStream
  | SseFailingAcquire (error_stage : HttpClientErrorStage) (ec : error_code) (cancelled : bool)
  | SseWriting (timeout : Z)
  | SseReadingHeader (timeout : Z)
  | SseReadingNext (timeout : Z).

Record sse_state := mkSseState {
  life : SseLifecycle;
  termination : TerminationState;
  cancellation : CancellationState;
  next_read : NextReadState;
  last_error : option error_code;
  last_stage : HttpClientErrorStage;
}.

Record sse_calls := mkSseCalls {
  start_callback_ : option nat;
  next_callback_ : option nat;
  start_calls : list nat;
  next_calls : list nat;
}.

Record sse_effects (F : Type) := mkSseEffects {
  sse_operations : list sse_operation;
  sse_posted : list (nat * HttpSseClientResult F);
  sse_asserted : bool;
}.
Arguments mkSseEffects {_} _ _ _.
Arguments sse_operations {_} _.
Arguments sse_posted {_} _.
Arguments sse_asserted {_} _.

Record HttpSseClientTask (F A : Type) := mkSseTask {
  sse_options : SseOptions;
  sse_create_error : option (error_code * HttpClientErrorStage);
  sse_assembler : option A;
  sse_req : task_request F;
  sst : sse_state;
  calls : sse_calls;
  sio : transport F;
  sfx : sse_effects F;
}.
Arguments mkSseTask {_ _} _ _ _ _ _ _ _ _.
Arguments sse_options {_ _} _.
Arguments sse_create_error {_ _} _.
Arguments sse_assembler {_ _} _.
Arguments sse_req {_ _} _.
Arguments sst {_ _} _.
Arguments calls {_ _} _.
Arguments sio {_ _} _.
Arguments sfx {_ _} _.

Section sse_task.
Context {F A : Type} `{BeastMessage F} `{!RequestAssembler (F := F) A} `{!HeaderSync F A}.

Abbreviation Task := (HttpSseClientTask F A).
Abbreviation Result := (HttpSseClientResult F).

(** ** Setters *)

Definition set_sst (s : sse_state) (t : Task) : Task :=
  mkSseTask (sse_options t) (sse_create_error t) (sse_assembler t) (sse_req t) s (calls t) (sio t) (sfx t).
Definition set_calls (c : sse_calls) (t : Task) : Task :=
  mkSseTask (sse_options t) (sse_create_error t) (sse_assembler t) (sse_req t) (sst t) c (sio t) (sfx t).
Definition set_sio (x : transport F) (t : Task) : Task :=
  mkSseTask (sse_options t) (sse_create_error t) (sse_assembler t) (sse_req t) (sst t) (calls t) x (sfx t).
Definition set_sfx (e : sse_effects F) (t : Task) : Task :=
  mkSseTask (sse_options t) (sse_create_error t) (sse_assembler t) (sse_req t) (sst t) (calls t) (sio t) e.
Definition set_sse_req (a : option A) (r : task_request F) (t : Task) : Task :=
  mkSseTask (sse_options t) (sse_create_error t) a r (sst t) (calls t) (sio t) (sfx t).

Definition set_life (l : SseLifecycle) (t : Task) : Task :=
  set_sst (mkSseState l (termination (sst t)) (cancellation (sst t)) (next_read (sst t))
             (last_error (sst t)) (last_stage (sst t))) t.
Definition set_termination (x : TerminationState) (t : Task) : Task :=
  set_sst (mkSseState (life (sst t)) x (cancellation (sst t)) (next_read (sst t))
             (last_error (sst t)) (last_stage (sst t))) t.
Definition set_next_read (x : NextReadState) (t : Task) : Task :=
  set_sst (mkSseState (life (sst t)) (termination (sst t)) (cancellation (sst t)) x
             (last_error (sst t)) (last_stage (sst t))) t.
Definition set_error (ec : error_code) (s : HttpClientErrorStage) (t : Task) : Task :=
  set_sst (mkSseState (life (sst t)) (termination (sst t)) (cancellation (sst t)) (next_read (sst t))
             (Some ec) s) t.
Definition set_sse_parser (p : response_parser F) (t : Task) : Task :=
  set_sio (mkTransport (stream_ (sio t)) (socket_ (sio t)) (Some p) (last_emitted_body_size_ (sio t))) t.
Definition set_sse_emitted (n : nat) (t : Task) : Task :=
  set_sio (mkTransport (stream_ (sio t)) (socket_ (sio t)) (parser_ (sio t)) n) t.
Definition take_start_callback (t : Task) : Task :=
  set_calls (mkSseCalls None (next_callback_ (calls t)) (start_calls (calls t)) (next_calls (calls t))) t.
Definition take_next_callback (t : Task) : Task :=
  set_calls (mkSseCalls (start_callback_ (calls t)) None (start_calls (calls t)) (next_calls (calls t))) t.

Definition sse_start (o : sse_operation) (t : Task) : Task :=
  set_sfx (mkSseEffects (sse_operations (sfx t) ++ [o]) (sse_posted (sfx t)) (sse_asserted (sfx t))) t.

Definition sse_start_io (o : sse_operation) (t : Task) : Task :=
  match stream_ (sio t) with
  | NoStream => set_sfx (mkSseEffects (sse_operations (sfx t)) (sse_posted (sfx t)) false) t
  | _ => sse_start o t
  end.

(** ** Starting *)

Definition DispatchCallback (cb : option nat) (result : Result) (t : Task) : Task :=
  match cb with
  | None => t
  | Some cb =>
      set_sfx (mkSseEffects (sse_operations (sfx t)) (sse_posted (sfx t) ++ [(cb, result)])
                 (sse_asserted (sfx t))) t
  end.

Definition Start (cb : nat) (t : Task) : Task := sse_start (SsePostedStart cb) t.
Definition Next (cb : nat) (t : Task) : Task := sse_start (SsePostedNext cb) t.
Definition Cancel (t : Task) : Task := sse_start SsePostedCancel t.

Definition Failed (t : Task) : bool :=
  match termination (sst t) with TerminatedFailure => true | _ => false end.

(** Whether a failure with this error is told as a cancellation. *)
Definition start_cancelled (ec : error_code) (t : Task) : bool :=
  match cancellation (sst t) with
  | kRequested => true
  | kNotCancelled => bool_decide (ec = operation_aborted)
  end.

(** [FailStart], from the point where that is known. *)
Definition FailStart_with (cancelled : bool) (error_stage : HttpClientErrorStage) (ec : error_code) (t : Task) : Task :=
  match life (sst t) with
  | SseDone => t
  | _ =>
      let t := set_error ec error_stage t in
      let result := mkSseResult (Some ec) kStart error_stage cancelled false None [] in
      let t := set_termination (if cancelled then TerminatedCancelled else TerminatedFailure) t in
      let t := set_life SseDone t in
      DispatchCallback (start_callback_ (calls t)) result (take_start_callback t)
  end.

Definition FailStart (error_stage : HttpClientErrorStage) (ec : error_code) (t : Task) : Task :=
  FailStart_with (start_cancelled ec t) error_stage ec t.

Definition DoWriteRequest (t : Task) : Task :=
  let r := sse_req t in
  let t := set_sse_req (sse_assembler t)
             (mkTaskRequest (prepare_payload (request_ r)) (host_ r) (port_ r) (target_ r) (use_ssl_ r)
                (ssl_ctx_ r) (connection_key_ r)) t in
  sse_start_io (SseWriting (sse_write_timeout (sse_options t))) t.

Definition DoAcquire (now : Z) (a : A) (t : Task) : Task :=
  let r := sse_req t in
  let scheme := if use_ssl_ r then lit "https" else lit "http" in
  let '(a, (request, key)) :=
    Assemble (request_ r) (sse_request_options (sse_options t)) scheme (host_ r) (port_ r) (ssl_ctx_ r) now a in
  let t := set_sse_req (Some a)
             (mkTaskRequest request (host_ r) (port_ r) (target_ r) (use_ssl_ r) (ssl_ctx_ r) key) t in
  sse_start (SseAcquiring key) t.

Definition raw_ok (t : Task) : bool :=
  match stream_ (sio t) with
  | NoStream => false
  | TcpStream _ => negb (use_ssl_ (sse_req t))
  | SslStream _ _ => use_ssl_ (sse_req t)
  end.

Definition DoStart (now : Z) (t : Task) : Task :=
  match life (sst t) with
  | SseIdle =>
      let t := set_life SseStarting t in
      match sse_create_error t with
      | Some (ec, stage) => FailStart stage ec t
      | None =>
          match sse_assembler t with
          | None => if raw_ok t then DoWriteRequest t else FailStart kCreate invalid_argument t
          | Some a => DoAcquire now a t
          end
      end
  | _ => t
  end.

(** The callback is replaced before the state is looked at. *)
Definition RunPostedStart (now : Z) (cb : nat) (t : Task) : Task :=
  DoStart now
    (set_calls (mkSseCalls (Some cb) (next_callback_ (calls t)) (start_calls (calls t) ++ [cb])
                  (next_calls (calls t))) t).

Definition OnAcquireComplete (r : error_code + StreamSlot) (t : Task) : Task :=
  match r with
  | inl ec =>
      FailStart (match ec with ssl_error _ => kTlsHandshake | _ => kConnect end) ec t
  | inr slot =>
      match StreamBuilder.stream_ slot with
      | NoStream => FailStart kConnect not_connected t
      | s => DoWriteRequest (set_sio (mkTransport s Open (parser_ (sio t))
               (last_emitted_body_size_ (sio t))) t)
      end
  end.

(** Its two pieces. *)
Definition begin_acquired (r : error_code + StreamSlot) (t : Task) : sse_operation * Task :=
  match r with
  | inl ec =>
      (SseFailingAcquire (match ec with ssl_error _ => kTlsHandshake | _ => kConnect end) ec (start_cancelled ec t), t)
  | inr slot =>
      match StreamBuilder.stream_ slot with
      | NoStream => (SseFailingAcquire kConnect not_connected (start_cancelled not_connected t), t)
      | s => (SseTakingStream, set_sio (mkTransport s Open (parser_ (sio t)) (last_emitted_body_size_ (sio t))) t)
      end
  end.

Definition start_acquired (r : error_code + StreamSlot) (t : Task) : Task :=
  let '(o, t) := begin_acquired r t in sse_start o t.

Definition end_acquired (o : sse_operation) (t : Task) : Task :=
  match o with
  | SseFailingAcquire stage ec cancelled => FailStart_with cancelled stage ec t
  | _ => DoWriteRequest t
  end.

Lemma sse_acquire_pieces r t :
  OnAcquireComplete r t = end_acquired (begin_acquired r t).1 (begin_acquired r t).2.
Proof. destruct r as [ec|slot]; [done|]. cbn. by destruct (StreamBuilder.stream_ slot). Qed.

Definition after_acquire (o : sse_operation) : bool :=
  match o with SseTakingStream | SseFailingAcquire _ _ _ => true | _ => false end.

Definition OnWriteRequest (ec : option error_code) (t : Task) : Task :=
  match ec with
  | Some ec => FailStart kWriteRequest ec t
  | None =>
      sse_start_io (SseReadingHeader (sse_read_header_timeout (sse_options t)))
        (set_sse_parser new_parser t)
  end.

(** The first Content-Type field mentions the media type of event streams. *)
Definition is_event_stream (f : F) : bool :=
  match f_values (lit "Content-Type") f with
  | [] => false
  | v :: _ => bool_decide (find_str (lit "text/event-stream") (tolower <$> v) <> None)
  end.

Definition OnReadHeader (now : Z) (ec : option error_code) (p : response_parser F) (t : Task) : Task :=
  let t := set_sse_parser p t in
  match ec with
  | Some ec => FailStart kReadHeader ec t
  | None =>
      let h := rsp_header (msg p) in
      if negb (hdr_result h =? 200)%Z then FailStart kReadHeader protocol_error t
      else if negb (is_event_stream (hdr_fields h)) then FailStart kReadHeader protocol_error t
      else
        let r := sse_req t in
        let t :=
          match sse_assembler t with
          | Some a => set_sse_req (Some (OnResponseHeader now (hdr_fields h) (host_ r) (target_ r) a)) r t
          | None => t
          end in
        let result := mkSseResult None kStart kNone false false (Some h) [] in
        let t := set_life SseStreaming t in
        DispatchCallback (start_callback_ (calls t)) result (take_start_callback t)
  end.

Definition DoCancel (t : Task) : Task :=
  match life (sst t) with
  | SseDone => t
  | _ =>
      let t := set_sst (mkSseState (life (sst t)) (termination (sst t)) kRequested (next_read (sst t))
                          (last_error (sst t)) (last_stage (sst t))) t in
      match stream_ (sio t) with
      | NoStream => t
      | s => set_sio (mkTransport s Closed (parser_ (sio t)) (last_emitted_body_size_ (sio t))) t
      end
  end.

(** ** Streaming *)

Definition DoReadNextChunk (t : Task) : Task :=
  sse_start_io (SseReadingNext (sse_read_body_timeout (sse_options t))) t.

Definition RunPostedNext (cb : nat) (t : Task) : Task :=
  let t := set_calls (mkSseCalls (start_callback_ (calls t)) (next_callback_ (calls t))
                        (start_calls (calls t)) (next_calls (calls t) ++ [cb])) t in
  match life (sst t) with
  | SseStreaming =>
      match next_read (sst t) with
      | NextPending =>
          DispatchCallback (Some cb)
            (mkSseResult (Some operation_in_progress) kNext kReadBody false false None []) t
      | NextIdle =>
          let t := set_next_read NextPending t in
          let t := set_calls (mkSseCalls (start_callback_ (calls t)) (Some cb) (start_calls (calls t))
                                (next_calls (calls t))) t in
          DoReadNextChunk t
      end
  | _ =>
      DispatchCallback (Some cb)
        (mkSseResult (Some operation_not_permitted) kNext kReadBody false false None []) t
  end.

(** The read is over: its callback gets the result. *)
Definition TerminateSseRead (result : Result) (t : Task) : Task :=
  let t := set_next_read NextIdle t in
  DispatchCallback (next_callback_ (calls t)) result (take_next_callback t).

Definition OnReadNextChunk (ec : option error_code) (p : response_parser F) (t : Task) : Task :=
  let t := set_sse_parser p t in
  match ec with
  | Some e =>
      let '(result, t) :=
        if match cancellation (sst t) with kRequested => true | _ => bool_decide (e = operation_aborted) end
        then (mkSseResult (Some e) kNext kNone true false None [], set_termination TerminatedCancelled t)
        else if bool_decide (e = end_of_stream) || bool_decide (e = eof)
        then (mkSseResult None kNext kNone false true None [], set_termination TerminatedEof t)
        else (mkSseResult (Some e) kNext kReadBody false false None [],
              set_termination TerminatedFailure (set_error e kReadBody t)) in
      TerminateSseRead result (set_life SseDone t)
  | None =>
      let body := rsp_body (msg p) in
      let n := last_emitted_body_size_ (sio t) in
      let '(chunk, t) := if n <? length body then (drop n body, set_sse_emitted (length body) t) else ([], t) in
      if is_done p then
        TerminateSseRead (mkSseResult None kNext kNone false true None chunk)
          (set_life SseDone (set_termination TerminatedEof t))
      else TerminateSseRead (mkSseResult None kNext kNone false false None chunk) t
  end.

(** ** Factories *)

(** The request made by the constructor. *)
Definition sse_request (options : SseOptions) (host target : str) : HttpClientRequest F :=
  let f := f_set (lit "Host") host f_empty in
  let f := f_set (lit "Accept") (lit "text/event-stream") f in
  let f := f_set (lit "Cache-Control") (lit "no-cache") f in
  let ua := user_agent (sse_request_options options) in
  let f := if ua =s [] then f else f_set (lit "User-Agent") ua f in
  keep_alive (opt_keep_alive (sse_request_options options)) (mkRequest target f).

Definition make_sse_impl (options : SseOptions) (host port target : str) (use_ssl : bool)
    (ssl_ctx : option nat) : Task :=
  mkSseTask options None None
    (mkTaskRequest (sse_request options host target) host port target use_ssl ssl_ctx default_key)
    (mkSseState SseIdle NotTerminated kNotCancelled NextIdle None kNone)
    (mkSseCalls None None [] []) (mkTransport NoStream Open None 0) (mkSseEffects [] [] true).

Definition set_create_error (ec : option error_code) (t : Task) : Task :=
  match ec with
  | None => t
  | Some ec =>
      mkSseTask (sse_options t) (Some (ec, kCreate)) (sse_assembler t) (sse_req t) (sst t) (calls t)
        (sio t) (sfx t)
  end.

Definition CreateHttp (a : A) (options : SseOptions) (host port target : str) : Task :=
  let t := make_sse_impl options host port target false None in set_sse_req (Some a) (sse_req t) t.

Definition CreateHttps (a : A) (options : SseOptions) (host port target : str) (ssl_ctx : option nat)
    (create_ec : option error_code) : Task :=
  let t := set_create_error create_ec (make_sse_impl options host port target true ssl_ctx) in
  set_sse_req (Some a) (sse_req t) t.

Definition CreateFromUrl (parse_uri : str -> option url_view) (url : str) (a : A) (options : SseOptions)
    (ssl_ctx : option nat) (create_ec : option error_code) : Task :=
  match ParseHttpUrl parse_uri url with
  | None => set_create_error (Some invalid_argument) (make_sse_impl options [] [] (lit "/") false None)
  | Some u =>
      if url_https u
      then CreateHttps a options (url_host u) (url_port u) (url_target u) ssl_ctx create_ec
      else CreateHttp a options (url_host u) (url_port u) (url_target u)
  end.

Definition set_raw_stream (s : ClientStream) (t : Task) : Task :=
  set_sio (mkTransport s Open (parser_ (sio t)) (last_emitted_body_size_ (sio t))) t.

Definition CreateHttpRaw (options : SseOptions) (s : socket) (host target : str) : Task :=
  set_raw_stream (TcpStream s) (make_sse_impl options host [] target false None).

Definition CreateHttpsRaw (options : SseOptions) (s : socket) (session : tls) (host target : str) : Task :=
  set_raw_stream (SslStream s session) (make_sse_impl options host [] target true None).

(** ** The task and its environment *)

Definition set_sse_operations (l : list sse_operation) (t : Task) : Task :=
  set_sfx (mkSseEffects l (sse_posted (sfx t)) (sse_asserted (sfx t))) t.

(** Any calls, and completions with any outcome; reading the header reads none
    of the body, and later reads append to it. *)
Inductive sse_step : Task -> Task -> Prop :=
  | sse_call_start cb t : sse_step t (Start cb t)
  | sse_call_next cb t : sse_step t (Next cb t)
  | sse_call_cancel t : sse_step t (Cancel t)
  | sse_run_start now cb t l1 l2 :
      sse_operations (sfx t) = l1 ++ SsePostedStart cb :: l2 ->
      sse_step t (RunPostedStart now cb (set_sse_operations (l1 ++ l2) t))
  | sse_run_next cb t l1 l2 :
      sse_operations (sfx t) = l1 ++ SsePostedNext cb :: l2 ->
      sse_step t (RunPostedNext cb (set_sse_operations (l1 ++ l2) t))
  | sse_run_cancel t l1 l2 :
      sse_operations (sfx t) = l1 ++ SsePostedCancel :: l2 ->
      sse_step t (DoCancel (set_sse_operations (l1 ++ l2) t))
  | sse_acquired r t k l1 l2 :
      sse_operations (sfx t) = l1 ++ SseAcquiring k :: l2 ->
      sse_step t (start_acquired r (set_sse_operations (l1 ++ l2) t))
  | sse_acquire_done o t l1 l2 :
      sse_operations (sfx t) = l1 ++ o :: l2 -> after_acquire o = true ->
      sse_step t (end_acquired o (set_sse_operations (l1 ++ l2) t))
  | sse_written ec t d l1 l2 :
      sse_operations (sfx t) = l1 ++ SseWriting d :: l2 ->
      sse_step t (OnWriteRequest ec (set_sse_operations (l1 ++ l2) t))
  | sse_header_read now ec p t d l1 l2 :
      sse_operations (sfx t) = l1 ++ SseReadingHeader d :: l2 -> rsp_body (msg p) = [] ->
      sse_step t (OnReadHeader now ec p (set_sse_operations (l1 ++ l2) t))
  | sse_next_read ec p p' t d l1 l2 :
      sse_operations (sfx t) = l1 ++ SseReadingNext d :: l2 -> parser_ (sio t) = Some p -> grows p p' ->
      sse_step t (OnReadNextChunk ec p' (set_sse_operations (l1 ++ l2) t)).

Record sse_fresh (t : Task) : Prop := {
  sse_fresh_st : sst t = mkSseState SseIdle NotTerminated kNotCancelled NextIdle None kNone;
  sse_fresh_calls : calls t = mkSseCalls None None [] [];
  sse_fresh_fx : sfx t = mkSseEffects [] [] true;
  sse_fresh_emitted : last_emitted_body_size_ (sio t) = 0;
}.

(** ** What a task shows to the outside *)

Definition is_next (x : nat * Result) : Prop := sse_stage x.2 = kNext.
#[local] Instance is_next_dec x : Decision (is_next x).
Proof. unfold is_next. destruct (sse_stage x.2); [by right|by left]. Defined.

(** The callbacks that were answered, and the chunks handed out. *)
Definition next_answered (t : Task) : list nat := fst <$> filter is_next (sse_posted (sfx t)).
Definition start_answered (t : Task) : list nat := fst <$> filter (fun x => ~ is_next x) (sse_posted (sfx t)).
Definition chunk_list (t : Task) : list str := (fun x => sse_chunk x.2) <$> filter is_next (sse_posted (sfx t)).

Definition is_sse_transport (o : sse_operation) : bool :=
  match o with SsePostedStart _ | SsePostedNext _ | SsePostedCancel => false | _ => true end.

Definition sse_transport_ops (t : Task) : list sse_operation :=
  filter (fun o => is_sse_transport o = true) (sse_operations (sfx t)).

(** ** The invariant *)

Definition no_read (t : Task) : Prop := next_read (sst t) = NextIdle /\ next_callback_ (calls t) = None.

Definition read_pending (t : Task) : Prop :=
  exists cb d, next_read (sst t) = NextPending /\ next_callback_ (calls t) = Some cb /\
    sse_transport_ops t = [SseReadingNext d].

Definition streamed (t : Task) : Prop :=
  exists p, parser_ (sio t) = Some p /\ last_emitted_body_size_ (sio t) = length (rsp_body (msg p)) /\
    concat (chunk_list t) = rsp_body (msg p).

Record starting (t : Task) : Prop := {
  starting_read : no_read t;
  starting_chunks : concat (chunk_list t) = [] /\ last_emitted_body_size_ (sio t) = 0;
  starting_answered : start_answered t = [];
  starting_callback : exists l cb, start_calls (calls t) = l ++ [cb] /\ start_callback_ (calls t) = Some cb;
}.

Definition starting_op (o : sse_operation) (t : Task) : Prop :=
  match o with
  | SseAcquiring k => k = connection_key_ (sse_req t)
  | SseTakingStream => stream_ (sio t) <> NoStream
  | SseFailingAcquire _ _ _ => True
  | SseWriting d => stream_ (sio t) <> NoStream /\ d = sse_write_timeout (sse_options t)
  | SseReadingHeader d => stream_ (sio t) <> NoStream /\ d = sse_read_header_timeout (sse_options t)
  | _ => False
  end.

Record sse_common (t : Task) : Prop := {
  common_asserted : sse_asserted (sfx t) = true;
  common_next : next_calls (calls t) ≡ₚ next_answered t ++ option_list (next_callback_ (calls t));
}.

(** The start is answered, to the callback of the last [Start] run before. *)
Definition start_told (t : Task) : Prop :=
  exists earlier cb later, start_calls (calls t) = earlier ++ cb :: later /\ start_answered t = [cb].

Definition sse_inv (t : Task) : Prop :=
  sse_common t /\
  match life (sst t) with
  | SseIdle =>
      no_read t /\ sse_transport_ops t = [] /\ calls t = mkSseCalls None None [] (next_calls (calls t)) /\
      concat (chunk_list t) = [] /\ last_emitted_body_size_ (sio t) = 0 /\ start_answered t = []
  | SseStarting => starting t /\ exists o, sse_transport_ops t = [o] /\ starting_op o t
  | SseStreaming =>
      (no_read t /\ sse_transport_ops t = [] \/ read_pending t) /\ streamed t /\
      stream_ (sio t) <> NoStream /\ start_told t
  | SseDone =>
      no_read t /\ sse_transport_ops t = [] /\ start_told t /\
      (concat (chunk_list t) = [] \/
       exists p, parser_ (sio t) = Some p /\ concat (chunk_list t) `prefix_of` rsp_body (msg p))
  end.

(** *** Dispatching *)

Lemma posted_dispatch cb r t :
  sse_posted (sfx (DispatchCallback cb r t)) = sse_posted (sfx t) ++ option_list ((fun cb => (cb, r)) <$> cb).
Proof. destruct cb; cbn; by rewrite ?app_nil_r. Qed.

Lemma next_answered_dispatch cb r t :
  next_answered (DispatchCallback cb r t) =
    next_answered t ++ (match sse_stage r with kNext => option_list cb | kStart => [] end).
Proof.
  unfold next_answered. rewrite posted_dispatch, filter_app, fmap_app.
  destruct cb as [cb|]; [|by destruct (sse_stage r)]. change (option_list _) with [(cb, r)] at 1.
  destruct (sse_stage r) eqn:E.
  - by rewrite filter_cons_False by (unfold is_next; cbn; by rewrite E).
  - by rewrite filter_cons_True by (unfold is_next; cbn; by rewrite E).
Qed.

Lemma start_answered_dispatch cb r t :
  start_answered (DispatchCallback cb r t) =
    start_answered t ++ (match sse_stage r with kStart => option_list cb | kNext => [] end).
Proof.
  unfold start_answered. rewrite posted_dispatch, filter_app, fmap_app.
  destruct cb as [cb|]; [|by destruct (sse_stage r)]. change (option_list _) with [(cb, r)] at 1.
  destruct (sse_stage r) eqn:E.
  - by rewrite filter_cons_True by (unfold is_next; cbn; by rewrite E).
  - by rewrite filter_cons_False by (unfold is_next; cbn; rewrite E; tauto).
Qed.

Lemma sse_chunks_dispatch cb r t :
  concat (chunk_list (DispatchCallback cb r t)) =
    concat (chunk_list t) ++ (match cb, sse_stage r with Some _, kNext => sse_chunk r | _, _ => [] end).
Proof.
  unfold chunk_list. rewrite posted_dispatch, filter_app, fmap_app, concat_app.
  destruct cb as [cb|]; [|done]. change (option_list _) with [(cb, r)].
  destruct (sse_stage r) eqn:E.
  - by rewrite filter_cons_False by (unfold is_next; cbn; by rewrite E).
  - rewrite filter_cons_True by (unfold is_next; cbn; by rewrite E). cbn. by rewrite app_nil_r.
Qed.

(** *** Operations *)

Lemma sse_ops_start o t :
  sse_transport_ops (sse_start o t) = sse_transport_ops t ++ (if is_sse_transport o then [o] else []).
Proof.
  unfold sse_transport_ops. cbn [sse_start set_sfx sfx sse_operations]. rewrite filter_app.
  destruct (is_sse_transport o) eqn:Ho; [by rewrite filter_cons_True|by rewrite filter_cons_False by (by rewrite Ho)].
Qed.

Lemma sse_ops_dispatch cb r t : sse_transport_ops (DispatchCallback cb r t) = sse_transport_ops t.
Proof. by destruct cb. Qed.

Lemma sse_ops_remove o t l1 l2 :
  sse_operations (sfx t) = l1 ++ o :: l2 ->
  if is_sse_transport o
  then forall x, sse_transport_ops t = [x] -> o = x /\ sse_transport_ops (set_sse_operations (l1 ++ l2) t) = []
  else sse_transport_ops (set_sse_operations (l1 ++ l2) t) = sse_transport_ops t.
Proof.
  unfold sse_transport_ops. cbn [set_sse_operations set_sfx sfx sse_operations]. intros ->. rewrite !filter_app.
  destruct (is_sse_transport o) eqn:Ho.
  - rewrite filter_cons_True by done. intros x. destruct (filter _ l1) as [|y l]; cbn.
    + intros Hx. injection Hx as -> Hl. by rewrite Hl.
    + intros Hx. injection Hx as _ Hl. by destruct l.
  - by rewrite filter_cons_False by (by rewrite Ho).
Qed.

(** The invariant does not look at errors, termination or cancellation, nor at
    the socket. *)
Lemma sse_inv_frame t t' :
  sse_posted (sfx t') = sse_posted (sfx t) -> sse_asserted (sfx t') = sse_asserted (sfx t) ->
  sse_transport_ops t' = sse_transport_ops t -> calls t' = calls t -> sse_options t' = sse_options t ->
  sse_req t' = sse_req t -> life (sst t') = life (sst t) -> next_read (sst t') = next_read (sst t) ->
  stream_ (sio t') = stream_ (sio t) -> parser_ (sio t') = parser_ (sio t) ->
  last_emitted_body_size_ (sio t') = last_emitted_body_size_ (sio t) -> sse_inv t -> sse_inv t'.
Proof.
  intros E1 E2 E3 E4 E5 E6 E7 E8 E9 E10 E11 [[C1 C2] Hi]. split.
  - unfold next_answered, start_answered in *. constructor; unfold next_answered, start_answered; by rewrite ?E1, ?E2, ?E4.
  - rewrite E7. unfold no_read, read_pending, streamed, start_told, chunk_list, start_answered in *.
    destruct (life (sst t)).
    + by rewrite E1, E3, E4, E8, E11.
    + destruct Hi as [[S1 S2 S3 S4] (o & Ho & Hop)]. unfold no_read, chunk_list, start_answered in *. split.
      * constructor; unfold no_read, chunk_list, start_answered; by rewrite ?E1, ?E4, ?E8, ?E11.
      * exists o. rewrite E3. split; [done|]. unfold starting_op in *. by rewrite E5, E6, E9.
    + by rewrite E1, E3, E4, E8, E9, E10, E11.
    + by rewrite E1, E3, E4, E8, E10.
Qed.

(** *** The handlers *)

(** The state a handler of the start-up finds. *)
Record starting_up (t : Task) : Prop := {
  up_life : life (sst t) = SseStarting;
  up_common : sse_common t;
  up_starting : starting t;
  up_ops : sse_transport_ops t = [];
}.

Lemma starting_up_frame t t' :
  sse_posted (sfx t') = sse_posted (sfx t) -> sse_asserted (sfx t') = sse_asserted (sfx t) ->
  sse_transport_ops t' = sse_transport_ops t -> calls t' = calls t -> life (sst t') = life (sst t) ->
  next_read (sst t') = next_read (sst t) ->
  last_emitted_body_size_ (sio t') = last_emitted_body_size_ (sio t) ->
  starting_up t -> starting_up t'.
Proof.
  intros E1 E2 E3 E4 E5 E6 E7 [L [C1 C2] [S1 S2 S3 S4] O].
  unfold next_answered, no_read, chunk_list, start_answered in *. constructor; [by rewrite E5|..|by rewrite E3].
  - constructor; unfold next_answered, start_answered; by rewrite ?E1, ?E2, ?E4.
  - constructor; unfold no_read, chunk_list, start_answered; by rewrite ?E1, ?E4, ?E6, ?E7.
Qed.

(** The start callback gets its answer, and the task leaves the start-up. *)
Lemma answer_start l r t :
  starting_up t -> sse_stage r = kStart ->
  match l with
  | SseStreaming => streamed t /\ stream_ (sio t) <> NoStream
  | SseDone => True
  | _ => False
  end ->
  sse_inv (DispatchCallback (start_callback_ (calls t)) r (take_start_callback (set_life l t))).
Proof.
  intros [Hl [C1 C2] [[R1 R2] [S1 S2] S3 (cs & cb & S4 & S5)] Hops] Hr Hpost. rewrite S5.
  set (t1 := take_start_callback (set_life l t)).
  pose proof (next_answered_dispatch (Some cb) r t1) as Hn. rewrite Hr, app_nil_r in Hn.
  pose proof (start_answered_dispatch (Some cb) r t1) as Hst. rewrite Hr in Hst.
  change (start_answered t1) with (start_answered t) in Hst. rewrite S3 in Hst. change ([] ++ option_list (Some cb)) with [cb] in Hst.
  pose proof (sse_chunks_dispatch (Some cb) r t1) as Hch. rewrite Hr, app_nil_r in Hch.
  assert (start_told (DispatchCallback (Some cb) r t1)) as Htold by (exists cs, cb, []; by rewrite Hst).
  pose proof (sse_ops_dispatch (Some cb) r t1) as Ho. split.
  - constructor; [done|by rewrite Hn].
  - change (life (sst (DispatchCallback (Some cb) r t1))) with l. destruct l; [done|done|..].
    + destruct Hpost as [(p & P1 & P2 & P3) Hs]. split_and!; try done.
      * left. split; [done|]. by rewrite Ho.
      * exists p. by rewrite Hch.
    + split; [done|]. rewrite Ho, Hch. split_and!; try done. by left.
Qed.

Lemma FailStart_inv c s e t : starting_up t -> sse_inv (FailStart_with c s e t).
Proof.
  intros Hup. unfold FailStart_with. rewrite (up_life _ Hup).
  set (t1 := set_termination _ (set_error e s t)).
  change (start_callback_ (calls (set_life SseDone t1))) with (start_callback_ (calls t1)).
  apply (answer_start SseDone); [|done|done]. by apply (starting_up_frame t).
Qed.

Lemma sse_start_inv o t :
  starting_up t -> is_sse_transport o = true -> starting_op o t -> sse_inv (sse_start o t).
Proof.
  intros [Hl Hc Hs Hops] Ho Hop. split; [by destruct Hc|]. change (life (sst (sse_start o t))) with (life (sst t)).
  rewrite Hl. split; [by destruct Hs|]. exists o. rewrite sse_ops_start, Hops, Ho. split; [done|].
  by destruct o.
Qed.

Lemma sse_start_io_inv o t :
  starting_up t -> is_sse_transport o = true -> starting_op o t -> stream_ (sio t) <> NoStream ->
  sse_inv (sse_start_io o t).
Proof.
  intros Hup Ho Hop Hs. pose proof (sse_start_inv o t Hup Ho Hop). unfold sse_start_io.
  by destruct (stream_ (sio t)).
Qed.

Lemma DoWriteRequest_inv t : starting_up t -> stream_ (sio t) <> NoStream -> sse_inv (DoWriteRequest t).
Proof. intros Hup Hs. apply sse_start_io_inv; try done. by apply (starting_up_frame t). Qed.

Lemma sse_acquired_inv r t : starting_up t -> sse_inv (start_acquired r t).
Proof.
  intros Hup. unfold start_acquired. destruct r as [ec|slot]; cbn [begin_acquired]; [by apply sse_start_inv|].
  destruct (StreamBuilder.stream_ slot); [by apply sse_start_inv|..];
    (apply sse_start_inv; [by apply (starting_up_frame t)|done|done]).
Qed.

Lemma sse_acquire_done_inv o t :
  after_acquire o = true -> starting_up t -> starting_op o t -> sse_inv (end_acquired o t).
Proof.
  intros Ho Hup Hop. destruct o; try done; cbn [end_acquired]; [by apply DoWriteRequest_inv|by apply FailStart_inv].
Qed.

Lemma sse_written_inv ec t :
  starting_up t -> stream_ (sio t) <> NoStream -> sse_inv (OnWriteRequest ec t).
Proof.
  intros Hup Hs. destruct ec; cbn [OnWriteRequest]; [by apply FailStart_inv|].
  apply sse_start_io_inv; try done. by apply (starting_up_frame t).
Qed.

Lemma sse_header_inv now ec p t :
  starting_up t -> stream_ (sio t) <> NoStream -> rsp_body (msg p) = [] -> sse_inv (OnReadHeader now ec p t).
Proof.
  intros Hup Hs Hb. unfold OnReadHeader. cbv zeta.
  assert (starting_up (set_sse_parser p t)) as Hup1 by (by apply (starting_up_frame t)).
  destruct ec; [by apply FailStart_inv|]. case_match; [by apply FailStart_inv|].
  case_match; [by apply FailStart_inv|].
  match goal with |- context [set_life SseStreaming ?x] => set (t2 := x) end.
  assert (starting_up t2 /\ parser_ (sio t2) = Some p /\ stream_ (sio t2) = stream_ (sio t))
    as (Hup2 & Hp & Hs2).
  { subst t2. destruct (sse_assembler (set_sse_parser p t)); split_and!; try done.
    by apply (starting_up_frame (set_sse_parser p t)). }
  clearbody t2. change (start_callback_ (calls (set_life SseStreaming t2))) with (start_callback_ (calls t2)).
  apply (answer_start SseStreaming); [done|done|]. split; [|by rewrite Hs2].
  destruct Hup2 as [_ _ [_ [Hc He] _ _] _]. exists p. by rewrite He, Hc, Hb.
Qed.

Lemma sse_DoStart_inv now cb t :
  sse_inv t -> sse_inv (RunPostedStart now cb t).
Proof.
  intros [[C1 C2] Hi]. unfold RunPostedStart. set (t1 := set_calls _ t). unfold DoStart.
  assert (sse_common t1) as HC.
  { by constructor. }
  assert (start_told t -> start_told t1) as Htold.
  { intros (a & cb' & l & H1 & H2). exists a, cb', (l ++ [cb]). cbn. by rewrite H1, <- app_assoc. }
  change (life (sst t1)) with (life (sst t)). destruct (life (sst t)) eqn:Hl.
  - destruct Hi as ([R1 R2] & Ho & Hcalls & Hch & He & Ha).
    assert (starting_up (set_life SseStarting t1)) as Hup.
    { constructor; [done|by destruct HC| |done]. constructor; [done|done|done|].
      exists [], cb. cbn. by rewrite Hcalls. }
    change (sse_create_error (set_life SseStarting t1)) with (sse_create_error t).
    destruct (sse_create_error t) as [[ec stage]|]; [by apply FailStart_inv|].
    change (sse_assembler (set_life SseStarting t1)) with (sse_assembler t).
    destruct (sse_assembler t) as [a|].
    + unfold DoAcquire. cbv zeta. destruct (Assemble _ _ _ _ _ _ now a) as [a' [request key]].
      apply sse_start_inv; [|done|done]. by apply (starting_up_frame (set_life SseStarting t1)).
    + destruct (raw_ok _) eqn:Hraw; [|by apply FailStart_inv]. apply DoWriteRequest_inv; [done|].
      unfold raw_ok in Hraw. by destruct (stream_ (sio (set_life SseStarting t1))).
  - split; [done|]. change (life (sst t1)) with (life (sst t)). rewrite Hl.
    destruct Hi as [[S1 S2 S3 (l & cb' & S4 & S5)] Hop]. split; [|done].
    constructor; try done. by exists (start_calls (calls t)), cb.
  - split; [done|]. change (life (sst t1)) with (life (sst t)). rewrite Hl. destruct Hi as (H1 & H2 & H3 & H4). auto.
  - split; [done|]. change (life (sst t1)) with (life (sst t)). rewrite Hl. destruct Hi as (H1 & H2 & H3 & H4). auto.
Qed.

Lemma sse_cancel_inv t : sse_inv t -> sse_inv (DoCancel t).
Proof.
  intros Hinv. unfold DoCancel. cbv zeta. destruct (life (sst t)) eqn:Hl; [..|done];
    cbn [set_sst sio]; destruct (stream_ (sio t)) eqn:Hs; by apply (sse_inv_frame t).
Qed.

(** A call of [Next] that is refused is answered at once. *)
Lemma next_refused cb r t :
  sse_inv t -> sse_stage r = kNext -> sse_chunk r = [] ->
  let c := calls t in
  sse_inv (DispatchCallback (Some cb) r
    (set_calls (mkSseCalls (start_callback_ c) (next_callback_ c) (start_calls c) (next_calls c ++ [cb])) t)).
Proof.
  intros [[C1 C2] Hi] Hr Hc c. set (t1 := set_calls _ t).
  pose proof (next_answered_dispatch (Some cb) r t1) as Hn. rewrite Hr in Hn.
  pose proof (start_answered_dispatch (Some cb) r t1) as Hst. rewrite Hr, app_nil_r in Hst.
  pose proof (sse_chunks_dispatch (Some cb) r t1) as Hch. rewrite Hr, Hc, app_nil_r in Hch.
  pose proof (sse_ops_dispatch (Some cb) r t1) as Ho.
  assert (start_told t -> start_told (DispatchCallback (Some cb) r t1)) as Htold
    by (intros (a & cb' & l & H1 & H2); exists a, cb', l; by rewrite Hst).
  split.
  - constructor; [done|]. rewrite Hn. change (next_answered t1) with (next_answered t).
    change (next_calls (calls t) ++ [cb] ≡ₚ
      (next_answered t ++ [cb]) ++ option_list (next_callback_ (calls t))).
    rewrite C2. solve_Permutation.
  - change (life (sst (DispatchCallback (Some cb) r t1))) with (life (sst t)).
    destruct (life (sst t)).
    + destruct Hi as (H1 & H2 & H3 & H4 & H5 & H6). rewrite Ho, Hch, Hst. split_and!; try done.
      cbn. subst c. by rewrite H3.
    + destruct Hi as [[S1 [S2 S2'] S3 S4] (o & Hops & Hop)]. split.
      * constructor; rewrite ?Hch, ?Hst; done.
      * exists o. rewrite Ho. done.
    + destruct Hi as (Hrd & (p & P1 & P2 & P3) & Hs & Hl).
      split; [|split; [exists p; by rewrite Hch|auto]].
      destruct Hrd as [[Hn1 Hn2]|(cb' & d & Hn1 & Hn2 & Hn3)].
      * left. by rewrite Ho.
      * right. exists cb', d. by rewrite Ho.
    + rewrite Ho, Hch. destruct Hi as (H1 & H2 & H3 & H4). auto.
Qed.

Lemma sse_next_inv cb t : sse_inv t -> sse_inv (RunPostedNext cb t).
Proof.
  intros Hinv. unfold RunPostedNext. cbv zeta. set (c := calls t). set (t1 := set_calls _ t).
  change (life (sst t1)) with (life (sst t)). change (next_read (sst t1)) with (next_read (sst t)).
  destruct (life (sst t)) eqn:Hl; [by apply next_refused..| |by apply next_refused].
  destruct (next_read (sst t)) eqn:Hn; [|by apply next_refused].
  destruct Hinv as [[C1 C2] Hi]. rewrite Hl in Hi. destruct Hi as (Hrd & Hst & Hs & Hla).
  destruct Hrd as [[[R1 R2] Hops]|(cb' & d & R1 & _)]; [|congruence].
  unfold DoReadNextChunk, sse_start_io. match goal with |- context [sse_start ?o ?x] => set (t2 := x) end.
  change (stream_ (sio t2)) with (stream_ (sio t)).
  assert (sse_inv (sse_start (SseReadingNext (sse_read_body_timeout (sse_options t2))) t2)) as Hgoal.
  { split.
    - constructor; [done|]. change (next_calls c ++ [cb] ≡ₚ next_answered t ++ [cb]).
      subst c. by rewrite C2, R2, app_nil_r.
    - change (life (sst (sse_start (SseReadingNext (sse_read_body_timeout (sse_options t2))) t2)))
        with (life (sst t)). rewrite Hl. split_and!; try done. right.
      eexists cb, _. split_and!; [done|done|]. rewrite sse_ops_start.
      change (sse_transport_ops t2) with (sse_transport_ops t). by rewrite Hops. }
  by destruct (stream_ (sio t)).
Qed.

(** What the handler of a read finds. *)
Record reading (t : Task) : Prop := {
  reading_life : life (sst t) = SseStreaming;
  reading_common : sse_common t;
  reading_callback : is_Some (next_callback_ (calls t));
  reading_ops : sse_transport_ops t = [];
  reading_answered : start_told t;
}.

(** The read is answered with its chunk. *)
Lemma answer_next r t :
  reading t -> sse_stage r = kNext ->
  let t' := TerminateSseRead r t in
  sse_common t' /\ no_read t' /\ sse_transport_ops t' = [] /\ start_told t' /\
  concat (chunk_list t') = concat (chunk_list t) ++ sse_chunk r /\
  life (sst t') = life (sst t) /\ sio t' = sio t.
Proof.
  intros [Hl [C1 C2] [cb Hcb] Hops (a & cb' & l & Hans1 & Hans2)] Hr t'. subst t'. unfold TerminateSseRead. cbv zeta.
  change (next_callback_ (calls (set_next_read NextIdle t))) with (next_callback_ (calls t)).
  rewrite Hcb. set (t1 := take_next_callback (set_next_read NextIdle t)).
  rewrite sse_ops_dispatch, sse_chunks_dispatch, Hr.
  split; [|split_and!; try done; exists a, cb', l; by rewrite start_answered_dispatch, Hr, app_nil_r].
  constructor; [done|]. rewrite next_answered_dispatch, Hr.
  change (next_calls (calls t) ≡ₚ (next_answered t ++ [cb]) ++ []). by rewrite C2, Hcb, app_nil_r.
Qed.

Lemma reading_frame t t' :
  sfx t' = sfx t -> calls t' = calls t -> life (sst t') = life (sst t) -> reading t -> reading t'.
Proof.
  intros E1 E2 E3 [Hl [C1 C2] Hcb Hops Hans].
  unfold start_told, next_answered, sse_transport_ops, start_answered in *.
  constructor; unfold start_told, next_answered, sse_transport_ops, start_answered; rewrite ?E1, ?E2, ?E3; try done.
  constructor; unfold next_answered, start_answered; by rewrite ?E1, ?E2.
Qed.

(** A read that ends the stream, or fails. *)
Lemma read_ends r t :
  reading t -> sse_stage r = kNext ->
  (exists p, parser_ (sio t) = Some p /\ concat (chunk_list t) ++ sse_chunk r `prefix_of` rsp_body (msg p)) ->
  sse_inv (TerminateSseRead r (set_life SseDone t)).
Proof.
  intros Hrd Hr (p & Hp & Hpre).
  assert (sse_common (TerminateSseRead r t) /\ no_read (TerminateSseRead r t) /\
    sse_transport_ops (TerminateSseRead r t) = [] /\ start_told (TerminateSseRead r t) /\
    concat (chunk_list (TerminateSseRead r t)) = concat (chunk_list t) ++ sse_chunk r)
    as ([C1 C2] & N & O & L & D) by (destruct (answer_next r t Hrd Hr) as (? & ? & ? & ? & ? & _); done).
  rewrite <- D in Hpre. clear D.
  unfold TerminateSseRead in *. cbn [set_next_read set_life set_sst calls] in *.
  destruct (next_callback_ (calls t)); (split; [by constructor|]);
    (split; [exact N|]); (split; [exact O|]); (split; [exact L|]); right; by exists p.
Qed.

Lemma read_goes_on r t p :
  reading t -> sse_stage r = kNext -> parser_ (sio t) = Some p -> stream_ (sio t) <> NoStream ->
  last_emitted_body_size_ (sio t) = length (rsp_body (msg p)) ->
  concat (chunk_list t) ++ sse_chunk r = rsp_body (msg p) -> sse_inv (TerminateSseRead r t).
Proof.
  intros Hrd Hr Hp Hs He Hd. destruct (answer_next r t Hrd Hr) as (C & N & O & L & D & Hl & Hio).
  split; [done|]. rewrite Hl, (reading_life _ Hrd). split; [by left|].
  split; [exists p; by rewrite Hio, D|]. by rewrite Hio.
Qed.

Lemma sse_read_inv ec p p' t :
  reading t -> stream_ (sio t) <> NoStream -> last_emitted_body_size_ (sio t) = length (rsp_body (msg p)) ->
  concat (chunk_list t) = rsp_body (msg p) -> grows p p' -> sse_inv (OnReadNextChunk ec p' t).
Proof.
  intros Hrd Hs He Hd [_ [x Hx]]. unfold OnReadNextChunk. cbv zeta.
  assert (reading (set_sse_parser p' t)) as Hrd1 by (by apply (reading_frame t)).
  destruct ec as [e|].
  - assert (forall (r : Result) (t2 : Task), sse_stage r = kNext -> sse_chunk r = [] -> sfx t2 = sfx t -> calls t2 = calls t ->
      life (sst t2) = life (sst t) -> parser_ (sio t2) = Some p' ->
      sse_inv (TerminateSseRead r (set_life SseDone t2))) as Hend.
    { intros r t2 E1 E2 E3 E4 E5 E6. apply read_ends; [by apply (reading_frame t)|done|].
      exists p'. split; [done|]. rewrite E2, app_nil_r. unfold chunk_list in *. rewrite E3, Hd, Hx.
      by apply prefix_app_r. }
    repeat (case_match; simplify_eq); by apply Hend.
  - change (last_emitted_body_size_ (sio (set_sse_parser p' t))) with (last_emitted_body_size_ (sio t)).
    set (n := last_emitted_body_size_ (sio t)) in *.
    set (chunk := if n <? length (rsp_body (msg p')) then drop n (rsp_body (msg p')) else []).
    assert (concat (chunk_list t) ++ chunk = rsp_body (msg p')) as Hall.
    { subst chunk. rewrite Hd, Hx, He, length_app. destruct (_ <? _) eqn:Hlt.
      - by rewrite drop_app_length.
      - apply Nat.ltb_ge in Hlt. destruct x; [done|cbn in Hlt; lia]. }
    assert (forall t2 : Task, sfx t2 = sfx t -> calls t2 = calls t -> life (sst t2) = life (sst t) ->
      parser_ (sio t2) = Some p' -> stream_ (sio t2) <> NoStream ->
      last_emitted_body_size_ (sio t2) = length (rsp_body (msg p')) ->
      sse_inv (if is_done p' then
                 TerminateSseRead (mkSseResult None kNext kNone false true None chunk)
                   (set_life SseDone (set_termination TerminatedEof t2))
               else TerminateSseRead (mkSseResult None kNext kNone false false None chunk) t2)) as Hgoal.
    { intros t2 E1 E2 E3 E4 E5 E6.
      assert (concat (chunk_list t2) ++ chunk = rsp_body (msg p')) as Hall2
        by (unfold chunk_list in *; by rewrite E1).
      destruct (is_done p').
      - apply read_ends; [by apply (reading_frame t)|done|]. exists p'. split; [done|].
        change (concat (chunk_list t2) ++ chunk `prefix_of` rsp_body (msg p')). by rewrite Hall2.
      - apply (read_goes_on _ _ p'); try done. by apply (reading_frame t). }
    subst chunk. destruct (n <? length (rsp_body (msg p'))) eqn:Hlt; [by apply Hgoal|].
    apply Hgoal; try done. apply Nat.ltb_ge in Hlt. rewrite Hx, length_app in Hlt |- *.
    change (n = length (rsp_body (msg p)) + length x). lia.
Qed.

(** *** All steps *)

Lemma sse_posted_inv o t l1 l2 :
  is_sse_transport o = false -> sse_operations (sfx t) = l1 ++ o :: l2 -> sse_inv t ->
  sse_inv (set_sse_operations (l1 ++ l2) t).
Proof.
  intros Ho Hops. pose proof (sse_ops_remove _ _ _ _ Hops) as Hr. rewrite Ho in Hr. by apply sse_inv_frame.
Qed.

(** A completed transport operation is the one under way. *)
Lemma sse_completed o t l1 l2 :
  sse_operations (sfx t) = l1 ++ o :: l2 -> sse_inv t -> is_sse_transport o = true ->
  let t' := set_sse_operations (l1 ++ l2) t in
  starting_up t' /\ starting_op o t \/
  (exists d, o = SseReadingNext d) /\ reading t' /\ stream_ (sio t) <> NoStream /\ streamed t.
Proof.
  intros Hops [[C1 C2] Hi] Ho t'. pose proof (sse_ops_remove _ _ _ _ Hops) as Hr. rewrite Ho in Hr.
  assert (sse_transport_ops t <> []) as Hne.
  { unfold sse_transport_ops. rewrite Hops, filter_app, filter_cons_True by done. by intros [_ ?]%app_nil. }
  destruct (life (sst t)) eqn:Hl.
  - by destruct Hi as (_ & ? & _).
  - left. destruct Hi as ([S1 S2 S3 S4] & x & Hx & Hop). destruct (Hr x Hx) as [-> Hops']. split; [|done].
    constructor; [done|by constructor|by constructor|done].
  - right. destruct Hi as ([[_ ?]|(cb & d & R1 & R2 & R3)] & Hst & Hs & Ha); [done|].
    destruct (Hr _ R3) as [-> Hops']. split; [by exists d|]. split; [|done].
    constructor; [done|by constructor|by exists cb|done|done].
  - by destruct Hi as (_ & ? & _).
Qed.

Lemma sse_step_inv t t' : sse_step t t' -> sse_inv t -> sse_inv t'.
Proof.
  intros Hstep Hinv. destruct Hstep as [cb t|cb t|t|now cb t l1 l2 Ho|cb t l1 l2 Ho|t l1 l2 Ho|r t k l1 l2 Ho
    |o t l1 l2 Ho Ha|ec t d l1 l2 Ho|now ec p t d l1 l2 Ho Hb|ec p p' t d l1 l2 Ho Hp Hg].
  1-3: unfold Start, Next, Cancel; apply (sse_inv_frame t); try done; by rewrite sse_ops_start, app_nil_r.
  1: by apply sse_DoStart_inv, (sse_posted_inv (SsePostedStart cb)).
  1: by apply sse_next_inv, (sse_posted_inv (SsePostedNext cb)).
  1: by apply sse_cancel_inv, (sse_posted_inv SsePostedCancel).
  2: { assert (is_sse_transport o = true) as Htr by (by destruct o).
       destruct (sse_completed _ _ _ _ Ho Hinv Htr) as [[Hup Hop]|([d' ->] & _)]; [|done].
       apply sse_acquire_done_inv; [done|done|by destruct o]. }
  all: destruct (sse_completed _ _ _ _ Ho Hinv eq_refl) as [[Hup Hop]|([d' Hd] & Hrd & Hs & Hst)]; try done.
  - by apply sse_acquired_inv.
  - destruct Hop. by apply sse_written_inv.
  - destruct Hop. by apply sse_header_inv.
  - destruct Hst as (p0 & P1 & P2 & P3). simplify_eq. by apply (sse_read_inv _ p).
Qed.

Lemma sse_steps_inv t t' : sse_fresh t -> rtc sse_step t t' -> sse_inv t'.
Proof.
  intros [F1 F2 F3 F4] Hs.
  assert (sse_inv t) as Hinv.
  { split; [constructor; unfold next_answered, start_answered; by rewrite ?F2, ?F3|]. rewrite F1.
    unfold no_read, sse_transport_ops, chunk_list, start_answered. by rewrite F1, F2, F3, F4. }
  revert Hinv. clear F1 F2 F3 F4. induction Hs; eauto using sse_step_inv.
Qed.

(** ** What the callers of a task rely on *)


Lemma feed_prefix (a b : str) (p0 : SseEventParser) :
  a `prefix_of` b -> (FeedAllocated a p0).2 `prefix_of` (FeedAllocated b p0).2.
Proof.
  intros [x ->]. rewrite Feed_app. destruct (FeedAllocated a p0) as [p1 e1].
  destruct (FeedAllocated x p1) as [p2 e2]. by exists e2.
Qed.

(** The chunks handed out, fed one by one to an event parser, give the
    events of the body: while the task streams, exactly those of the body read
    so far, and the parser is left as if it had read that body at once; when
    the task is done, a prefix of the events of the body, in their order. *)
Theorem sse_stream_events (t0 t : Task) (p0 : SseEventParser) :
  sse_fresh t0 -> rtc sse_step t0 t -> newline ∉ pending_ p0 ->
  match life (sst t) with
  | SseIdle | SseStarting => feed_all (chunk_list t) p0 = FeedAllocated [] p0
  | SseStreaming =>
      exists p, parser_ (sio t) = Some p /\ feed_all (chunk_list t) p0 = FeedAllocated (rsp_body (msg p)) p0
  | SseDone =>
      feed_all (chunk_list t) p0 = FeedAllocated [] p0 \/
      exists p, parser_ (sio t) = Some p /\
        (feed_all (chunk_list t) p0).2 `prefix_of` (FeedAllocated (rsp_body (msg p)) p0).2
  end.
Proof.
  intros Hf Hs Hp. destruct (sse_steps_inv _ _ Hf Hs) as [_ Hi]. rewrite feed_all_concat by done.
  destruct (life (sst t)).
  - by destruct Hi as (_ & _ & _ & -> & _).
  - by destruct Hi as ([_ [-> _] _ _] & _).
  - destruct Hi as (_ & (p & Hp' & _ & ->) & _). by exists p.
  - destruct Hi as (_ & _ & _ & [->|(p & Hp' & Hpre)]); [by left|right]. exists p. split; [done|].
    by apply feed_prefix.
Qed.
End sse_task.

(** ** Samples *)

Module SseSample.
#[local] Existing Instance default_assembler.

Abbreviation F := (list (str * str)).

Definition options : SseOptions := mkSseOptions sample_options 2000 2000 5000.

Definition created : HttpSseClientTask F unit :=
  CreateHttp tt options (lit "origin.example") (lit "80") (lit "/events").

Definition answer (body : str) (d : bool) : response_parser F :=
  mkParser (mkResponse (mkHeader 11 200 [(lit "Content-Type", lit "Text/Event-Stream")]) body true) d.
Definition one : str := lit "data:x".
Definition two : str := one ++ [newline; newline].

Definition twice : HttpSseClientTask F unit := Start 2 (Start 1 created).
Definition run1 : HttpSseClientTask F unit := RunPostedStart 0 1 (set_sse_operations [SsePostedStart 2] twice).
Definition run2 (k : ConnectionKey) : HttpSseClientTask F unit :=
  RunPostedStart 0 2 (set_sse_operations [SseAcquiring k] run1).
Definition taken k : HttpSseClientTask F unit :=
  start_acquired (inr sample_slot) (set_sse_operations [] (run2 k)).
Definition acquired k : HttpSseClientTask F unit := end_acquired SseTakingStream (set_sse_operations [] (taken k)).
Definition written k : HttpSseClientTask F unit := OnWriteRequest None (set_sse_operations [] (acquired k)).
Definition streaming k : HttpSseClientTask F unit :=
  OnReadHeader 0 None (answer [] false) (set_sse_operations [] (written k)).
Definition asked k : HttpSseClientTask F unit :=
  RunPostedNext 7 (set_sse_operations [] (Next 7 (streaming k))).
Definition half k : HttpSseClientTask F unit :=
  OnReadNextChunk None (answer one false) (set_sse_operations [] (asked k)).
Definition asked2 k : HttpSseClientTask F unit := RunPostedNext 8 (set_sse_operations [] (Next 8 (half k))).
Definition whole k : HttpSseClientTask F unit :=
  OnReadNextChunk None (answer two true) (set_sse_operations [] (asked2 k)).

Definition key : ConnectionKey :=
  match sse_operations (sfx run1) with [_; SseAcquiring k] => k | _ => default_key end.

Lemma sse_created_fresh : sse_fresh created.
Proof. by constructor. Qed.

Lemma sse_sample_operations :
  sse_operations (sfx twice) = [SsePostedStart 1; SsePostedStart 2] /\
  sse_operations (sfx run1) = [SsePostedStart 2; SseAcquiring key] /\
  sse_operations (sfx (run2 key)) = [SseAcquiring key] /\
  sse_operations (sfx (taken key)) = [SseTakingStream] /\
  sse_operations (sfx (acquired key)) = [SseWriting 2000] /\
  sse_operations (sfx (written key)) = [SseReadingHeader 2000] /\
  sse_operations (sfx (Next 7 (streaming key))) = [SsePostedNext 7] /\
  sse_operations (sfx (asked key)) = [SseReadingNext 5000] /\
  parser_ (sio (asked key)) = Some (answer [] false) /\
  sse_operations (sfx (Next 8 (half key))) = [SsePostedNext 8] /\
  sse_operations (sfx (asked2 key)) = [SseReadingNext 5000] /\
  parser_ (sio (asked2 key)) = Some (answer one false).
Proof. split_and!; vm_compute; reflexivity. Qed.

Lemma asked2_reachable : rtc sse_step created (asked2 key).
Proof.
  destruct sse_sample_operations as (H1 & H2 & H3 & H3' & H4 & H5 & H6 & H7 & H8 & H9 & _).
  apply (rtc_l _ _ (Start 1 created)); [apply sse_call_start|].
  apply (rtc_l _ _ twice); [apply sse_call_start|].
  apply (rtc_l _ _ run1); [exact (sse_run_start 0 1 _ [] [_] H1)|].
  apply (rtc_l _ _ (run2 key)); [exact (sse_run_start 0 2 _ [] [_] H2)|].
  apply (rtc_l _ _ (taken key)); [exact (sse_acquired (inr sample_slot) _ _ [] [] H3)|].
  apply (rtc_l _ _ (acquired key)); [exact (sse_acquire_done SseTakingStream _ [] [] H3' eq_refl)|].
  apply (rtc_l _ _ (written key)); [exact (sse_written None _ _ [] [] H4)|].
  apply (rtc_l _ _ (streaming key)); [exact (sse_header_read 0 None (answer [] false) _ _ [] [] H5 eq_refl)|].
  apply (rtc_l _ _ (Next 7 (streaming key))); [apply sse_call_next|].
  apply (rtc_l _ _ (asked key)); [exact (sse_run_next 7 _ [] [] H6)|].
  apply (rtc_l _ _ (half key)).
  { apply (sse_next_read None (answer [] false) (answer one false) _ _ [] [] H7 H8). by (split; [|eexists]). }
  apply (rtc_l _ _ (Next 8 (half key))); [apply sse_call_next|].
  apply rtc_once. exact (sse_run_next 8 _ [] [] H9).
Qed.

Lemma whole_reachable : rtc sse_step created (whole key).
Proof.
  destruct sse_sample_operations as (_ & _ & _ & _ & _ & _ & _ & _ & _ & _ & H1 & H2).
  eapply rtc_r; [apply asked2_reachable|].
  apply (sse_next_read None (answer one false) (answer two true) _ _ [] [] H1 H2).
  split; [done|]. by exists [newline; newline].
Qed.

(** A second [Start] while the first is under way takes its place: the first
    callback is never called. *)
Lemma second_start_replaces :
  rtc sse_step created (whole key) /\ start_calls (calls (whole key)) = [1; 2] /\
  start_answered (whole key) = [2].
Proof. split; [apply whole_reachable|]. split; vm_compute; reflexivity. Qed.


Lemma sse_stream_events_witness :
  exists p, parser_ (sio (asked2 key)) = Some p /\
    feed_all (chunk_list (asked2 key)) Sse.new_parser = FeedAllocated (rsp_body (msg p)) Sse.new_parser.
Proof.
  exact (sse_stream_events created (asked2 key) Sse.new_parser sse_created_fresh asked2_reachable
    (not_elem_of_nil _)).
Defined.

Lemma events_of_whole :
  feed_all (chunk_list (whole key)) Sse.new_parser =
    (Sse.new_parser, [mkEvent [] [] (lit "x") None]).
Proof. vm_compute. reflexivity. Qed.
End SseSample.
