(* ===== verification/ServerRuntime.v ===== *)
(** * The runtime of the server: listening, starting, stopping

    [src/src/core/http_server_accept.cc] (all of it but the accept handlers,
    which are in [AcceptLoop]), http_server_runtime.cc,
    http_server_runtime_config.cc and http_server_construct.cc, with the private
    members of [HttpServer] (http_server.h).  [Start] builds, for every declared
    endpoint, its contexts and acceptors, publishes which executors they have,
    and starts the threads; [Stop] takes all of it down again; a [Start] that
    fails half way rolls back.

    The operating system is a parameter: [sys] answers each socket call of an
    acceptor, with a state [K] of its own.  Contexts, threads and pools are
    identified by numbers that [next_id] hands out.  Three things C++ punishes
    are recorded instead of happening: destroying a joinable [std::thread] sets
    [terminated] (it calls [std::terminate]), joining the thread of a context
    that was not stopped sets [hung], and what was started and joined is kept in
    [started] and [joined]. *)

From S2P Require Import Prelude.

(** ** Options *)

Record HttpServerRuntimeOptions := mkRuntimeOptions {
  core_thread_num : Z;
  max_thread_num : Z;
  fast_queue_capacity : Z;
  thread_clean_interval : Z;
  task_scan_interval : Z;
  suspend_time : Z;
  has_max_connection : bool;
  max_connection : Z;
}.

Definition default_runtime_options (hardware_concurrency : Z) : HttpServerRuntimeOptions :=
  mkRuntimeOptions hardware_concurrency (2 ^ 31 - 1) 0 60000 100 1 false 0.

Record BThreadPoolParam := mkPoolParam {
  p_core_thread_num : Z;
  p_max_thread_num : Z;
  p_fast_queue_capacity : Z;
  p_thread_clean_interval : Z;
  p_task_scan_interval : Z;
  p_suspend_time : Z;
}.

Definition ToThreadPoolParam (options : HttpServerRuntimeOptions) : BThreadPoolParam :=
  mkPoolParam (core_thread_num options) (max_thread_num options)
    (if (fast_queue_capacity options =? 0)%Z then 1 else fast_queue_capacity options)
    (thread_clean_interval options) (task_scan_interval options) (suspend_time options).

Definition MakeRuntimeOptionsFromThreadNum (hardware_concurrency thread_num : Z) : HttpServerRuntimeOptions :=
  let o := default_runtime_options hardware_concurrency in
  if (thread_num =? 0)%Z then o
  else mkRuntimeOptions thread_num thread_num (fast_queue_capacity o) (thread_clean_interval o)
         (task_scan_interval o) (suspend_time o) (has_max_connection o) (max_connection o).

(** ** Data *)

(** Addresses and TLS contexts are opaque. *)
Record EndpointListenConfig := mkListen {
  cfg_endpoint : nat;
  cfg_io_threads : nat;
  cfg_ssl_ctx : option nat;
}.

Inductive IoExecutor :=
  | ControlExecutor
  | PoolExecutor (pool : nat)
  | ShardExecutor (ioc : nat).

Record IoContext := mkContext { ioc_id : nat; ioc_stopped : bool }.
Record acceptor := mkAcceptor { acc_ioc : nat; acc_open : bool; acc_waiting : nat }.
Record thread := mkThread { native_handle : nat; thread_runs : nat }.

Record EndpointRuntime := mkRuntime {
  rt_endpoint : nat;
  rt_ssl_ctx : option nat;
  run_threads : nat;
  io_contexts : list IoContext;
  io_work_guards : list nat;
  acceptors : list acceptor;
  io_threads : list thread;
}.

Record ThreadNativeHandleRecord := mkHandle {
  h_handle : nat;
  h_endpoint : Z;
  h_shard : Z;
  h_control : bool;
}.

(** [std::numeric_limits<std::size_t>::max()]. *)
Definition no_endpoint : Z := size_t_mod - 1.

Record server_config := mkConfig {
  kRuntimeOptions_ : HttpServerRuntimeOptions;
  endpoint_configs_ : list EndpointListenConfig;
  header_read_expiry_ : Z;
  keep_alive_timeout_ : Z;
  logger_ : nat;
  service_providers_ : list (option nat);
}.

Record server_runtime := mkServerRuntime {
  endpoint_runtimes_ : list EndpointRuntime;
  endpoint_io_execs_snapshot_ : list (list IoExecutor);
  global_io_execs_snapshot_ : list IoExecutor;
  thread_native_handles_ : list ThreadNativeHandleRecord;
  io_exec_round_robin_ : Z;
  reuse_port_supported_ : bool;
}.

Record control_io := mkControl {
  control_io_work_guard_ : bool;
  control_io_thread_ : option nat;
  control_ioc_stopped : bool;
}.

Record ThreadPoolState := mkPool { pool_id : nat; pool_param : BThreadPoolParam; pool_joined : bool }.

Record history := mkHistory {
  next_id : nat;
  started : list nat;
  joined : list nat;
  terminated : bool;
  hung : bool;
}.

Record HttpServer := mkServer {
  cfg : server_config;
  rt : server_runtime;
  ctl : control_io;
  thread_pool_ : option ThreadPoolState;
  available_connection_num_ : Z;
  is_running_ : bool;
  hist : history;
}.

(** ** Setters *)

Definition set_cfg (c : server_config) (s : HttpServer) : HttpServer :=
  mkServer c (rt s) (ctl s) (thread_pool_ s) (available_connection_num_ s) (is_running_ s) (hist s).
Definition set_rt (r : server_runtime) (s : HttpServer) : HttpServer :=
  mkServer (cfg s) r (ctl s) (thread_pool_ s) (available_connection_num_ s) (is_running_ s) (hist s).
Definition set_ctl (c : control_io) (s : HttpServer) : HttpServer :=
  mkServer (cfg s) (rt s) c (thread_pool_ s) (available_connection_num_ s) (is_running_ s) (hist s).
Definition set_pool (p : option ThreadPoolState) (s : HttpServer) : HttpServer :=
  mkServer (cfg s) (rt s) (ctl s) p (available_connection_num_ s) (is_running_ s) (hist s).
Definition set_available (n : Z) (s : HttpServer) : HttpServer :=
  mkServer (cfg s) (rt s) (ctl s) (thread_pool_ s) n (is_running_ s) (hist s).
Definition set_running (b : bool) (s : HttpServer) : HttpServer :=
  mkServer (cfg s) (rt s) (ctl s) (thread_pool_ s) (available_connection_num_ s) b (hist s).
Definition set_hist (h : history) (s : HttpServer) : HttpServer :=
  mkServer (cfg s) (rt s) (ctl s) (thread_pool_ s) (available_connection_num_ s) (is_running_ s) h.

Definition set_runtimes (l : list EndpointRuntime) (s : HttpServer) : HttpServer :=
  set_rt (mkServerRuntime l (endpoint_io_execs_snapshot_ (rt s)) (global_io_execs_snapshot_ (rt s))
    (thread_native_handles_ (rt s)) (io_exec_round_robin_ (rt s)) (reuse_port_supported_ (rt s))) s.
Definition set_handles (l : list ThreadNativeHandleRecord) (s : HttpServer) : HttpServer :=
  set_rt (mkServerRuntime (endpoint_runtimes_ (rt s)) (endpoint_io_execs_snapshot_ (rt s))
    (global_io_execs_snapshot_ (rt s)) l (io_exec_round_robin_ (rt s)) (reuse_port_supported_ (rt s))) s.
Definition set_round_robin (n : Z) (s : HttpServer) : HttpServer :=
  set_rt (mkServerRuntime (endpoint_runtimes_ (rt s)) (endpoint_io_execs_snapshot_ (rt s))
    (global_io_execs_snapshot_ (rt s)) (thread_native_handles_ (rt s)) n (reuse_port_supported_ (rt s))) s.
Definition set_reuse_port (b : bool) (s : HttpServer) : HttpServer :=
  set_rt (mkServerRuntime (endpoint_runtimes_ (rt s)) (endpoint_io_execs_snapshot_ (rt s))
    (global_io_execs_snapshot_ (rt s)) (thread_native_handles_ (rt s)) (io_exec_round_robin_ (rt s)) b) s.

Definition set_rt_acceptors (l : list acceptor) (r : EndpointRuntime) : EndpointRuntime :=
  mkRuntime (rt_endpoint r) (rt_ssl_ctx r) (run_threads r) (io_contexts r) (io_work_guards r) l (io_threads r).
Definition set_rt_threads (l : list thread) (r : EndpointRuntime) : EndpointRuntime :=
  mkRuntime (rt_endpoint r) (rt_ssl_ctx r) (run_threads r) (io_contexts r) (io_work_guards r) (acceptors r) l.

(** ** Threads *)

(** [std::thread] started: the new thread's number. *)
Definition start_thread (s : HttpServer) : nat * HttpServer :=
  let h := hist s in
  (next_id h,
   set_hist (mkHistory (S (next_id h)) (started h ++ [next_id h]) (joined h) (terminated h) (hung h)) s).

Definition join_thread (stopped : bool) (handle : nat) (h : history) : history :=
  mkHistory (next_id h) (started h) (joined h ++ [handle]) (terminated h) (hung h || negb stopped).

(** Destroying threads that are still joinable. *)
Definition destroy_threads (n : nat) (h : history) : history :=
  match n with
  | O => h
  | _ => mkHistory (next_id h) (started h) (joined h) true (hung h)
  end.

Definition fresh_id (s : HttpServer) : nat * HttpServer :=
  let h := hist s in
  (next_id h, set_hist (mkHistory (S (next_id h)) (started h) (joined h) (terminated h) (hung h)) s).

(** ** Construction and configuration *)

Definition CreateThreadPool (options : HttpServerRuntimeOptions) (s : HttpServer) : HttpServer :=
  let '(i, s) := fresh_id s in set_pool (Some (mkPool i (ToThreadPoolParam options) false)) s.

Definition GetThreadPoolExecutor (s : HttpServer) : option IoExecutor :=
  match thread_pool_ s with
  | None => None
  | Some p => Some (PoolExecutor (pool_id p))
  end.

Definition JoinThreadPool (s : HttpServer) : HttpServer :=
  match thread_pool_ s with
  | None => s
  | Some p => set_pool (Some (mkPool (pool_id p) (pool_param p) true)) s
  end.

Definition ResetThreadPool (s : HttpServer) : HttpServer :=
  let s := if is_running_ s then JoinThreadPool s else s in
  CreateThreadPool (kRuntimeOptions_ (cfg s)) s.

Definition new_HttpServer (runtime_options : HttpServerRuntimeOptions) : HttpServer :=
  mkServer (mkConfig runtime_options [] 3000 4000 0 [])
    (mkServerRuntime [] [] [] [] 0 false) (mkControl false None false)
    (Some (mkPool 0 (ToThreadPoolParam runtime_options) false))
    (if has_max_connection runtime_options then to_int64 (max_connection runtime_options) else 0)
    false (mkHistory 1 [] [] false false).

Definition AddListen (ep io_threads : nat) (ssl_ctx : option nat) (s : HttpServer) : HttpServer :=
  if is_running_ s then s
  else
    let io_threads := if io_threads =? 0 then 1 else io_threads in
    let c := cfg s in
    set_cfg (mkConfig (kRuntimeOptions_ c) (endpoint_configs_ c ++ [mkListen ep io_threads ssl_ctx])
      (header_read_expiry_ c) (keep_alive_timeout_ c) (logger_ c) (service_providers_ c)) s.

Definition SetHeaderReadExpiry (expiry : Z) (s : HttpServer) : HttpServer :=
  if is_running_ s then s
  else
    let c := cfg s in
    set_cfg (mkConfig (kRuntimeOptions_ c) (endpoint_configs_ c) expiry (keep_alive_timeout_ c)
      (logger_ c) (service_providers_ c)) s.

Definition SetKeepAliveTimeout (timeout : Z) (s : HttpServer) : HttpServer :=
  if is_running_ s then s
  else
    let c := cfg s in
    set_cfg (mkConfig (kRuntimeOptions_ c) (endpoint_configs_ c) (header_read_expiry_ c) timeout
      (logger_ c) (service_providers_ c)) s.

Definition SetLogger (logger : nat) (s : HttpServer) : HttpServer :=
  if is_running_ s then s
  else
    let c := cfg s in
    set_cfg (mkConfig (kRuntimeOptions_ c) (endpoint_configs_ c) (header_read_expiry_ c)
      (keep_alive_timeout_ c) logger (service_providers_ c)) s.

(** The slots grow on demand; a slot never set holds no provider. *)
Definition SetServiceProvider (index : nat) (provider : option nat) (s : HttpServer) : HttpServer :=
  let c := cfg s in
  let l := service_providers_ c in
  let l := if length l <=? index then resize (S index) None l else l in
  set_cfg (mkConfig (kRuntimeOptions_ c) (endpoint_configs_ c) (header_read_expiry_ c)
    (keep_alive_timeout_ c) (logger_ c) (<[index := provider]> l)) s.

Definition GetServiceProvider (index : nat) (s : HttpServer) : option nat :=
  let l := service_providers_ (cfg s) in
  if length l <=? index then None else default None (l !! index).

(** ** Executors *)

Definition ClearThreadNativeHandlesLocked (s : HttpServer) : HttpServer := set_handles [] s.

Definition ClearExecutorSnapshotsLocked (s : HttpServer) : HttpServer :=
  let r := rt s in
  ClearThreadNativeHandlesLocked
    (set_rt (mkServerRuntime (endpoint_runtimes_ r) [] [] (thread_native_handles_ r) 0
       (reuse_port_supported_ r)) s).

Definition PublishExecutorSnapshotsLocked (endpoint_execs : list (list IoExecutor))
    (global_execs : list IoExecutor) (s : HttpServer) : HttpServer :=
  let r := rt s in
  set_rt (mkServerRuntime (endpoint_runtimes_ r) endpoint_execs global_execs (thread_native_handles_ r) 0
    (reuse_port_supported_ r)) s.

Definition PublishThreadNativeHandlesLocked (s : HttpServer) : HttpServer :=
  let shards :=
    concat (imap (fun ei r =>
      imap (fun si t => mkHandle (native_handle t) (Z.of_nat ei) (Z.of_nat si) false) (io_threads r))
      (endpoint_runtimes_ (rt s))) in
  let control :=
    match control_io_thread_ (ctl s) with
    | Some h => [mkHandle h no_endpoint 0 true]
    | None => []
    end in
  set_handles (shards ++ control) s.

(** The cursor is a [std::size_t] and wraps around. *)
Definition SelectIoExecutorRoundRobin (s : HttpServer) : IoExecutor * HttpServer :=
  match global_io_execs_snapshot_ (rt s) with
  | [] => (ControlExecutor, s)
  | l =>
      let c := io_exec_round_robin_ (rt s) in
      (nth (Z.to_nat (c mod Z.of_nat (length l))) l ControlExecutor, set_round_robin (to_size_t (c + 1)) s)
  end.

Definition GetIoExecutor (s : HttpServer) : option IoExecutor * HttpServer :=
  if negb (is_running_ s) then (None, s)
  else let '(e, s) := SelectIoExecutorRoundRobin s in (Some e, s).

Definition GetExecutor (s : HttpServer) : option IoExecutor * HttpServer :=
  if negb (is_running_ s) then (None, s)
  else
    match GetThreadPoolExecutor s with
    | Some e => (Some e, s)
    | None => let '(e, s) := SelectIoExecutorRoundRobin s in (Some e, s)
    end.

Definition GetEndpointExecutors (endpoint_index : nat) (s : HttpServer) : list IoExecutor :=
  if negb (is_running_ s) then []
  else default [] (endpoint_io_execs_snapshot_ (rt s) !! endpoint_index).

Definition GetGlobalExecutors (s : HttpServer) : list IoExecutor :=
  if negb (is_running_ s) then [] else global_io_execs_snapshot_ (rt s).

Definition GetThreadNativeHandles (s : HttpServer) : list ThreadNativeHandleRecord :=
  if negb (is_running_ s) then [] else thread_native_handles_ (rt s).

(** Where a function goes that is posted or dispatched; [None] drops it. *)
Definition PostToIoContext (s : HttpServer) : option IoExecutor * HttpServer :=
  if negb (is_running_ s) then (None, s)
  else let '(e, s) := SelectIoExecutorRoundRobin s in (Some e, s).

Definition DispatchToIoContext (s : HttpServer) : option IoExecutor * HttpServer :=
  if negb (is_running_ s) then (None, s)
  else let '(e, s) := SelectIoExecutorRoundRobin s in (Some e, s).

Definition Post (s : HttpServer) : option IoExecutor * HttpServer :=
  if negb (is_running_ s) then (None, s)
  else
    match GetThreadPoolExecutor s with
    | Some e => (Some e, s)
    | None => PostToIoContext s
    end.

Definition Dispatch (s : HttpServer) : option IoExecutor * HttpServer :=
  if negb (is_running_ s) then (None, s)
  else
    match GetThreadPoolExecutor s with
    | Some e => (Some e, s)
    | None => DispatchToIoContext s
    end.

(** The executor and the delay of the timer that is set, if any. *)
Definition SetTimer (timeout : Z) (s : HttpServer) : option (IoExecutor * Z) * HttpServer :=
  if negb (is_running_ s) then (None, s)
  else let '(e, s) := SelectIoExecutorRoundRobin s in (Some (e, timeout), s).

Definition on_timer (error : bool) (s : HttpServer) : option IoExecutor * HttpServer :=
  if error then (None, s) else if negb (is_running_ s) then (None, s) else Post s.

(** ** Stopping *)

Definition CloseAcceptor (a : acceptor) : acceptor := mkAcceptor (acc_ioc a) false (acc_waiting a).

Definition stop_endpoint_io (r : EndpointRuntime) : EndpointRuntime :=
  mkRuntime (rt_endpoint r) (rt_ssl_ctx r) (run_threads r)
    ((fun c => mkContext (ioc_id c) true) <$> io_contexts r) []
    (CloseAcceptor <$> acceptors r) (io_threads r).

Definition StopEndpointIoLocked (s : HttpServer) : HttpServer :=
  set_runtimes (stop_endpoint_io <$> endpoint_runtimes_ (rt s)) s.

(** Whether [run] of the context a thread executes returns. *)
Definition context_stopped (r : EndpointRuntime) (t : thread) : bool :=
  forallb (fun c => ioc_stopped c || negb (ioc_id c =? thread_runs t)) (io_contexts r).

Definition join_runtime (h : history) (r : EndpointRuntime) : history :=
  foldl (fun h t => join_thread (context_stopped r t) (native_handle t) h) h (io_threads r).

Definition JoinEndpointIoThreadsLocked (s : HttpServer) : HttpServer :=
  set_runtimes (set_rt_threads [] <$> endpoint_runtimes_ (rt s))
    (set_hist (foldl join_runtime (hist s) (endpoint_runtimes_ (rt s))) s).

(** [endpoint_runtimes_.clear()] destroys the threads of the runtimes. *)
Definition clear_runtimes (s : HttpServer) : HttpServer :=
  set_runtimes []
    (set_hist (destroy_threads (length (concat (io_threads <$> endpoint_runtimes_ (rt s)))) (hist s)) s).

Definition stop_control (s : HttpServer) : HttpServer :=
  set_ctl (mkControl (control_io_work_guard_ (ctl s)) (control_io_thread_ (ctl s)) true) s.

Definition ResetControlIoLocked (s : HttpServer) : HttpServer :=
  let s := set_ctl (mkControl false (control_io_thread_ (ctl s)) (control_ioc_stopped (ctl s))) s in
  let s := stop_control s in
  let s :=
    match control_io_thread_ (ctl s) with
    | Some t => set_hist (join_thread (control_ioc_stopped (ctl s)) t (hist s)) s
    | None => s
    end in
  let s := set_ctl (mkControl (control_io_work_guard_ (ctl s)) None (control_ioc_stopped (ctl s))) s in
  set_ctl (mkControl (control_io_work_guard_ (ctl s)) (control_io_thread_ (ctl s)) false) s.

Definition RollbackStartLocked (s : HttpServer) : HttpServer :=
  let s := ClearExecutorSnapshotsLocked s in
  let s := StopEndpointIoLocked s in
  let s := JoinEndpointIoThreadsLocked s in
  let s := clear_runtimes s in
  let s := ResetControlIoLocked s in
  let s := set_reuse_port false s in
  set_running false s.

Definition Stop (s : HttpServer) : HttpServer :=
  if negb (is_running_ s) then s
  else
    let s := set_running false s in
    let s := ClearExecutorSnapshotsLocked s in
    let s := StopEndpointIoLocked s in
    let s := stop_control s in
    let s := JoinThreadPool s in
    let s := JoinEndpointIoThreadsLocked s in
    let s := ResetControlIoLocked s in
    let s := clear_runtimes s in
    set_reuse_port false s.

(** ** Starting *)

(** [async_accept] on an acceptor. *)
Definition add_waiting (a : acceptor) : acceptor := mkAcceptor (acc_ioc a) (acc_open a) (S (acc_waiting a)).

Definition DoAccept (endpoint_index shard_index : nat) (s : HttpServer) : HttpServer :=
  match endpoint_runtimes_ (rt s) !! endpoint_index with
  | None => s
  | Some r =>
      if length (acceptors r) <=? shard_index then s
      else
        set_runtimes
          (<[endpoint_index := set_rt_acceptors (alter add_waiting shard_index (acceptors r)) r]>
             (endpoint_runtimes_ (rt s))) s
  end.

Definition start_accepting (s : HttpServer) : HttpServer :=
  foldl (fun s ei =>
    match endpoint_runtimes_ (rt s) !! ei with
    | None => s
    | Some r => foldl (fun s si => DoAccept ei si s) s (seq 0 (length (acceptors r)))
    end) s (seq 0 (length (endpoint_runtimes_ (rt s)))).

(** One thread for each of the contexts given. *)
Fixpoint start_io_threads (contexts : list nat) (s : HttpServer) : list thread * HttpServer :=
  match contexts with
  | [] => ([], s)
  | c :: contexts =>
      let '(h, s) := start_thread s in
      let '(l, s) := start_io_threads contexts s in
      (mkThread h c :: l, s)
  end.

Definition thread_contexts (reuse_port : bool) (r : EndpointRuntime) : list nat :=
  match io_contexts r with
  | [] => []
  | c :: _ => if reuse_port then ioc_id <$> io_contexts r else replicate (run_threads r) (ioc_id c)
  end.

Fixpoint start_threads (runtimes : list EndpointRuntime) (s : HttpServer) : list EndpointRuntime * HttpServer :=
  match runtimes with
  | [] => ([], s)
  | r :: runtimes =>
      let '(l, s) := start_io_threads (thread_contexts (reuse_port_supported_ (rt s)) r) s in
      let '(rs, s) := start_threads runtimes s in
      (set_rt_threads (io_threads r ++ l) r :: rs, s)
  end.

Definition StartEndpointRuntimesLocked (s : HttpServer) : HttpServer :=
  let s := start_accepting s in
  let '(rs, s) := start_threads (endpoint_runtimes_ (rt s)) s in
  set_runtimes rs s.

(** The calls an acceptor makes to the operating system.  Closing is not one of
    them: whatever it answers is ignored. *)
Inductive syscall :=
  | SysOpen (ep : nat)
  | SysReuseAddress
  | SysReusePort
  | SysBind (ep : nat)
  | SysListen.

Section start.
(** [sys i c k]: whether call [c] of acceptor [i] succeeds, and what becomes of
    the system.  [has_reuse_port] is the platform test of the preprocessor. *)
Context {K : Type} (sys : nat -> syscall -> K -> bool * K) (has_reuse_port : bool).

Definition TryEnableReusePort (i : nat) (k : K) : bool * K :=
  if has_reuse_port then
    let '(a, k) := sys i SysReuseAddress k in
    let '(b, k) := sys i SysReusePort k in
    (a && b, k)
  else (false, k).

(** The result and the flag written through [reuse_port_enabled]. *)
Definition SetupEndpointAcceptor (a : acceptor) (ep : nat) (try_reuse_port require_reuse_port : bool)
    (k : K) : option bool * (acceptor * K) :=
  let i := acc_ioc a in
  let closed k := (None, (CloseAcceptor a, k)) in
  let '(ok, k) := sys i (SysOpen ep) k in
  if negb ok then (None, (a, k))
  else
    let a := mkAcceptor i true (acc_waiting a) in
    let '(ok, k) := sys i SysReuseAddress k in
    if negb ok then closed k
    else
      let '(reuse_enabled, k) := if try_reuse_port then TryEnableReusePort i k else (false, k) in
      if try_reuse_port && (require_reuse_port && negb reuse_enabled) then closed k
      else
        let '(ok, k) := sys i (SysBind ep) k in
        if negb ok then closed k
        else
          let '(ok, k) := sys i SysListen k in
          if negb ok then closed k else (Some reuse_enabled, (a, k)).

(** What the builders of one endpoint work on. *)
Record builder := mkBuilder {
  b_runtime : EndpointRuntime;
  b_endpoint_execs : list IoExecutor;
  b_global_execs : list IoExecutor;
  b_next : nat;
  b_kernel : K;
}.

(** A context with its guard and an acceptor on it, set up; its executor is
    added when that works. *)
Definition build_shard (ep : nat) (try_reuse_port require_reuse_port : bool) (b : builder) :
    option bool * builder :=
  let r := b_runtime b in
  let i := b_next b in
  let '(res, (a, k)) :=
    SetupEndpointAcceptor (mkAcceptor i false 0) ep try_reuse_port require_reuse_port (b_kernel b) in
  let r := mkRuntime (rt_endpoint r) (rt_ssl_ctx r) (run_threads r) (io_contexts r ++ [mkContext i false])
             (io_work_guards r ++ [i]) (acceptors r ++ [a]) (io_threads r) in
  match res with
  | None => (None, mkBuilder r (b_endpoint_execs b) (b_global_execs b) (S i) k)
  | Some reuse =>
      (Some reuse, mkBuilder r (b_endpoint_execs b ++ [ShardExecutor i])
                     (b_global_execs b ++ [ShardExecutor i]) (S i) k)
  end.

(** [n] more shards. *)
Fixpoint BuildReusePortShardsLocked (ep n : nat) (b : builder) : bool * builder :=
  match n with
  | O => (true, b)
  | S n =>
      let '(res, b) := build_shard ep true true b in
      match res with
      | None => (false, b)
      | Some _ => BuildReusePortShardsLocked ep n b
      end
  end.

Definition BuildReusePortEndpointRuntimeLocked (c : EndpointListenConfig) (b : builder) : bool * builder :=
  BuildReusePortShardsLocked (cfg_endpoint c) (cfg_io_threads c) b.

Definition BuildFallbackEndpointRuntimeLocked (c : EndpointListenConfig) (b : builder) : bool * builder :=
  let '(res, b) := build_shard (cfg_endpoint c) false false b in
  (bool_decide (is_Some res), b).

(** The first endpoint finds out whether ports can be shared. *)
Definition BuildFirstEndpointRuntimeLocked (c : EndpointListenConfig) (b : builder) :
    option bool * builder :=
  let '(res, b) := build_shard (cfg_endpoint c) true false b in
  match res with
  | None => (None, b)
  | Some false => (Some false, b)
  | Some true =>
      let '(ok, b) := BuildReusePortShardsLocked (cfg_endpoint c) (cfg_io_threads c - 1) b in
      (if ok then Some true else None, b)
  end.

Definition new_runtime (c : EndpointListenConfig) : EndpointRuntime :=
  mkRuntime (cfg_endpoint c) (cfg_ssl_ctx c) (cfg_io_threads c) [] [] [] [].

(** One endpoint, in the mode decided so far: the mode afterwards. *)
Definition build_endpoint (mode : option bool) (c : EndpointListenConfig) (b : builder) :
    option bool * builder :=
  match mode with
  | None => BuildFirstEndpointRuntimeLocked c b
  | Some true =>
      let '(ok, b) := BuildReusePortEndpointRuntimeLocked c b in (if ok then Some true else None, b)
  | Some false =>
      let '(ok, b) := BuildFallbackEndpointRuntimeLocked c b in (if ok then Some false else None, b)
  end.

Record builds := mkBuilds {
  bs_runtimes : list EndpointRuntime;
  bs_endpoint_execs : list (list IoExecutor);
  bs_global_execs : list IoExecutor;
  bs_next : nat;
  bs_kernel : K;
}.

(** The loop over the endpoints that are left.  The mode is [None] until the
    first one has decided it; a failure returns what was built before. *)
Fixpoint build_endpoints (mode : option bool) (configs : list EndpointListenConfig) (bs : builds) :
    bool * option bool * builds :=
  match configs with
  | [] => (true, mode, bs)
  | c :: configs =>
      let '(res, b) :=
        build_endpoint mode c
          (mkBuilder (new_runtime c) [] (bs_global_execs bs) (bs_next bs) (bs_kernel bs)) in
      match res with
      | None =>
          (false, mode,
           mkBuilds (bs_runtimes bs) (bs_endpoint_execs bs ++ [b_endpoint_execs b]) (b_global_execs b)
             (b_next b) (b_kernel b))
      | Some m =>
          build_endpoints (Some m) configs
            (mkBuilds (bs_runtimes bs ++ [b_runtime b]) (bs_endpoint_execs bs ++ [b_endpoint_execs b])
               (b_global_execs b) (b_next b) (b_kernel b))
      end
  end.

Definition BuildEndpointRuntimesLocked (k : K) (s : HttpServer) :
    bool * (list (list IoExecutor) * list IoExecutor) * (HttpServer * K) :=
  let s := clear_runtimes s in
  let h := hist s in
  let '(ok, mode, bs) :=
    build_endpoints None (endpoint_configs_ (cfg s)) (mkBuilds [] [] [] (next_id h) k) in
  let s := set_hist (mkHistory (bs_next bs) (started h) (joined h) (terminated h) (hung h)) s in
  let s := set_reuse_port (default false mode) (set_runtimes (bs_runtimes bs) s) in
  (ok, (bs_endpoint_execs bs, bs_global_execs bs), (s, bs_kernel bs)).

(** The control context gets its guard and its thread. *)
Definition start_control (s : HttpServer) : HttpServer :=
  let s := set_ctl (mkControl true (control_io_thread_ (ctl s)) false) s in
  let s := set_hist (destroy_threads (length (option_list (control_io_thread_ (ctl s)))) (hist s)) s in
  let '(t, s) := start_thread s in
  set_ctl (mkControl (control_io_work_guard_ (ctl s)) (Some t) (control_ioc_stopped (ctl s))) s.

Definition Start (k : K) (s : HttpServer) : bool * (HttpServer * K) :=
  if is_running_ s then (false, (s, k))
  else
    let s := ResetThreadPool s in
    let o := kRuntimeOptions_ (cfg s) in
    let s := if has_max_connection o then set_available (to_int64 (max_connection o)) s else s in
    let s := set_running true s in
    let s := start_control s in
    let '(ok, (endpoint_execs, global_execs), (s, k)) := BuildEndpointRuntimesLocked k s in
    if negb ok then (false, (RollbackStartLocked s, k))
    else
      let s := PublishExecutorSnapshotsLocked endpoint_execs global_execs s in
      let s := StartEndpointRuntimesLocked s in
      (true, (PublishThreadNativeHandlesLocked s, k)).
End start.

(** ** What a successful start builds *)

(** A runtime with the shards [i], [i + 1], ... *)
Definition built_runtime (c : EndpointListenConfig) (i n : nat) : EndpointRuntime :=
  mkRuntime (cfg_endpoint c) (cfg_ssl_ctx c) (cfg_io_threads c) ((fun i => mkContext i false) <$> seq i n)
    (seq i n) ((fun i => mkAcceptor i true 0) <$> seq i n) [].

(** The shards of an endpoint: one for each thread where ports can be shared,
    and one otherwise. *)
Definition shards (reuse_port : bool) (c : EndpointListenConfig) : nat :=
  if reuse_port then cfg_io_threads c else 1.

Fixpoint built_runtimes (reuse_port : bool) (i : nat) (configs : list EndpointListenConfig) :
    list EndpointRuntime :=
  match configs with
  | [] => []
  | c :: configs =>
      built_runtime c i (shards reuse_port c) :: built_runtimes reuse_port (i + shards reuse_port c) configs
  end.

Definition total_shards (reuse_port : bool) (configs : list EndpointListenConfig) : nat :=
  sum_list_with (shards reuse_port) configs.

Definition runtime_execs (r : EndpointRuntime) : list IoExecutor :=
  (fun c => ShardExecutor (ioc_id c)) <$> io_contexts r.

Lemma built_execs c i n : runtime_execs (built_runtime c i n) = ShardExecutor <$> seq i n.
Proof. unfold runtime_execs, built_runtime. cbn [io_contexts]. by rewrite <- list_fmap_compose. Qed.

Section build.
Context {K : Type} (sys : nat -> syscall -> K -> bool * K) (has_reuse_port : bool).

Definition built (c : EndpointListenConfig) (g : list IoExecutor) (i n : nat) (k : K) : builder :=
  mkBuilder (built_runtime c i n) (ShardExecutor <$> seq i n) (g ++ (ShardExecutor <$> seq i n)) (i + n) k.

(** A successful setup leaves the acceptor open. *)
Lemma setup_open i ep t q k res a k' :
  SetupEndpointAcceptor sys has_reuse_port (mkAcceptor i false 0) ep t q k = (Some res, (a, k')) ->
  a = mkAcceptor i true 0.
Proof.
  unfold SetupEndpointAcceptor. cbn [acc_ioc acc_waiting]. intros. repeat (case_match; simplify_eq/=); done.
Qed.

Lemma built_shard c g i n k ep t q res b :
  build_shard sys has_reuse_port ep t q (built c g i n k) = (Some res, b) ->
  exists k', b = built c g i (S n) k'.
Proof.
  unfold build_shard. cbn [b_next b_kernel built b_runtime].
  destruct (SetupEndpointAcceptor _ _ _ _ _ _ _) as [[r|] [a k']] eqn:Hs; intros Hb; simplify_eq.
  apply setup_open in Hs as ->. exists k'. unfold built, built_runtime.
  cbn [rt_endpoint rt_ssl_ctx run_threads io_contexts io_work_guards acceptors io_threads b_endpoint_execs
       b_global_execs].
  by rewrite seq_S, !fmap_app, <- app_assoc, Nat.add_succ_r.
Qed.

Lemma built_shards c g i m : forall n k b,
  BuildReusePortShardsLocked sys has_reuse_port (cfg_endpoint c) m (built c g i n k) = (true, b) ->
  exists k', b = built c g i (n + m) k'.
Proof.
  induction m as [|m IH]; intros n k b; cbn [BuildReusePortShardsLocked].
  - intros [= <-]. exists k. by rewrite Nat.add_0_r.
  - destruct (build_shard _ _ _ _ _ _) as [[res|] b1] eqn:Hb; [|done].
    apply built_shard in Hb as [k' ->]. intros Hs. apply IH in Hs as [k'' ->].
    exists k''. by rewrite Nat.add_succ_comm.
Qed.

Lemma built_endpoint mode c g i k m b :
  0 < cfg_io_threads c ->
  build_endpoint sys has_reuse_port mode c (built c g i 0 k) = (Some m, b) ->
  (exists k', b = built c g i (shards m c) k') /\ (mode = None \/ mode = Some m).
Proof.
  intros Hio. unfold build_endpoint, BuildFirstEndpointRuntimeLocked, BuildReusePortEndpointRuntimeLocked,
    BuildFallbackEndpointRuntimeLocked, shards. destruct mode as [[|]|].
  - destruct (BuildReusePortShardsLocked _ _ _ _ _) as [[|] b1] eqn:Hs; intros Hb; simplify_eq.
    apply built_shards in Hs as [k' ->]. split; [by exists k'|by right].
  - destruct (build_shard _ _ _ _ _ _) as [[res|] b1] eqn:Hs; cbn; intros Hb; simplify_eq.
    apply built_shard in Hs as [k' ->]. split; [by exists k'|by right].
  - destruct (build_shard _ _ _ _ _ _) as [[[|]|] b1] eqn:Hs; intros Hb; simplify_eq;
      apply built_shard in Hs as [k' ->].
    + destruct (BuildReusePortShardsLocked _ _ _ _ _) as [[|] b2] eqn:Hs; simplify_eq.
      apply built_shards in Hs as [k'' ->]. replace (1 + (cfg_io_threads c - 1)) with (cfg_io_threads c) by lia.
      split; [by exists k''|by left].
    + split; [by exists k'|by left].
Qed.

(** Numbers are only ever handed out. *)
Lemma build_shard_next ep t q b res b' :
  build_shard sys has_reuse_port ep t q b = (res, b') -> b_next b < b_next b'.
Proof.
  unfold build_shard. destruct (SetupEndpointAcceptor _ _ _ _ _ _ _) as [[r|] [a k']];
    intros; simplify_eq; cbn; lia.
Qed.

Lemma build_shards_next ep m : forall b res b',
  BuildReusePortShardsLocked sys has_reuse_port ep m b = (res, b') -> b_next b <= b_next b'.
Proof.
  induction m as [|m IH]; intros b res b'; cbn [BuildReusePortShardsLocked]; [by intros [= _ <-]|].
  destruct (build_shard _ _ _ _ _ _) as [[r|] b1] eqn:Hb; apply build_shard_next in Hb;
    [intros Hs; apply IH in Hs; lia|intros [= _ <-]; lia].
Qed.

Lemma build_endpoint_next mode c b res b' :
  build_endpoint sys has_reuse_port mode c b = (res, b') -> b_next b <= b_next b'.
Proof.
  unfold build_endpoint, BuildFirstEndpointRuntimeLocked, BuildReusePortEndpointRuntimeLocked,
    BuildFallbackEndpointRuntimeLocked. intros Hb. repeat (case_match; simplify_eq);
    repeat match goal with
    | H : build_shard _ _ _ _ _ _ = _ |- _ => apply build_shard_next in H
    | H : BuildReusePortShardsLocked _ _ _ _ _ = _ |- _ => apply build_shards_next in H
    end; lia.
Qed.

(** What is there when the endpoints in front have been built. *)
Definition built_all (rs : list EndpointRuntime) (n : nat) (k : K) : builds :=
  mkBuilds rs (runtime_execs <$> rs) (concat (runtime_execs <$> rs)) n k.

Lemma built_all_endpoints configs : forall mode rs i k ok mode' bs,
  Forall (fun c => 0 < cfg_io_threads c) configs ->
  build_endpoints sys has_reuse_port mode configs (built_all rs i k) = (ok, mode', bs) ->
  if ok then
    exists k' m,
      bs = built_all (rs ++ built_runtimes m i configs) (i + total_shards m configs) k' /\
      (mode = None \/ mode = Some m) /\ (configs = [] -> mode' = mode) /\ (configs <> [] -> mode' = Some m)
  else
    exists rs' m, bs_runtimes bs = rs ++ rs' /\ i <= bs_next bs /\ Forall (fun r => io_threads r = []) rs' /\
      mode' = m.
Proof.
  induction configs as [|c configs IH]; intros mode rs i k ok mode' bs Hio; cbn [build_endpoints].
  - intros [= <- <- <-]. exists k, (default false mode). rewrite app_nil_r, Nat.add_0_r.
    split_and!; try done. destruct mode; [by right|by left].
  - apply Forall_cons in Hio as [Hc Hio].
    change (mkBuilder (new_runtime c) [] (bs_global_execs (built_all rs i k)) (bs_next (built_all rs i k))
      (bs_kernel (built_all rs i k)))
      with (mkBuilder (new_runtime c) [] (concat (runtime_execs <$> rs)) i k).
    replace (mkBuilder (new_runtime c) [] (concat (runtime_execs <$> rs)) i k)
      with (built c (concat (runtime_execs <$> rs)) i 0 k)
      by (unfold built; cbn; by rewrite app_nil_r, Nat.add_0_r).
    destruct (build_endpoint _ _ _ _ _) as [[m|] b] eqn:Hb.
    + apply built_endpoint in Hb as [[k' ->] Hmode]; [|done].
      cbn [built b_runtime b_endpoint_execs b_global_execs b_next b_kernel].
      replace (mkBuilds _ _ _ _ _) with (built_all (rs ++ [built_runtime c i (shards m c)]) (i + shards m c) k').
      2: { unfold built_all. rewrite !fmap_app, concat_app. cbn [fmap list_fmap concat].
           by rewrite built_execs, app_nil_r. }
      intros Hbs. apply IH in Hbs; [|done]. destruct ok.
      * destruct Hbs as (k'' & m' & -> & [?|[= <-]] & Hnil & Hcons); [done|]. exists k'', m.
        rewrite <- app_assoc. split_and!; try done.
        { unfold built_all, total_shards. f_equal. cbn. lia. }
        intros _. destruct configs; [by apply Hnil|by apply Hcons].
      * destruct Hbs as (rs' & m' & -> & Hn & Hthr & ->). exists (built_runtime c i (shards m c) :: rs'), m'.
        rewrite <- app_assoc. split_and!; [done|lia|by constructor|done].
    + intros [= <- <- <-]. exists [], mode. rewrite app_nil_r. split_and!; try done.
      cbn [bs_next]. apply build_endpoint_next in Hb. cbn in Hb. lia.
Qed.
End build.

(** ** Accepting and threads *)

Lemma alter_all {X} (f : X -> X) (l1 l2 : list X) :
  foldl (fun l i => alter f i l) (l1 ++ l2) (seq (length l1) (length l2)) = l1 ++ (f <$> l2).
Proof.
  revert l1. induction l2 as [|x l2 IH]; intros l1; cbn [length seq foldl]; [done|].
  replace (alter f (length l1) (l1 ++ x :: l2)) with ((l1 ++ [f x]) ++ l2).
  - replace (S (length l1)) with (length (l1 ++ [f x])) by (rewrite length_app; cbn; lia).
    rewrite IH, <- app_assoc. done.
  - rewrite alter_app_r_alt, Nat.sub_diag by lia. by rewrite <- app_assoc.
Qed.

Definition accepting (r : EndpointRuntime) : EndpointRuntime :=
  set_rt_acceptors (add_waiting <$> acceptors r) r.

(** The [DoAccept] calls of one endpoint. *)
Lemma accept_endpoint ei r l : forall s,
  endpoint_runtimes_ (rt s) !! ei = Some r ->
  Forall (fun si => si < length (acceptors r)) l ->
  foldl (fun s si => DoAccept ei si s) s l =
    set_runtimes (<[ei := set_rt_acceptors (foldl (fun a si => alter add_waiting si a) (acceptors r) l) r]>
      (endpoint_runtimes_ (rt s))) s.
Proof.
  revert r. induction l as [|si l IH]; intros r s Hr Hl; cbn [foldl].
  - rewrite list_insert_id; [by destruct s as [? [] ? ? ? ? ?]|]. by destruct r.
  - apply Forall_cons in Hl as [Hsi Hl]. unfold DoAccept at 2. rewrite Hr.
    destruct (_ <=? si) eqn:Hle; [apply Nat.leb_le in Hle; lia|].
    set (r' := set_rt_acceptors (alter add_waiting si (acceptors r)) r).
    rewrite (IH r').
    + cbn [set_runtimes set_rt rt endpoint_runtimes_]. by rewrite list_insert_insert_eq.
    + cbn [set_runtimes set_rt rt endpoint_runtimes_]. apply list_lookup_insert_eq.
      by apply lookup_lt_Some in Hr.
    + cbn [r' set_rt_acceptors acceptors]. by rewrite length_alter.
Qed.

Lemma accept_endpoints rs1 rs2 : forall s,
  endpoint_runtimes_ (rt s) = rs1 ++ rs2 ->
  foldl (fun s ei =>
    match endpoint_runtimes_ (rt s) !! ei with
    | None => s
    | Some r => foldl (fun s si => DoAccept ei si s) s (seq 0 (length (acceptors r)))
    end) s (seq (length rs1) (length rs2)) = set_runtimes (rs1 ++ (accepting <$> rs2)) s.
Proof.
  revert rs1. induction rs2 as [|r rs2 IH]; intros rs1 s Hs; cbn [length seq foldl].
  - cbn [fmap list_fmap]. rewrite <- Hs. by destruct s as [? [] ? ? ? ? ?].
  - assert (endpoint_runtimes_ (rt s) !! length rs1 = Some r) as Hr by (rewrite Hs; by apply list_lookup_middle).
    rewrite Hr, (accept_endpoint _ r) by (done || (apply Forall_seq; intros; lia)).
    pose proof (alter_all add_waiting [] (acceptors r)) as Ha. cbn [app length] in Ha. rewrite Ha, Hs, insert_app_r_alt, Nat.sub_diag by lia.
    cbn [insert list_insert app]. change (set_rt_acceptors _ r) with (accepting r).
    replace (S (length rs1)) with (length (rs1 ++ [accepting r])) by (rewrite length_app; cbn; lia).
    rewrite (IH (rs1 ++ [accepting r])) by (cbn; by rewrite <- app_assoc).
    cbn [fmap list_fmap]. rewrite <- app_assoc. done.
Qed.

Lemma start_accepting_spec s :
  start_accepting s = set_runtimes (accepting <$> endpoint_runtimes_ (rt s)) s.
Proof. apply (accept_endpoints [] _ s). done. Qed.

(** [n] threads are started. *)
Definition threads_started (n : nat) (s : HttpServer) : HttpServer :=
  let h := hist s in
  set_hist (mkHistory (next_id h + n) (started h ++ seq (next_id h) n) (joined h) (terminated h) (hung h)) s.

Lemma threads_started_0 s : threads_started 0 s = s.
Proof. unfold threads_started. cbn. rewrite app_nil_r, Nat.add_0_r. by destruct s as [? ? ? ? ? ? []]. Qed.

Lemma threads_started_add n m s : threads_started m (threads_started n s) = threads_started (n + m) s.
Proof. unfold threads_started. cbn. by rewrite seq_app, <- app_assoc, Nat.add_assoc. Qed.

Lemma start_io_threads_spec cs : forall s,
  start_io_threads cs s =
    (zip_with mkThread (seq (next_id (hist s)) (length cs)) cs, threads_started (length cs) s).
Proof.
  induction cs as [|c cs IH]; intros s; cbn [start_io_threads length].
  - by rewrite threads_started_0.
  - cbn [start_thread]. rewrite IH. unfold threads_started. cbn. by rewrite <- app_assoc, Nat.add_succ_r.
Qed.

(** The runtimes with their threads. *)
Fixpoint with_threads (reuse_port : bool) (i : nat) (rs : list EndpointRuntime) : list EndpointRuntime :=
  match rs with
  | [] => []
  | r :: rs =>
      let cs := thread_contexts reuse_port r in
      set_rt_threads (io_threads r ++ zip_with mkThread (seq i (length cs)) cs) r ::
      with_threads reuse_port (i + length cs) rs
  end.

Definition total_threads (reuse_port : bool) (rs : list EndpointRuntime) : nat :=
  sum_list_with (fun r => length (thread_contexts reuse_port r)) rs.

Lemma start_threads_spec rs : forall s,
  start_threads rs s =
    (with_threads (reuse_port_supported_ (rt s)) (next_id (hist s)) rs,
     threads_started (total_threads (reuse_port_supported_ (rt s)) rs) s).
Proof.
  induction rs as [|r rs IH]; intros s; cbn [start_threads with_threads].
  - by rewrite threads_started_0.
  - rewrite start_io_threads_spec, IH, threads_started_add. done.
Qed.

Lemma StartEndpointRuntimes_spec s :
  StartEndpointRuntimesLocked s =
    let rs := accepting <$> endpoint_runtimes_ (rt s) in
    let m := reuse_port_supported_ (rt s) in
    set_runtimes (with_threads m (next_id (hist s)) rs) (threads_started (total_threads m rs) s).
Proof.
  unfold StartEndpointRuntimesLocked. rewrite start_accepting_spec, start_threads_spec. done.
Qed.

(** ** Teardown *)

Definition runtime_handles (r : EndpointRuntime) : list nat := native_handle <$> io_threads r.

Definition live_threads (s : HttpServer) : list nat :=
  concat (runtime_handles <$> endpoint_runtimes_ (rt s)) ++ option_list (control_io_thread_ (ctl s)).

Definition empty_runtime : server_runtime := mkServerRuntime [] [] [] [] 0 false.
Definition idle_control : control_io := mkControl false None false.

Definition threads_joined (l : list nat) (h : history) : history :=
  mkHistory (next_id h) (started h) (joined h ++ l) (terminated h) (hung h).

Lemma threads_joined_nil h : threads_joined [] h = h.
Proof. unfold threads_joined. rewrite app_nil_r. by destruct h. Qed.

Lemma threads_joined_app l1 l2 h : threads_joined l2 (threads_joined l1 h) = threads_joined (l1 ++ l2) h.
Proof. unfold threads_joined. cbn. by rewrite <- app_assoc. Qed.

Lemma join_thread_stopped i h : join_thread true i h = threads_joined [i] h.
Proof. unfold join_thread, threads_joined. by rewrite orb_false_r. Qed.

Lemma join_stopped_runtime r h : join_runtime h (stop_endpoint_io r) = threads_joined (runtime_handles r) h.
Proof.
  unfold join_runtime, runtime_handles. cbn [stop_endpoint_io io_threads].
  assert (forall t, context_stopped (stop_endpoint_io r) t = true) as Hs.
  { intros t. unfold context_stopped. cbn. apply forallb_forall. intros c Hc.
    apply list_elem_of_In, list_elem_of_fmap in Hc as (c' & -> & _). done. }
  revert h. induction (io_threads r) as [|t l IH]; intros h; cbn [foldl fmap list_fmap];
    [by rewrite threads_joined_nil|]. by rewrite Hs, join_thread_stopped, IH, threads_joined_app.
Qed.

Lemma join_stopped_runtimes rs : forall h,
  foldl join_runtime h (stop_endpoint_io <$> rs) = threads_joined (concat (runtime_handles <$> rs)) h.
Proof.
  induction rs as [|r rs IH]; intros h; cbn [foldl fmap list_fmap concat];
    [by rewrite threads_joined_nil|]. by rewrite join_stopped_runtime, IH, threads_joined_app.
Qed.

Lemma no_threads_left (rs : list EndpointRuntime) : concat (io_threads <$> (set_rt_threads [] <$> rs)) = [].
Proof. induction rs; cbn; done. Qed.

Lemma destroy_none h : destroy_threads 0 h = h.
Proof. done. Qed.

(** Stopping joins every thread there is, and leaves nothing behind. *)
Lemma Stop_spec s :
  is_running_ s = true ->
  Stop s = mkServer (cfg s) empty_runtime idle_control (thread_pool_ (JoinThreadPool s))
    (available_connection_num_ s) false (threads_joined (live_threads s) (hist s)).
Proof.
  intros Hr. unfold Stop, clear_runtimes, ResetControlIoLocked, JoinEndpointIoThreadsLocked. rewrite Hr. cbn [negb]. cbv zeta. unfold live_threads.
  rewrite <- threads_joined_app, <- join_stopped_runtimes.
  destruct s as [c [rs es gs hs rr rp] [g t st] p av run h]. cbn in Hr |- *.
  destruct p as [p|]; cbn; destruct t as [t|]; cbn;
    rewrite ?join_thread_stopped, ?threads_joined_nil, no_threads_left; done.
Qed.

Lemma Rollback_spec s :
  RollbackStartLocked s =
    mkServer (cfg s) empty_runtime idle_control (thread_pool_ s) (available_connection_num_ s) false
      (threads_joined (live_threads s) (hist s)).
Proof.
  unfold RollbackStartLocked, clear_runtimes, ResetControlIoLocked, JoinEndpointIoThreadsLocked.
  cbv zeta. unfold live_threads.
  rewrite <- threads_joined_app, <- join_stopped_runtimes.
  destruct s as [c [rs es gs hs rr rp] [g t st] p av run h]. cbn.
  destruct t as [t|]; cbn; rewrite ?join_thread_stopped, ?threads_joined_nil, no_threads_left; done.
Qed.

(** ** The invariant of the server *)

Record endpoint_ok (reuse_port : bool) (c : EndpointListenConfig) (r : EndpointRuntime) : Prop := {
  ok_config : rt_endpoint r = cfg_endpoint c /\ rt_ssl_ctx r = cfg_ssl_ctx c /\
    run_threads r = cfg_io_threads c;
  ok_contexts : Forall (fun x => ioc_stopped x = false) (io_contexts r);
  ok_shards : length (io_contexts r) = shards reuse_port c;
  ok_guards : io_work_guards r = ioc_id <$> io_contexts r;
  ok_acceptors : acc_ioc <$> acceptors r = ioc_id <$> io_contexts r;
  ok_open : Forall (fun a => acc_open a = true) (acceptors r);
  ok_threads : thread_runs <$> io_threads r = thread_contexts reuse_port r;
}.

Record running_ok (s : HttpServer) : Prop := {
  run_endpoints :
    Forall2 (endpoint_ok (reuse_port_supported_ (rt s))) (endpoint_configs_ (cfg s)) (endpoint_runtimes_ (rt s));
  run_snapshot : endpoint_io_execs_snapshot_ (rt s) = runtime_execs <$> endpoint_runtimes_ (rt s);
  run_global : global_io_execs_snapshot_ (rt s) = concat (endpoint_io_execs_snapshot_ (rt s));
  run_distinct : NoDup (global_io_execs_snapshot_ (rt s));
  run_handles : h_handle <$> thread_native_handles_ (rt s) = live_threads s;
  run_control : exists t, ctl s = mkControl true (Some t) false;
  run_pool : exists p, thread_pool_ s = Some p /\ pool_joined p = false;
}.

Record stopped_ok (s : HttpServer) : Prop := {
  stop_runtime : rt s = empty_runtime;
  stop_ctl : ctl s = idle_control;
}.

Record threads_ok (s : HttpServer) : Prop := {
  threads_clean : terminated (hist s) = false /\ hung (hist s) = false;
  threads_counted : started (hist s) ≡ₚ joined (hist s) ++ live_threads s;
  threads_distinct : NoDup (started (hist s));
  threads_fresh : Forall (fun t => t < next_id (hist s)) (started (hist s));
}.

Record server_ok (s : HttpServer) : Prop := {
  sv_configs : Forall (fun c => 0 < cfg_io_threads c) (endpoint_configs_ (cfg s));
  sv_threads : threads_ok s;
  sv_state : if is_running_ s then running_ok s else stopped_ok s;
}.

(** ** Starting establishes the invariant *)

Lemma with_threads_handles m rs : forall j,
  Forall (fun r => io_threads r = []) rs ->
  concat (runtime_handles <$> with_threads m j rs) = seq j (total_threads m rs).
Proof.
  induction rs as [|r rs IH]; intros j Hr; [done|]. apply Forall_cons in Hr as [Hr Hrs].
  cbn [with_threads]. rewrite Hr. cbn [fmap list_fmap concat]. rewrite (IH _ Hrs).
  unfold total_threads. cbn [sum_list_with]. rewrite seq_app. f_equal.
  unfold runtime_handles. cbn [set_rt_threads io_threads app].
  rewrite (fmap_zip_with_l mkThread native_handle); [done|done|rewrite length_seq; lia].
Qed.

Lemma with_threads_execs m rs : forall j, runtime_execs <$> with_threads m j rs = runtime_execs <$> rs.
Proof. induction rs as [|r rs IH]; intros j; cbn [with_threads fmap list_fmap]; [done|]. f_equal. apply IH. Qed.

Lemma built_runtimes_execs m configs : forall i,
  concat (runtime_execs <$> built_runtimes m i configs) = ShardExecutor <$> seq i (total_shards m configs).
Proof.
  unfold total_shards. induction configs as [|c configs IH]; intros i; [done|].
  cbn [built_runtimes fmap list_fmap concat sum_list_with].
  by rewrite built_execs, IH, seq_app, fmap_app.
Qed.

Lemma built_runtimes_threads m configs : forall i,
  Forall (fun r => io_threads r = []) (accepting <$> built_runtimes m i configs).
Proof. induction configs as [|c configs IH]; intros i; constructor; [done|apply IH]. Qed.

Lemma built_endpoint_ok m c i ts :
  thread_runs <$> ts = thread_contexts m (built_runtime c i (shards m c)) ->
  endpoint_ok m c (set_rt_threads ts (accepting (built_runtime c i (shards m c)))).
Proof.
  intros Hts. constructor; cbn [set_rt_threads accepting set_rt_acceptors built_runtime rt_endpoint rt_ssl_ctx
    run_threads io_contexts io_work_guards acceptors io_threads]; try done.
  - apply Forall_fmap, Forall_true. done.
  - by rewrite length_fmap, length_seq.
  - rewrite <- list_fmap_compose. symmetry. apply list_fmap_id.
  - by rewrite <- !list_fmap_compose.
  - apply Forall_fmap, Forall_fmap, Forall_true. done.
Qed.

Lemma with_threads_ok m configs : forall i j,
  Forall2 (endpoint_ok m) configs (with_threads m j (accepting <$> built_runtimes m i configs)).
Proof.
  induction configs as [|c configs IH]; intros i j; [constructor|].
  cbn [built_runtimes fmap list_fmap with_threads]. constructor; [|apply IH].
  apply built_endpoint_ok. cbn [io_threads accepting set_rt_acceptors built_runtime app].
  rewrite (fmap_zip_with_r mkThread thread_runs); [done|done|rewrite length_seq; lia].
Qed.

Lemma fmap_concat_imap {X Y Z} (g : Y -> Z) (f : nat -> X -> list Y) (f' : X -> list Z) (l : list X) :
  (forall i x, g <$> f i x = f' x) -> g <$> concat (imap f l) = concat (f' <$> l).
Proof.
  revert f. induction l as [|x l IH]; intros f Hf; cbn [imap fmap list_fmap concat]; [done|].
  rewrite fmap_app, Hf. f_equal. apply IH. intros i y. apply Hf.
Qed.

Lemma published_handles s :
  h_handle <$> thread_native_handles_ (rt (PublishThreadNativeHandlesLocked s)) = live_threads s.
Proof.
  cbn [PublishThreadNativeHandlesLocked set_handles set_rt rt thread_native_handles_].
  rewrite fmap_app. unfold live_threads. f_equal; [|by destruct (control_io_thread_ (ctl s))].
  apply fmap_concat_imap. intros ei r. rewrite fmap_imap. unfold runtime_handles.
  rewrite <- imap_const. by apply imap_ext.
Qed.

(** The server just before the endpoints are built. *)
Definition prepared (s : HttpServer) : HttpServer :=
  let o := kRuntimeOptions_ (cfg s) in
  let n := next_id (hist s) in
  mkServer (cfg s) empty_runtime (mkControl true (Some (S n)) false)
    (Some (mkPool n (ToThreadPoolParam o) false))
    (if has_max_connection o then to_int64 (max_connection o) else available_connection_num_ s) true
    (mkHistory (S (S n)) (started (hist s) ++ [S n]) (joined (hist s)) (terminated (hist s)) (hung (hist s))).

Section start_ok.
Context {K : Type} (sys : nat -> syscall -> K -> bool * K) (has_reuse_port : bool).

(** What [Start] does to a stopped server. *)
Lemma Start_spec k s :
  is_running_ s = false -> stopped_ok s ->
  Start sys has_reuse_port k s =
    let p := prepared s in
    let '(ok, mode, bs) :=
      build_endpoints sys has_reuse_port None (endpoint_configs_ (cfg s))
        (built_all [] (next_id (hist p)) k) in
    let q := set_reuse_port (default false mode)
      (set_runtimes (bs_runtimes bs)
        (set_hist (mkHistory (bs_next bs) (started (hist p)) (joined (hist p)) (terminated (hist p))
           (hung (hist p))) p)) in
    if negb ok then (false, (RollbackStartLocked q, bs_kernel bs))
    else
      (true, (PublishThreadNativeHandlesLocked (StartEndpointRuntimesLocked
         (PublishExecutorSnapshotsLocked (bs_endpoint_execs bs) (bs_global_execs bs) q)), bs_kernel bs)).
Proof.
  intros Hr [H1 H2]. destruct s as [c r ct p av run h]. cbn in Hr, H1, H2. subst.
  unfold Start, BuildEndpointRuntimesLocked, prepared, ResetThreadPool, CreateThreadPool, fresh_id,
    built_all, clear_runtimes, start_control, start_thread.
  cbn. destruct (has_max_connection _); cbn;
    destruct (build_endpoints _ _ _ _ _) as [[ok mode] bs]; destruct ok; done.
Qed.

Lemma prepared_threads s :
  threads_ok s -> stopped_ok s -> threads_ok (prepared s).
Proof.
  intros [[T1 T2] T3 T4 T5] [H1 H2]. constructor; unfold live_threads; cbn; [done|..].
  - unfold live_threads in T3. rewrite H1, H2 in T3. cbn in T3. rewrite app_nil_r in T3. by rewrite T3.
  - apply NoDup_app. split; [done|]. split; [|apply NoDup_singleton].
    intros t Ht Hin%list_elem_of_singleton. rewrite Forall_forall in T5. apply T5 in Ht. lia.
  - apply Forall_app. split; [|constructor; [lia|constructor]]. eapply Forall_impl; [done|]. cbn. lia.
Qed.

Lemma started_threads n h (t : nat) :
  NoDup (started h) -> Forall (fun t => t < next_id h) (started h) -> next_id h <= t ->
  NoDup (started h ++ seq t n) /\ Forall (fun x => x < t + n) (started h ++ seq t n).
Proof.
  intros Hd Hf Ht. rewrite Forall_forall in Hf. split.
  - apply NoDup_app. split; [done|]. split; [|apply NoDup_seq].
    intros x Hx Hin%elem_of_seq. apply Hf in Hx. lia.
  - apply Forall_app. split; [|apply Forall_seq; lia].
    apply Forall_forall. intros x Hx. apply Hf in Hx. lia.
Qed.

Lemma start_succeeds_ok (k : K) s (bs : builds) m :
  server_ok s -> is_running_ s = false ->
  bs = built_all (built_runtimes m (next_id (hist (prepared s))) (endpoint_configs_ (cfg s)))
         (next_id (hist (prepared s)) + total_shards m (endpoint_configs_ (cfg s))) k ->
  let q := set_reuse_port m (set_runtimes (bs_runtimes bs)
        (set_hist (mkHistory (bs_next bs) (started (hist (prepared s))) (joined (hist s))
           (terminated (hist s)) (hung (hist s))) (prepared s))) in
  server_ok (PublishThreadNativeHandlesLocked (StartEndpointRuntimesLocked
         (PublishExecutorSnapshotsLocked (bs_endpoint_execs bs) (bs_global_execs bs) q))).
Proof.
  intros [Hc Ht Hst] Hrun ->. rewrite Hrun in Hst. pose proof (prepared_threads _ Ht Hst) as Hp.
  set (configs := endpoint_configs_ (cfg s)) in *. set (p := prepared s) in *. set (n := next_id (hist p)).
  intros q. set (q1 := PublishExecutorSnapshotsLocked _ _ q). rewrite StartEndpointRuntimes_spec. cbv zeta.
  change (reuse_port_supported_ (rt q1)) with m.
  change (endpoint_runtimes_ (rt q1)) with (built_runtimes m n configs).
  change (next_id (hist q1)) with (n + total_shards m configs).
  set (rs := with_threads m _ _). set (j := n + total_shards m configs) in *.
  set (nt := total_threads m (accepting <$> built_runtimes m n configs)).
  set (q2 := set_runtimes rs (threads_started nt q1)).
  assert (concat (runtime_handles <$> rs) = seq j nt) as Hh by apply with_threads_handles, built_runtimes_threads.
  assert (live_threads q2 = seq j nt ++ option_list (control_io_thread_ (ctl p))) as Hl
    by (unfold live_threads; cbn [q2 set_runtimes set_rt rt ctl endpoint_runtimes_]; by rewrite Hh).
  destruct Hp as [[P1 P2] P3 P4 P5]. unfold live_threads in P3. cbn [p prepared rt ctl] in P3.
  destruct (started_threads nt (hist p) j P4 P5 ltac:(lia)) as [Hd Hf].
  assert (runtime_execs <$> rs = runtime_execs <$> built_runtimes m n configs) as He.
  { subst rs. rewrite with_threads_execs, <- list_fmap_compose. done. }
  constructor; [done|..].
  - constructor; [done| |exact Hd|exact Hf].
    change (started (hist p) ++ seq j nt ≡ₚ joined (hist p) ++ live_threads q2).
    rewrite Hl, P3. cbn. solve_Permutation.
  - change (is_running_ (PublishThreadNativeHandlesLocked q2)) with true. constructor.
    + apply with_threads_ok.
    + symmetry. apply He.
    + done.
    + change (NoDup (concat (runtime_execs <$> built_runtimes m n configs))).
      rewrite built_runtimes_execs. apply NoDup_fmap; [intros ? ? [= ->]; done|apply NoDup_seq].
    + exact (published_handles q2).
    + by eexists.
    + by eexists.
Qed.

Lemma Start_server_ok k s ok s' k' :
  server_ok s -> Start sys has_reuse_port k s = (ok, (s', k')) -> server_ok s'.
Proof.
  intros Hok. destruct (is_running_ s) eqn:Hrun; [unfold Start; rewrite Hrun; by intros [= _ <- _]|].
  pose proof Hok as [Hc Ht Hst]. rewrite Hrun in Hst. rewrite Start_spec by done. cbv zeta.
  pose proof (prepared_threads _ Ht Hst) as [[P1 P2] P3 P4 P5].
  destruct (build_endpoints _ _ _ _ _) as [[b mode] bs] eqn:Hb.
  apply built_all_endpoints in Hb; [|done]. destruct b; cbn [negb].
  - destruct Hb as (k1 & m & Hbs & _ & Hnil & Hcons). cbn [app] in Hbs. intros [= <- <- <-].
    assert (exists m', default false mode = m' /\
      built_all (built_runtimes m (next_id (hist (prepared s))) (endpoint_configs_ (cfg s)))
         (next_id (hist (prepared s)) + total_shards m (endpoint_configs_ (cfg s))) k1 =
      built_all (built_runtimes m' (next_id (hist (prepared s))) (endpoint_configs_ (cfg s)))
         (next_id (hist (prepared s)) + total_shards m' (endpoint_configs_ (cfg s))) k1)
      as (m' & -> & Hm).
    { destruct (endpoint_configs_ (cfg s)); [rewrite (Hnil eq_refl); by exists false|].
      rewrite Hcons by done. by exists m. }
    rewrite Hm in Hbs. exact (start_succeeds_ok k1 s bs m' Hok Hrun Hbs).
  - destruct Hb as (rs & m' & Hrs & Hn & Hth & ->). intros [= <- <- <-]. rewrite Rollback_spec.
    constructor; [done| |done].
    assert (concat (runtime_handles <$> bs_runtimes bs) = []) as Hno.
    { rewrite Hrs. cbn [app]. clear -Hth. induction Hth as [|r rs Hr _ IH]; [done|].
      cbn [fmap list_fmap concat]. unfold runtime_handles at 1. by rewrite Hr, IH. }
    unfold live_threads in P3. cbn in P3.
    constructor; cbn [hist threads_joined terminated hung started joined next_id]; [done|..].
    + unfold live_threads. cbn [rt ctl empty_runtime idle_control endpoint_runtimes_ control_io_thread_ fmap
        list_fmap concat option_list app]. rewrite app_nil_r.
      cbn [set_reuse_port set_runtimes set_rt set_hist hist rt ctl started joined endpoint_runtimes_
        control_io_thread_]. rewrite Hno. exact P3.
    + exact P4.
    + eapply Forall_impl; [exact P5|]. cbn in Hn |- *. lia.
Qed.
End start_ok.

(** ** Calls on the server *)

Section calls.
Context {K : Type} (sys : nat -> syscall -> K -> bool * K) (has_reuse_port : bool).

(** The public operations that change the server; the system is in any state
    when [Start] is called. *)
Inductive server_op :=
  | OpAddListen (ep n : nat) (ssl_ctx : option nat)
  | OpSetHeaderReadExpiry (z : Z)
  | OpSetKeepAliveTimeout (z : Z)
  | OpSetLogger (l : nat)
  | OpSetServiceProvider (i : nat) (p : option nat)
  | OpStart (k : K)
  | OpStop
  | OpGetIoExecutor
  | OpGetExecutor
  | OpPost
  | OpDispatch
  | OpPostToIoContext
  | OpDispatchToIoContext
  | OpSetTimer (z : Z)
  | OpTimer (error : bool).

Definition run_op (s : HttpServer) (op : server_op) : HttpServer :=
  match op with
  | OpAddListen ep n ssl => AddListen ep n ssl s
  | OpSetHeaderReadExpiry z => SetHeaderReadExpiry z s
  | OpSetKeepAliveTimeout z => SetKeepAliveTimeout z s
  | OpSetLogger l => SetLogger l s
  | OpSetServiceProvider i p => SetServiceProvider i p s
  | OpStart k => (Start sys has_reuse_port k s).2.1
  | OpStop => Stop s
  | OpGetIoExecutor => (GetIoExecutor s).2
  | OpGetExecutor => (GetExecutor s).2
  | OpPost => (Post s).2
  | OpDispatch => (Dispatch s).2
  | OpPostToIoContext => (PostToIoContext s).2
  | OpDispatchToIoContext => (DispatchToIoContext s).2
  | OpSetTimer z => (SetTimer z s).2
  | OpTimer e => (on_timer e s).2
  end.

(** The server after some calls. *)
Definition after (o : HttpServerRuntimeOptions) (ops : list server_op) : HttpServer :=
  foldl run_op (new_HttpServer o) ops.

(** A change of the configuration that the runtime does not depend on. *)
Lemma server_ok_cfg c s :
  endpoint_configs_ c = endpoint_configs_ (cfg s) -> server_ok s -> server_ok (set_cfg c s).
Proof.
  intros Hc [H1 [T1 T2 T3 T4] H3]. constructor; [by rewrite <- Hc in H1|by constructor|]. cbn [set_cfg is_running_].
  destruct (is_running_ s); [|by destruct H3].
  destruct H3 as [R1 R2 R3 R4 R5 R6 R7]. constructor; try done. by rewrite <- Hc in R1.
Qed.

Lemma server_ok_round_robin n s : is_running_ s = true -> server_ok s -> server_ok (set_round_robin n s).
Proof.
  intros Hr [H1 [T1 T2 T3 T4] H3]. rewrite Hr in H3. destruct H3 as [R1 R2 R3 R4 R5 R6 R7].
  constructor; [done|by constructor|]. change (is_running_ (set_round_robin n s)) with (is_running_ s).
  rewrite Hr. by constructor.
Qed.

Lemma select_ok s : is_running_ s = true -> server_ok s -> server_ok (SelectIoExecutorRoundRobin s).2.
Proof. intros. unfold SelectIoExecutorRoundRobin. case_match; [done|]. by apply server_ok_round_robin. Qed.

(** An operation that selects an executor when the server runs. *)
Ltac after_select s Hok :=
  destruct (is_running_ s) eqn:Hr; [|done]; cbn [negb];
  pose proof (select_ok s Hr Hok);
  destruct (SelectIoExecutorRoundRobin s); try done; by destruct (GetThreadPoolExecutor s).

Lemma AddListen_ok ep n ssl s : server_ok s -> server_ok (AddListen ep n ssl s).
Proof.
  intros [H1 [T1 T2 T3 T4] H3]. unfold AddListen. destruct (is_running_ s) eqn:Hr;
    [by constructor; [|constructor|rewrite Hr]|].
  constructor; [|by constructor|cbn [set_cfg is_running_]; rewrite Hr; by destruct H3].
  apply Forall_app. split; [done|]. constructor; [|done]. cbn. destruct (n =? 0) eqn:Hn; [lia|].
  apply Nat.eqb_neq in Hn. lia.
Qed.

Lemma Stop_ok s : server_ok s -> server_ok (Stop s).
Proof.
  intros Hok. destruct (is_running_ s) eqn:Hr; [|by unfold Stop; rewrite Hr].
  destruct Hok as [H1 [T1 T2 T3 T4] H3]. rewrite Stop_spec by done.
  constructor; [done| |done]. constructor; [done| |done|done].
  unfold live_threads at 2. cbn. rewrite app_nil_r. exact T2.
Qed.

Lemma run_op_ok s op : server_ok s -> server_ok (run_op s op).
Proof.
  intros Hok. destruct op; cbn [run_op].
  - by apply AddListen_ok.
  - unfold SetHeaderReadExpiry. case_match; [done|by apply server_ok_cfg].
  - unfold SetKeepAliveTimeout. case_match; [done|by apply server_ok_cfg].
  - unfold SetLogger. case_match; [done|by apply server_ok_cfg].
  - by apply server_ok_cfg.
  - destruct (Start _ _ _ _) as [ok [s' k']] eqn:Hs. by apply Start_server_ok in Hs.
  - by apply Stop_ok.
  - unfold GetIoExecutor. after_select s Hok.
  - unfold GetExecutor. after_select s Hok.
  - unfold Post, PostToIoContext. after_select s Hok.
  - unfold Dispatch, DispatchToIoContext. after_select s Hok.
  - unfold PostToIoContext. after_select s Hok.
  - unfold DispatchToIoContext. after_select s Hok.
  - unfold SetTimer. after_select s Hok.
  - unfold on_timer, Post, PostToIoContext. destruct error; [done|]. after_select s Hok.
Qed.

Lemma new_server_ok o : server_ok (new_HttpServer o).
Proof. constructor; [constructor| |done]. constructor; try done; constructor. Qed.

Lemma after_ok o ops : server_ok (after o ops).
Proof.
  unfold after. induction ops as [|op ops IH] using rev_ind; [apply new_server_ok|].
  rewrite foldl_app. by apply run_op_ok.
Qed.

(** The threads of an endpoint: as many as were asked for, and one at least on
    every context. *)
Lemma endpoint_threads m c r :
  0 < cfg_io_threads c -> endpoint_ok m c r ->
  length (io_threads r) = cfg_io_threads c /\
  Forall (fun x => exists t, t ∈ io_threads r /\ thread_runs t = ioc_id x) (io_contexts r).
Proof.
  intros Hc [(_ & _ & Hn) _ Hs _ _ _ Ht]. unfold thread_contexts, shards in *.
  assert (length (thread_runs <$> io_threads r) = length (io_threads r)) as Hl by apply length_fmap.
  assert (forall i, i ∈ thread_runs <$> io_threads r -> exists t, t ∈ io_threads r /\ thread_runs t = i) as Hin.
  { intros i (t & -> & Hi)%list_elem_of_fmap. by exists t. }
  destruct (io_contexts r) as [|x l]; [destruct m; cbn in Hs; lia|]. rewrite Ht in Hl, Hin. destruct m.
  - rewrite length_fmap in Hl. split; [lia|]. apply Forall_forall. intros y Hy. by apply Hin, list_elem_of_fmap_2.
  - rewrite length_replicate in Hl. split; [lia|]. destruct l; [|cbn in Hs; lia].
    constructor; [|constructor]. apply Hin, elem_of_replicate. lia.
Qed.

(** ** The theorems *)

(** C19. Whatever calls are made, in whatever order, on whatever system: no
    [std::thread] is destroyed while it can be joined, no join waits for a
    context that was not stopped, and every thread ever started is either
    running under the server or was joined, once.  A running server has one
    runtime for each declared endpoint, with one open acceptor, one guard and one
    published executor for each context, and at least one thread for each
    context; the global list is the endpoints' lists one after the other,
    without repetition; the published handles are the threads that run.  A
    stopped server has no threads, no runtimes and no published executors. *)
Theorem server_invariant (o : HttpServerRuntimeOptions) (ops : list server_op) :
  let s := after o ops in
  terminated (hist s) = false /\ hung (hist s) = false /\
  NoDup (joined (hist s) ++ live_threads s) /\
  started (hist s) ≡ₚ joined (hist s) ++ live_threads s /\
  if is_running_ s then
    Forall2 (fun c r => endpoint_ok (reuse_port_supported_ (rt s)) c r /\
      length (io_threads r) = cfg_io_threads c /\
      Forall (fun x => exists t, t ∈ io_threads r /\ thread_runs t = ioc_id x) (io_contexts r))
      (endpoint_configs_ (cfg s)) (endpoint_runtimes_ (rt s)) /\
    endpoint_io_execs_snapshot_ (rt s) = runtime_execs <$> endpoint_runtimes_ (rt s) /\
    GetGlobalExecutors s = concat (endpoint_io_execs_snapshot_ (rt s)) /\ NoDup (GetGlobalExecutors s) /\
    h_handle <$> GetThreadNativeHandles s = live_threads s
  else live_threads s = [] /\ rt s = empty_runtime.
Proof.
  intros s. destruct (after_ok o ops) as [Hc [[T1 T2] T3 T4 T5] Hs]. fold s in Hc, T1, T2, T3, T4, T5, Hs.
  split; [done|]. split; [done|]. split; [by rewrite <- T3|]. split; [done|].
  unfold GetGlobalExecutors, GetThreadNativeHandles. destruct (is_running_ s).
  - destruct Hs as [R1 R2 R3 R4 R5 _ _]. split; [|done].
    rewrite Forall_forall in Hc. apply Forall2_same_length_lookup. split; [by eapply Forall2_length|].
    intros i c r Hci Hri. pose proof (Forall2_lookup_lr _ _ _ _ _ _ R1 Hci Hri) as Hok. split; [done|].
    apply (endpoint_threads (reuse_port_supported_ (rt s))); [|done]. by apply Hc, (list_elem_of_lookup_2 _ i).
  - destruct Hs as [S1 S2]. unfold live_threads. by rewrite S1, S2.
Qed.

(** *** The outcome of a start *)

Definition good_system : Prop := forall i c k, (sys i c k).1 = true.

Lemma good_setup i ep t q k :
  good_system -> (q = true -> t && has_reuse_port = true) ->
  exists a k', SetupEndpointAcceptor sys has_reuse_port (mkAcceptor i false 0) ep t q k =
    (Some (t && has_reuse_port), (a, k')).
Proof.
  intros Hg Hq. unfold SetupEndpointAcceptor, TryEnableReusePort. cbn [acc_ioc acc_waiting].
  assert (forall i c k, exists k', sys i c k = (true, k')) as Hs.
  { intros i0 c k0. exists (sys i0 c k0).2. rewrite <- (Hg i0 c k0). by destruct (sys i0 c k0). }
  repeat match goal with
  | |- context [sys ?i ?c ?k] => let k' := fresh "k" in destruct (Hs i c k) as [k' ->]; cbn [negb]
  | |- context [if t then _ else _] => destruct t
  | |- context [if has_reuse_port then _ else _] => destruct has_reuse_port
  | |- context [if ?b && (?c && ?d) then _ else _] => destruct q; cbn in Hq |- *; try specialize (Hq eq_refl)
  | _ => progress cbn [andb negb]
  end; try done; by eexists _, _.
Qed.

Lemma good_shard ep t q b :
  good_system -> (q = true -> t && has_reuse_port = true) ->
  exists b', build_shard sys has_reuse_port ep t q b = (Some (t && has_reuse_port), b').
Proof.
  intros Hg Hq. unfold build_shard. destruct (good_setup (b_next b) ep t q (b_kernel b) Hg Hq) as (a & k' & ->).
  by eexists.
Qed.

Lemma good_shards ep n : forall b,
  good_system -> has_reuse_port = true -> exists b', BuildReusePortShardsLocked sys has_reuse_port ep n b = (true, b').
Proof.
  induction n as [|n IH]; intros b Hg Hr; cbn [BuildReusePortShardsLocked]; [by eexists|].
  destruct (good_shard ep true true b Hg) as [b' ->]; [by intros _|]. by apply IH.
Qed.

Lemma good_endpoint mode c b :
  good_system -> mode = None \/ mode = Some has_reuse_port ->
  exists b', build_endpoint sys has_reuse_port mode c b = (Some has_reuse_port, b').
Proof.
  intros Hg Hm. unfold build_endpoint, BuildFirstEndpointRuntimeLocked, BuildReusePortEndpointRuntimeLocked,
    BuildFallbackEndpointRuntimeLocked. destruct Hm as [->| ->].
  - destruct (good_shard (cfg_endpoint c) true false b Hg) as [b1 ->]; [done|]. cbn [andb].
    destruct has_reuse_port eqn:Hr; [|by eexists].
    destruct (good_shards (cfg_endpoint c) (cfg_io_threads c - 1) b1 Hg) as [b2 Hb2]; [done|].
    rewrite Hr in Hb2. rewrite Hb2. by eexists.
  - destruct has_reuse_port eqn:Hr.
    + destruct (good_shards (cfg_endpoint c) (cfg_io_threads c) b Hg) as [b1 Hb1]; [done|].
      rewrite Hr in Hb1. rewrite Hb1. by eexists.
    + destruct (good_shard (cfg_endpoint c) false false b Hg) as [b1 Hb1]; [done|].
      rewrite Hr in Hb1. rewrite Hb1. by eexists.
Qed.

Lemma good_endpoints configs : forall mode bs,
  good_system -> mode = None \/ mode = Some has_reuse_port ->
  exists mode' bs', build_endpoints sys has_reuse_port mode configs bs = (true, mode', bs').
Proof.
  induction configs as [|c configs IH]; intros mode bs Hg Hm; cbn [build_endpoints]; [by eexists _, _|].
  destruct (good_endpoint mode c
    (mkBuilder (new_runtime c) [] (bs_global_execs bs) (bs_next bs) (bs_kernel bs)) Hg Hm) as [b' ->].
  apply IH; [done|by right].
Qed.

Lemma with_threads_acceptors m rs (P : acceptor -> Prop) : forall j,
  Forall (fun r => Forall P (acceptors r)) rs -> Forall (fun r => Forall P (acceptors r)) (with_threads m j rs).
Proof.
  induction rs as [|r rs IH]; intros j Hr; [constructor|]. apply Forall_cons in Hr as [Hr Hrs].
  cbn [with_threads]. constructor; [done|by apply IH].
Qed.

Lemma built_accepting m configs : forall i,
  Forall (fun r => Forall (fun a => acc_open a = true /\ acc_waiting a = 1) (acceptors r))
    (accepting <$> built_runtimes m i configs).
Proof.
  induction configs as [|c configs IH]; intros i; [constructor|]. constructor; [|apply IH].
  apply Forall_fmap, Forall_fmap, Forall_true. done.
Qed.

(** What a start of a server in a good state comes to. *)
Lemma start_effect (k : K) s :
  server_ok s ->
  let '(ok, (s', _)) := Start sys has_reuse_port k s in
  cfg s' = cfg s /\
  (good_system -> ok = negb (is_running_ s)) /\
  if is_running_ s then ok = false /\ s' = s
  else
    available_connection_num_ s' =
      (if has_max_connection (kRuntimeOptions_ (cfg s)) then to_int64 (max_connection (kRuntimeOptions_ (cfg s)))
       else available_connection_num_ s) /\
    if ok then
      is_running_ s' = true /\
      Forall (fun r => Forall (fun a => acc_open a = true /\ acc_waiting a = 1) (acceptors r))
        (endpoint_runtimes_ (rt s')) /\
      length (endpoint_runtimes_ (rt s')) = length (endpoint_configs_ (cfg s))
    else
      is_running_ s' = false /\ rt s' = rt s /\ ctl s' = ctl s /\ live_threads s' = [] /\
      exists t, started (hist s') = started (hist s) ++ [t] /\ joined (hist s') = joined (hist s) ++ [t].
Proof.
  intros Hok.
  destruct (is_running_ s) eqn:Hrun; [unfold Start; by rewrite Hrun|].
  pose proof Hok as [Hc _ Hst]. rewrite Hrun in Hst. pose proof Hst as [S1 S2]. rewrite Start_spec by done. cbv zeta.
  pose proof (good_endpoints (endpoint_configs_ (cfg s)) None (built_all [] (next_id (hist (prepared s))) k)) as Hg.
  destruct (build_endpoints _ _ _ _ _) as [[b mode] bs] eqn:Hb. apply built_all_endpoints in Hb; [|done].
  destruct b; cbn [negb].
  - destruct Hb as (k1 & m & -> & _). rewrite StartEndpointRuntimes_spec. cbn [app]. cbv zeta.
    set (q := set_reuse_port _ _).
    split; [done|]. split; [done|]. split; [done|]. split; [done|]. split.
    + apply with_threads_acceptors, built_accepting.
    + cbn. generalize (S (S (next_id (hist s) + total_shards m (endpoint_configs_ (cfg s))))).
      generalize (S (S (next_id (hist s)))). generalize (default false mode). clear.
      induction (endpoint_configs_ (cfg s)) as [|c l IH]; intros m' i j; cbn; [done|]. f_equal. apply IH.
  - destruct Hb as (rs & m' & Hrs & _ & Hth & _). rewrite Rollback_spec.
    split; [done|]. split; [intros Hgood; by destruct (Hg Hgood) as (? & ? & ?); [left|]|].
    split; [done|]. rewrite S1, S2. split_and!; try done. exists (S (next_id (hist s))). split; [done|].
    cbn [hist threads_joined joined]. unfold live_threads.
    cbn [set_reuse_port set_runtimes set_rt set_hist hist rt ctl joined endpoint_runtimes_ control_io_thread_
      prepared]. f_equal. rewrite Hrs. cbn [app].
    clear -Hth. induction Hth as [|r rs Hr _ IH]; [done|].
    cbn [fmap list_fmap concat]. unfold runtime_handles at 1. by rewrite Hr, <- app_assoc.
Qed.
(** [Start] on a running server is refused and changes nothing.  On a
    stopped one it either reports success, and then the server runs, with every
    acceptor open and exactly one accept pending on each; or it reports failure,
    and then the server is as it was: no runtime, no executor and no thread is
    left (the control thread it had started has been joined), the configuration
    is untouched.  It cannot fail unless a socket call does. *)
Theorem start_outcome (o : HttpServerRuntimeOptions) (ops : list server_op) (k : K) :
  let s := after o ops in
  let '(ok, (s', _)) := Start sys has_reuse_port k s in
  cfg s' = cfg s /\
  (good_system -> ok = negb (is_running_ s)) /\
  if is_running_ s then ok = false /\ s' = s
  else if ok then
    is_running_ s' = true /\
    Forall (fun r => Forall (fun a => acc_open a = true /\ acc_waiting a = 1) (acceptors r))
      (endpoint_runtimes_ (rt s')) /\
    length (endpoint_runtimes_ (rt s')) = length (endpoint_configs_ (cfg s))
  else
    is_running_ s' = false /\ rt s' = rt s /\ ctl s' = ctl s /\ live_threads s' = [] /\
    exists t, started (hist s') = started (hist s) ++ [t] /\ joined (hist s') = joined (hist s) ++ [t].
Proof.
  intros s. pose proof (start_effect k s (after_ok o ops)) as Hs.
  destruct (Start _ _ _ _) as [ok [s' k']]. destruct Hs as (H1 & H2 & H3). split; [done|]. split; [done|].
  destruct (is_running_ s); [done|]. by destruct H3.
Qed.
End calls.

(** *** Round robin *)

(** [n] selections in a row. *)
Fixpoint select_many (n : nat) (s : HttpServer) : list IoExecutor * HttpServer :=
  match n with
  | O => ([], s)
  | S n =>
      let '(e, s) := SelectIoExecutorRoundRobin s in
      let '(l, s) := select_many n s in (e :: l, s)
  end.

Lemma select_one s :
  global_io_execs_snapshot_ (rt s) <> [] ->
  SelectIoExecutorRoundRobin s =
    (nth (Z.to_nat (io_exec_round_robin_ (rt s) mod Z.of_nat (length (global_io_execs_snapshot_ (rt s)))))
       (global_io_execs_snapshot_ (rt s)) ControlExecutor,
     set_round_robin (to_size_t (io_exec_round_robin_ (rt s) + 1)) s).
Proof. intros Hl. unfold SelectIoExecutorRoundRobin. by destruct (global_io_execs_snapshot_ (rt s)). Qed.

Lemma select_many_spec n : forall s,
  let l := global_io_execs_snapshot_ (rt s) in
  let c := io_exec_round_robin_ (rt s) in
  l <> [] -> (0 <= c)%Z -> (c + Z.of_nat n <= size_t_mod)%Z ->
  (select_many n s).1 =
    (fun i => nth (Z.to_nat ((c + Z.of_nat i) mod Z.of_nat (length l))) l ControlExecutor) <$> seq 0 n.
Proof.
  induction n as [|n IH]; intros s l c Hl Hc Hn; [done|].
  cbn [select_many seq fmap list_fmap]. rewrite select_one by done. fold l c.
  set (s' := set_round_robin _ s). destruct (select_many n s') as [r s''] eqn:Hr.
  rewrite Nat2Z.inj_succ in Hn. cbn [fst]. f_equal; [by rewrite Z.add_0_r|].
  destruct (decide (n = 0)) as [->|Hn0]; [cbn in Hr; by simplify_eq|].
  assert (io_exec_round_robin_ (rt s') = c + 1)%Z as Hc'
    by (cbn; fold c; apply to_size_t_small; unfold is_size_t; lia).
  specialize (IH s'). cbv zeta in IH. rewrite Hr, Hc' in IH. cbn [fst] in IH.
  rewrite IH by (done || lia). rewrite <- fmap_S_seq, <- list_fmap_compose.
  apply list_fmap_ext. intros i x _. cbn [compose]. f_equal. f_equal. f_equal.
  change (global_io_execs_snapshot_ (rt s')) with l. lia.
Qed.

(** Work is spread evenly: as long as the cursor does not wrap around, as
    many selections in a row as there are executors give every executor exactly
    once, from the cursor on in the published order; and a selection never
    leaves the published list. *)
Theorem round_robin_fair (s : HttpServer) :
  let l := global_io_execs_snapshot_ (rt s) in
  let c := io_exec_round_robin_ (rt s) in
  l <> [] -> (0 <= c)%Z -> (c + Z.of_nat (length l) <= size_t_mod)%Z ->
  (select_many (length l) s).1 = rotate (Z.to_nat c) l /\
  (select_many (length l) s).1 ≡ₚ l /\ (SelectIoExecutorRoundRobin s).1 ∈ l.
Proof.
  intros l c Hl Hc Hn.
  assert (length l <> 0) as Hlen by (by destruct l).
  assert ((select_many (length l) s).1 = rotate (Z.to_nat c) l) as Hrot.
  { rewrite select_many_spec by done. fold l c. apply list_eq. intros i.
    rewrite list_lookup_fmap. destruct (decide (i < length l)) as [Hi|Hi].
    - rewrite lookup_seq_lt by done. cbn [fmap option_fmap option_map]. rewrite lookup_rotate_r by done.
      unfold rotate_nat_add. rewrite !Z2Nat.id by done. cbn [Nat.add].
      pose proof (Z.mod_pos_bound (c + Z.of_nat i) (Z.of_nat (length l)) ltac:(lia)).
      set (j := Z.to_nat _). destruct (lookup_lt_is_Some_2 l j) as [x Hx]; [subst j; lia|].
      by rewrite nth_lookup, Hx.
    - rewrite lookup_seq_ge by lia. symmetry. apply lookup_ge_None. rewrite length_rotate. lia. }
  split; [done|]. split.
  - rewrite Hrot. unfold rotate. rewrite Permutation_app_comm. by rewrite take_drop.
  - rewrite select_one by done. fold l c. cbn [fst]. apply list_elem_of_In, nth_In.
    pose proof (Z.mod_pos_bound c (Z.of_nat (length l)) ltac:(lia)). lia.
Qed.

(** ** Samples *)

Module RuntimeSample.

Definition all_good (i : nat) (c : syscall) (k : unit) : bool * unit := (true, k).

(** The second endpoint's address is taken. *)
Definition port_taken (i : nat) (c : syscall) (k : unit) : bool * unit :=
  (match c with SysBind 2 => false | _ => true end, k).

Definition declared : list (@server_op unit) := [OpAddListen 1 3 None; OpAddListen 2 0 (Some 5)].
Definition options : HttpServerRuntimeOptions := default_runtime_options 8.

Definition served : HttpServer := after all_good true options (declared ++ [OpStart tt]).

Lemma served_runs :
  is_running_ served = true /\
  GetEndpointExecutors 0 served = [ShardExecutor 3; ShardExecutor 4; ShardExecutor 5] /\
  GetEndpointExecutors 1 served = [ShardExecutor 6] /\
  live_threads served = [7; 8; 9; 10; 2].
Proof. split_and!; vm_compute; reflexivity. Qed.

(** Without shared ports: one context, and as many threads. *)
Lemma served_without_reuse_port :
  let s := after all_good false options (declared ++ [OpStart tt]) in
  GetGlobalExecutors s = [ShardExecutor 3; ShardExecutor 4] /\ live_threads s = [5; 6; 7; 8; 2].
Proof. split; vm_compute; reflexivity. Qed.

Lemma refused_start :
  let s := after port_taken true options declared in
  (Start port_taken true tt s).1 = false /\ live_threads (Start port_taken true tt s).2.1 = [].
Proof. split; vm_compute; reflexivity. Qed.

Lemma round_robin_fair_witness :
  (select_many 4 served).1 ≡ₚ [ShardExecutor 3; ShardExecutor 4; ShardExecutor 5; ShardExecutor 6].
Proof.
  destruct (round_robin_fair served) as (_ & Hp & _); [vm_compute; discriminate|vm_compute; discriminate|
    vm_compute; discriminate|]. exact Hp.
Defined.
End RuntimeSample.
