(* ===== verification/Futures.v ===== *)
(** * Work with a future

    The templates of http_server.h that run a function later and give its result as
    a future ([FuturedPost], [SetTimer] with a function and arguments).  The function
    is a [std::packaged_task] that only the queued work refers to: when the work is
    dropped, because the server does not run, a timer is cancelled or an executor is
    destroyed, the task goes with it and the future is broken.  Where the work goes is
    decided by [Post], [SetTimer] and [on_timer] of [ServerRuntime]; what else is
    called on the server meanwhile, and what the function returns or throws, is
    open. *)

From S2P Require Import Prelude ServerRuntime.

Section futures.
(** Results, and what a function throws. *)
Context {R E : Type}.
Context {K : Type} (sys : nat -> syscall -> K -> bool * K) (has_reuse_port : bool).

Inductive promise := Pending | Value (r : R) | Thrown (e : E) | Broken.

(** Tasks are numbered as they are made; [posted] and [timers] have the numbers of
    the tasks that queued work and waiting timers refer to. *)
Record futures := mkFutures {
  server : HttpServer;
  promises : list promise;
  posted : list (nat * IoExecutor);
  timers : list (nat * (IoExecutor * Z));
}.

Definition settle (id : nat) (p : promise) (w : futures) : futures :=
  mkFutures (server w) (<[id := p]> (promises w)) (posted w) (timers w).

(** A task, its future, and where the work went ([None]: nowhere). *)
Definition FuturedPost (w : futures) : nat * futures :=
  let id := length (promises w) in
  let '(exec, s) := Post (server w) in
  (id, match exec with
       | Some e => mkFutures s (promises w ++ [Pending]) (posted w ++ [(id, e)]) (timers w)
       | None => mkFutures s (promises w ++ [Broken]) (posted w) (timers w)
       end).

Definition SetTimerFuture (timeout : Z) (w : futures) : nat * futures :=
  let id := length (promises w) in
  let '(timer, s) := SetTimer timeout (server w) in
  (id, match timer with
       | Some t => mkFutures s (promises w ++ [Pending]) (posted w) (timers w ++ [(id, t)])
       | None => mkFutures s (promises w ++ [Broken]) (posted w) (timers w)
       end).

(** A timer has ended: its function is posted, or dropped. *)
Definition timer_ends (error : bool) (id : nat) (w : futures) : futures :=
  let '(exec, s) := on_timer error (server w) in
  match exec with
  | Some e => mkFutures s (promises w) (posted w ++ [(id, e)]) (timers w)
  | None => mkFutures s (<[id := Broken]> (promises w)) (posted w) (timers w)
  end.

Definition outcome (o : R + E) : promise := match o with inl r => Value r | inr e => Thrown e end.

Inductive future_step : futures -> futures -> Prop :=
  | step_futured_post w : future_step w (FuturedPost w).2
  | step_set_timer timeout w : future_step w (SetTimerFuture timeout w).2
  | step_timer error id t l1 l2 w :
      timers w = l1 ++ (id, t) :: l2 ->
      future_step w (timer_ends error id (mkFutures (server w) (promises w) (posted w) (l1 ++ l2)))
  | step_timer_dropped id t l1 l2 w :
      timers w = l1 ++ (id, t) :: l2 ->
      future_step w (settle id Broken (mkFutures (server w) (promises w) (posted w) (l1 ++ l2)))
  | step_run o id e l1 l2 w :
      posted w = l1 ++ (id, e) :: l2 ->
      future_step w (settle id (outcome o) (mkFutures (server w) (promises w) (l1 ++ l2) (timers w)))
  | step_dropped id e l1 l2 w :
      posted w = l1 ++ (id, e) :: l2 ->
      future_step w (settle id Broken (mkFutures (server w) (promises w) (l1 ++ l2) (timers w)))
  | step_server op w :
      future_step w (mkFutures (run_op sys has_reuse_port (server w) op) (promises w) (posted w) (timers w)).

Definition no_futures (s : HttpServer) : futures := mkFutures s [] [] [].

(** The tasks that somebody still refers to. *)
Definition held (w : futures) : list nat := (posted w).*1 ++ (timers w).*1.

Definition futures_inv (w : futures) : Prop :=
  NoDup (held w) /\ forall id, id ∈ held w <-> promises w !! id = Some Pending.

(** A new task, held once or not at all. *)
Lemma new_task_inv w w' p :
  futures_inv w -> promises w' = promises w ++ [p] ->
  (p = Pending /\ held w' ≡ₚ length (promises w) :: held w \/ p <> Pending /\ held w' = held w) -> futures_inv w'.
Proof.
  intros [Hnd Hh] Hp Hcase. set (n := length (promises w)) in *.
  assert (n ∉ held w) as Hn by (rewrite Hh; unfold n; by rewrite lookup_ge_None_2).
  assert (forall id, promises w' !! id = Some Pending <-> promises w !! id = Some Pending \/ id = n /\ p = Pending) as Hl.
  { intros id. rewrite Hp, lookup_snoc_Some. fold n. split; [intros [[_ ?]|[? [= ->]]]; auto|].
    intros [Hid|[-> ->]]; [left|by right]. split; [|done]. by eapply lookup_lt_Some. }
  destruct Hcase as [[-> Hw]|[Hne Hw]]; split; try (rewrite Hw).
  - by constructor.
  - intros id. rewrite Hl, Hw, elem_of_cons, Hh. naive_solver.
  - done.
  - intros id. rewrite Hl, Hh. naive_solver.
Qed.

(** A task that is settled and let go. *)
Lemma settled_inv id p w w' :
  futures_inv w -> held w ≡ₚ id :: held w' -> promises w' = <[id := p]> (promises w) -> p <> Pending -> futures_inv w'.
Proof.
  intros [Hnd Hh] Hw Hp Hne. rewrite Hw in Hnd. apply NoDup_cons in Hnd as [Hid Hnd]. split; [done|].
  intros id'. rewrite Hp. destruct (decide (id' = id)) as [->|Hd].
  - split; [done|]. intros Hl. apply list_lookup_insert_Some in Hl as [(_ & Hx & _)|[? _]]; congruence.
  - rewrite list_lookup_insert_ne by done. rewrite <- Hh, Hw, elem_of_cons. naive_solver.
Qed.

(** A task that moves from a timer to an executor. *)
Lemma moved_inv w w' : futures_inv w -> held w' ≡ₚ held w -> promises w' = promises w -> futures_inv w'.
Proof. intros [Hnd Hh] Hw Hp. split; [by rewrite Hw|]. intros id. by rewrite Hw, Hp. Qed.

Lemma held_without_post id e l1 l2 w :
  posted w = l1 ++ (id, e) :: l2 -> held w ≡ₚ id :: (l1 ++ l2).*1 ++ (timers w).*1.
Proof. intros Hp. unfold held. rewrite Hp, !fmap_app, fmap_cons. cbn. by rewrite <- Permutation_middle. Qed.

Lemma held_without_timer id t l1 l2 w :
  timers w = l1 ++ (id, t) :: l2 -> held w ≡ₚ id :: (posted w).*1 ++ (l1 ++ l2).*1.
Proof.
  intros Ht. unfold held. rewrite Ht, !fmap_app, fmap_cons. cbn. rewrite Permutation_middle.
  by rewrite <- Permutation_middle.
Qed.

Lemma future_step_inv w w' : futures_inv w -> future_step w w' -> futures_inv w'.
Proof.
  intros Hi Hs. destruct Hs as [w|timeout w|error id t l1 l2 w Ht|id t l1 l2 w Ht|o id e l1 l2 w Hp|id e l1 l2 w Hp|op w].
  - unfold FuturedPost. destruct (Post (server w)) as [[e|] s]; cbn [snd].
    + eapply new_task_inv; [exact Hi|reflexivity|]. left. split; [done|]. unfold held. cbn.
      rewrite fmap_app. cbn. rewrite <- app_assoc. cbn. by rewrite <- Permutation_middle.
    + eapply new_task_inv; [exact Hi|reflexivity|by right].
  - unfold SetTimerFuture. destruct (SetTimer timeout (server w)) as [[t|] s]; cbn [snd].
    + eapply new_task_inv; [exact Hi|reflexivity|]. left. split; [done|]. unfold held. cbn.
      rewrite fmap_app. cbn. rewrite app_assoc. by rewrite Permutation_app_comm.
    + eapply new_task_inv; [exact Hi|reflexivity|by right].
  - unfold timer_ends. cbn [server]. pose proof (held_without_timer _ _ _ _ _ Ht) as Hh.
    destruct (on_timer error (server w)) as [[e|] s].
    + eapply moved_inv; [exact Hi| |done]. rewrite Hh. unfold held. cbn. rewrite fmap_app. cbn.
      rewrite <- app_assoc. cbn. by rewrite <- Permutation_middle.
    + by eapply (settled_inv id Broken); [exact Hi|exact Hh|..].
  - by eapply (settled_inv id Broken); [exact Hi|by apply held_without_timer in Ht|..].
  - eapply (settled_inv id (outcome o)); [exact Hi|by apply held_without_post in Hp|done|by destruct o].
  - by eapply (settled_inv id Broken); [exact Hi|by apply held_without_post in Hp|..].
  - by apply (moved_inv w).
Qed.

(** What is settled stays so. *)
Lemma settled_stays w w' id p :
  futures_inv w -> future_step w w' -> promises w !! id = Some p -> p <> Pending -> promises w' !! id = Some p.
Proof.
  intros [_ Hh] Hs Hp Hne.
  assert (forall id' q, id' ∈ held w -> <[id' := q]> (promises w) !! id = Some p) as Hother.
  { intros id' q Hin. rewrite list_lookup_insert_ne; [done|]. intros ->. apply Hh in Hin. congruence. }
  destruct Hs as [w|timeout w|error id' t l1 l2 w Ht|id' t l1 l2 w Ht|o id' e l1 l2 w Hpo|id' e l1 l2 w Hpo|op w]; cbn.
  - unfold FuturedPost. destruct (Post (server w)) as [[e|] s]; cbn; by apply lookup_app_l_Some.
  - unfold SetTimerFuture. destruct (SetTimer timeout (server w)) as [[t|] s]; cbn; by apply lookup_app_l_Some.
  - unfold timer_ends. cbn [server]. destruct (on_timer error (server w)) as [[e|] s]; [done|]. cbn. apply Hother.
    rewrite (held_without_timer _ _ _ _ _ Ht). apply list_elem_of_here.
  - apply Hother. rewrite (held_without_timer _ _ _ _ _ Ht). apply list_elem_of_here.
  - apply Hother. rewrite (held_without_post _ _ _ _ _ Hpo). apply list_elem_of_here.
  - apply Hother. rewrite (held_without_post _ _ _ _ _ Hpo). apply list_elem_of_here.
  - done.
Qed.

(** No future is forgotten.  Whatever is posted, timed, run, thrown or dropped, and
    whatever is done to the server meanwhile: a future that has no answer is the one
    of exactly one piece of queued work or one timer, so nobody waits for work that
    is gone; an answer is final; and on a server that does not run a future is
    broken at once. *)
Theorem futures_never_lost s w :
  rtc future_step (no_futures s) w ->
  NoDup (held w) /\ (forall id, promises w !! id = Some Pending <-> id ∈ held w) /\
  (forall w' id p, rtc future_step w w' -> promises w !! id = Some p -> p <> Pending -> promises w' !! id = Some p) /\
  (is_running_ (server w) = false ->
   (let '(id, w') := FuturedPost w in promises w' !! id = Some Broken) /\
   forall timeout, let '(id, w') := SetTimerFuture timeout w in promises w' !! id = Some Broken).
Proof.
  intros Hw. assert (futures_inv w) as Hi.
  { refine (rtc_invariant future_step futures_inv _ _ future_step_inv Hw _). split; [constructor|].
    intros id. cbn. rewrite lookup_nil. split; [intros Hin; by apply not_elem_of_nil in Hin|done]. }
  split_and!; [apply Hi|intros id; symmetry; apply Hi| |].
  - intros w' id p Hr. clear Hw. induction Hr as [w|w w1 w' H1 Hr IH]; [done|]. intros Hp Hne.
    apply IH; [by eapply future_step_inv|by eapply settled_stays|done].
  - intros Hr. unfold FuturedPost, SetTimerFuture, Post, SetTimer. rewrite Hr. cbn.
    split; [|intros timeout]; by rewrite lookup_app_r, Nat.sub_diag by lia.
Qed.
End futures.
