(* ===== verification/AcceptLoop.v ===== *)
(** * Accepting connections, and stopping while doing so

    The accept handlers of [src/src/core/http_server_accept.cc], the part of the
    connection's constructor and destructor that counts connections
    (http_server_connection.cc), and [Stop] as it runs beside them.  An accept
    handler is not one step: it reads the counter, makes the connection, looks at
    [is_running_] and only then takes the server's mutex, and the threads of
    other shards run in between.  A [frame] is a handler under way and where it
    stands.  [Stop] holds the mutex from its first line to its last, while it
    waits for the worker pool and for the io threads.  Functions on the worker
    pool, and the handlers of connections and timers on the io threads, that call
    [Post], [Dispatch], [GetExecutor] or a setter wait for the same mutex
    (http_server_runtime.cc); a timer of [SetTimer] calls [Post] itself. *)

From S2P Require Import Prelude ServerRuntime.

(** ** The steps of a handler *)

(** The connection a socket was wrapped in: its endpoint and TLS context. *)
Record connection := mkConnection { conn_endpoint : nat; conn_ssl_ctx : option nat }.

(** The connection's constructor and destructor, on the counter. *)
Definition connection_created (s : HttpServer) : HttpServer :=
  if has_max_connection (kRuntimeOptions_ (cfg s))
  then set_available (to_int64 (available_connection_num_ s - 1)) s else s.

Definition connection_destroyed (s : HttpServer) : HttpServer :=
  if has_max_connection (kRuntimeOptions_ (cfg s))
  then set_available (to_int64 (available_connection_num_ s + 1)) s else s.

Definition StartAcceptedConnection (endpoint_index : nat) (s : HttpServer) : connection * HttpServer :=
  let ssl_ctx :=
    match endpoint_runtimes_ (rt s) !! endpoint_index with
    | Some r => rt_ssl_ctx r
    | None => None
    end in
  (mkConnection endpoint_index ssl_ctx, connection_created s).

(** The test at the top of [HandleAcceptResult]. *)
Definition should_reject (ec : bool) (s : HttpServer) : bool :=
  negb ec && has_max_connection (kRuntimeOptions_ (cfg s)) && (available_connection_num_ s <=? 0)%Z.

(** [RearmAcceptIfRunning] once it has the mutex. *)
Definition rearm_locked (endpoint_index shard_index : nat) (s : HttpServer) : HttpServer :=
  if negb (is_running_ s) then s
  else
    match endpoint_runtimes_ (rt s) !! endpoint_index with
    | None => s
    | Some r => if length (acceptors r) <=? shard_index then s else DoAccept endpoint_index shard_index s
    end.

(** ** The system *)

(** Where a handler stands: about to make a connection, about to look at
    [is_running_], waiting for the mutex. *)
Inductive phase := Accepted | Rearming | Locking.
Record frame := mkFrame { f_endpoint : nat; f_shard : nat; f_phase : phase }.

(** A function on the worker pool, or a handler of a connection or a timer on an io
    thread; it may wait for the mutex. *)
Inductive worker := Working | WaitingForLock.

#[global] Instance worker_eq_dec : EqDecision worker.
Proof. solve_decision. Defined.

(** [Stop] has the mutex and waits for the worker pool, or for the io threads. *)
Inductive stop_pc := NotStopping | JoiningPool | JoiningIo.

#[global] Instance stop_pc_eq_dec : EqDecision stop_pc.
Proof. solve_decision. Defined.

Record system := mkSystem {
  server : HttpServer;
  frames : list frame;
  connections : list connection;
  workers : list worker;
  calls : list worker;
  stopping : stop_pc;
}.

(** A pending accept of an acceptor completes. *)
Definition take_waiting (a : acceptor) : acceptor :=
  mkAcceptor (acc_ioc a) (acc_open a) (pred (acc_waiting a)).

Definition take_accept (endpoint_index shard_index : nat) (s : HttpServer) : HttpServer :=
  set_runtimes
    (alter (fun r => set_rt_acceptors (alter take_waiting shard_index (acceptors r)) r) endpoint_index
       (endpoint_runtimes_ (rt s))) s.

(** The first half of [HandleAcceptResult]: a rejected socket is closed. *)
Definition on_accept (endpoint_index shard_index : nat) (ec : bool) (x : system) : system :=
  let s := take_accept endpoint_index shard_index (server x) in
  let p := if ec then Rearming else if should_reject ec s then Rearming else Accepted in
  mkSystem s (frames x ++ [mkFrame endpoint_index shard_index p]) (connections x) (workers x) (calls x) (stopping x).

(** [Stop] up to the first join. *)
Definition stop_begin (s : HttpServer) : HttpServer :=
  stop_control (StopEndpointIoLocked (ClearExecutorSnapshotsLocked (set_running false s))).

(** [Stop] after the last join of an io thread. *)
Definition stop_end (s : HttpServer) : HttpServer :=
  set_reuse_port false (clear_runtimes (ResetControlIoLocked (JoinEndpointIoThreadsLocked s))).

Definition set_server (s : HttpServer) (x : system) : system :=
  mkSystem s (frames x) (connections x) (workers x) (calls x) (stopping x).

Definition context_running (s : HttpServer) (ei si : nat) : Prop :=
  exists r c, endpoint_runtimes_ (rt s) !! ei = Some r /\ io_contexts r !! si = Some c /\ ioc_stopped c = false.

(** Some thread runs handlers: of an endpoint's context, or of the control context. *)
Definition handlers_run (s : HttpServer) : Prop :=
  (exists ei si, context_running s ei si) \/
  (control_ioc_stopped (ctl s) = false /\ is_Some (control_io_thread_ (ctl s))).

Inductive accept_step : system -> system -> Prop :=
  | step_accept ei si ec r a x :
      endpoint_runtimes_ (rt (server x)) !! ei = Some r -> acceptors r !! si = Some a -> 0 < acc_waiting a ->
      context_running (server x) ei si ->
      accept_step x (on_accept ei si ec x)
  | step_connect ei si c s f1 f2 x :
      frames x = f1 ++ mkFrame ei si Accepted :: f2 ->
      StartAcceptedConnection ei (server x) = (c, s) ->
      accept_step x
        (mkSystem s (f1 ++ mkFrame ei si Rearming :: f2) (connections x ++ [c]) (workers x) (calls x) (stopping x))
  | step_look_running ei si f1 f2 x :
      frames x = f1 ++ mkFrame ei si Rearming :: f2 -> is_running_ (server x) = true ->
      accept_step x
        (mkSystem (server x) (f1 ++ mkFrame ei si Locking :: f2) (connections x) (workers x) (calls x) (stopping x))
  | step_look_stopped ei si f1 f2 x :
      frames x = f1 ++ mkFrame ei si Rearming :: f2 -> is_running_ (server x) = false ->
      accept_step x (mkSystem (server x) (f1 ++ f2) (connections x) (workers x) (calls x) (stopping x))
  | step_rearm ei si f1 f2 x :
      frames x = f1 ++ mkFrame ei si Locking :: f2 -> stopping x = NotStopping ->
      accept_step x
        (mkSystem (rearm_locked ei si (server x)) (f1 ++ f2) (connections x) (workers x) (calls x) (stopping x))
  | step_disconnect c c1 c2 x :
      connections x = c1 ++ c :: c2 ->
      accept_step x
        (mkSystem (connection_destroyed (server x)) (frames x) (c1 ++ c2) (workers x) (calls x) (stopping x))
  | step_work p x :
      thread_pool_ (server x) = Some p -> pool_joined p = false ->
      accept_step x (mkSystem (server x) (frames x) (connections x) (workers x ++ [Working]) (calls x) (stopping x))
  | step_work_locks w1 w2 x :
      workers x = w1 ++ Working :: w2 ->
      accept_step x
        (mkSystem (server x) (frames x) (connections x) (w1 ++ WaitingForLock :: w2) (calls x) (stopping x))
  | step_work_unlocks w1 w2 x :
      workers x = w1 ++ WaitingForLock :: w2 -> stopping x = NotStopping ->
      accept_step x
        (mkSystem (server x) (frames x) (connections x) (w1 ++ Working :: w2) (calls x) (stopping x))
  | step_work_done w1 w2 x :
      workers x = w1 ++ Working :: w2 ->
      accept_step x (mkSystem (server x) (frames x) (connections x) (w1 ++ w2) (calls x) (stopping x))
  | step_call x :
      handlers_run (server x) ->
      accept_step x
        (mkSystem (server x) (frames x) (connections x) (workers x) (calls x ++ [Working]) (stopping x))
  | step_call_locks w1 w2 x :
      calls x = w1 ++ Working :: w2 ->
      accept_step x
        (mkSystem (server x) (frames x) (connections x) (workers x) (w1 ++ WaitingForLock :: w2) (stopping x))
  | step_call_unlocks w1 w2 x :
      calls x = w1 ++ WaitingForLock :: w2 -> stopping x = NotStopping ->
      accept_step x
        (mkSystem (server x) (frames x) (connections x) (workers x) (w1 ++ Working :: w2) (stopping x))
  | step_call_done w1 w2 x :
      calls x = w1 ++ Working :: w2 ->
      accept_step x
        (mkSystem (server x) (frames x) (connections x) (workers x) (w1 ++ w2) (stopping x))
  | step_stop x :
      stopping x = NotStopping -> is_running_ (server x) = true ->
      accept_step x
        (mkSystem (stop_begin (server x)) (frames x) (connections x) (workers x) (calls x) JoiningPool)
  | step_pool_joined x :
      stopping x = JoiningPool -> workers x = [] ->
      accept_step x
        (mkSystem (JoinThreadPool (server x)) (frames x) (connections x) (workers x) (calls x) JoiningIo)
  | step_io_joined x :
      stopping x = JoiningIo -> frames x = [] -> calls x = [] ->
      accept_step x
        (mkSystem (stop_end (server x)) (frames x) (connections x) (workers x) (calls x) NotStopping).

(** A server that was just started. *)
Definition serving (s : HttpServer) : system := mkSystem s [] [] [] [] NotStopping.

(** [Stop] in one piece is the two halves with the join of the pool between. *)
Lemma Stop_pieces s : is_running_ s = true -> Stop s = stop_end (JoinThreadPool (stop_begin s)).
Proof. intros Hr. unfold Stop, stop_end, stop_begin. by rewrite Hr. Qed.

(** ** Counting *)

Lemma sum_insert {X} (f : X -> nat) i (l : list X) x y :
  l !! i = Some x -> sum_list_with f (<[i := y]> l) + f x = sum_list_with f l + f y.
Proof.
  intros Hi. pose proof (lookup_lt_Some _ _ _ Hi) as Hlt. rewrite insert_take_drop by done.
  rewrite <- (take_drop_middle l i x Hi) at 3. rewrite !sum_list_with_app. cbn [sum_list_with]. lia.
Qed.

Lemma sum_alter {X} (f : X -> nat) (g : X -> X) i (l : list X) x :
  l !! i = Some x -> sum_list_with f (alter g i l) + f x = sum_list_with f l + f (g x).
Proof.
  intros Hi. replace (alter g i l) with (<[i := g x]> l); [by apply sum_insert|].
  rewrite list_insert_alter. apply list_alter_ext; [|done]. intros y Hy. by simplify_eq.
Qed.

Definition waiting (r : EndpointRuntime) : nat := sum_list_with acc_waiting (acceptors r).
Definition total_waiting (s : HttpServer) : nat := sum_list_with waiting (endpoint_runtimes_ (rt s)).
Definition total_acceptors (s : HttpServer) : nat :=
  sum_list_with (fun r => length (acceptors r)) (endpoint_runtimes_ (rt s)).

Lemma total_waiting_take ei si r a s :
  endpoint_runtimes_ (rt s) !! ei = Some r -> acceptors r !! si = Some a -> 0 < acc_waiting a ->
  S (total_waiting (take_accept ei si s)) = total_waiting s.
Proof.
  intros Hr Ha Hw. unfold total_waiting, take_accept. cbn [set_runtimes set_rt rt endpoint_runtimes_].
  pose proof (sum_alter waiting (fun r => set_rt_acceptors (alter take_waiting si (acceptors r)) r) _ _ _ Hr) as H1.
  pose proof (sum_alter acc_waiting take_waiting _ _ _ Ha) as H2. unfold waiting at 2 4 in H1.
  cbn [set_rt_acceptors acceptors take_waiting acc_waiting] in H1, H2. lia.
Qed.

Lemma total_waiting_accept ei si s : total_waiting (DoAccept ei si s) <= S (total_waiting s).
Proof.
  unfold DoAccept. destruct (_ !! ei) as [r|] eqn:Hr; [|lia]. destruct (_ <=? si) eqn:Hle; [lia|].
  apply Nat.leb_gt in Hle. destruct (lookup_lt_is_Some_2 _ _ Hle) as [a Ha].
  unfold total_waiting. cbn [set_runtimes set_rt rt endpoint_runtimes_].
  pose proof (sum_insert waiting _ _ _ (set_rt_acceptors (alter add_waiting si (acceptors r)) r) Hr) as H1.
  pose proof (sum_alter acc_waiting add_waiting _ _ _ Ha) as H2. unfold waiting at 2 4 in H1.
  cbn [set_rt_acceptors acceptors add_waiting acc_waiting] in H1, H2. lia.
Qed.

Lemma total_waiting_rearm ei si s : total_waiting (rearm_locked ei si s) <= S (total_waiting s).
Proof.
  unfold rearm_locked. destruct (negb _); [lia|]. destruct (_ !! ei) as [r|]; [|lia].
  destruct (_ <=? si); [lia|]. apply total_waiting_accept.
Qed.

Lemma sum_fmap {X Y} (f : Y -> nat) (g : X -> Y) (l : list X) :
  sum_list_with f (g <$> l) = sum_list_with (fun x => f (g x)) l.
Proof. induction l as [|x l IH]; [done|]. rewrite fmap_cons. cbn [sum_list_with]. by rewrite IH. Qed.

Lemma total_waiting_stop s : total_waiting (stop_begin s) = total_waiting s.
Proof.
  change (sum_list_with waiting (stop_endpoint_io <$> endpoint_runtimes_ (rt s)) = total_waiting s).
  rewrite sum_fmap. unfold total_waiting.
  induction (endpoint_runtimes_ (rt s)) as [|r rs IH]; [done|]. cbn [sum_list_with]. rewrite IH. f_equal.
  unfold waiting. cbn [stop_endpoint_io acceptors]. by rewrite sum_fmap.
Qed.

Lemma total_waiting_started s :
  Forall (fun r => Forall (fun a => acc_open a = true /\ acc_waiting a = 1) (acceptors r))
    (endpoint_runtimes_ (rt s)) ->
  total_waiting s = total_acceptors s.
Proof.
  unfold total_waiting, total_acceptors. intros Hf. induction Hf as [|r rs Hr _ IH]; [done|].
  cbn [sum_list_with]. rewrite IH. f_equal. unfold waiting.
  induction Hr as [|a l [_ Ha] _ IHl]; [done|]. cbn. by rewrite IHl, Ha.
Qed.

Definition is_accepted (f : frame) : nat := match f_phase f with Accepted => 1 | _ => 0 end.
Definition accepted (x : system) : nat := sum_list_with is_accepted (frames x).

Lemma accepted_frames x : accepted x <= length (frames x).
Proof.
  unfold accepted. induction (frames x) as [|f l IH]; cbn; [lia|].
  assert (is_accepted f <= 1) by (unfold is_accepted; destruct (f_phase f); lia). lia.
Qed.

Lemma accepted_split x f1 f f2 :
  frames x = f1 ++ f :: f2 ->
  accepted x = sum_list_with is_accepted f1 + is_accepted f + sum_list_with is_accepted f2.
Proof. unfold accepted. intros ->. rewrite sum_list_with_app. cbn. lia. Qed.

(** What the steps keep, when [m] slots are counted and there are [n] acceptors. *)
Record limit_ok (m : Z) (n : nat) (x : system) : Prop := {
  lim_counted : has_max_connection (kRuntimeOptions_ (cfg (server x))) = true;
  lim_slots : total_waiting (server x) + length (frames x) <= n;
  lim_available : available_connection_num_ (server x) = (m - Z.of_nat (length (connections x)))%Z;
  lim_live :
    if (m <=? 0)%Z then connections x = [] /\ accepted x = 0
    else (Z.of_nat (length (connections x) + accepted x) <= m + Z.of_nat n - 1)%Z;
}.

(** ** The limit *)

Section limit.
Context (m : Z) (n : nat).
Hypothesis Hm : is_int64 m.
Hypothesis Hn : (Z.of_nat n <= 2 ^ 63)%Z.

(** Nothing but frames and the server's counters matter. *)
Lemma limit_frame x x' :
  cfg (server x') = cfg (server x) ->
  available_connection_num_ (server x') = available_connection_num_ (server x) ->
  connections x' = connections x ->
  total_waiting (server x') + length (frames x') <= total_waiting (server x) + length (frames x) ->
  accepted x' <= accepted x -> limit_ok m n x -> limit_ok m n x'.
Proof.
  intros E1 E2 E3 Hs Ha [H1 H2 H3 H4]. constructor; rewrite ?E1, ?E2, ?E3; try done; [lia|].
  destruct (m <=? 0)%Z; [|lia]. destruct H4 as [H4 H5]. split; [done|lia].
Qed.

Lemma accept_limit_step ei si ec r a x :
  endpoint_runtimes_ (rt (server x)) !! ei = Some r -> acceptors r !! si = Some a -> 0 < acc_waiting a ->
  limit_ok m n x -> limit_ok m n (on_accept ei si ec x).
Proof.
  intros Hr Ha Hw Hlim. pose proof (total_waiting_take _ _ _ _ _ Hr Ha Hw) as Ht. pose proof Hlim as [H1 H2 H3 H4].
  unfold on_accept. cbv zeta. set (s := take_accept ei si (server x)) in *.
  assert (forall p, p <> Accepted -> limit_ok m n (mkSystem s (frames x ++ [mkFrame ei si p])
    (connections x) (workers x) (calls x) (stopping x))) as Hgoal.
  { intros p Hp. apply (limit_frame x); [done..| | |done]; unfold accepted; cbn [server frames].
    - rewrite length_app. cbn [length]. lia.
    - rewrite sum_list_with_app. destruct p; [done|cbn; lia..]. }
  destruct ec; [by apply Hgoal|]. unfold should_reject. change (cfg s) with (cfg (server x)).
  change (available_connection_num_ s) with (available_connection_num_ (server x)). rewrite H1, H3. cbn [negb andb].
  destruct (m - Z.of_nat (length (connections x)) <=? 0)%Z eqn:Hav; [by apply Hgoal|]. apply Z.leb_gt in Hav.
  constructor; cbn [server frames connections]; [done| |done|].
  - rewrite length_app. cbn [length]. lia.
  - unfold accepted. cbn [frames]. rewrite sum_list_with_app. cbn.
    destruct (m <=? 0)%Z eqn:Hm0; [apply Z.leb_le in Hm0; lia|].
    pose proof (accepted_frames x). unfold accepted in *. lia.
Qed.

Lemma connect_limit_step ei si f1 f2 x c :
  frames x = f1 ++ mkFrame ei si Accepted :: f2 -> limit_ok m n x ->
  limit_ok m n (mkSystem (connection_created (server x)) (f1 ++ mkFrame ei si Rearming :: f2)
    (connections x ++ [c]) (workers x) (calls x) (stopping x)).
Proof.
  intros Hf [H1 H2 H3 H4]. pose proof (accepted_split _ _ _ _ Hf) as Ha. cbn [is_accepted f_phase] in Ha.
  unfold connection_created. rewrite H1.
  destruct (m <=? 0)%Z eqn:Hm0; [lia|]. apply Z.leb_gt in Hm0.
  rewrite Hf, length_app in H2. cbn [length] in H2.
  constructor; cbn [server frames connections set_available cfg available_connection_num_]; [done|..].
  - rewrite length_app. cbn [length]. exact H2.
  - rewrite H3, length_app. cbn [length]. rewrite to_int64_small; [lia|].
    unfold is_int64, int64_min, int64_max in *. lia.
  - rewrite (proj2 (Z.leb_gt m 0) Hm0). unfold accepted. cbn [frames]. rewrite length_app, sum_list_with_app.
    cbn. lia.
Qed.

Lemma disconnect_limit_step c c1 c2 x :
  connections x = c1 ++ c :: c2 -> limit_ok m n x ->
  limit_ok m n (mkSystem (connection_destroyed (server x)) (frames x) (c1 ++ c2) (workers x) (calls x) (stopping x)).
Proof.
  intros Hc [H1 H2 H3 H4]. unfold connection_destroyed. rewrite H1. rewrite Hc in H3, H4.
  rewrite length_app in H3, H4. cbn [length] in H3, H4.
  destruct (m <=? 0)%Z eqn:Hm0; [destruct H4 as [H4 _]; by destruct c1|]. apply Z.leb_gt in Hm0.
  constructor; cbn [server frames connections set_available cfg available_connection_num_]; [done|done|..].
  - rewrite H3, length_app. rewrite to_int64_small; [lia|].
    unfold is_int64, int64_min, int64_max in *. lia.
  - rewrite (proj2 (Z.leb_gt m 0) Hm0), length_app. unfold accepted in *. cbn [frames]. lia.
Qed.

Lemma replace_frame_accepted f1 f f' f2 :
  is_accepted f' <= is_accepted f ->
  sum_list_with is_accepted (f1 ++ f' :: f2) <= sum_list_with is_accepted (f1 ++ f :: f2).
Proof. rewrite !sum_list_with_app. cbn. lia. Qed.

Lemma step_limit x x' : accept_step x x' -> limit_ok m n x -> limit_ok m n x'.
Proof.
  intros Hs Hlim. destruct Hs as [ei si ec r a x Hr Ha Hw _|ei si c s f1 f2 x Hf Hc|ei si f1 f2 x Hf _
    |ei si f1 f2 x Hf _|ei si f1 f2 x Hf _|c c1 c2 x Hc|p x _ _|w1 w2 x _|w1 w2 x _ _|w1 w2 x _|x _|w1 w2 x _|w1 w2 x _ _|w1 w2 x _|x _ _|x _ _|x _ _ _].
  - by apply (accept_limit_step ei si ec r a).
  - unfold StartAcceptedConnection in Hc. simplify_eq. by apply (connect_limit_step ei si).
  - apply (limit_frame x); try done; unfold accepted; cbn [server frames]; rewrite Hf.
    + by rewrite !length_app.
    + by apply replace_frame_accepted.
  - apply (limit_frame x); try done; unfold accepted; cbn [server frames]; rewrite Hf.
    + rewrite !length_app. cbn [length]. lia.
    + rewrite !sum_list_with_app. cbn. lia.
  - pose proof (total_waiting_rearm ei si (server x)) as Hw.
    assert (cfg (rearm_locked ei si (server x)) = cfg (server x) /\
      available_connection_num_ (rearm_locked ei si (server x)) = available_connection_num_ (server x)) as [E1 E2].
    { unfold rearm_locked, DoAccept. by repeat case_match. }
    apply (limit_frame x); try done; unfold accepted; cbn [server frames]; rewrite Hf.
    + rewrite !length_app. cbn [length]. lia.
    + rewrite !sum_list_with_app. cbn. lia.
  - by apply (disconnect_limit_step c).
  - by apply (limit_frame x).
  - by apply (limit_frame x).
  - by apply (limit_frame x).
  - by apply (limit_frame x).
  - by apply (limit_frame x).
  - by apply (limit_frame x).
  - by apply (limit_frame x).
  - by apply (limit_frame x).
  - apply (limit_frame x); try done. cbn [server frames]. by rewrite total_waiting_stop.
  - apply (limit_frame x); try done; cbn [server frames]; unfold JoinThreadPool; by destruct (thread_pool_ _).
  - apply (limit_frame x); try done; cbn [server frames].
    + unfold stop_end, ResetControlIoLocked, JoinEndpointIoThreadsLocked, clear_runtimes. cbn. by case_match.
    + unfold stop_end, ResetControlIoLocked, JoinEndpointIoThreadsLocked, clear_runtimes. cbn. by case_match.
    + change (total_waiting (stop_end (server x))) with 0. lia.
Qed.
End limit.

(** C20. The connection limit, with the races there are.  After a successful
    [Start] of a server with a limit, whatever the order of accepts, handlers,
    disconnections, worker functions and [Stop]: the counter is the limit less
    the live connections; no connection is made at all when the limit, read as a
    signed 64-bit number, is not positive (0, or 2^63 and more); and otherwise
    the live connections exceed the limit by less than the number of acceptors,
    so with a single acceptor the limit is exact. *)
Theorem accept_limit {K} (sys : nat -> syscall -> K -> bool * K) (has_reuse_port : bool)
    (o : HttpServerRuntimeOptions) ops (k k' : K) (s : HttpServer) (x : system) :
  Start sys has_reuse_port k (after sys has_reuse_port o ops) = (true, (s, k')) ->
  has_max_connection (kRuntimeOptions_ (cfg s)) = true -> (Z.of_nat (total_acceptors s) <= 2 ^ 63)%Z ->
  rtc accept_step (serving s) x ->
  let limit := to_int64 (max_connection (kRuntimeOptions_ (cfg s))) in
  available_connection_num_ (server x) = (limit - Z.of_nat (length (connections x)))%Z /\
  ((limit <= 0)%Z -> connections x = []) /\
  ((0 < limit)%Z -> (Z.of_nat (length (connections x)) <= limit + Z.of_nat (total_acceptors s) - 1)%Z).
Proof.
  intros Hstart Hmax Hn Hx limit.
  pose proof (start_effect sys has_reuse_port k _ (after_ok sys has_reuse_port o ops)) as He.
  rewrite Hstart in He. destruct He as (Hc & _ & He).
  destruct (is_running_ (after _ _ _ _)); [by destruct He|]. destruct He as (Hav & Hrun & Hw & _).
  rewrite <- Hc, Hmax in Hav.
  assert (limit_ok limit (total_acceptors s) (serving s)) as Hinit.
  { constructor; cbn [server frames connections serving length].
    - done.
    - rewrite total_waiting_started by done. lia.
    - rewrite Hav. subst limit. lia.
    - unfold accepted. cbn. case_match; [done|]. apply Z.leb_gt in H. lia. }
  assert (is_int64 limit) as Hl by apply to_int64_range.
  destruct (rtc_invariant _ (limit_ok limit (total_acceptors s)) _ _
    (fun a b Ha Hab => step_limit _ _ Hl Hn a b Hab Ha) Hx Hinit) as [_ _ Ha Hlive].
  split; [done|]. destruct (limit <=? 0)%Z eqn:Hl0.
  - apply Z.leb_le in Hl0. split; [by destruct Hlive|lia].
  - apply Z.leb_gt in Hl0. split; [lia|]. intros _. lia.
Qed.

(** ** When [Stop] returns *)

(** A server that [Stop] has marked: nothing new is accepted and no handler starts. *)
Record quiet (s : HttpServer) : Prop := {
  quiet_running : is_running_ s = false;
  quiet_contexts : Forall (fun r => Forall (fun c => ioc_stopped c = true) (io_contexts r)) (endpoint_runtimes_ (rt s));
  quiet_control : control_ioc_stopped (ctl s) = true \/ control_io_thread_ (ctl s) = None;
}.

Definition pool_done (s : HttpServer) : Prop := forall p, thread_pool_ s = Some p -> pool_joined p = true.

(** Where [Stop] stands. *)
Record stop_ok (x : system) : Prop := {
  so_quiet : quiet (server x);
  so_pool : stopping x <> JoiningPool -> pool_done (server x) /\ workers x = [];
  so_ended : stopping x = NotStopping -> endpoint_runtimes_ (rt (server x)) = [] /\ live_threads (server x) = [];
}.

Lemma quiet_no_handlers s : quiet s -> ~ handlers_run s.
Proof.
  intros [_ Hc Hctl] [(ei & si & r & c & Hr & Hi & Hs)|[H1 [t H2]]].
  - pose proof (Forall_lookup_1 _ _ _ _ (Forall_lookup_1 _ _ _ _ Hc Hr) Hi) as Hst. cbn in Hst. congruence.
  - destruct Hctl; congruence.
Qed.

Lemma quiet_created s : quiet s -> quiet (connection_created s).
Proof. intros []. unfold connection_created. by case_match. Qed.

Lemma quiet_destroyed s : quiet s -> quiet (connection_destroyed s).
Proof. intros []. unfold connection_destroyed. by case_match. Qed.

Lemma quiet_pool s : quiet s -> quiet (JoinThreadPool s) /\ pool_done (JoinThreadPool s).
Proof.
  intros []. unfold JoinThreadPool, pool_done. destruct (thread_pool_ s) eqn:Hp; [|split; [done|by rewrite Hp]].
  split; [done|]. cbn. by intros p' [= <-].
Qed.

Lemma quiet_stop s : quiet (stop_begin s).
Proof.
  split; [done| |by left]. cbn. apply Forall_fmap, Forall_true. intros r. cbn. apply Forall_fmap, Forall_true. done.
Qed.

Lemma stop_end_ended s :
  is_running_ s = false ->
  quiet (stop_end s) /\ endpoint_runtimes_ (rt (stop_end s)) = [] /\ live_threads (stop_end s) = [] /\
  thread_pool_ (stop_end s) = thread_pool_ s.
Proof.
  intros Hr. unfold stop_end, ResetControlIoLocked. cbn. destruct (control_io_thread_ _); (split_and!; [|done..]);
    (split; [done|constructor|by right]).
Qed.

Lemma pool_done_created s : pool_done s -> pool_done (connection_created s).
Proof. unfold connection_created. by case_match. Qed.

Lemma pool_done_destroyed s : pool_done s -> pool_done (connection_destroyed s).
Proof. unfold connection_destroyed. by case_match. Qed.

Lemma created_ended s :
  endpoint_runtimes_ (rt s) = [] /\ live_threads s = [] ->
  endpoint_runtimes_ (rt (connection_created s)) = [] /\ live_threads (connection_created s) = [].
Proof. unfold connection_created. by case_match. Qed.

Lemma destroyed_ended s :
  endpoint_runtimes_ (rt s) = [] /\ live_threads s = [] ->
  endpoint_runtimes_ (rt (connection_destroyed s)) = [] /\ live_threads (connection_destroyed s) = [].
Proof. unfold connection_destroyed. by case_match. Qed.

Lemma not_app_cons {X} (l1 l2 : list X) a : l1 ++ a :: l2 = [] -> False.
Proof. by destruct l1. Qed.

Lemma stop_ok_step x y : stop_ok x -> accept_step x y -> stop_ok y.
Proof.
  intros Hx Hs. destruct Hs as [ei si ec r a x Hr Ha Hw Hrun|ei si c s f1 f2 x Hf Hc|ei si f1 f2 x Hf Hrun
    |ei si f1 f2 x Hf _|ei si f1 f2 x Hf Hns|c c1 c2 x Hc|p x Hp Hj|w1 w2 x Hw|w1 w2 x Hw _|w1 w2 x Hw|x Hh
    |w1 w2 x Hw|w1 w2 x Hw _|w1 w2 x Hw|x Hns Hrun|x Hj Hw|x Hj Hf Hcl]; destruct Hx as [Hq Hp1 He].
  - destruct (quiet_no_handlers _ Hq). left. by exists ei, si.
  - unfold StartAcceptedConnection in Hc. simplify_eq. split; cbn [server workers stopping]; [by apply quiet_created| |].
    + intros Hn. destruct (Hp1 Hn). split; [by apply pool_done_created|done].
    + intros Hn. by apply created_ended, He.
  - destruct Hq. congruence.
  - by split.
  - assert (rearm_locked ei si (server x) = server x) as Hre by (unfold rearm_locked; by rewrite (quiet_running _ Hq)).
    split; cbn [server workers stopping]; by rewrite ?Hre.
  - split; cbn [server workers stopping]; [by apply quiet_destroyed| |].
    + intros Hn. destruct (Hp1 Hn). split; [by apply pool_done_destroyed|done].
    + intros Hn. by apply destroyed_ended, He.
  - split; cbn [server workers stopping]; [done| |done]. intros Hn. destruct (Hp1 Hn) as [Hd _].
    specialize (Hd _ Hp). congruence.
  - split; cbn [server workers stopping]; [done| |done]. intros Hn. destruct (Hp1 Hn) as [_ He0]. rewrite He0 in Hw. by destruct (not_app_cons _ _ _ (eq_sym Hw)).
  - split; cbn [server workers stopping]; [done| |done]. intros Hn. destruct (Hp1 Hn) as [_ He0]. rewrite He0 in Hw. by destruct (not_app_cons _ _ _ (eq_sym Hw)).
  - split; cbn [server workers stopping]; [done| |done]. intros Hn. destruct (Hp1 Hn) as [_ He0]. rewrite He0 in Hw. by destruct (not_app_cons _ _ _ (eq_sym Hw)).
  - by destruct (quiet_no_handlers _ Hq).
  - by split.
  - by split.
  - by split.
  - destruct Hq. congruence.
  - destruct (quiet_pool _ Hq). by split.
  - destruct (stop_end_ended _ (quiet_running _ Hq)) as (H1 & H2 & H3 & H4). split; cbn [server workers stopping]; [done| |done].
    intros _. destruct (Hp1 ltac:(by rewrite Hj)) as [Hd Hw]. split; [|done]. intros p. rewrite H4. apply Hd.
Qed.

(** While [Stop] is under way. *)
Lemma stopping_ok_step x y :
  (stopping x <> NotStopping -> stop_ok x) -> accept_step x y -> stopping y <> NotStopping -> stop_ok y.
Proof.
  intros Hx Hs Hy. destruct (decide (stopping x = NotStopping)) as [Hn|Hn]; [|eapply stop_ok_step; [by apply Hx|done]].
  destruct Hs; cbn [stopping on_accept] in *; try congruence.
  split; cbn [server workers stopping]; [apply quiet_stop|done|done].
Qed.

Lemma stopping_ok s x : rtc accept_step (serving s) x -> stopping x <> NotStopping -> stop_ok x.
Proof.
  intros Hx. refine (rtc_invariant accept_step (fun y => stopping y <> NotStopping -> stop_ok y) _ _ stopping_ok_step Hx _).
  by intros [].
Qed.

(** *** Those who wait for the mutex *)

Definition is_locking (f : frame) : bool := match f_phase f with Locking => true | _ => false end.

Definition someone_waits (x : system) : bool :=
  bool_decide (WaitingForLock ∈ workers x) || bool_decide (WaitingForLock ∈ calls x) || existsb is_locking (frames x).

(** Something waits for the mutex that [Stop] holds while it waits for it. *)
Definition blocked (x : system) : Prop :=
  stopping x = JoiningPool /\ WaitingForLock ∈ workers x \/
  stopping x <> NotStopping /\ (WaitingForLock ∈ calls x \/ exists f, f ∈ frames x /\ f_phase f = Locking).

Lemma elem_replaced {X} (a b c : X) l1 l2 : a ∈ l1 ++ b :: l2 -> a <> b -> a ∈ l1 ++ c :: l2.
Proof. rewrite !elem_of_app, !elem_of_cons. tauto. Qed.

Lemma elem_removed {X} (a b : X) l1 l2 : a ∈ l1 ++ b :: l2 -> a <> b -> a ∈ l1 ++ l2.
Proof. rewrite !elem_of_app, !elem_of_cons. tauto. Qed.

Lemma elem_middle {X} (a : X) l1 l2 : a ∈ l1 ++ a :: l2.
Proof. rewrite elem_of_app, elem_of_cons. tauto. Qed.

Lemma worker_blocked_step x y :
  stopping x = JoiningPool -> WaitingForLock ∈ workers x -> accept_step x y ->
  stopping y = JoiningPool /\ WaitingForLock ∈ workers y.
Proof.
  intros Hp Hw Hs. destruct Hs as [| | | | | | |w1 w2 x Hws| |w1 w2 x Hws| | | | | |x _ Hws|];
    cbn [stopping workers on_accept]; try congruence; try done; split; try done.
  - apply elem_of_app. by left.
  - apply elem_middle.
  - rewrite Hws in Hw. by apply (elem_removed _ Working).
  - rewrite Hws in Hw. by apply elem_of_nil in Hw.
Qed.

Lemma call_blocked_step x y :
  stopping x <> NotStopping -> WaitingForLock ∈ calls x -> accept_step x y ->
  stopping y <> NotStopping /\ WaitingForLock ∈ calls y.
Proof.
  intros Hp Hw Hs. destruct Hs as [| | | | | | | | | | |w1 w2 x Hws| |w1 w2 x Hws| | |x _ _ Hws];
    cbn [stopping calls on_accept]; try congruence; try done; split; try done.
  - apply elem_of_app. by left.
  - apply elem_middle.
  - rewrite Hws in Hw. by apply (elem_removed _ Working).
  - rewrite Hws in Hw. by apply elem_of_nil in Hw.
Qed.

Lemma frame_blocked_step f x y :
  stopping x <> NotStopping -> f ∈ frames x -> f_phase f = Locking -> accept_step x y ->
  stopping y <> NotStopping /\ exists f', f' ∈ frames y /\ f_phase f' = Locking.
Proof.
  intros Hp Hf Hl Hs.
  destruct Hs as [|ei si c s f1 f2 x Hfs Hc|ei si f1 f2 x Hfs|ei si f1 f2 x Hfs| | | | | | | | | | | | |x Hj Hfs];
    cbn [stopping frames on_accept]; try congruence; try (split; [done|]); try by exists f.
  - exists f. rewrite elem_of_app. tauto.
  - exists f. rewrite Hfs in Hf. split; [|done]. apply (elem_replaced _ (mkFrame ei si Accepted)); [done|]. by intros ->.
  - exists (mkFrame ei si Locking). split; [apply elem_middle|done].
  - exists f. rewrite Hfs in Hf. split; [|done]. apply (elem_removed _ (mkFrame ei si Rearming)); [done|]. by intros ->.
  - rewrite Hfs in Hf. by apply elem_of_nil in Hf.
Qed.

Lemma blocked_step x y : blocked x -> accept_step x y -> blocked y.
Proof.
  intros [[Hp Hw]|[Hp [Hw|(f & Hf & Hl)]]] Hs.
  - left. by eapply worker_blocked_step.
  - right. destruct (call_blocked_step x y Hp Hw Hs). auto.
  - right. destruct (frame_blocked_step f x y Hp Hf Hl Hs). auto.
Qed.

Lemma waits_blocked x : stop_ok x -> stopping x <> NotStopping -> someone_waits x = true -> blocked x.
Proof.
  unfold someone_waits. intros Hok Hn [[Hw%bool_decide_eq_true|Hw%bool_decide_eq_true]%orb_true_iff|Hf]%orb_true_iff.
  - left. destruct (decide (stopping x = JoiningPool)) as [Hj|Hj]; [done|].
    destruct (so_pool _ Hok Hj) as [_ He]. rewrite He in Hw. by apply elem_of_nil in Hw.
  - right. auto.
  - right. split; [done|]. right. apply existsb_exists in Hf as (f & Hf & Hp). exists f.
    split; [by apply list_elem_of_In|]. unfold is_locking in Hp. by destruct (f_phase f).
Qed.

(** *** Runs in which nobody waits *)

(** A step after which nobody waits for the mutex; at most [n] more functions start
    on the pool. *)
Definition calm (nx my : nat * system) : Prop :=
  let '(n, x) := nx in let '(m, y) := my in
  accept_step x y /\ someone_waits y = false /\
  (m = n /\ length (workers y) <= length (workers x) \/ n = S m).

Lemma someone_waits_false x :
  someone_waits x = false ->
  WaitingForLock ∉ workers x /\ WaitingForLock ∉ calls x /\ Forall (fun f => f_phase f <> Locking) (frames x).
Proof.
  unfold someone_waits. intros [[Hw%bool_decide_eq_false Hc%bool_decide_eq_false]%orb_false_iff Hf]%orb_false_iff.
  split_and!; [done..|]. apply Forall_forall. intros f Hin Hp.
  assert (existsb is_locking (frames x) = true) as Ht; [|congruence].
  apply existsb_exists. exists f. split; [by apply list_elem_of_In|]. unfold is_locking. by rewrite Hp.
Qed.

Definition frame_weight (f : frame) : nat := match f_phase f with Accepted => 3 | _ => 1 end.
Definition stop_weight (p : stop_pc) : nat := match p with JoiningPool => 2 | JoiningIo => 1 | NotStopping => 0 end.

(** What is still to be done. *)
Definition left_to_do (nx : nat * system) : nat :=
  2 * nx.1 + sum_list_with frame_weight (frames nx.2) + length (connections nx.2) + length (workers nx.2) +
  length (calls nx.2) + stop_weight (stopping nx.2).

Definition calm_ok (nx : nat * system) : Prop := stop_ok nx.2 /\ someone_waits nx.2 = false.

Lemma calm_ok_step a b : calm_ok a -> calm a b -> calm_ok b.
Proof. destruct a as [n x], b as [m y]. intros [Hx _] (Hs & Hw & _). split; [by eapply stop_ok_step|done]. Qed.

Lemma calm_less a b : calm_ok a -> calm a b -> left_to_do b < left_to_do a.
Proof.
  destruct a as [n x], b as [m y]. intros [Hx Hwx] (Hs & Hw & Hn). cbn [snd] in *.
  pose proof (someone_waits_false x Hwx) as (Hx1 & Hx2 & Hx3). pose proof (someone_waits_false y Hw) as (Hy1 & Hy2 & Hy3).
  pose proof (so_quiet _ Hx) as Hq. unfold left_to_do.
  destruct Hs as [ei si ec r a x Hr Ha Hwt Hrun|ei si c s f1 f2 x Hf Hc|ei si f1 f2 x Hf Hrun
    |ei si f1 f2 x Hf _|ei si f1 f2 x Hf Hns|c c1 c2 x Hc|p x Hp Hj|w1 w2 x Hws|w1 w2 x Hws _|w1 w2 x Hws|x Hh
    |w1 w2 x Hws|w1 w2 x Hws _|w1 w2 x Hws|x Hns Hrun|x Hj Hws|x Hj Hf Hcl];
    cbn [fst snd frames connections workers calls stopping server] in *;
    try (rewrite Hf, ?length_app, ?sum_list_with_app; cbn; rewrite ?length_app in Hn; cbn in Hn; lia);
    try (rewrite Hws, ?length_app; cbn; rewrite ?Hws, ?length_app in Hn; cbn in Hn; lia).
  - destruct (quiet_no_handlers _ Hq). left. by exists ei, si.
  - destruct Hq. congruence.
  - rewrite Hc, !length_app. cbn. lia.
  - rewrite length_app in Hn |- *. cbn in Hn |- *. lia.
  - destruct Hy1. apply elem_middle.
  - destruct Hx1. rewrite Hws. apply elem_middle.
  - by destruct (quiet_no_handlers _ Hq).
  - destruct Hy2. apply elem_middle.
  - destruct Hx2. rewrite Hws. apply elem_middle.
  - destruct Hq. congruence.
  - rewrite Hj. cbn. lia.
  - rewrite Hj. cbn. lia.
Qed.

Lemma calm_ends a : calm_ok a -> Acc (fun b a => calm a b) a.
Proof.
  remember (left_to_do a) as k eqn:Hk. revert a Hk. induction (lt_wf k) as [k _ IH]. intros a -> Ha.
  constructor. intros b Hab. eapply IH; [by apply (calm_less a b)|done|by eapply calm_ok_step].
Qed.

(** As long as [Stop] waits something can be done, and nobody has to wait for it. *)
Lemma calm_progress n x :
  calm_ok (n, x) -> stopping x <> NotStopping -> exists y, calm (n, x) (n, y).
Proof.
  intros [Hok Hw] Hn. cbn [snd] in *. pose proof (someone_waits_false x Hw) as (Hx1 & Hx2 & Hx3).
  pose proof (quiet_running _ (so_quiet _ Hok)) as Hr. destruct x as [s fs cs ws cl p]. cbn in *.
  assert (forall y, accept_step (mkSystem s fs cs ws cl p) y -> someone_waits y = false -> length (workers y) <= length ws ->
    exists y, calm (n, mkSystem s fs cs ws cl p) (n, y)) as Hgo.
  { intros y Hs Hwy Hl. exists y. split_and!; [done|done|by left]. }
  assert (forall ws' cl' fs' s' cs' p', WaitingForLock ∉ ws' -> WaitingForLock ∉ cl' -> existsb is_locking fs' = false ->
    someone_waits (mkSystem s' fs' cs' ws' cl' p') = false) as Hcalm.
  { intros ws' cl' fs' s' cs' p' H1 H2 H3. unfold someone_waits. cbn. by rewrite !bool_decide_eq_false_2, H3. }
  assert (existsb is_locking fs = false) as Hfs by (apply orb_false_iff in Hw as [_ Hw]; exact Hw).
  destruct p; [done| |].
  - destruct ws as [|w ws].
    + eapply Hgo; [by apply step_pool_joined|by apply Hcalm|done].
    + apply not_elem_of_cons in Hx1 as [Hw1 Hx1]. destruct w; [|done].
      eapply Hgo; [exact (step_work_done [] ws (mkSystem s fs cs (Working :: ws) cl JoiningPool) eq_refl)|by apply Hcalm|cbn; lia].
  - destruct cl as [|w cl].
    + destruct fs as [|[ei si ph] fs].
      * eapply Hgo; [by apply step_io_joined|by apply Hcalm|done].
      * apply orb_false_iff in Hfs as [Hf1 Hfs]. destruct ph; [| |done].
        -- eapply Hgo; [exact (step_connect ei si _ _ [] fs (mkSystem s (mkFrame ei si Accepted :: fs) cs ws [] JoiningIo) eq_refl (surjective_pairing _))|by apply Hcalm|done].
        -- eapply Hgo; [exact (step_look_stopped ei si [] fs (mkSystem s (mkFrame ei si Rearming :: fs) cs ws [] JoiningIo) eq_refl Hr)|by apply Hcalm|done].
    + apply not_elem_of_cons in Hx2 as [Hw2 Hx2]. destruct w; [|done].
      eapply Hgo; [exact (step_call_done [] cl (mkSystem s fs cs ws (Working :: cl) JoiningIo) eq_refl)|by apply Hcalm|done].
Qed.

Lemma calm_finishes n x :
  calm_ok (n, x) -> exists y, rtc calm (n, x) (n, y) /\ stopping y = NotStopping.
Proof.
  intros Hok. pose proof (calm_ends _ Hok) as Hacc. remember (n, x) as a eqn:Ha. revert x Ha Hok.
  induction Hacc as [a _ IH]. intros x -> Hok.
  destruct (decide (stopping x = NotStopping)) as [Hd|Hd]; [by exists x|].
  destruct (calm_progress n x Hok Hd) as [y Hy].
  destruct (IH (n, y) Hy y eq_refl) as (z & Hz & Hs); [by eapply calm_ok_step|]. exists z. split; [by eapply rtc_l|done].
Qed.

Lemma calm_reaches a b : calm_ok a -> rtc calm a b -> calm_ok b.
Proof. intros Ha Hr. refine (rtc_invariant calm calm_ok _ _ _ Hr Ha). intros x y. apply calm_ok_step. Qed.

(** C21. When [Stop] returns.  Take any moment at which [Stop] has the server's mutex
    and waits, for the worker pool or for the io threads.  If somebody whom it waits
    for waits for the mutex (a function on the pool, a handler of a connection or a
    timer, or an accept handler that has already seen [is_running_] set), [Stop]
    never returns, whatever happens.  If not, consider the runs in which it stays so
    and only finitely many more functions start on the pool: all of them are finite,
    there is one in which [Stop] returns, and it has returned in all of them that
    cannot be continued, with the server not running and no runtime and no thread
    left.  (A function that comes to wait for the mutex later is the first case.) *)
Theorem stop_returns (s : HttpServer) (x : system) :
  rtc accept_step (serving s) x -> stopping x <> NotStopping ->
  if someone_waits x
  then forall y, rtc accept_step x y -> stopping y <> NotStopping
  else forall n,
    Acc (fun b a => calm a b) (n, x) /\
    (exists y, rtc calm (n, x) (n, y) /\ stopping y = NotStopping) /\
    (forall m y, rtc calm (n, x) (m, y) -> (forall z, ~ calm (m, y) z) ->
       stopping y = NotStopping /\ is_running_ (server y) = false /\
       endpoint_runtimes_ (rt (server y)) = [] /\ live_threads (server y) = []).
Proof.
  intros Hx Hn. pose proof (stopping_ok _ _ Hx Hn) as Hok. destruct (someone_waits x) eqn:Hw.
  - intros y Hy. destruct (rtc_invariant accept_step blocked _ _ blocked_step Hy (waits_blocked _ Hok Hn Hw))
      as [[-> _]|[Hp _]]; done.
  - intros n. assert (calm_ok (n, x)) as Hc by done. split_and!; [by apply calm_ends|by apply calm_finishes|].
    intros m y Hy Hlast. pose proof (calm_reaches _ _ Hc Hy) as Hyo.
    destruct (decide (stopping y = NotStopping)) as [Hd|Hd].
    + destruct Hyo as [[Hq _ He] _]. cbn [snd] in *. split; [done|]. split; [apply Hq|by apply He].
    + destruct (calm_progress m y Hyo Hd) as [z Hz]. by destruct (Hlast (m, z)).
Qed.

(** ** Samples *)

Module AcceptSample.
Import RuntimeSample.

Definition limited : HttpServerRuntimeOptions := mkRuntimeOptions 8 8 0 60000 100 1 true 1.

(** A server with two acceptors, and a limit of one connection. *)
Definition setup : list (@server_op unit) := [OpAddListen 1 2 None].
Definition s0 : HttpServer := (Start all_good true tt (after all_good true limited setup)).2.1.

Lemma s0_started : Start all_good true tt (after all_good true limited setup) = (true, (s0, tt)).
Proof. vm_compute. reflexivity. Qed.

Lemma s0_accepts (si : nat) (s : HttpServer) :
  si < 2 -> rt s = rt s0 \/ rt s = rt (take_accept 0 0 s0) /\ si = 1 ->
  exists r a, endpoint_runtimes_ (rt s) !! 0 = Some r /\ acceptors r !! si = Some a /\ 0 < acc_waiting a /\
    context_running s 0 si.
Proof.
  unfold context_running. intros Hsi [->|[-> ->]]; [destruct si as [|[|]]; [..|lia]|];
    (eexists _, _; split; [vm_compute; reflexivity|]; split; [reflexivity|]; split; [cbn; lia|];
     eexists _, _; split; [vm_compute; reflexivity|]; split; reflexivity).
Qed.

(** Both shards see a free slot, and both make a connection. *)
Definition x1 : system := on_accept 0 0 false (serving s0).
Definition x2 : system := on_accept 0 1 false x1.
Definition x3 : system :=
  mkSystem (StartAcceptedConnection 0 (server x2)).2 [mkFrame 0 0 Rearming; mkFrame 0 1 Accepted]
    [(StartAcceptedConnection 0 (server x2)).1] [] [] NotStopping.
Definition x4 : system :=
  mkSystem (StartAcceptedConnection 0 (server x3)).2 [mkFrame 0 0 Rearming; mkFrame 0 1 Rearming]
    (connections x3 ++ [(StartAcceptedConnection 0 (server x3)).1]) [] [] NotStopping.

Lemma x2_frames : frames x2 = [mkFrame 0 0 Accepted; mkFrame 0 1 Accepted].
Proof. vm_compute. reflexivity. Qed.

Lemma x4_reachable : rtc accept_step (serving s0) x4.
Proof.
  apply (rtc_l _ _ x1).
  { destruct (s0_accepts 0 s0) as (r & a & H1 & H2 & H3 & H4); [lia|by left|].
    by apply (step_accept 0 0 false r a (serving s0)). }
  apply (rtc_l _ _ x2).
  { destruct (s0_accepts 1 (server x1)) as (r & a & H1 & H2 & H3 & H4); [lia|by right|].
    by apply (step_accept 0 1 false r a x1). }
  apply (rtc_l _ _ x3).
  { exact (step_connect 0 0 _ _ [] [mkFrame 0 1 Accepted] x2 x2_frames (surjective_pairing _)). }
  apply rtc_once. exact (step_connect 0 1 _ _ [mkFrame 0 0 Rearming] [] x3 eq_refl (surjective_pairing _)).
Qed.

(** The limit is one, and there are two connections. *)
Lemma limit_exceeded :
  rtc accept_step (serving s0) x4 /\ length (connections x4) = 2 /\ available_connection_num_ (server x4) = (-1)%Z.
Proof. split; [apply x4_reachable|]. split; vm_compute; reflexivity. Qed.

Lemma accept_limit_witness : (Z.of_nat (length (connections x4)) <= 2)%Z.
Proof.
  destruct (accept_limit all_good true limited setup tt tt s0 x4 s0_started) as (_ & _ & Hl);
    [reflexivity|vm_compute; discriminate|apply x4_reachable|]. apply Hl. vm_compute. reflexivity.
Defined.

(** A handler has seen that the server runs when [Stop] takes the mutex. *)
Definition x5 : system :=
  mkSystem (server x4) [mkFrame 0 0 Locking; mkFrame 0 1 Rearming] (connections x4) [] [] NotStopping.
Definition x6 : system :=
  mkSystem (stop_begin (server x5)) (frames x5) (connections x5) (workers x5) (calls x5) JoiningPool.

Lemma x6_reachable : rtc accept_step (serving s0) x6.
Proof.
  etrans; [apply x4_reachable|]. apply (rtc_l _ _ x5).
  { exact (step_look_running 0 0 [] [mkFrame 0 1 Rearming] x4 eq_refl eq_refl). }
  apply rtc_once. exact (step_stop x5 eq_refl eq_refl).
Qed.

(** Both have yet to look when [Stop] takes the mutex, and a handler of a connection
    is running. *)
Definition x7 : system := mkSystem (server x4) (frames x4) (connections x4) (workers x4) [Working] NotStopping.
Definition x8 : system :=
  mkSystem (stop_begin (server x7)) (frames x7) (connections x7) (workers x7) (calls x7) JoiningPool.

Lemma x8_reachable : rtc accept_step (serving s0) x8.
Proof.
  etrans; [apply x4_reachable|]. apply (rtc_l _ _ x7).
  { apply (step_call x4). left. exists 0, 0. eexists _, _. split; [vm_compute; reflexivity|]. split; reflexivity. }
  apply rtc_once. exact (step_stop x7 eq_refl eq_refl).
Qed.

(** The deadlock: [Stop] waits for the handler, which waits for the mutex; and the
    moment before, when it is not lost. *)
Lemma stop_returns_witness :
  (stopping x6 = JoiningPool /\ forall y, rtc accept_step x6 y -> stopping y <> NotStopping) /\
  (stopping x8 = JoiningPool /\ Acc (fun b a => calm a b) (5, x8) /\
   exists y, rtc calm (5, x8) (5, y) /\ stopping y = NotStopping).
Proof.
  split; split; [reflexivity|exact (stop_returns s0 x6 x6_reachable ltac:(discriminate))|reflexivity|].
  destruct (stop_returns s0 x8 x8_reachable ltac:(discriminate) 5) as (H1 & H2 & _). split; [exact H1|exact H2].
Defined.
End AcceptSample.
