(* ===== verification/WebSocketClient.v ===== *)
(** * The WebSocket client task

    [src/src/connection/client/websocket_client_task.cc],
    websocket_client_task_startup.cc and websocket_client_task_stream.cc, with
    the notifications of websocket_task_base.cc.  The task connects, shakes hands
    and then reads until one side closes; what its handler is told is the list
    [events].  The functions of the task are taken to run one at a time: the task
    has no strand, so that is for its I/O executor and its callers to see to.

    A handler may call the task while it is being told something.  Where the
    task goes on after a notification, the calls made meanwhile are an argument
    of the step ([calls]); everywhere else a notification is the last thing a
    function does, or all calls are refused, and the calls are steps of their
    own. *)

From S2P Require Import Prelude Text HttpFields StreamBuilder ClientPipeline ClientTask.

Inductive WsLifecycle :=
  | kInit | kStarting | kAcquiring | kTlsHandshaking | kWsHandshaking | kOpen | kClosing | kClosed.
Inductive CloseReason := NoReason | UserCancel | RemoteClose | ErrorClose.
Inductive WebSocketControlKind := kPing | kPong | kClose.

#[export] Instance ws_lifecycle_eq_dec : EqDecision WsLifecycle.
Proof. solve_decision. Defined.

Record WebSocketMessage := mkMessage { ws_binary : bool; ws_payload : str }.

Record WsOptions := mkWsOptions {
  ws_request_options : HttpClientOptions;
  ws_write_timeout : Z;
  ws_read_header_timeout : Z;
  ws_tls_handshake_timeout : Z;
}.

(** [ClientWebSocketStream]. *)
Inductive ClientWebSocketStream := NoWs | Ws (s : socket) | Wss (s : socket) (t : tls).

(** What the handler and the callback of [OnHttpDone] are told. *)
Inductive ws_event (F : Type) :=
  | EvOpen
  | EvMessage (m : WebSocketMessage)
  | EvError (ec : error_code) (what : str)
  | EvClose (ec : option error_code)
  | EvHttpDone (ec : option error_code) (header : HttpResponseHeader F).
Arguments EvOpen {_}.
Arguments EvMessage {_} _.
Arguments EvError {_} _ _.
Arguments EvClose {_} _.
Arguments EvHttpDone {_} _ _.

(** The asynchronous operations. *)
Inductive ws_operation (F : Type) :=
  | WsAcquiring (k : ConnectionKey)
  | WsTlsHandshake (timeout : Z)
  | WsHandshake (timeout : Z) (request : F)
  | WsReading
  | WsWriting (m : WebSocketMessage)
  | WsPinging (payload : str)
  | WsPonging (payload : str)
  | WsClosing.
Arguments WsAcquiring {_} _.
Arguments WsTlsHandshake {_} _.
Arguments WsHandshake {_} _ _.
Arguments WsReading {_}.
Arguments WsWriting {_} _.
Arguments WsPinging {_} _.
Arguments WsPonging {_} _.
Arguments WsClosing {_}.

Record ws_state := mkWsState {
  lifecycle_state_ : WsLifecycle;
  close_reason_ : CloseReason;
  websocket_stream_ : ClientWebSocketStream;
  pending_transport_ : ClientStream;
  aborted : bool;
}.

Record WebSocketClientTask (F A : Type) := mkWsTask {
  ws_options : WsOptions;
  ws_create_error : option (error_code * str);
  ws_assembler : option A;
  ws_req : task_request F;
  ws_st : ws_state;
  ws_handler : bool;
  ws_http_done : bool;
  current_message_ : option WebSocketMessage;
  ws_events : list (ws_event F);
  ws_operations : list (ws_operation F);
}.
Arguments mkWsTask {_ _} _ _ _ _ _ _ _ _ _ _.
Arguments ws_options {_ _} _.
Arguments ws_create_error {_ _} _.
Arguments ws_assembler {_ _} _.
Arguments ws_req {_ _} _.
Arguments ws_st {_ _} _.
Arguments ws_handler {_ _} _.
Arguments ws_http_done {_ _} _.
Arguments current_message_ {_ _} _.
Arguments ws_events {_ _} _.
Arguments ws_operations {_ _} _.

Section ws_client.
Context {F A : Type} `{BeastMessage F} `{!RequestAssembler (F := F) A} `{!HeaderSync F A}.
(** Whether Boost.Beast knows a field by its name. *)
Context (known_field : str -> bool).

Abbreviation Task := (WebSocketClientTask F A).

(** ** Setters *)

Definition set_ws_st (s : ws_state) (t : Task) : Task :=
  mkWsTask (ws_options t) (ws_create_error t) (ws_assembler t) (ws_req t) s (ws_handler t) (ws_http_done t)
    (current_message_ t) (ws_events t) (ws_operations t).
Definition set_ws_req (a : option A) (r : task_request F) (t : Task) : Task :=
  mkWsTask (ws_options t) (ws_create_error t) a r (ws_st t) (ws_handler t) (ws_http_done t)
    (current_message_ t) (ws_events t) (ws_operations t).
Definition set_ws_message (m : option WebSocketMessage) (t : Task) : Task :=
  mkWsTask (ws_options t) (ws_create_error t) (ws_assembler t) (ws_req t) (ws_st t) (ws_handler t)
    (ws_http_done t) m (ws_events t) (ws_operations t).
Definition set_ws_events (l : list (ws_event F)) (t : Task) : Task :=
  mkWsTask (ws_options t) (ws_create_error t) (ws_assembler t) (ws_req t) (ws_st t) (ws_handler t)
    (ws_http_done t) (current_message_ t) l (ws_operations t).
Definition set_ws_operations (l : list (ws_operation F)) (t : Task) : Task :=
  mkWsTask (ws_options t) (ws_create_error t) (ws_assembler t) (ws_req t) (ws_st t) (ws_handler t)
    (ws_http_done t) (current_message_ t) (ws_events t) l.

Definition set_ws_life (l : WsLifecycle) (t : Task) : Task :=
  let s := ws_st t in
  set_ws_st (mkWsState l (close_reason_ s) (websocket_stream_ s) (pending_transport_ s) (aborted s)) t.
Definition set_ws_reason (r : CloseReason) (t : Task) : Task :=
  let s := ws_st t in
  set_ws_st (mkWsState (lifecycle_state_ s) r (websocket_stream_ s) (pending_transport_ s) (aborted s)) t.
Definition set_ws_stream (w : ClientWebSocketStream) (t : Task) : Task :=
  let s := ws_st t in
  set_ws_st (mkWsState (lifecycle_state_ s) (close_reason_ s) w (pending_transport_ s) (aborted s)) t.
Definition set_ws_pending (p : ClientStream) (t : Task) : Task :=
  let s := ws_st t in
  set_ws_st (mkWsState (lifecycle_state_ s) (close_reason_ s) (websocket_stream_ s) p (aborted s)) t.
Definition abort_transports (t : Task) : Task :=
  let s := ws_st t in
  set_ws_st (mkWsState (lifecycle_state_ s) (close_reason_ s) (websocket_stream_ s) (pending_transport_ s) true) t.

Definition ws_start (o : ws_operation F) (t : Task) : Task := set_ws_operations (ws_operations t ++ [o]) t.

(** ** Notifications *)

Definition tell (e : ws_event F) (t : Task) : Task :=
  if ws_handler t then set_ws_events (ws_events t ++ [e]) t else t.

Definition NotifyOpen (t : Task) : Task := tell EvOpen t.
Definition NotifyReadMessage (m : WebSocketMessage) (t : Task) : Task :=
  tell (EvMessage m) (set_ws_message (Some m) t).
Definition NotifyError (ec : error_code) (what : str) (t : Task) : Task := tell (EvError ec what) t.
Definition NotifyClose (ec : option error_code) (t : Task) : Task := tell (EvClose ec) t.

Definition EmitHttpDone (ec : option error_code) (header : HttpResponseHeader F) (t : Task) : Task :=
  if ws_http_done t then set_ws_events (ws_events t ++ [EvHttpDone ec header]) t else t.

(** ** Closing *)

Definition IsOpen (t : Task) : bool := bool_decide (lifecycle_state_ (ws_st t) = kOpen).

Definition IsClosingOrClosed (t : Task) : bool :=
  match lifecycle_state_ (ws_st t) with kClosing | kClosed => true | _ => false end.

Definition NotifyCloseOnce (ec : option error_code) (t : Task) : Task :=
  match lifecycle_state_ (ws_st t) with
  | kClosed => t
  | _ => NotifyClose ec (set_ws_life kClosed t)
  end.

Definition FailAndClose (ec : error_code) (what : str) (t : Task) : Task :=
  let t := match close_reason_ (ws_st t) with NoReason => set_ws_reason ErrorClose t | _ => t end in
  let t := match lifecycle_state_ (ws_st t) with kClosed => t | _ => set_ws_life kClosing t end in
  NotifyCloseOnce (Some ec) (NotifyError ec what t).

Definition Cancel (t : Task) : Task :=
  if IsClosingOrClosed t then t
  else
    let was_open := IsOpen t in
    let t := set_ws_life kClosing (set_ws_reason UserCancel t) in
    if was_open then
      match websocket_stream_ (ws_st t) with
      | Ws _ | Wss _ _ => ws_start WsClosing t
      | NoWs => NotifyCloseOnce None t
      end
    else NotifyCloseOnce None (abort_transports t).

(** ** Writing *)

Definition has_ws (t : Task) : bool := match websocket_stream_ (ws_st t) with NoWs => false | _ => true end.

Definition WriteMessage (payload : str) (binary : bool) (t : Task) : bool * Task :=
  if negb (IsOpen t) then (false, t)
  else if has_ws t then (true, ws_start (WsWriting (mkMessage binary payload)) t)
  else (false, t).

Definition WritePingControl (payload : str) (t : Task) : bool * Task :=
  if has_ws t then (true, ws_start (WsPinging payload) t) else (false, t).

Definition WritePongControl (payload : str) (t : Task) : bool * Task :=
  if has_ws t then (true, ws_start (WsPonging payload) t) else (false, t).

Definition WriteCloseControl (t : Task) : bool * Task := (true, Cancel t).

Definition WriteControl (kind : WebSocketControlKind) (payload : str) (t : Task) : bool * Task :=
  if negb (IsOpen t) then (false, t)
  else
    match kind with
    | kPing => WritePingControl payload t
    | kPong => WritePongControl payload t
    | kClose => WriteCloseControl t
    end.

(** ** Starting *)

(** The fields a handshake takes from the request. *)
Definition reserved : list str :=
  [lit "Connection"; lit "Upgrade"; lit "Sec-WebSocket-Accept"; lit "Sec-WebSocket-Extensions";
   lit "Sec-WebSocket-Key"; lit "Sec-WebSocket-Protocol"; lit "Sec-WebSocket-Version"].

Definition IsWebSocketReservedHeader (name : str) : bool := existsb (fun r => IEquals name r) reserved.

Definition decorate (request : F) (ws_req : F) : F :=
  foldl (fun w kv =>
    if negb (known_field kv.1) || IsWebSocketReservedHeader kv.1 then w else f_set kv.1 kv.2 w)
    ws_req (f_list request).

(** [ConfigureClientHandshake] and [async_handshake]; Boost.Beast starts from
    fields of its own ([f_empty] here). *)
Definition StartWebSocketHandshake (t : Task) : Task :=
  let t := set_ws_life kWsHandshaking t in
  if has_ws t then
    ws_start (WsHandshake (Z.max (ws_write_timeout (ws_options t)) (ws_read_header_timeout (ws_options t)))
      (decorate (fields (request_ (ws_req t))) f_empty)) t
  else FailAndClose not_connected (lit "websocket handshake failed") t.

Definition DoAcquire (now : Z) (a : A) (t : Task) : Task :=
  let t := set_ws_life kAcquiring t in
  let r := ws_req t in
  let scheme := if use_ssl_ r then lit "https" else lit "http" in
  let '(a, (request, key)) :=
    Assemble (request_ r) (ws_request_options (ws_options t)) scheme (host_ r) (port_ r) (ssl_ctx_ r) now a in
  let t := set_ws_req (Some a)
    (mkTaskRequest request (host_ r) (port_ r) (target_ r) (use_ssl_ r) (ssl_ctx_ r) key) t in
  ws_start (WsAcquiring key) t.

Definition DoStart (now : Z) (t : Task) : Task :=
  match ws_assembler t with
  | None =>
      if has_ws t then StartWebSocketHandshake t
      else FailAndClose invalid_argument (lit "raw mode requires a pre-connected stream") t
  | Some a => DoAcquire now a t
  end.

Definition Start (now : Z) (t : Task) : Task :=
  match lifecycle_state_ (ws_st t) with
  | kInit =>
      let t := set_ws_life kStarting t in
      match ws_create_error t with
      | Some (ec, what) => FailAndClose ec (if what =s [] then lit "websocket client create failed" else what) t
      | None => DoStart now t
      end
  | _ => t
  end.

Definition DoDeferredTlsHandshake (sni : bool) (s : socket) (ctx : nat) (verify_peer : bool) (t : Task) : Task :=
  let t := set_ws_life kTlsHandshaking t in
  let t := set_ws_pending (SslStream s (mkTls ctx (host_ (ws_req t)) verify_peer)) t in
  if negb sni then FailAndClose (ssl_error 0) (lit "tls handshake failed") t
  else ws_start (WsTlsHandshake (ws_tls_handshake_timeout (ws_options t))) t.

(** [sni]: whether the name could be set on the TLS session. *)
Definition OnAcquireComplete (sni : bool) (r : error_code + StreamSlot) (t : Task) : Task :=
  if IsClosingOrClosed t then NotifyCloseOnce None t
  else
    match r with
    | inl ec =>
        FailAndClose ec
          (match ec with ssl_error _ => lit "tls handshake failed" | _ => lit "connection acquire failed" end) t
    | inr slot =>
        match StreamBuilder.stream_ slot, deferred_ssl_ctx slot with
        | SslStream s tls, _ => StartWebSocketHandshake (set_ws_stream (Wss s tls) t)
        | TcpStream s, Some ctx => DoDeferredTlsHandshake sni s ctx (deferred_verify_peer slot) t
        | TcpStream s, None => StartWebSocketHandshake (set_ws_stream (Ws s) t)
        | NoStream, _ => FailAndClose not_connected (lit "acquire returned empty slot") t
        end
    end.

Definition OnDeferredTlsHandshakeComplete (ec : option error_code) (t : Task) : Task :=
  if IsClosingOrClosed t then NotifyCloseOnce None (set_ws_pending NoStream t)
  else
    match ec with
    | Some ec => FailAndClose ec (lit "tls handshake failed") (set_ws_pending NoStream t)
    | None =>
        let t :=
          match pending_transport_ (ws_st t) with
          | SslStream s tls => set_ws_stream (Wss s tls) t
          | _ => t
          end in
        StartWebSocketHandshake (set_ws_pending NoStream t)
    end.

(** ** Calls *)

Inductive ws_call :=
  | CallStart (now : Z)
  | CallCancel
  | CallWriteMessage (payload : str) (binary : bool)
  | CallWriteControl (kind : WebSocketControlKind) (payload : str).

Definition run_call (t : Task) (c : ws_call) : Task :=
  match c with
  | CallStart now => Start now t
  | CallCancel => Cancel t
  | CallWriteMessage payload binary => (WriteMessage payload binary t).2
  | CallWriteControl kind payload => (WriteControl kind payload t).2
  end.

Definition run_calls (l : list ws_call) (t : Task) : Task := foldl run_call t l.

(** ** The open stream *)

Definition BeginReadLoop (t : Task) : Task :=
  if negb (IsOpen t) then t else if has_ws t then ws_start WsReading t else t.

(** The response is copied field by field. *)
Definition handshake_header (h : HttpResponseHeader F) : HttpResponseHeader F :=
  mkHeader (hdr_version h) (hdr_result h) (copy_by_set (hdr_fields h)).

(** [on_done] and [on_open] are what the callbacks call meanwhile. *)
Definition OnWebSocketHandshakeCompleted (now : Z) (ec : option error_code) (response : HttpResponseHeader F)
    (on_done on_open : list ws_call) (t : Task) : Task :=
  if IsClosingOrClosed t then NotifyCloseOnce None t
  else
    let header := handshake_header response in
    let r := ws_req t in
    let t :=
      match ws_assembler t with
      | Some a => set_ws_req (Some (OnResponseHeader now (hdr_fields header) (host_ r) (target_ r) a)) r t
      | None => t
      end in
    let t := run_calls on_done (EmitHttpDone ec header t) in
    match ec with
    | Some ec => FailAndClose ec (lit "websocket handshake failed") t
    | None => BeginReadLoop (run_calls on_open (NotifyOpen (set_ws_life kOpen t)))
    end.

Definition OnWebSocketRead (ec : option error_code) (m : WebSocketMessage) (on_message : list ws_call)
    (t : Task) : Task :=
  if IsClosingOrClosed t then NotifyCloseOnce None t
  else
    match ec with
    | Some ec =>
        if bool_decide (ec = closed_by_peer)
        then NotifyCloseOnce None (set_ws_life kClosing (set_ws_reason RemoteClose t))
        else FailAndClose ec (lit "websocket client read failed") t
    | None => BeginReadLoop (run_calls on_message (NotifyReadMessage m t))
    end.

(** A write that fails is only reported. *)
Definition on_written (what : str) (ec : option error_code) (t : Task) : Task :=
  match ec with Some ec => NotifyError ec what t | None => t end.

(** ** Factories *)

Definition ConfigureUpgradeHeaders (t : Task) : Task :=
  let r := ws_req t in
  let f := fields (request_ r) in
  let f := f_set (lit "Connection") (lit "Upgrade") f in
  let f := f_set (lit "Upgrade") (lit "websocket") f in
  let f := f_set (lit "Sec-WebSocket-Version") (lit "13") f in
  let f := f_set (lit "Sec-WebSocket-Key") (lit "dGhlIHNhbXBsZSBub25jZQ==") f in
  set_ws_req (ws_assembler t)
    (mkTaskRequest (mkRequest (target (request_ r)) f) (host_ r) (port_ r) (target_ r) (use_ssl_ r) (ssl_ctx_ r)
       (connection_key_ r)) t.

Definition make_ws (host port target : str) (handler : bool) (options : WsOptions) (use_ssl : bool)
    (ssl_ctx : option nat) : Task :=
  mkWsTask options None None
    (mkTaskRequest (mkRequest target (f_set (lit "Host") host f_empty)) host port target use_ssl ssl_ctx default_key)
    (mkWsState kInit NoReason NoWs NoStream false) handler false None [] [].

Definition SetAssembler (a : A) (t : Task) : Task := set_ws_req (Some a) (ws_req t) t.

Definition SetCreateError (ec : error_code) (what : str) (t : Task) : Task :=
  mkWsTask (ws_options t) (Some (ec, what)) (ws_assembler t) (ws_req t) (ws_st t) (ws_handler t) (ws_http_done t)
    (current_message_ t) (ws_events t) (ws_operations t).

Definition OnHttpDone (t : Task) : Task :=
  mkWsTask (ws_options t) (ws_create_error t) (ws_assembler t) (ws_req t) (ws_st t) (ws_handler t) true
    (current_message_ t) (ws_events t) (ws_operations t).

Definition CreateHttp (a : A) (host port target : str) (handler : bool) (options : WsOptions) : Task :=
  SetAssembler a (ConfigureUpgradeHeaders (make_ws host port target handler options false None)).

(** With the default context [ssl_state] and the error it was made with. *)
Definition CreateHttps (a : A) (ssl_state : option nat * option (error_code * str)) (host port target : str)
    (handler : bool) (options : WsOptions) : Task :=
  let t := make_ws host port target handler options true ssl_state.1 in
  let t :=
    match ssl_state.2 with
    | Some (ec, what) =>
        SetCreateError ec (if what =s [] then lit "failed to initialize system SSL context" else what) t
    | None => t
    end in
  SetAssembler a (ConfigureUpgradeHeaders t).

Definition CreateHttpRaw (s : socket) (host target : str) (handler : bool) (options : WsOptions) : Task :=
  ConfigureUpgradeHeaders (set_ws_stream (Ws s) (make_ws host [] target handler options false None)).

Definition CreateHttpsRaw (s : socket) (session : tls) (host target : str) (handler : bool) (options : WsOptions) :
    Task :=
  ConfigureUpgradeHeaders (set_ws_stream (Wss s session) (make_ws host [] target handler options true None)).

Definition slash : ascii := "/"%char.
Definition colon : ascii := ":"%char.

(** The position of the last occurrence of a character. *)
Fixpoint rfind_char (c : ascii) (s : str) : option nat :=
  match s with
  | [] => None
  | x :: s =>
      match rfind_char c s with
      | Some i => Some (S i)
      | None => if x =c c then Some 0 else None
      end
  end.

(** TLS, host, port and target of a URL. *)
Definition ParseWebSocketUrl (url : str) : option (bool * (str * str * str)) :=
  let parts :=
    if bool_decide (lit "ws://" `prefix_of` url) then Some (false, drop 5 url)
    else if bool_decide (lit "wss://" `prefix_of` url) then Some (true, drop 6 url)
    else None in
  match parts with
  | None => None
  | Some (ssl, rest) =>
      let '(host_port, target) :=
        match list_find (fun c : ascii => c = slash) rest with
        | None => (rest, lit "/")
        | Some (i, _) => (take i rest, drop i rest)
        end in
      let '(host, port) :=
        match rfind_char colon host_port with
        | None => (host_port, if ssl then lit "443" else lit "80")
        | Some i => (take i host_port, drop (S i) host_port)
        end in
      if negb (host =s []) && negb (port =s []) && negb (target =s []) then Some (ssl, (host, port, target))
      else None
  end.

(** With the default context. *)
Definition CreateFromUrl (a : A) (ssl_state : option nat * option (error_code * str)) (url : str)
    (handler : bool) (options : WsOptions) : option Task :=
  match ParseWebSocketUrl url with
  | None => None
  | Some (ssl, (host, port, target)) =>
      Some
        (if ssl then
           match ssl_state.2 with
           | Some (ec, what) =>
               SetAssembler a (ConfigureUpgradeHeaders
                 (SetCreateError ec (if what =s [] then lit "failed to initialize system SSL context" else what)
                    (make_ws host port target handler options true None)))
           | None =>
               SetAssembler a (ConfigureUpgradeHeaders (make_ws host port target handler options true ssl_state.1))
           end
         else CreateHttp a host port target handler options)
  end.

(** With a context of the caller's. *)
Definition CreateFromUrlWith (a : A) (ssl_ctx : option nat) (url : str) (handler : bool) (options : WsOptions) :
    option Task :=
  match ParseWebSocketUrl url with
  | None => None
  | Some (ssl, (host, port, target)) =>
      Some (SetAssembler a (ConfigureUpgradeHeaders
        (make_ws host port target handler options ssl (if ssl then ssl_ctx else None))))
  end.

(** ** The task and its environment *)

(** Calls at any time, and completions with any outcome.  [allowed] says what
    the callback of [OnHttpDone] may call. *)
Inductive ws_step (allowed : list ws_call -> Prop) : Task -> Task -> Prop :=
  | ws_step_call c t : ws_step allowed t (run_call t c)
  | ws_step_acquired sni r k t l1 l2 :
      ws_operations t = l1 ++ WsAcquiring k :: l2 ->
      ws_step allowed t (OnAcquireComplete sni r (set_ws_operations (l1 ++ l2) t))
  | ws_step_tls ec d t l1 l2 :
      ws_operations t = l1 ++ WsTlsHandshake d :: l2 ->
      ws_step allowed t (OnDeferredTlsHandshakeComplete ec (set_ws_operations (l1 ++ l2) t))
  | ws_step_handshake now ec response on_done on_open d f t l1 l2 :
      ws_operations t = l1 ++ WsHandshake d f :: l2 -> allowed on_done ->
      ws_step allowed t
        (OnWebSocketHandshakeCompleted now ec response on_done on_open (set_ws_operations (l1 ++ l2) t))
  | ws_step_read ec m on_message t l1 l2 :
      ws_operations t = l1 ++ WsReading :: l2 ->
      ws_step allowed t (OnWebSocketRead ec m on_message (set_ws_operations (l1 ++ l2) t))
  | ws_step_written what ec o t l1 l2 :
      ws_operations t = l1 ++ o :: l2 ->
      match o with WsWriting _ | WsPinging _ | WsPonging _ => True | _ => False end ->
      ws_step allowed t (on_written what ec (set_ws_operations (l1 ++ l2) t))
  | ws_step_closed ec t l1 l2 :
      ws_operations t = l1 ++ WsClosing :: l2 ->
      ws_step allowed t (NotifyCloseOnce ec (set_ws_operations (l1 ++ l2) t)).

Record ws_fresh (t : Task) : Prop := {
  ws_fresh_life : lifecycle_state_ (ws_st t) = kInit;
  ws_fresh_handler : ws_handler t = true;
  ws_fresh_events : ws_events t = [];
  ws_fresh_operations : ws_operations t = [];
}.

(** ** The protocol of a handler *)

(** What a handler has been told: nothing that matters, that the handshake is
    over, that the stream is open, that it is closed. *)
Inductive ws_phase := PIdle | PShaken | POpen | POver.

Definition ws_next (p : ws_phase) (e : ws_event F) : option ws_phase :=
  match e, p with
  | EvError _ _, p => Some p
  | EvHttpDone _ _, PIdle => Some PShaken
  | EvOpen, (PIdle | PShaken) => Some POpen
  | EvMessage _, POpen => Some POpen
  | EvClose _, (PIdle | PShaken | POpen) => Some POver
  | _, _ => None
  end.

Definition ws_run (l : list (ws_event F)) : option ws_phase :=
  foldl (fun p e => p ≫= fun p => ws_next p e) (Some PIdle) l.

Lemma ws_run_snoc l e p : ws_run l = Some p -> ws_run (l ++ [e]) = ws_next p e.
Proof. unfold ws_run. rewrite foldl_app. cbn. by intros ->. Qed.

Definition phase_of (t : Task) : option ws_phase := ws_run (ws_events t).

(** Everything but writes. *)
Definition is_main (o : ws_operation F) : bool :=
  match o with WsWriting _ | WsPinging _ | WsPonging _ => false | _ => true end.
Definition main_ops (t : Task) : list (ws_operation F) := filter (fun o => is_main o = true) (ws_operations t).

(** ** The invariant *)

(** [rd]: the reads under way while the stream is open. *)
Definition ws_inv (rd : list (ws_operation F)) (t : Task) : Prop :=
  ws_handler t = true /\
  match lifecycle_state_ (ws_st t) with
  | kInit => phase_of t = Some PIdle /\ main_ops t = []
  | kStarting => False
  | kAcquiring => phase_of t = Some PIdle /\ exists k, main_ops t = [WsAcquiring k]
  | kTlsHandshaking => phase_of t = Some PIdle /\ (exists d, main_ops t = [WsTlsHandshake d]) /\
      exists s tls, pending_transport_ (ws_st t) = SslStream s tls
  | kWsHandshaking => phase_of t = Some PIdle /\ (exists d f, main_ops t = [WsHandshake d f]) /\ has_ws t = true
  | kOpen => phase_of t = Some POpen /\ main_ops t = rd /\ has_ws t = true
  | kClosing => (exists p, phase_of t = Some p /\ p <> POver) /\ WsClosing ∈ main_ops t
  | kClosed => phase_of t = Some POver
  end.

(** The state of a function that goes on with the start-up, or fails. *)
Record ws_busy (t : Task) : Prop := {
  busy_handler : ws_handler t = true;
  busy_ops : main_ops t = [];
  busy_phase : exists p, phase_of t = Some p /\ p <> POver;
  busy_life : lifecycle_state_ (ws_st t) <> kClosed;
}.

Lemma main_start o t : main_ops (ws_start o t) = main_ops t ++ (if is_main o then [o] else []).
Proof.
  unfold main_ops. cbn [ws_start set_ws_operations ws_operations]. rewrite filter_app.
  destruct (is_main o) eqn:Ho; [by rewrite filter_cons_True|by rewrite filter_cons_False by (by rewrite Ho)].
Qed.

Lemma phase_tell e p t : ws_handler t = true -> phase_of t = Some p -> phase_of (tell e t) = ws_next p e.
Proof. intros Hh Hp. unfold phase_of, tell. rewrite Hh. by apply ws_run_snoc. Qed.

Lemma tell_frame e t :
  ws_handler (tell e t) = ws_handler t /\ ws_operations (tell e t) = ws_operations t /\
  ws_st (tell e t) = ws_st t.
Proof. unfold tell. by destruct (ws_handler t) eqn:E; cbn; rewrite ?E. Qed.

(** Telling that the task is closed. *)
Lemma close_inv ec rd t :
  ws_handler t = true -> (exists p, phase_of t = Some p /\ p <> POver) ->
  lifecycle_state_ (ws_st t) <> kClosed -> ws_inv rd (NotifyCloseOnce ec t).
Proof.
  intros Hh (p & Hp & Hne) Hl. unfold NotifyCloseOnce.
  assert (ws_inv rd (NotifyClose ec (set_ws_life kClosed t))) as Hgoal.
  { unfold NotifyClose. destruct (tell_frame (EvClose ec) (set_ws_life kClosed t)) as (E1 & _ & E3).
    split; [by rewrite E1|]. rewrite E3. cbn [set_ws_life set_ws_st ws_st lifecycle_state_].
    rewrite (phase_tell _ p) by done. by destruct p. }
  by destruct (lifecycle_state_ (ws_st t)).
Qed.

Lemma fail_inv ec what rd t : ws_busy t -> ws_inv rd (FailAndClose ec what t).
Proof.
  intros [Hh Ho (p & Hp & Hne) Hl]. unfold FailAndClose. cbv zeta.
  set (t1 := match close_reason_ (ws_st t) with NoReason => _ | _ => _ end).
  assert (ws_handler t1 = true /\ phase_of t1 = Some p /\ lifecycle_state_ (ws_st t1) = lifecycle_state_ (ws_st t))
    as (H1 & H2 & H3) by (subst t1; by destruct (close_reason_ (ws_st t))).
  clearbody t1. set (t2 := match lifecycle_state_ (ws_st t1) with kClosed => t1 | _ => set_ws_life kClosing t1 end).
  assert (ws_handler t2 = true /\ phase_of t2 = Some p /\ lifecycle_state_ (ws_st t2) <> kClosed) as (G1 & G2 & G3)
    by (subst t2; rewrite <- H3 in Hl; by destruct (lifecycle_state_ (ws_st t1))).
  clearbody t2. unfold NotifyError. destruct (tell_frame (EvError ec what) t2) as (E1 & _ & E3).
  apply close_inv; [by rewrite E1|exists p; by rewrite (phase_tell _ p)|by rewrite E3].
Qed.

Lemma handshake_start_inv rd t :
  ws_busy t -> phase_of t = Some PIdle -> ws_inv rd (StartWebSocketHandshake t).
Proof.
  intros Hb Hp. unfold StartWebSocketHandshake. cbv zeta. destruct Hb as [Hh Ho Hph Hl].
  destruct (has_ws (set_ws_life kWsHandshaking t)) eqn:Hw; [|apply fail_inv; by constructor].
  split; [done|]. cbn [ws_start set_ws_operations ws_st set_ws_life set_ws_st lifecycle_state_].
  rewrite main_start. change (main_ops (set_ws_life kWsHandshaking t)) with (main_ops t). rewrite Ho.
  split; [done|]. split; [by eexists _, _|done].
Qed.

(** *** Calls *)

Lemma ws_start_inv now rd t : ws_inv rd t -> ws_inv rd (Start now t).
Proof.
  intros Hinv. unfold Start. destruct (lifecycle_state_ (ws_st t)) eqn:Hl; try done.
  destruct Hinv as [Hh Hi]. rewrite Hl in Hi. destruct Hi as [Hp Ho].
  assert (ws_busy (set_ws_life kStarting t)) as Hb by (constructor; [done|done|by exists PIdle|done]).
  change (ws_create_error (set_ws_life kStarting t)) with (ws_create_error t).
  destruct (ws_create_error t) as [[ec what]|]; [by apply fail_inv|]. unfold DoStart.
  change (ws_assembler (set_ws_life kStarting t)) with (ws_assembler t).
  destruct (ws_assembler t) as [a|].
  - unfold DoAcquire. cbv zeta. destruct (Assemble _ _ _ _ _ _ now a) as [a' [request key]].
    split; [done|]. cbn [ws_start set_ws_operations ws_st set_ws_req set_ws_life set_ws_st lifecycle_state_].
    rewrite main_start. change (main_ops (set_ws_req _ _ _)) with (main_ops t). rewrite Ho.
    split; [done|by eexists].
  - destruct (has_ws _); [by apply handshake_start_inv|by apply fail_inv].
Qed.

Lemma cancel_inv rd t : ws_inv rd t -> ws_inv rd (Cancel t).
Proof.
  intros Hinv. unfold Cancel. destruct (IsClosingOrClosed t) eqn:Hc; [done|].
  assert (exists p, phase_of t = Some p /\ p <> POver) as Hph.
  { destruct Hinv as [_ Hi]. unfold IsClosingOrClosed in Hc.
    destruct (lifecycle_state_ (ws_st t)); try done; destruct Hi as [Hi _]; by eexists. }
  destruct Hinv as [Hh Hi]. set (t1 := set_ws_life kClosing (set_ws_reason UserCancel t)).
  destruct (IsOpen t); [|by apply close_inv].
  assert (ws_inv rd (ws_start WsClosing t1)) as Hgoal.
  { split; [done|]. cbn [ws_start set_ws_operations ws_st t1 set_ws_life set_ws_st lifecycle_state_]. split; [done|].
    change (WsClosing ∈ main_ops (ws_start WsClosing t1)). rewrite main_start, elem_of_app. right. by constructor. }
  destruct (websocket_stream_ (ws_st t1)); [by apply close_inv|done..].
Qed.

(** Only the main operations, the events and the state matter. *)
Lemma ws_inv_frame rd t t' :
  ws_handler t' = ws_handler t -> ws_events t' = ws_events t -> main_ops t' = main_ops t ->
  ws_st t' = ws_st t -> ws_inv rd t -> ws_inv rd t'.
Proof.
  intros E1 E2 E3 E4 [Hh Hi]. unfold ws_inv, phase_of, has_ws in *. rewrite E1, E2, E3, E4. done.
Qed.

Lemma ws_write_inv o rd t : is_main o = false -> ws_inv rd t -> ws_inv rd (ws_start o t).
Proof. intros Ho. apply ws_inv_frame; try done. by rewrite main_start, Ho, app_nil_r. Qed.

Lemma ws_call_inv c rd t : ws_inv rd t -> ws_inv rd (run_call t c).
Proof.
  intros Hinv. destruct c; cbn [run_call].
  - by apply ws_start_inv.
  - by apply cancel_inv.
  - unfold WriteMessage. destruct (negb (IsOpen t)); [done|]. destruct (has_ws t); [by apply ws_write_inv|done].
  - unfold WriteControl. destruct (negb (IsOpen t)); [done|].
    destruct kind; cbn [WritePingControl WritePongControl WriteCloseControl snd].
    + unfold WritePingControl. destruct (has_ws t); [by apply ws_write_inv|done].
    + unfold WritePongControl. destruct (has_ws t); [by apply ws_write_inv|done].
    + by apply cancel_inv.
Qed.

Lemma calls_inv l rd t : ws_inv rd t -> ws_inv rd (run_calls l t).
Proof. revert t. induction l as [|c l IH]; intros t Hinv; [done|]. by apply IH, ws_call_inv. Qed.

(** Nothing but [Cancel] can be called during the handshake. *)
Lemma calls_refused l t :
  lifecycle_state_ (ws_st t) = kWsHandshaking -> CallCancel ∉ l -> run_calls l t = t.
Proof.
  intros Hl. induction l as [|c l IH]; intros Hc; [done|]. apply not_elem_of_cons in Hc as [Hc Hcs].
  unfold run_calls in *. cbn [foldl]. replace (run_call t c) with t; [by apply IH|].
  unfold run_call, Start, WriteMessage, WriteControl, IsOpen. destruct c; [by rewrite Hl|done|..];
    by rewrite Hl.
Qed.

(** *** Completions *)

Lemma main_remove o t l1 l2 :
  ws_operations t = l1 ++ o :: l2 ->
  if is_main o
  then forall x, main_ops t = [x] -> o = x /\ main_ops (set_ws_operations (l1 ++ l2) t) = []
  else main_ops (set_ws_operations (l1 ++ l2) t) = main_ops t.
Proof.
  unfold main_ops. cbn [set_ws_operations ws_operations]. intros ->. rewrite !filter_app.
  destruct (is_main o) eqn:Ho.
  - rewrite filter_cons_True by done. intros x. destruct (filter _ l1) as [|y l]; cbn.
    + intros Hx. injection Hx as -> Hl. by rewrite Hl.
    + intros Hx. injection Hx as _ Hl. by destruct l.
  - by rewrite filter_cons_False by (by rewrite Ho).
Qed.

(** A main operation completes: the task is closing or closed already, or the
    operation is the one its state has under way. *)
Lemma main_completed o t l1 l2 :
  ws_operations t = l1 ++ o :: l2 -> is_main o = true -> ws_inv [WsReading] t ->
  let t' := set_ws_operations (l1 ++ l2) t in
  IsClosingOrClosed t' = true \/
  IsClosingOrClosed t' = false /\ ws_busy t' /\
  match o with
  | WsAcquiring _ => phase_of t' = Some PIdle
  | WsTlsHandshake _ => phase_of t' = Some PIdle /\ exists s tls, pending_transport_ (ws_st t') = SslStream s tls
  | WsHandshake _ _ => phase_of t' = Some PIdle /\ lifecycle_state_ (ws_st t') = kWsHandshaking /\ has_ws t' = true
  | WsReading => phase_of t' = Some POpen /\ lifecycle_state_ (ws_st t') = kOpen /\ has_ws t' = true
  | _ => False
  end.
Proof.
  intros Hops Ho [Hh Hi] t'. pose proof (main_remove _ _ _ _ Hops) as Hr. rewrite Ho in Hr.
  assert (main_ops t <> []) as Hne.
  { unfold main_ops. rewrite Hops, filter_app, filter_cons_True by done. by intros [_ ?]%app_nil. }
  unfold IsClosingOrClosed. change (ws_st t') with (ws_st t). destruct (lifecycle_state_ (ws_st t)) eqn:Hl.
  - by destruct Hi as [_ ?].
  - done.
  - right. destruct Hi as (Hp & k & Hm). destruct (Hr _ Hm) as [-> Hops'].
    split; [done|]. split; [|done]. constructor; [done|done|by exists PIdle|]. by change (ws_st t') with (ws_st t); rewrite Hl.
  - right. destruct Hi as (Hp & (d & Hm) & Hpe). destruct (Hr _ Hm) as [-> Hops'].
    split; [done|]. split; [|done]. constructor; [done|done|by exists PIdle|]. by change (ws_st t') with (ws_st t); rewrite Hl.
  - right. destruct Hi as (Hp & (d & f & Hm) & Hw). destruct (Hr _ Hm) as [-> Hops'].
    split; [done|]. split; [|done]. constructor; [done|done|by exists PIdle|]. by change (ws_st t') with (ws_st t); rewrite Hl.
  - right. destruct Hi as (Hp & Hm & Hw). destruct (Hr _ Hm) as [-> Hops'].
    split; [done|]. split; [|done]. constructor; [done|done|by exists POpen|]. by change (ws_st t') with (ws_st t); rewrite Hl.
  - by left.
  - by left.
Qed.

(** Closing is told, if it was not yet. *)
Lemma closing_told ec rd t t' :
  ws_inv rd t -> ws_handler t' = ws_handler t -> ws_events t' = ws_events t ->
  lifecycle_state_ (ws_st t') = lifecycle_state_ (ws_st t) -> IsClosingOrClosed t' = true ->
  ws_inv rd (NotifyCloseOnce ec t').
Proof.
  intros [Hh Hi] E1 E2 E3 Hc. unfold IsClosingOrClosed in Hc. rewrite E3 in Hc.
  destruct (lifecycle_state_ (ws_st t)) eqn:Hl; try done.
  - destruct Hi as [Hp _]. apply close_inv; [by rewrite E1|unfold phase_of; by rewrite E2|by rewrite E3].
  - unfold NotifyCloseOnce. rewrite E3. split; [by rewrite E1|]. rewrite E3. unfold phase_of. by rewrite E2.
Qed.

Lemma acquired_inv sni r rd t :
  ws_busy t -> phase_of t = Some PIdle -> IsClosingOrClosed t = false -> ws_inv rd (OnAcquireComplete sni r t).
Proof.
  intros Hb Hp Hc. unfold OnAcquireComplete. rewrite Hc. destruct r as [ec|slot]; [by apply fail_inv|].
  pose proof Hb as [Hh Ho Hph Hl].
  destruct (StreamBuilder.stream_ slot); [by apply fail_inv| |].
  - destruct (deferred_ssl_ctx slot) as [ctx|].
    + unfold DoDeferredTlsHandshake. cbv zeta. destruct sni; cbn [negb]; [|apply fail_inv; by constructor].
      split; [done|]. cbn [ws_start set_ws_operations ws_st set_ws_pending set_ws_life set_ws_st lifecycle_state_].
      rewrite main_start. change (main_ops (set_ws_pending _ _)) with (main_ops t). rewrite Ho.
      split; [done|]. split; [by eexists|by eexists _, _].
    + apply handshake_start_inv; [by constructor|done].
  - apply handshake_start_inv; [by constructor|done].
Qed.

Lemma tls_inv ec rd t :
  ws_busy t -> phase_of t = Some PIdle -> IsClosingOrClosed t = false ->
  ws_inv rd (OnDeferredTlsHandshakeComplete ec t).
Proof.
  intros Hb Hp Hc. unfold OnDeferredTlsHandshakeComplete. rewrite Hc. pose proof Hb as [Hh Ho Hph Hl].
  destruct ec as [ec|]; [apply fail_inv; by constructor|].
  destruct (pending_transport_ (ws_st t)); (apply handshake_start_inv; [by constructor|done]).
Qed.

(** The read loop goes on unless the stream was closed. *)
Lemma read_loop_inv t : ws_inv [] t -> ws_inv [WsReading] (BeginReadLoop t).
Proof.
  intros [Hh Hi]. unfold BeginReadLoop, IsOpen. destruct (bool_decide _) eqn:Ho; cbn [negb].
  - apply bool_decide_eq_true in Ho. rewrite Ho in Hi. destruct Hi as (Hp & Hm & Hw). rewrite Hw.
    split; [done|]. cbn [ws_start set_ws_operations ws_st]. by rewrite Ho, main_start, Hm.
  - apply bool_decide_eq_false in Ho. split; [done|]. by destruct (lifecycle_state_ (ws_st t)).
Qed.

Lemma handshake_inv now ec response on_done on_open t :
  ws_busy t -> phase_of t = Some PIdle -> lifecycle_state_ (ws_st t) = kWsHandshaking -> has_ws t = true ->
  CallCancel ∉ on_done ->
  ws_inv [WsReading] (OnWebSocketHandshakeCompleted now ec response on_done on_open t).
Proof.
  intros [Hh Ho Hph Hl] Hp Hlife Hw Hc. unfold OnWebSocketHandshakeCompleted, IsClosingOrClosed.
  rewrite Hlife. cbv zeta.
  match goal with |- context [EmitHttpDone ec _ ?x] => set (t1 := x) end.
  assert (ws_handler t1 = true /\ main_ops t1 = [] /\ phase_of t1 = Some PIdle /\ ws_st t1 = ws_st t)
    as (H1 & H2 & H3 & H4) by (subst t1; by destruct (ws_assembler t)).
  clearbody t1. set (t2 := EmitHttpDone ec _ t1).
  assert (ws_handler t2 = true /\ main_ops t2 = [] /\ ws_st t2 = ws_st t /\
    (phase_of t2 = Some PIdle \/ phase_of t2 = Some PShaken)) as (G1 & G2 & G3 & G4).
  { subst t2. unfold EmitHttpDone. destruct (ws_http_done t1); [|by split_and!; [..|left]].
    split_and!; try done. right. unfold phase_of. cbn [set_ws_events ws_events]. by rewrite (ws_run_snoc _ _ PIdle). }
  clearbody t2. rewrite calls_refused by (by rewrite ?G3).
  destruct ec as [ec|].
  - apply fail_inv. constructor; [done|done|by destruct G4 as [->| ->]; eexists|by rewrite G3].
  - apply read_loop_inv, calls_inv. unfold NotifyOpen.
    destruct (tell_frame EvOpen (set_ws_life kOpen t2)) as (E1 & E2 & E3).
    split; [by rewrite E1|]. rewrite E3. cbn [set_ws_life set_ws_st ws_st lifecycle_state_].
    split; [by destruct G4 as [G4|G4]; rewrite (phase_tell EvOpen _ (set_ws_life kOpen t2) G1 G4)|].
    unfold main_ops, has_ws in *. rewrite E2, E3. cbn [set_ws_life set_ws_st ws_st websocket_stream_ ws_operations].
    by rewrite G3.
Qed.

Lemma read_inv ec m on_message t :
  ws_busy t -> phase_of t = Some POpen -> lifecycle_state_ (ws_st t) = kOpen -> has_ws t = true ->
  ws_inv [WsReading] (OnWebSocketRead ec m on_message t).
Proof.
  intros Hb Hp Hlife Hw. pose proof Hb as [Hh Ho Hph Hl]. unfold OnWebSocketRead, IsClosingOrClosed. rewrite Hlife.
  destruct ec as [ec|].
  - destruct (bool_decide _); [by apply close_inv|by apply fail_inv].
  - apply read_loop_inv, calls_inv. unfold NotifyReadMessage.
    destruct (tell_frame (EvMessage m) (set_ws_message (Some m) t)) as (E1 & E2 & E3).
    split; [by rewrite E1|]. rewrite E3. cbn [set_ws_message ws_st]. rewrite Hlife.
    split; [by rewrite (phase_tell _ POpen)|]. unfold main_ops, has_ws in *. rewrite E2, E3. done.
Qed.

(** *** All steps *)

Definition polite (l : list ws_call) : Prop := CallCancel ∉ l.

Lemma ws_step_inv t t' : ws_step polite t t' -> ws_inv [WsReading] t -> ws_inv [WsReading] t'.
Proof.
  intros Hs Hinv. destruct Hs as [c t|sni r k t l1 l2 Ho|ec d t l1 l2 Ho|now ec response on_done on_open d f t l1 l2 Ho Hc
    |ec m on_message t l1 l2 Ho|what ec o t l1 l2 Ho Hw|ec t l1 l2 Ho].
  - by apply ws_call_inv.
  - destruct (main_completed _ _ _ _ Ho eq_refl Hinv) as [Hcl|(Hcl & Hb & Hp)].
    + unfold OnAcquireComplete. rewrite Hcl. by apply (closing_told _ _ t).
    + by apply acquired_inv.
  - destruct (main_completed _ _ _ _ Ho eq_refl Hinv) as [Hcl|(Hcl & Hb & Hp & _)].
    + unfold OnDeferredTlsHandshakeComplete. rewrite Hcl. by apply (closing_told _ _ t).
    + by apply tls_inv.
  - destruct (main_completed _ _ _ _ Ho eq_refl Hinv) as [Hcl|(Hcl & Hb & Hp & Hl & Hw)].
    + unfold OnWebSocketHandshakeCompleted. rewrite Hcl. by apply (closing_told _ _ t).
    + by apply handshake_inv.
  - destruct (main_completed _ _ _ _ Ho eq_refl Hinv) as [Hcl|(Hcl & Hb & Hp & Hl & Hw)].
    + unfold OnWebSocketRead. rewrite Hcl. by apply (closing_told _ _ t).
    + by apply read_inv.
  - assert (is_main o = false) as Hm by (by destruct o). pose proof (main_remove _ _ _ _ Ho) as Hr. rewrite Hm in Hr.
    assert (ws_inv [WsReading] (set_ws_operations (l1 ++ l2) t)) as Hinv' by (by apply (ws_inv_frame _ t)).
    destruct ec as [ec|]; cbn [on_written]; [|done]. unfold NotifyError.
    set (t1 := set_ws_operations (l1 ++ l2) t) in *. destruct (tell_frame (EvError ec what) t1) as (E1 & E2 & E3).
    destruct Hinv' as [Hh Hi]. split; [by rewrite E1|].
    assert (forall p, phase_of t1 = Some p -> phase_of (tell (EvError ec what) t1) = Some p) as Hph
      by (intros p Hp; by rewrite (phase_tell _ p)).
    unfold main_ops, has_ws in *. rewrite E2, E3.
    destruct (lifecycle_state_ (ws_st t1)); try done; try (by destruct Hi as [Hp ?]; rewrite (Hph _ Hp)).
    + destruct Hi as [(p & Hp & Hne) Hi]. split; [exists p; by rewrite (Hph _ Hp)|done].
    + by apply Hph.
  - destruct (main_completed _ _ _ _ Ho eq_refl Hinv) as [Hcl|(_ & _ & [])]. by apply (closing_told _ _ t).
Qed.

Lemma ws_steps_inv t0 t : ws_fresh t0 -> rtc (ws_step polite) t0 t -> ws_inv [WsReading] t.
Proof.
  intros [F1 F2 F3 F4] Hs. apply (rtc_invariant (ws_step polite) (ws_inv [WsReading]) t0).
  - intros a b Ha Hab. by apply (ws_step_inv a).
  - done.
  - split; [done|]. rewrite F1. unfold phase_of, main_ops. by rewrite F3, F4.
Qed.

(** C32. The protocol of a WebSocket handler.  As long as the callback of
    [OnHttpDone] does not cancel the task, whatever is called and however the
    transport behaves, what the handler is told is a run of the protocol: the
    handshake is reported at most once, before anything else but errors; the
    stream opens at most once; messages come only between opening and closing;
    closing is told at most once, and after it nothing but errors of writes.  The
    handler has been told of the closing exactly when the task is closed, and a
    task that was started and is not closed has an operation under way, so it
    cannot be forgotten; an open task reads, once at a time. *)
Theorem ws_protocol (t0 t : Task) :
  ws_fresh t0 -> rtc (ws_step polite) t0 t ->
  exists p, ws_run (ws_events t) = Some p /\
    (p = POver <-> lifecycle_state_ (ws_st t) = kClosed) /\
    (lifecycle_state_ (ws_st t) = kOpen -> p = POpen /\ main_ops t = [WsReading] /\ has_ws t = true) /\
    (lifecycle_state_ (ws_st t) <> kInit -> lifecycle_state_ (ws_st t) <> kClosed -> main_ops t <> []).
Proof.
  intros Hf Hs. destruct (ws_steps_inv _ _ Hf Hs) as [_ Hi]. unfold phase_of in Hi.
  destruct (lifecycle_state_ (ws_st t)).
  - destruct Hi as [Hp _]. by exists PIdle.
  - done.
  - destruct Hi as (Hp & k & Hm). exists PIdle. by rewrite Hm.
  - destruct Hi as (Hp & (d & Hm) & _). exists PIdle. by rewrite Hm.
  - destruct Hi as (Hp & (d & f & Hm) & _). exists PIdle. by rewrite Hm.
  - destruct Hi as (Hp & Hm & Hw). exists POpen. by rewrite Hm.
  - destruct Hi as ((p & Hp & Hne) & Hm). exists p. split; [done|]. split; [done|]. split; [done|].
    intros _ _ Hnil. rewrite Hnil in Hm. by apply elem_of_nil in Hm.
  - by exists POver.
Qed.

(** Writing is accepted exactly while the stream is open, and then it is begun. *)
Theorem ws_writes_when_open (t0 t : Task) (payload : str) (binary : bool) :
  ws_fresh t0 -> rtc (ws_step polite) t0 t ->
  WriteMessage payload binary t =
    if bool_decide (lifecycle_state_ (ws_st t) = kOpen)
    then (true, ws_start (WsWriting (mkMessage binary payload)) t) else (false, t).
Proof.
  intros Hf Hs. destruct (ws_steps_inv _ _ Hf Hs) as [_ Hi]. unfold WriteMessage, IsOpen.
  destruct (bool_decide _) eqn:Ho; [|done]. apply bool_decide_eq_true in Ho. rewrite Ho in Hi.
  destruct Hi as (_ & _ & Hw). cbn [negb]. by rewrite Hw.
Qed.

(** Cancelling the task from the callback of [OnHttpDone] closes it, and then
    the handshake goes on: the handler is told that it is open after it was told
    that it is closed, and the task is open. *)
Theorem cancelled_then_opened (t : Task) (now : Z) (response : HttpResponseHeader F) :
  lifecycle_state_ (ws_st t) = kWsHandshaking -> ws_handler t = true -> ws_http_done t = true ->
  exists l d, let t' := OnWebSocketHandshakeCompleted now None response [CallCancel] [] t in
    ws_events t' = l ++ [EvHttpDone None d; EvClose None; EvOpen] /\ lifecycle_state_ (ws_st t') = kOpen.
Proof.
  intros Hl Hh Hd. exists (ws_events t), (handshake_header response).
  unfold OnWebSocketHandshakeCompleted, IsClosingOrClosed. rewrite Hl. cbv zeta.
  match goal with |- context [EmitHttpDone None _ ?x] => set (t1 := x) end.
  assert (ws_handler t1 = true /\ ws_http_done t1 = true /\ ws_events t1 = ws_events t /\ ws_st t1 = ws_st t)
    as (H1 & H2 & H3 & H4) by (subst t1; by destruct (ws_assembler t)).
  clearbody t1. unfold EmitHttpDone. rewrite H2, H3. set (t2 := set_ws_events _ t1).
  assert (ws_st t2 = ws_st t) as H5 by done. change (ws_handler t1) with (ws_handler t2) in H1.
  cbn [run_calls foldl run_call]. unfold Cancel, IsClosingOrClosed, IsOpen. rewrite H5, Hl.
  rewrite bool_decide_eq_false_2 by done. unfold NotifyCloseOnce.
  cbn [abort_transports set_ws_life set_ws_reason set_ws_st ws_st lifecycle_state_].
  unfold NotifyClose, NotifyOpen, tell. cbn [set_ws_life set_ws_st ws_handler abort_transports set_ws_reason].
  rewrite H1. cbn [set_ws_events ws_handler set_ws_life set_ws_st abort_transports set_ws_reason]. rewrite ?H1.
  unfold BeginReadLoop, IsOpen. cbn [set_ws_events ws_st set_ws_life set_ws_st lifecycle_state_].
  rewrite bool_decide_eq_true_2 by done. cbn [negb]. destruct (has_ws _).
  - split; [|done]. cbn. by rewrite <- !app_assoc.
  - split; [|done]. cbn. by rewrite <- !app_assoc.
Qed.
End ws_client.

(** ** URLs *)

Lemma rfind_char_none c s : c ∉ s -> rfind_char c s = None.
Proof.
  induction s as [|x s IH]; intros Hc; cbn; [done|]. apply not_elem_of_cons in Hc as [Hx Hs].
  rewrite IH by done. destruct (Ascii.eqb_spec x c); [by subst|done].
Qed.

Lemma rfind_char_last c a b : c ∉ b -> rfind_char c (a ++ c :: b) = Some (length a).
Proof.
  intros Hb. induction a as [|x a IH]; cbn; [by rewrite rfind_char_none, Ascii.eqb_refl|]. by rewrite IH.
Qed.

Lemma find_slash_none (s : str) : slash ∉ s -> list_find (fun c : ascii => c = slash) s = None.
Proof. intros Hs. apply list_find_None, Forall_forall. by intros x Hx ->. Qed.

Lemma find_slash_first (a b : str) : slash ∉ a -> list_find (fun c : ascii => c = slash) (a ++ slash :: b) = Some (length a, slash).
Proof.
  intros Ha. apply list_find_Some. split; [by apply list_lookup_middle|]. split; [done|].
  intros j y Hj Hlt ->. rewrite lookup_app_l in Hj by done. by apply Ha, (list_elem_of_lookup_2 _ j).
Qed.

(** A URL with its parts; the port and the path may be missing. *)
Definition ws_url (ssl : bool) (host : str) (port path : option str) : str :=
  (if ssl then lit "wss://" else lit "ws://") ++ host ++
  (match port with Some p => colon :: p | None => [] end) ++ default [] path.

Definition ws_url_ok (host : str) (port path : option str) : Prop :=
  host <> [] /\ slash ∉ host /\
  match port with Some p => p <> [] /\ slash ∉ p /\ colon ∉ p | None => colon ∉ host end /\
  match path with Some p => exists x, p = slash :: x | None => True end.

Lemma ws_scheme (ssl : bool) (rest : str) :
  ParseWebSocketUrl ((if ssl then lit "wss://" else lit "ws://") ++ rest) =
    let '(host_port, target) :=
      match list_find (fun c : ascii => c = slash) rest with
      | None => (rest, lit "/")
      | Some (i, _) => (take i rest, drop i rest)
      end in
    let '(host, port) :=
      match rfind_char colon host_port with
      | None => (host_port, if ssl then lit "443" else lit "80")
      | Some i => (take i host_port, drop (S i) host_port)
      end in
    if negb (host =s []) && negb (port =s []) && negb (target =s []) then Some (ssl, (host, port, target))
    else None.
Proof.
  unfold ParseWebSocketUrl. destruct ssl.
  - rewrite bool_decide_eq_false_2; [|intros [k Hk]; discriminate Hk].
    rewrite bool_decide_eq_true_2 by (by apply prefix_app_r). done.
  - rewrite bool_decide_eq_true_2 by (by apply prefix_app_r). done.
Qed.

(** Parsing a WebSocket URL gives back its parts: TLS as the scheme says,
    the host, the port or the scheme's default one, the path or "/". *)
Theorem ws_url_roundtrip (ssl : bool) (host : str) (port path : option str) :
  ws_url_ok host port path ->
  ParseWebSocketUrl (ws_url ssl host port path) =
    Some (ssl, (host, default (if ssl then lit "443" else lit "80") port, default (lit "/") path)).
Proof.
  intros (Hh & Hs & Hport & Hpath). unfold ws_url. rewrite ws_scheme.
  set (hp := host ++ match port with Some p => colon :: p | None => [] end).
  rewrite (app_assoc host). fold hp.
  assert (slash ∉ hp) as Hhp.
  { subst hp. rewrite elem_of_app. destruct port as [p|]; [|rewrite elem_of_nil; tauto].
    destruct Hport as (_ & Hp & _). rewrite elem_of_cons. intros [?|[?|?]]; done. }
  assert (match list_find (fun c : ascii => c = slash) (hp ++ default [] path) with
          | None => (hp ++ default [] path, lit "/")
          | Some (i, _) => (take i (hp ++ default [] path), drop i (hp ++ default [] path))
          end = (hp, default (lit "/") path)) as ->.
  { destruct path as [p|]; cbn [default from_option id].
    - destruct Hpath as [x ->]. rewrite find_slash_first by done. by rewrite take_app_length, drop_app_length.
    - rewrite app_nil_r, find_slash_none by done. done. }
  assert (match rfind_char colon hp with
          | None => (hp, if ssl then lit "443" else lit "80")
          | Some i => (take i hp, drop (S i) hp)
          end = (host, default (if ssl then lit "443" else lit "80") port)) as ->.
  { subst hp. destruct port as [p|].
    - destruct Hport as (_ & _ & Hp). rewrite rfind_char_last by done.
      by rewrite take_app_length, drop_app_ge, Nat.sub_succ_l, Nat.sub_diag by lia.
    - by rewrite app_nil_r, rfind_char_none. }
  rewrite (proj2 (str_eqb_neq _ _)) by done.
  rewrite (proj2 (str_eqb_neq _ _)).
  2: { destruct port as [p|]; [by destruct Hport|by destruct ssl]. }
  rewrite (proj2 (str_eqb_neq _ _)); [done|]. destruct path as [p|]; [by destruct Hpath as [x ->]|done].
Qed.

(** ** Samples *)

Module WsSample.
#[local] Existing Instance default_assembler.

Abbreviation F := (list (str * str)).

Definition options : WsOptions := mkWsOptions sample_options 2000 3000 4000.
Definition known (name : str) : bool := negb (bool_decide (lit "X-" `prefix_of` name)).

Definition created : WebSocketClientTask F unit :=
  OnHttpDone (CreateHttp tt (lit "origin.example") (lit "80") (lit "/chat") true options).
Definition started : WebSocketClientTask F unit := Start known 0 created.
Definition the_key : ConnectionKey :=
  match ws_operations started with [WsAcquiring k] => k | _ => default_key end.
Definition acquired : WebSocketClientTask F unit :=
  OnAcquireComplete known true (inr sample_slot) (set_ws_operations [] started).
Definition request : F := match ws_operations acquired with [WsHandshake _ f] => f | _ => [] end.
Definition response : HttpResponseHeader F := mkHeader 11 101 [(lit "Upgrade", lit "websocket")].
Definition opened : WebSocketClientTask F unit :=
  OnWebSocketHandshakeCompleted known 0 None response [] [CallWriteMessage (lit "hi") false]
    (set_ws_operations [] acquired).
Definition cancelled : WebSocketClientTask F unit :=
  OnWebSocketHandshakeCompleted known 0 None response [CallCancel] [] (set_ws_operations [] acquired).
Definition talked : WebSocketClientTask F unit :=
  OnWebSocketRead known None (mkMessage false (lit "yo")) [CallWriteMessage (lit "again") false]
    (set_ws_operations [WsWriting (mkMessage false (lit "hi"))] opened).

Lemma ws_created_fresh : ws_fresh created.
Proof. by constructor. Qed.

Lemma ws_sample_operations :
  ws_operations started = [WsAcquiring the_key] /\
  ws_operations acquired = [WsHandshake 3000 request] /\
  ws_operations opened = [WsWriting (mkMessage false (lit "hi")); WsReading].
Proof. split_and!; vm_compute; reflexivity. Qed.

Lemma ws_opened_reachable : rtc (ws_step known polite) created opened.
Proof.
  destruct ws_sample_operations as (H1 & H2 & _).
  apply (rtc_l _ _ started); [exact (ws_step_call known _ (CallStart 0) created)|].
  apply (rtc_l _ _ acquired); [exact (ws_step_acquired known _ true (inr sample_slot) the_key started [] [] H1)|].
  apply rtc_once. refine (ws_step_handshake known _ 0 None response [] _ _ _ acquired [] [] H2 _).
  apply not_elem_of_nil.
Qed.

Lemma talked_reachable : rtc (ws_step known polite) created talked.
Proof.
  destruct ws_sample_operations as (_ & _ & H3). eapply rtc_r; [apply ws_opened_reachable|].
  exact (ws_step_read known _ None (mkMessage false (lit "yo")) _ opened [WsWriting (mkMessage false (lit "hi"))] [] H3).
Qed.

Lemma ws_protocol_witness :
  exists p, ws_run (ws_events talked) = Some p /\ p = POpen /\ main_ops talked = [WsReading].
Proof.
  destruct (ws_protocol known created talked ws_created_fresh talked_reachable) as (p & Hp & _ & Ho & _).
  exists p. split; [exact Hp|]. destruct Ho as (Ho & Hm & _); [reflexivity|]. by split.
Defined.

(** Two messages are being written at the same time: nothing queues them. *)
Lemma overlapping_writes :
  rtc (ws_step known polite) created talked /\
  ws_operations talked =
    [WsWriting (mkMessage false (lit "hi")); WsWriting (mkMessage false (lit "again")); WsReading].
Proof. split; [apply talked_reachable|vm_compute; reflexivity]. Qed.

(** The failed read that follows closes the cancelled task a second time. *)
Lemma closed_twice :
  ws_events (OnWebSocketRead known (Some operation_aborted) (mkMessage false []) []
    (set_ws_operations [] cancelled)) =
  [EvHttpDone None (handshake_header response); EvClose None; EvOpen;
   EvError operation_aborted (lit "websocket client read failed"); EvClose (Some operation_aborted)].
Proof. vm_compute. reflexivity. Qed.

(** Custom fields of the request do not reach the handshake. *)
Lemma custom_field_dropped :
  decorate known [(lit "X-Token", lit "t"); (lit "Cookie", lit "a=b")] f_empty = [(lit "Cookie", lit "a=b")].
Proof. vm_compute. reflexivity. Qed.

Lemma ws_url_roundtrip_witness :
  ParseWebSocketUrl (lit "wss://origin.example:8443/chat") =
    Some (true, (lit "origin.example", lit "8443", lit "/chat")).
Proof.
  refine (ws_url_roundtrip true (lit "origin.example") (Some (lit "8443")) (Some (lit "/chat")) _).
  split; [discriminate|]. split; [by apply (bool_decide_unpack _)|]. split; [|by eexists].
  split; [discriminate|]. split; by apply (bool_decide_unpack _).
Defined.

(** An IPv6 address is taken apart at its last colon. *)
Lemma ipv6_url_torn :
  ParseWebSocketUrl (lit "ws://[::1]/chat") = Some (false, (lit "[:", lit "1]", lit "/chat")).
Proof. vm_compute. reflexivity. Qed.
End WsSample.
