(* ===== verification/WebSocketServer.v ===== *)
(** * The WebSocket server task

    [src/src/connection/server/websocket_server_task.cc] and the WebSocket part
    of a connection (stream_server_connection_impl.h: [DoWebSocketAccept],
    [DoWebSocketRead], [DoWebSocketWrite], [DoWebSocketControl],
    [DoWebSocketClose]).  The connection checks that it can be used, dispatches
    to its executor, checks again, and begins the operation; both halves are
    here, so that the server may stop or the stream close in between.  Functions
    of the task run one at a time; calls that a handler makes while it is told
    something are an argument of the step, as in [WebSocketClient].  There is a
    handler: [UpgradeToWebSocket] takes no task without one ([Lifecycle]).
    [errc::operation_canceled] is written [operation_aborted]. *)

From S2P Require Import Prelude ClientTask WebSocketClient.

(** What the handler is told. *)
Inductive srv_event :=
  | SrvOpen
  | SrvMessage (m : WebSocketMessage)
  | SrvError (ec : error_code) (what : str)
  | SrvClose (ec : option error_code).

(** What is under way: dispatched to the executor, or an operation. *)
Inductive srv_operation :=
  | PostedAccept | Accepting
  | PostedRead | Reading
  | PostedWrite (m : WebSocketMessage) | Writing (m : WebSocketMessage)
  | PostedControl (k : WebSocketControlKind) (payload : str) | Controlling (k : WebSocketControlKind) (payload : str)
  | PostedClose | ClosingStream.

(** The connection, as far as the task uses it. *)
Record ws_connection := mkWsConnection {
  server_running : bool;
  stream_available : bool;
  ws_stream_ : bool;
}.

Record WebSocketServerTask := mkSrvTask {
  has_server : bool;
  connection_ : option ws_connection;
  started_ : bool;
  cancelled_ : bool;
  close_notified_ : bool;
  srv_message : option WebSocketMessage;
  srv_events : list srv_event;
  srv_operations : list srv_operation;
  starts : nat;
}.

(** ** Setters *)

Definition set_connection (c : option ws_connection) (t : WebSocketServerTask) : WebSocketServerTask :=
  mkSrvTask (has_server t) c (started_ t) (cancelled_ t) (close_notified_ t) (srv_message t) (srv_events t)
    (srv_operations t) (starts t).
Definition set_started (t : WebSocketServerTask) : WebSocketServerTask :=
  mkSrvTask (has_server t) (connection_ t) true (cancelled_ t) (close_notified_ t) (srv_message t) (srv_events t)
    (srv_operations t) (starts t).
Definition set_cancelled (t : WebSocketServerTask) : WebSocketServerTask :=
  mkSrvTask (has_server t) (connection_ t) (started_ t) true (close_notified_ t) (srv_message t) (srv_events t)
    (srv_operations t) (starts t).
Definition set_close_notified (t : WebSocketServerTask) : WebSocketServerTask :=
  mkSrvTask (has_server t) (connection_ t) (started_ t) (cancelled_ t) true (srv_message t) (srv_events t)
    (srv_operations t) (starts t).
Definition set_srv_message (m : WebSocketMessage) (t : WebSocketServerTask) : WebSocketServerTask :=
  mkSrvTask (has_server t) (connection_ t) (started_ t) (cancelled_ t) (close_notified_ t) (Some m) (srv_events t)
    (srv_operations t) (starts t).
Definition srv_tell (e : srv_event) (t : WebSocketServerTask) : WebSocketServerTask :=
  mkSrvTask (has_server t) (connection_ t) (started_ t) (cancelled_ t) (close_notified_ t) (srv_message t)
    (srv_events t ++ [e]) (srv_operations t) (starts t).
Definition set_srv_operations (l : list srv_operation) (t : WebSocketServerTask) : WebSocketServerTask :=
  mkSrvTask (has_server t) (connection_ t) (started_ t) (cancelled_ t) (close_notified_ t) (srv_message t)
    (srv_events t) l (starts t).
Definition count_start (t : WebSocketServerTask) : WebSocketServerTask :=
  mkSrvTask (has_server t) (connection_ t) (started_ t) (cancelled_ t) (close_notified_ t) (srv_message t)
    (srv_events t) (srv_operations t) (S (starts t)).

Definition srv_start (o : srv_operation) (t : WebSocketServerTask) : WebSocketServerTask :=
  set_srv_operations (srv_operations t ++ [o]) t.

(** ** Creating *)

Definition Create : WebSocketServerTask := mkSrvTask false None false false false None [] [] 0.

Definition CreateFromConnection (c : ws_connection) : WebSocketServerTask :=
  mkSrvTask true (Some c) false false false None [] [] 0.

(** ** Closing *)

Definition NotifyCloseOnce (ec : option error_code) (t : WebSocketServerTask) : WebSocketServerTask :=
  if close_notified_ t then t else srv_tell (SrvClose ec) (set_close_notified t).

(** A step that ends the task with an error. *)
Definition fail_task (ec : error_code) (what : str) (t : WebSocketServerTask) : WebSocketServerTask :=
  NotifyCloseOnce (Some ec) (srv_tell (SrvError ec what) (set_cancelled t)).

Definition usable (c : ws_connection) : bool := server_running c && stream_available c.

(** [DoClose] of the connection. *)
Definition close_connection (t : WebSocketServerTask) : WebSocketServerTask :=
  match connection_ t with
  | Some c => set_connection (Some (mkWsConnection (server_running c) false (ws_stream_ c))) t
  | None => t
  end.

(** ** Reading *)

(** The handler given to [DoWebSocketRead], on an error. *)
Definition on_read_error (ec : error_code) (t : WebSocketServerTask) : WebSocketServerTask :=
  if bool_decide (ec = closed_by_peer) then NotifyCloseOnce None (set_cancelled t)
  else fail_task ec (lit "WebSocket read failed") t.

Definition DoWebSocketRead (c : ws_connection) (t : WebSocketServerTask) : WebSocketServerTask :=
  if usable c then srv_start PostedRead t else on_read_error not_connected t.

Definition run_posted_read (t : WebSocketServerTask) : WebSocketServerTask :=
  match connection_ t with
  | Some c => if ws_stream_ c && usable c then srv_start Reading t else on_read_error not_connected t
  | None => t
  end.

Definition BeginReadLoop (t : WebSocketServerTask) : WebSocketServerTask :=
  if cancelled_ t then t
  else
    match connection_ t with
    | None => NotifyCloseOnce (Some not_connected) (set_cancelled t)
    | Some c => DoWebSocketRead c t
    end.

(** ** Writing *)

Definition on_srv_written (what : str) (ec : option error_code) (t : WebSocketServerTask) : WebSocketServerTask :=
  match ec with Some ec => srv_tell (SrvError ec what) t | None => t end.

Definition write_failed : str := lit "WebSocket write failed".
Definition control_failed : str := lit "WebSocket control write failed".

Definition DoWebSocketWrite (m : WebSocketMessage) (c : ws_connection) (t : WebSocketServerTask) :
    WebSocketServerTask :=
  if usable c then srv_start (PostedWrite m) t else on_srv_written write_failed (Some not_connected) t.

Definition run_posted_write (m : WebSocketMessage) (t : WebSocketServerTask) : WebSocketServerTask :=
  match connection_ t with
  | Some c =>
      if ws_stream_ c && usable c then srv_start (Writing m) t
      else on_srv_written write_failed (Some not_connected) t
  | None => t
  end.

Definition DoWebSocketControl (k : WebSocketControlKind) (payload : str) (c : ws_connection)
    (t : WebSocketServerTask) : WebSocketServerTask :=
  if usable c then srv_start (PostedControl k payload) t else on_srv_written control_failed (Some not_connected) t.

Definition run_posted_control (k : WebSocketControlKind) (payload : str) (t : WebSocketServerTask) :
    WebSocketServerTask :=
  match connection_ t with
  | Some c =>
      if ws_stream_ c && usable c then srv_start (Controlling k payload) t
      else on_srv_written control_failed (Some not_connected) t
  | None => t
  end.

Definition WriteMessage (m : WebSocketMessage) (t : WebSocketServerTask) : bool * WebSocketServerTask :=
  if cancelled_ t || negb (started_ t) then (false, t)
  else
    match connection_ t with
    | None => (false, NotifyCloseOnce (Some not_connected) (set_cancelled t))
    | Some c => (true, DoWebSocketWrite m c t)
    end.

Definition WriteControl (k : WebSocketControlKind) (payload : str) (t : WebSocketServerTask) :
    bool * WebSocketServerTask :=
  if cancelled_ t || negb (started_ t) then (false, t)
  else
    match connection_ t with
    | None => (false, NotifyCloseOnce (Some not_connected) (set_cancelled t))
    | Some c => (true, DoWebSocketControl k payload c t)
    end.

(** ** Cancelling *)

Definition DoWebSocketClose (c : ws_connection) (t : WebSocketServerTask) : WebSocketServerTask :=
  if stream_available c then srv_start PostedClose t else NotifyCloseOnce None t.

Definition run_posted_close (t : WebSocketServerTask) : WebSocketServerTask :=
  match connection_ t with
  | Some c => if ws_stream_ c then srv_start ClosingStream t else NotifyCloseOnce None (close_connection t)
  | None => t
  end.

Definition on_stream_closed (ec : option error_code) (t : WebSocketServerTask) : WebSocketServerTask :=
  NotifyCloseOnce ec (close_connection t).

Definition Cancel (t : WebSocketServerTask) : WebSocketServerTask :=
  if cancelled_ t then t
  else
    let t := set_cancelled t in
    match connection_ t with
    | Some c => DoWebSocketClose c t
    | None => NotifyCloseOnce None t
    end.

(** ** Starting *)

Inductive srv_call :=
  | SrvCallCancel
  | SrvCallWriteMessage (m : WebSocketMessage)
  | SrvCallWriteControl (k : WebSocketControlKind) (payload : str).

Definition run_srv_call (t : WebSocketServerTask) (c : srv_call) : WebSocketServerTask :=
  match c with
  | SrvCallCancel => Cancel t
  | SrvCallWriteMessage m => (WriteMessage m t).2
  | SrvCallWriteControl k payload => (WriteControl k payload t).2
  end.

Definition run_srv_calls (l : list srv_call) (t : WebSocketServerTask) : WebSocketServerTask :=
  foldl run_srv_call t l.

Definition OnAcceptCompleted (ec : option error_code) (on_open : list srv_call) (t : WebSocketServerTask) :
    WebSocketServerTask :=
  match ec with
  | Some ec => fail_task ec (lit "WebSocket async_accept failed") t
  | None => BeginReadLoop (run_srv_calls on_open (srv_tell SrvOpen (set_started t)))
  end.

Definition DoWebSocketAccept (c : ws_connection) (t : WebSocketServerTask) : WebSocketServerTask :=
  if usable c then srv_start PostedAccept t else OnAcceptCompleted (Some not_connected) [] t.

(** [other_error 0] stands for [already_connected]. *)
Definition run_posted_accept (t : WebSocketServerTask) : WebSocketServerTask :=
  match connection_ t with
  | Some c =>
      if negb (usable c) then OnAcceptCompleted (Some not_connected) [] t
      else if ws_stream_ c then OnAcceptCompleted (Some (other_error 0)) [] t
      else srv_start Accepting (set_connection (Some (mkWsConnection (server_running c) (stream_available c) true)) t)
  | None => t
  end.

(** The handler of [async_accept]. *)
Definition on_accepted (ec : option error_code) (on_open : list srv_call) (t : WebSocketServerTask) :
    WebSocketServerTask :=
  OnAcceptCompleted ec on_open (match ec with Some _ => close_connection t | None => t end).

Definition PrecheckStart (t : WebSocketServerTask) : bool * WebSocketServerTask :=
  let running := match connection_ t with Some c => server_running c | None => true end in
  if has_server t && negb running
  then (false, srv_tell (SrvClose (Some operation_aborted)) (set_cancelled t))
  else
    match connection_ t with
    | None => (false, srv_tell (SrvClose (Some not_connected)) (set_cancelled t))
    | Some _ => (true, t)
    end.

Definition Start (t : WebSocketServerTask) : WebSocketServerTask :=
  let t := count_start t in
  if started_ t || cancelled_ t then t
  else
    let '(ok, t) := PrecheckStart t in
    if ok then
      match connection_ t with
      | Some c => DoWebSocketAccept c t
      | None => t
      end
    else t.

(** The handler given to [DoWebSocketRead]. *)
Definition on_read (ec : option error_code) (m : WebSocketMessage) (on_message : list srv_call)
    (t : WebSocketServerTask) : WebSocketServerTask :=
  match ec with
  | Some ec => on_read_error ec t
  | None => BeginReadLoop (run_srv_calls on_message (srv_tell (SrvMessage m) (set_srv_message m t)))
  end.

(** ** The task and its environment *)

Definition srv_server_stopped (t : WebSocketServerTask) : WebSocketServerTask :=
  match connection_ t with
  | Some c => set_connection (Some (mkWsConnection false (stream_available c) (ws_stream_ c))) t
  | None => t
  end.

(** What was dispatched to the executor. *)
Definition run_posted (o : srv_operation) (t : WebSocketServerTask) : option WebSocketServerTask :=
  match o with
  | PostedAccept => Some (run_posted_accept t)
  | PostedRead => Some (run_posted_read t)
  | PostedWrite m => Some (run_posted_write m t)
  | PostedControl k p => Some (run_posted_control k p t)
  | PostedClose => Some (run_posted_close t)
  | _ => None
  end.

(** [Start] is called once, as the request lifecycle does; everything else at
    any time and with any outcome.  The server may stop and the stream close. *)
Inductive srv_step : WebSocketServerTask -> WebSocketServerTask -> Prop :=
  | srv_step_start t : starts t = 0 -> srv_step t (Start t)
  | srv_step_call c t : srv_step t (run_srv_call t c)
  | srv_step_server_stops t : srv_step t (srv_server_stopped t)
  | srv_step_stream_closes t : srv_step t (close_connection t)
  | srv_step_run o t t' l1 l2 :
      srv_operations t = l1 ++ o :: l2 -> run_posted o (set_srv_operations (l1 ++ l2) t) = Some t' -> srv_step t t'
  | srv_step_accepted ec on_open t l1 l2 :
      srv_operations t = l1 ++ Accepting :: l2 ->
      srv_step t (on_accepted ec on_open (set_srv_operations (l1 ++ l2) t))
  | srv_step_read ec m on_message t l1 l2 :
      srv_operations t = l1 ++ Reading :: l2 ->
      srv_step t (on_read ec m on_message (set_srv_operations (l1 ++ l2) t))
  | srv_step_written ec m t l1 l2 :
      srv_operations t = l1 ++ Writing m :: l2 ->
      srv_step t (on_srv_written write_failed ec (set_srv_operations (l1 ++ l2) t))
  | srv_step_controlled ec k p t l1 l2 :
      srv_operations t = l1 ++ Controlling k p :: l2 ->
      srv_step t (on_srv_written control_failed ec (set_srv_operations (l1 ++ l2) t))
  | srv_step_closed ec t l1 l2 :
      srv_operations t = l1 ++ ClosingStream :: l2 ->
      srv_step t (on_stream_closed ec (set_srv_operations (l1 ++ l2) t)).

(** ** The protocol *)

(** Whether the handler was told of the opening, and of the closing. *)
Definition srv_next (p : bool * bool) (e : srv_event) : option (bool * bool) :=
  match e with
  | SrvOpen => if p.1 then None else Some (true, p.2)
  | SrvMessage _ => if p.1 then Some p else None
  | SrvError _ _ => Some p
  | SrvClose _ => if p.2 then None else Some (p.1, true)
  end.

Definition srv_run (l : list srv_event) : option (bool * bool) :=
  foldl (fun p e => p ≫= fun p => srv_next p e) (Some (false, false)) l.

Lemma srv_run_snoc l e p : srv_run l = Some p -> srv_run (l ++ [e]) = srv_next p e.
Proof. unfold srv_run. rewrite foldl_app. cbn. by intros ->. Qed.

(** ** The invariant *)

Definition is_accept (o : srv_operation) : nat := match o with PostedAccept | Accepting => 1 | _ => 0 end.
Definition is_read (o : srv_operation) : nat := match o with PostedRead | Reading => 1 | _ => 0 end.
Definition is_close (o : srv_operation) : nat := match o with PostedClose | ClosingStream => 1 | _ => 0 end.

Definition n_accept (t : WebSocketServerTask) : nat := sum_list_with is_accept (srv_operations t).
Definition n_read (t : WebSocketServerTask) : nat := sum_list_with is_read (srv_operations t).
Definition n_close (t : WebSocketServerTask) : nat := sum_list_with is_close (srv_operations t).

(** [acc] and [rd]: the accepts and the reads under way, in a task that was
    started and not cancelled. *)
Record srv_live (acc rd : nat) (t : WebSocketServerTask) : Prop := {
  lv_run : srv_run (srv_events t) = Some (started_ t, close_notified_ t);
  lv_cancel : close_notified_ t = true -> cancelled_ t = true;
  lv_closing : cancelled_ t = true -> close_notified_ t = false -> 0 < n_close t;
  lv_closes : 0 < n_close t -> cancelled_ t = true;
  lv_one : n_accept t + n_read t <= 1;
  lv_started : if started_ t then n_accept t = 0 else n_read t = 0;
  lv_read : cancelled_ t = false -> started_ t = true -> n_read t = rd;
  lv_accept : cancelled_ t = false -> started_ t = false -> starts t <> 0 -> n_accept t = acc;
  lv_fresh : starts t = 0 -> n_accept t = 0 /\ started_ t = false;
  lv_conn : connection_ t = None -> srv_operations t = [];
  lv_idle : starts t = 0 -> cancelled_ t = false -> srv_operations t = [];
}.

(** A start that was refused: nothing is under way, now or later. *)
Record srv_refused (t : WebSocketServerTask) : Prop := {
  rf_run : srv_run (srv_events t) = Some (false, true);
  rf_cancel : cancelled_ t = true /\ started_ t = false /\ starts t <> 0;
  rf_ops : srv_operations t = [];
}.

Definition srv_inv (t : WebSocketServerTask) : Prop := srv_live 1 1 t \/ srv_refused t.

(** What [srv_live] does not look at. *)
Lemma srv_live_frame acc rd t t' :
  srv_events t' = srv_events t -> started_ t' = started_ t -> cancelled_ t' = cancelled_ t ->
  close_notified_ t' = close_notified_ t -> srv_operations t' = srv_operations t -> starts t' = starts t ->
  (connection_ t' = None -> connection_ t = None) -> srv_live acc rd t -> srv_live acc rd t'.
Proof.
  intros E1 E2 E3 E4 E5 E6 E7 [L1 L2 L3 L4 L5 L6 L7 L8 L9 L10 L11]. unfold n_accept, n_read, n_close in *.
  constructor; unfold n_accept, n_read, n_close; rewrite ?E1, ?E2, ?E3, ?E4, ?E5, ?E6; try done. eauto.
Qed.

Lemma srv_error_live ec what acc rd t : srv_live acc rd t -> srv_live acc rd (srv_tell (SrvError ec what) t).
Proof.
  intros [L1 L2 L3 L4 L5 L6 L7 L8 L9 L10 L11]. constructor; try done. cbn. by rewrite (srv_run_snoc _ _ _ L1).
Qed.

(** Closing is told once, of a task that is cancelled. *)
Lemma srv_close_live ec acc rd acc' rd' t :
  srv_live acc rd t -> srv_live acc' rd' (NotifyCloseOnce ec (set_cancelled t)).
Proof.
  intros [L1 L2 L3 L4 L5 L6 L7 L8 L9 L10 L11]. unfold NotifyCloseOnce. cbn [set_cancelled close_notified_].
  destruct (close_notified_ t) eqn:Hc; constructor; try done; cbn; by rewrite ?Hc, ?(srv_run_snoc _ _ _ L1).
Qed.

Lemma set_cancelled_id t : cancelled_ t = true -> set_cancelled t = t.
Proof. intros Hc. destruct t. cbn in *. by rewrite Hc. Qed.

Lemma srv_fail_live ec what acc rd acc' rd' t : srv_live acc rd t -> srv_live acc' rd' (fail_task ec what t).
Proof.
  intros Hl. unfold fail_task.
  change (srv_tell (SrvError ec what) (set_cancelled t)) with (set_cancelled (srv_tell (SrvError ec what) t)).
  by apply (srv_close_live _ acc rd), srv_error_live.
Qed.

Lemma srv_read_error_live ec acc rd acc' rd' t : srv_live acc rd t -> srv_live acc' rd' (on_read_error ec t).
Proof.
  intros Hl. unfold on_read_error. destruct (bool_decide _); [by apply (srv_close_live _ acc rd)|].
  by apply (srv_fail_live _ _ acc rd).
Qed.

Lemma count_snoc f l (o : srv_operation) : sum_list_with f (l ++ [o]) = sum_list_with f l + f o.
Proof. rewrite sum_list_with_app. cbn. lia. Qed.

(** The read loop goes on, if the task was not cancelled meanwhile. *)
Lemma srv_loop_live t :
  srv_live 1 0 t -> started_ t = true -> n_read t = 0 -> srv_live 1 1 (BeginReadLoop t).
Proof.
  intros Hl Hs Hr. unfold BeginReadLoop. destruct (cancelled_ t) eqn:Hc.
  - destruct Hl as [L1 L2 L3 L4 L5 L6 L7 L8 L9 L10 L11]. constructor; try done; rewrite Hc; done.
  - destruct (connection_ t) as [c|] eqn:Hcn; [|by apply (srv_close_live _ 1 0)]. unfold DoWebSocketRead.
    destruct (usable c); [|by apply (srv_read_error_live _ 1 0)].
    destruct Hl as [L1 L2 L3 L4 L5 L6 L7 L8 L9 L10 L11]. rewrite Hs in L6.
    unfold n_accept, n_read, n_close in *. constructor; unfold n_accept, n_read, n_close;
      cbn [srv_start set_srv_operations srv_operations srv_events started_ close_notified_ cancelled_ starts connection_];
      rewrite ?count_snoc; cbn [is_accept is_read is_close]; rewrite ?Nat.add_0_r; try done.
    + lia.
    + by rewrite Hs.
    + intros _ _. lia.
    + by rewrite Hcn.
    + intros Hst. destruct (L9 Hst). congruence.
Qed.

(** *** Calls *)

Lemma srv_add_live o acc rd t :
  is_accept o = 0 -> is_read o = 0 -> (0 < is_close o -> cancelled_ t = true) -> connection_ t <> None ->
  (starts t = 0 -> cancelled_ t = true) ->
  srv_live acc rd t -> srv_live acc rd (srv_start o t).
Proof.
  intros H1 H2 H3 Hcn Hid [L1 L2 L3 L4 L5 L6 L7 L8 L9 L10 L11]. unfold n_accept, n_read, n_close in *.
  constructor; unfold n_accept, n_read, n_close;
    cbn [srv_start set_srv_operations srv_operations srv_events started_ close_notified_ cancelled_ starts connection_];
    rewrite ?count_snoc, ?H1, ?H2, ?Nat.add_0_r; try done.
  - intros Ha Hb. specialize (L3 Ha Hb). lia.
  - intros Hpos. destruct (decide (0 < sum_list_with is_close (srv_operations t))); [by apply L4|apply H3; lia].
  - intros Hst. rewrite (Hid Hst). done.
Qed.

Lemma srv_cancel_live acc rd t : srv_live acc rd t -> srv_live acc rd (Cancel t).
Proof.
  intros Hl. unfold Cancel. destruct (cancelled_ t) eqn:Hc; [done|]. cbn [set_cancelled connection_].
  destruct (connection_ t) as [c|] eqn:Hcn; [|by apply (srv_close_live _ acc rd)].
  unfold DoWebSocketClose. destruct (stream_available c); [|by apply (srv_close_live _ acc rd)].
  destruct Hl as [L1 L2 L3 L4 L5 L6 L7 L8 L9 L10 L11]. unfold n_accept, n_read, n_close in *.
  constructor; unfold n_accept, n_read, n_close; cbn [set_cancelled srv_start set_srv_operations srv_operations srv_events started_
    close_notified_ cancelled_ starts connection_]; rewrite ?count_snoc; cbn [is_accept is_read is_close];
    rewrite ?Nat.add_0_r; try done.
  - lia.
  - by rewrite Hcn.
Qed.

Lemma srv_call_live c acc rd t : srv_live acc rd t -> srv_live acc rd (run_srv_call t c).
Proof.
  intros Hl. destruct c; cbn [run_srv_call]; [by apply srv_cancel_live|..];
    unfold WriteMessage, WriteControl; (destruct (cancelled_ t || negb (started_ t)) eqn:Hw; [done|]);
    (destruct (connection_ t) as [c|] eqn:Hcn; [|by apply (srv_close_live _ acc rd)]);
    unfold DoWebSocketWrite, DoWebSocketControl; cbn [snd];
    (destruct (usable c); [apply srv_add_live; [done|done|cbn; lia|congruence| |done]; intros Hst; destruct (lv_fresh _ _ _ Hl Hst) as [_ Hs]; rewrite Hs, orb_true_r in Hw; done|by apply srv_error_live]).
Qed.

Lemma srv_calls_live l acc rd t : srv_live acc rd t -> srv_live acc rd (run_srv_calls l t).
Proof. revert t. induction l as [|c l IH]; intros t Hl; [done|]. by apply IH, srv_call_live. Qed.

(** Calls neither open a task nor begin reads. *)
Lemma srv_close_keeps ec t :
  started_ (NotifyCloseOnce ec t) = started_ t /\ srv_operations (NotifyCloseOnce ec t) = srv_operations t.
Proof. unfold NotifyCloseOnce. by destruct (close_notified_ t). Qed.

Lemma srv_call_keeps c t : started_ (run_srv_call t c) = started_ t /\ n_read (run_srv_call t c) = n_read t.
Proof.
  unfold n_read. destruct c; cbn [run_srv_call]; unfold Cancel, WriteMessage, WriteControl, DoWebSocketClose,
    DoWebSocketWrite, DoWebSocketControl; repeat case_match; cbn [snd]; try done;
    try (destruct (srv_close_keeps (Some not_connected) (set_cancelled t)) as [-> ->]; done);
    try (destruct (srv_close_keeps None (set_cancelled t)) as [-> ->]; done);
    split; try done; cbn [srv_start set_srv_operations srv_operations set_cancelled]; rewrite count_snoc; cbn; lia.
Qed.

Lemma srv_calls_keep l t : started_ (run_srv_calls l t) = started_ t /\ n_read (run_srv_calls l t) = n_read t.
Proof.
  revert t. induction l as [|c l IH]; intros t; [done|]. unfold run_srv_calls in *. cbn [foldl].
  destruct (IH (run_srv_call t c)) as [-> ->]. apply srv_call_keeps.
Qed.

(** The handler is told something, calls the task, and the loop goes on. *)
Lemma srv_told_live l t :
  srv_live 1 0 t -> started_ t = true -> n_read t = 0 -> srv_live 1 1 (BeginReadLoop (run_srv_calls l t)).
Proof.
  intros Hl Hs Hr. destruct (srv_calls_keep l t) as [E1 E2].
  apply srv_loop_live; [by apply srv_calls_live|by rewrite E1|by rewrite E2].
Qed.

(** *** Completions *)

Lemma count_split f l1 (o : srv_operation) l2 :
  sum_list_with f (l1 ++ o :: l2) = sum_list_with f (l1 ++ l2) + f o.
Proof. rewrite !sum_list_with_app. cbn. lia. Qed.

(** An operation is taken out that is no close. *)
Lemma srv_take_live o t l1 l2 :
  srv_operations t = l1 ++ o :: l2 -> is_close o = 0 -> srv_live 1 1 t ->
  let t' := set_srv_operations (l1 ++ l2) t in
  srv_live (1 - is_accept o) (1 - is_read o) t' /\
  (is_accept o = 1 -> started_ t' = false /\ starts t' <> 0 /\ n_accept t' = 0 /\ n_read t' = 0) /\
  (is_read o = 1 -> started_ t' = true /\ n_read t' = 0) /\ connection_ t' <> None /\
  (starts t' = 0 -> cancelled_ t' = true).
Proof.
  intros Ho Hc [L1 L2 L3 L4 L5 L6 L7 L8 L9 L10 L11] t'.
  assert (is_accept o <= 1 /\ is_read o <= 1) as [Ha1 Hr1] by (destruct o; cbn; lia).
  unfold n_accept, n_read, n_close in *. rewrite Ho, !count_split in *. rewrite Hc, !Nat.add_0_r in *.
  assert (connection_ t <> None) as Hcn by (intros Hn; specialize (L10 Hn); by destruct l1).
  split_and!.
  - constructor; unfold n_accept, n_read, n_close; cbn [t' set_srv_operations srv_operations srv_events started_
      close_notified_ cancelled_ starts connection_]; try done; try lia.
    + destruct (started_ t); lia.
    + intros Hca Hs. specialize (L7 Hca Hs). lia.
    + intros Hca Hs Hst. specialize (L8 Hca Hs Hst). lia.
    + intros Hst. destruct (L9 Hst). split; [lia|done].
    + intros Hst Hca. specialize (L11 Hst Hca). by destruct l1.
  - intros Hacc. unfold n_accept, n_read. cbn [t' set_srv_operations srv_operations started_ starts].
    destruct (started_ t); [lia|]. split; [done|]. split; [intros Hst; destruct (L9 Hst); lia|]. lia.
  - intros Hrd. unfold n_read. cbn [t' set_srv_operations srv_operations started_].
    destruct (started_ t); [split; [done|lia]|lia].
  - done.
  - cbn [t' set_srv_operations starts cancelled_]. intros Hst. destruct (cancelled_ t); [done|].
    specialize (L11 Hst eq_refl). by destruct l1.
Qed.

Lemma srv_accept_done ec on_open t :
  srv_live 0 1 t -> started_ t = false -> starts t <> 0 -> n_accept t = 0 -> n_read t = 0 ->
  srv_live 1 1 (OnAcceptCompleted ec on_open t).
Proof.
  intros Hl Hs Hst Ha Hr. destruct ec as [ec|]; cbn [OnAcceptCompleted]; [by apply (srv_fail_live _ _ 0 1)|].
  apply srv_told_live; [|done|done]. destruct Hl as [L1 L2 L3 L4 L5 L6 L7 L8 L9 L10 L11].
  constructor; try done; cbn [srv_tell set_started srv_events started_ close_notified_ cancelled_ starts].
  by rewrite (srv_run_snoc _ _ _ L1), Hs.
Qed.

Lemma srv_close_connection_live acc rd t : srv_live acc rd t -> srv_live acc rd (close_connection t).
Proof. intros Hl. unfold close_connection. destruct (connection_ t); [|done]. by apply (srv_live_frame _ _ t). Qed.

Lemma close_connection_ops l t :
  close_connection (set_srv_operations l t) = set_srv_operations l (close_connection t).
Proof. unfold close_connection. cbn [set_srv_operations connection_]. by destruct (connection_ t). Qed.

Lemma close_connection_operations t : srv_operations (close_connection t) = srv_operations t.
Proof. unfold close_connection. by destruct (connection_ t). Qed.

(** A close operation comes to its end: the closing has been told after it. *)
Lemma srv_close_done ec o t l1 l2 :
  srv_operations t = l1 ++ o :: l2 -> is_close o = 1 -> srv_live 1 1 t ->
  srv_live 1 1 (NotifyCloseOnce ec (set_srv_operations (l1 ++ l2) t)).
Proof.
  intros Ho Hc [L1 L2 L3 L4 L5 L6 L7 L8 L9 L10 L11].
  assert (is_accept o = 0 /\ is_read o = 0) as [Ha Hr] by (by destruct o).
  unfold n_accept, n_read, n_close in *. rewrite Ho, !count_split in *. rewrite Ha, Hr, Hc, !Nat.add_0_r in *.
  assert (cancelled_ t = true) as Hca by (apply L4; lia).
  assert (connection_ t <> None) as Hcn by (intros Hn; specialize (L10 Hn); by destruct l1).
  unfold NotifyCloseOnce. cbn [set_srv_operations close_notified_].
  destruct (close_notified_ t) eqn:Hcl; constructor; unfold n_accept, n_read, n_close;
    cbn [set_srv_operations set_close_notified srv_tell srv_operations srv_events started_ close_notified_
      cancelled_ starts connection_]; try done; try (rewrite ?Hca, ?Hcl; done).
  by rewrite (srv_run_snoc _ _ _ L1).
Qed.

(** What was dispatched comes to run. *)
Lemma srv_run_close_live t t' l1 l2 :
  srv_operations t = l1 ++ PostedClose :: l2 -> run_posted PostedClose (set_srv_operations (l1 ++ l2) t) = Some t' ->
  srv_live 1 1 t -> srv_live 1 1 t'.
Proof.
  intros Ho Hrun Hl. injection Hrun as <-. unfold run_posted_close. cbn [set_srv_operations connection_].
  pose proof (srv_close_done None _ _ _ _ Ho eq_refl Hl) as Hdone.
  assert (connection_ t <> None) as Hcn by (intros Hn; pose proof (lv_conn _ _ _ Hl Hn) as Hn2; rewrite Ho in Hn2; by destruct l1).
  destruct (connection_ t) as [c|] eqn:Hcn1; [|done]. destruct (ws_stream_ c).
  - destruct Hl as [L1 L2 L3 L4 L5 L6 L7 L8 L9 L10 L11]. unfold n_accept, n_read, n_close in *.
    rewrite Ho, !count_split in *. cbn [is_accept is_read is_close] in *. rewrite !Nat.add_0_r in *.
    constructor; unfold n_accept, n_read, n_close; cbn [srv_start set_srv_operations srv_operations
      srv_events started_ close_notified_ cancelled_ starts connection_]; rewrite ?count_snoc;
      cbn [is_accept is_read is_close]; rewrite ?Nat.add_0_r; try done.
    + by rewrite Hcn1.
    + intros Hst Hca. specialize (L11 Hst Hca). by destruct l1.
  - rewrite close_connection_ops. apply (srv_close_done None PostedClose (close_connection t)); [|done|by apply srv_close_connection_live].
    by rewrite close_connection_operations.
Qed.

Lemma srv_run_live o t t' l1 l2 :
  srv_operations t = l1 ++ o :: l2 -> run_posted o (set_srv_operations (l1 ++ l2) t) = Some t' ->
  srv_live 1 1 t -> srv_live 1 1 t'.
Proof.
  intros Ho Hrun Hl. destruct (decide (is_close o = 0)) as [Hc|Hc].
  - destruct (srv_take_live _ _ _ _ Ho Hc Hl) as (Hl' & Hacc & Hrd & Hcn & Hid).
    set (t1 := set_srv_operations (l1 ++ l2) t) in *. clearbody t1. clear Ho Hl t l1 l2.
    destruct o; try done; cbn [run_posted is_accept is_read Nat.sub] in Hrun, Hl', Hacc, Hrd; injection Hrun as <-.
    + destruct (Hacc eq_refl) as (Hs & Hst & Ha & Hr). unfold run_posted_accept.
      destruct (connection_ t1) as [c|] eqn:Hcn1; [|done].
      destruct (negb (usable c)); [by apply srv_accept_done|]. destruct (ws_stream_ c); [by apply srv_accept_done|].
      destruct Hl' as [L1 L2 L3 L4 L5 L6 L7 L8 L9 L10 L11]. unfold n_accept, n_read, n_close in *.
      constructor; unfold n_accept, n_read, n_close; cbn [srv_start set_connection set_srv_operations srv_operations
        srv_events started_ close_notified_ cancelled_ starts connection_]; rewrite ?count_snoc;
        cbn [is_accept is_read is_close]; rewrite ?Nat.add_0_r; try done; try lia.
      by rewrite Hs.
    + destruct (Hrd eq_refl) as [Hs Hr]. unfold run_posted_read.
      destruct (connection_ t1) as [c|] eqn:Hcn1; [|done].
      destruct (ws_stream_ c && usable c); [|by apply (srv_read_error_live _ 1 0)].
      destruct Hl' as [L1 L2 L3 L4 L5 L6 L7 L8 L9 L10 L11]. unfold n_accept, n_read, n_close in *. rewrite Hs in L6.
      constructor; unfold n_accept, n_read, n_close; cbn [srv_start set_connection set_srv_operations srv_operations
        srv_events started_ close_notified_ cancelled_ starts connection_]; rewrite ?count_snoc;
        cbn [is_accept is_read is_close]; rewrite ?Nat.add_0_r; try done; try lia.
      * by rewrite Hs.
      * by rewrite Hcn1.
      * intros Hst Hca. by rewrite (Hid Hst) in Hca.
    + unfold run_posted_write. destruct (connection_ t1) as [c|] eqn:Hcn1; [|done].
      destruct (ws_stream_ c && usable c); [|by apply srv_error_live].
      apply srv_add_live; [done|done|cbn; lia|congruence|done|done].
    + unfold run_posted_control. destruct (connection_ t1) as [c|] eqn:Hcn1; [|done].
      destruct (ws_stream_ c && usable c); [|by apply srv_error_live].
      apply srv_add_live; [done|done|cbn; lia|congruence|done|done].
  - destruct o; try done. by eapply srv_run_close_live.
Qed.

(** *** All steps *)

(** Nothing happens any more to a task whose start was refused. *)
Lemma srv_refused_step t t' : srv_step t t' -> srv_refused t -> srv_refused t'.
Proof.
  intros Hs [R1 (R2 & R3 & R4) R5].
  destruct Hs as [t Hst|c t|t|t|o t t' l1 l2 Ho _|ec on_open t l1 l2 Ho|ec m on_message t l1 l2 Ho|ec m t l1 l2 Ho
    |ec k p t l1 l2 Ho|ec t l1 l2 Ho]; try (rewrite R5 in Ho; by destruct l1); try done.
  - destruct c; cbn [run_srv_call]; unfold Cancel, WriteMessage, WriteControl; rewrite R2; by constructor.
  - unfold srv_server_stopped. destruct (connection_ t); by constructor.
  - unfold close_connection. destruct (connection_ t); by constructor.
Qed.

Lemma srv_start_inv t : starts t = 0 -> srv_live 1 1 t -> srv_inv (Start t).
Proof.
  intros Hst Hl. unfold Start. cbv zeta.
  assert (srv_live 0 1 (count_start t)) as Hl0.
  { destruct Hl as [L1 L2 L3 L4 L5 L6 L7 L8 L9 L10 L11]. destruct (L9 Hst) as [Ha Hs]. by constructor. }
  destruct Hl as [L1 L2 L3 L4 L5 L6 L7 L8 L9 L10 L11]. destruct (L9 Hst) as [Ha Hs].
  rewrite Hs in L6.
  cbn [count_start started_ cancelled_]. rewrite Hs. destruct (cancelled_ t) eqn:Hc; cbn [orb].
  - left. destruct Hl0 as [M1 M2 M3 M4 M5 M6 M7 M8 M9 M10 M11]. constructor; try done; cbn; by rewrite Hc.
  - assert (close_notified_ t = false) as Hcl by (destruct (close_notified_ t); [specialize (L2 eq_refl); congruence|done]).
    assert (n_close t = 0) as Hnc.
    { destruct (n_close t) eqn:Hn; [done|]. specialize (L4 ltac:(lia)). congruence. }
    unfold PrecheckStart. cbn [count_start connection_ has_server].
    destruct (connection_ t) as [c|] eqn:Hcn.
    + destruct (has_server t && negb (server_running c)).
      * right. constructor; cbn; [|done|].
        -- rewrite (srv_run_snoc _ _ _ L1), Hs, Hcl. done.
        -- by apply L11.
      * cbn [connection_ count_start]. rewrite Hcn. unfold DoWebSocketAccept.
        destruct (usable c); [|left; by apply srv_accept_done].
        left. unfold n_accept, n_read, n_close in *.
        constructor; unfold n_accept, n_read, n_close; cbn [srv_start count_start set_srv_operations srv_operations
          srv_events started_ close_notified_ cancelled_ starts connection_]; rewrite ?count_snoc;
          cbn [is_accept is_read is_close]; rewrite ?Nat.add_0_r; try done; try lia.
        -- congruence.
        -- congruence.
        -- by rewrite Hs.
        -- congruence.
        -- congruence.
    + replace (has_server t && negb true) with false by (by destruct (has_server t)).
      right. constructor; cbn; [|done|by apply L10]. by rewrite (srv_run_snoc _ _ _ L1), Hs, Hcl.
Qed.

Lemma srv_step_inv t t' : srv_step t t' -> srv_inv t -> srv_inv t'.
Proof.
  intros Hs [Hl|Hr]; [|right; by apply (srv_refused_step t)].
  destruct Hs as [t Hst|c t|t|t|o t t' l1 l2 Ho Hrun|ec on_open t l1 l2 Ho|ec m on_message t l1 l2 Ho|ec m t l1 l2 Ho
    |ec k p t l1 l2 Ho|ec t l1 l2 Ho]; [by apply srv_start_inv|left..].
  - by apply srv_call_live.
  - unfold srv_server_stopped. destruct (connection_ t); [|done]. by apply (srv_live_frame _ _ t).
  - by apply srv_close_connection_live.
  - by apply (srv_run_live o t t' l1 l2).
  - destruct (srv_take_live _ _ _ _ Ho eq_refl Hl) as (Hl' & Hacc & _). destruct (Hacc eq_refl) as (Hs & Hst & Ha & Hr).
    unfold on_accepted. destruct ec; [|by apply srv_accept_done].
    cbn [OnAcceptCompleted]. by apply (srv_fail_live _ _ 0 1), srv_close_connection_live.
  - destruct (srv_take_live _ _ _ _ Ho eq_refl Hl) as (Hl' & _ & Hrd & _). destruct (Hrd eq_refl) as (Hs & Hr).
    destruct ec as [ec|]; cbn [on_read]; [by apply (srv_read_error_live _ 1 0)|].
    set (t1 := set_srv_operations (l1 ++ l2) t) in *. clearbody t1.
    apply srv_told_live; [|done|done]. destruct Hl' as [L1 L2 L3 L4 L5 L6 L7 L8 L9 L10 L11].
    constructor; try done. cbn [srv_tell srv_events set_srv_message]. rewrite (srv_run_snoc _ _ _ L1).
    cbn. by rewrite Hs.
  - destruct (srv_take_live _ _ _ _ Ho eq_refl Hl) as (Hl' & _). destruct ec; [by apply srv_error_live|done].
  - destruct (srv_take_live _ _ _ _ Ho eq_refl Hl) as (Hl' & _). destruct ec; [by apply srv_error_live|done].
  - unfold on_stream_closed. rewrite close_connection_ops.
    apply (srv_close_done ec ClosingStream (close_connection t)); [|done|by apply srv_close_connection_live].
    by rewrite close_connection_operations.
Qed.

Record srv_fresh (t : WebSocketServerTask) : Prop := {
  sfr_flags : started_ t = false /\ cancelled_ t = false /\ close_notified_ t = false /\ starts t = 0;
  sfr_events : srv_events t = [];
  sfr_ops : srv_operations t = [];
}.

(** C22. The protocol of a WebSocket handler on the server, for a task that is
    started once.  Whatever the connection, the server and the callers do: the
    handler is told of the opening at most once and of the closing at most once,
    and of messages only after the opening.  A task that was started is never
    forgotten: unless it was cancelled it waits for its accept or for one read;
    once it was cancelled, the closing has been told or a close is under way. *)
Theorem srv_protocol (t0 t : WebSocketServerTask) :
  srv_fresh t0 -> rtc srv_step t0 t ->
  exists opened closed, srv_run (srv_events t) = Some (opened, closed) /\
    opened = started_ t /\ (closed = true -> cancelled_ t = true) /\
    (cancelled_ t = true -> closed = true \/ 0 < n_close t) /\
    (cancelled_ t = false -> starts t <> 0 ->
       if started_ t then n_accept t = 0 /\ n_read t = 1 else n_accept t = 1 /\ n_read t = 0).
Proof.
  intros [(F1 & F2 & F3 & F4) F5 F6] Hs.
  assert (srv_inv t) as [Hl|[R1 (R2 & R3 & R4) R5]].
  { apply (rtc_invariant srv_step srv_inv t0); [intros a b Ha Hab; by apply (srv_step_inv a)|done|].
    left. constructor; unfold n_accept, n_read, n_close; rewrite ?F1, ?F2, ?F3, ?F4, ?F5, ?F6; try done; cbn; lia. }
  - destruct Hl as [L1 L2 L3 L4 L5 L6 L7 L8 L9 L10 L11]. exists (started_ t), (close_notified_ t).
    split; [done|]. split; [done|]. split; [done|]. split.
    + intros Hc. destruct (close_notified_ t); [by left|right; by apply L3].
    + intros Hc Hst. destruct (started_ t); [split; [done|by apply L7]|split; [by apply L8|done]].
  - exists false, true. rewrite R2, R3. split_and!; try done. by left.
Qed.

(** ** Samples *)

Module SrvSample.

Definition created : WebSocketServerTask := CreateFromConnection (mkWsConnection true true false).
Definition asked : WebSocketServerTask := Start created.
Definition accepting : WebSocketServerTask := run_posted_accept (set_srv_operations [] asked).
Definition opened : WebSocketServerTask :=
  on_accepted None [SrvCallWriteMessage (mkMessage false (lit "hello"))] (set_srv_operations [] accepting).

Lemma srv_created_fresh : srv_fresh created.
Proof. by constructor. Qed.

Lemma accepting_reachable : rtc srv_step created accepting.
Proof.
  apply (rtc_l _ _ asked); [by apply srv_step_start|].
  apply rtc_once. by apply (srv_step_run PostedAccept asked accepting [] []).
Qed.

Lemma srv_opened_reachable : rtc srv_step created opened.
Proof.
  eapply rtc_r; [apply accepting_reachable|]. by apply (srv_step_accepted None _ accepting [] []).
Qed.

Lemma srv_protocol_witness : n_accept opened = 0 /\ n_read opened = 1.
Proof.
  destruct (srv_protocol created opened srv_created_fresh srv_opened_reachable) as (o & c & _ & _ & _ & _ & H).
  exact (H eq_refl ltac:(discriminate)).
Defined.

(** The stream closes and the task is cancelled while the accept, which has
    succeeded, waits to be handled: the handler is told of the opening after the
    closing. *)
Definition gone : WebSocketServerTask :=
  on_accepted None [] (set_srv_operations [] (Cancel (close_connection accepting))).

Lemma opened_after_closing :
  rtc srv_step created gone /\ srv_events gone = [SrvClose None; SrvOpen] /\ cancelled_ gone = true.
Proof.
  split; [|done]. etrans; [apply accepting_reachable|].
  apply (rtc_l _ _ (close_connection accepting)); [apply srv_step_stream_closes|].
  apply (rtc_l _ _ (Cancel (close_connection accepting))); [apply (srv_step_call SrvCallCancel)|].
  apply rtc_once. by apply (srv_step_accepted None [] (Cancel (close_connection accepting)) [] []).
Qed.

(** A second [Start] while the accept is under way fails it, although it
    succeeds. *)
Definition twice : WebSocketServerTask :=
  on_accepted None [] (set_srv_operations []
    (run_posted_accept (set_srv_operations [Accepting] (Start accepting)))).

Lemma second_start_closes :
  srv_events twice =
    [SrvError (other_error 0) (lit "WebSocket async_accept failed"); SrvClose (Some (other_error 0)); SrvOpen].
Proof. vm_compute. reflexivity. Qed.
End SrvSample.
