(* ===== verification/ConfigLoader.v ===== *)
(** * The configuration of bsrvrun

    [src/src/bsrvrun/config_loader_parsing.cc] and config_loader_loading.cc,
    with the types of config_types.h and config_loader_detail.h: a YAML document
    becomes a [ServerConfig], or an exception with a message.  The document is
    yaml-cpp's; its conversions of scalars to numbers and booleans are
    parameters.  [None] is an undefined node, which tests as false; a null node is
    defined.  What a document means is given apart from the parsers, as a relation
    ([config_from]), and the loader is shown to compute it. *)

From S2P Require Import Prelude ServerCookie ClientCookie CookieExchange.

(** ** YAML *)

Inductive yaml :=
  | YNull
  | YScalar (s : str)
  | YSeq (l : list yaml)
  | YMap (l : list (yaml * yaml)).

(** [node["key"]] on a map. *)
Fixpoint map_find (k : str) (l : list (yaml * yaml)) : option yaml :=
  match l with
  | [] => None
  | (YScalar k', v) :: l => if k' =s k then Some v else map_find k l
  | _ :: l => map_find k l
  end.

Definition field (n : yaml) (k : str) : option yaml :=
  match n with YMap l => map_find k l | _ => None end.

(** ** Exceptions *)

Inductive cfg_error := RuntimeError (what : str) | BadConversion.

Definition result (A : Type) : Type := cfg_error + A.

Definition bind {A B} (m : result A) (f : A -> result B) : result B :=
  match m with inl e => inl e | inr a => f a end.

Notation "'let*' x ':=' m 'in' k" := (bind m (fun x => k)) (at level 10, x pattern, m at level 100, k at level 200).

Definition throw {A} (what : str) : result A := inl (RuntimeError what).

(** ** Data *)

Record FactoryConfig := mkFactory { library : str; params : list (str * str) }.
Record ServiceConfig := mkService { slot : Z; factory : FactoryConfig }.
Record ListenerConfig := mkListener { address : str; port : Z; io_threads : Z }.
Record RouteConfig := mkRoute {
  method : nat;
  path : str;
  ignore_default_route : bool;
  cpu : bool;
  handler : FactoryConfig;
  aspects : list FactoryConfig;
  terminal_aspects : list FactoryConfig;
}.
Record GlobalConfig := mkGlobal { default_handler : option FactoryConfig; global_aspects : list FactoryConfig }.
Record ExecutorConfig := mkExecutor {
  configured : bool;
  core_thread_num : Z;
  max_thread_num : Z;
  fast_queue_capacity : Z;
  thread_clean_interval : Z;
  task_scan_interval : Z;
  suspend_time : Z;
}.
Record ServerSectionConfig := mkSection {
  sec_thread_count : Z;
  sec_has_max_connection : bool;
  sec_max_connection : Z;
  sec_executor : ExecutorConfig;
}.
Record ServerConfig := mkServerConfig {
  thread_count : Z;
  has_max_connection : bool;
  max_connection : Z;
  executor : ExecutorConfig;
  listeners : list ListenerConfig;
  services : list ServiceConfig;
  logger : option FactoryConfig;
  global : GlobalConfig;
  routes : list RouteConfig;
}.

Section loader.
(** The conversions of yaml-cpp, [as<int>], [as<std::size_t>],
    [as<std::int64_t>] and [as<bool>], and the number of processors. *)
Context (as_int as_size as_int64 : str -> option Z) (as_bool : str -> option bool) (hardware_concurrency : Z).

Definition convert {A} (conv : str -> option A) (n : yaml) : result A :=
  match n with
  | YScalar s => match conv s with Some a => inr a | None => inl BadConversion end
  | _ => inl BadConversion
  end.

Definition is_scalar (n : option yaml) : bool := match n with Some (YScalar _) => true | _ => false end.

(** ** Parsing *)

Definition kMethodMap : list (str * nat) :=
  [(lit "GET", 0); (lit "POST", 1); (lit "PUT", 2); (lit "PATCH", 4); (lit "DELETE", 3); (lit "HEAD", 5)].

Definition ParseMethod (n : option yaml) (context : str) : result nat :=
  match n with
  | Some (YScalar m) =>
      match list_find (fun kv => kv.1 = m) kMethodMap with
      | Some (_, (_, v)) => inr v
      | None => throw (context ++ lit ": unsupported method: " ++ m)
      end
  | _ => throw (context ++ lit ": method must be a string")
  end.

(** [unordered_map::emplace]: the first value of a key stays. *)
Definition emplace (l : list (str * str)) (k v : str) : list (str * str) :=
  if existsb (fun kv => kv.1 =s k) l then l else l ++ [(k, v)].

Fixpoint parse_params (context : str) (items : list (yaml * yaml)) (acc : list (str * str)) :
    result (list (str * str)) :=
  match items with
  | [] => inr acc
  | (YScalar k, YScalar v) :: items => parse_params context items (emplace acc k v)
  | _ :: _ => throw (context ++ lit ": `params` keys and values must be strings")
  end.

Definition ParseFactoryConfig (n : option yaml) (context : str) : result FactoryConfig :=
  match n with
  | Some (YMap l) =>
      match field (YMap l) (lit "factory") with
      | Some (YScalar lib) =>
          match field (YMap l) (lit "params") with
          | None => inr (mkFactory lib [])
          | Some (YMap items) =>
              let* ps := parse_params context items [] in inr (mkFactory lib ps)
          | Some _ => throw (context ++ lit ": field `params` must be an object")
          end
      | _ => throw (context ++ lit ": field `factory` is required")
      end
  | _ => throw (context ++ lit ": must be an object")
  end.

(** Run a parser on every item, with its index; the first error ends it. *)
Fixpoint parse_items {A} (f : nat -> yaml -> result A) (i : nat) (l : list yaml) : result (list A) :=
  match l with
  | [] => inr []
  | n :: l =>
      let* a := f i n in
      let* rest := parse_items f (S i) l in
      inr (a :: rest)
  end.

Definition indexed (context : str) (i : nat) : str := context ++ lit "[" ++ to_string (Z.of_nat i) ++ lit "]".

Definition ParseFactoryConfigList (n : option yaml) (context : str) : result (list FactoryConfig) :=
  match n with
  | None => inr []
  | Some (YSeq l) => parse_items (fun i n => ParseFactoryConfig (Some n) (indexed context i)) 0 l
  | Some _ => throw (context ++ lit ": must be an array")
  end.

Definition parse_listener (item : yaml) : result ListenerConfig :=
  match item with
  | YMap _ =>
      match field item (lit "address"), field item (lit "port") with
      | Some (YScalar address), Some (YScalar port_node) =>
          let* port := convert as_int (YScalar port_node) in
          if (port <=? 0)%Z || (65535 <? port)%Z then throw (lit "listeners.port must be in range [1, 65535]")
          else
            let* io_threads :=
              match field item (lit "io_threads") with
              | None => inr 1%Z
              | Some (YScalar s) =>
                  let* n := convert as_size (YScalar s) in
                  if (n =? 0)%Z then throw (lit "listeners.io_threads must be greater than 0") else inr n
              | Some _ => throw (lit "listeners.io_threads must be a number")
              end in
            inr (mkListener address port io_threads)
      | Some (YScalar _), _ => throw (lit "listeners.port is required")
      | _, _ => throw (lit "listeners.address is required")
      end
  | _ => throw (lit "listeners item must be an object")
  end.

Definition ParseListeners (n : option yaml) : result (list ListenerConfig) :=
  match n with
  | Some (YSeq (x :: l)) => parse_items (fun _ => parse_listener) 0 (x :: l)
  | _ => throw (lit "listeners must be a non-empty array")
  end.

(** The loop, with the slots seen so far. *)
Fixpoint parse_services (i : nat) (seen : list Z) (l : list yaml) : result (list ServiceConfig) :=
  match l with
  | [] => inr []
  | n :: l =>
      match n with
      | YMap _ =>
          let ctx := indexed (lit "services") i in
          match field n (lit "slot") with
          | Some (YScalar s) =>
              let* slot :=
                match as_int64 s with
                | Some z => inr z
                | None => throw (ctx ++ lit ": field `slot` must be an integer")
                end in
              if (slot <? 0)%Z then throw (ctx ++ lit ": field `slot` must be greater than or equal to 0")
              else if bool_decide (slot ∈ seen)
              then throw (ctx ++ lit ": duplicate service slot " ++ to_string slot)
              else
                let* f := ParseFactoryConfig (Some n) ctx in
                let* rest := parse_services (S i) (slot :: seen) l in
                inr (mkService slot f :: rest)
          | _ => throw (ctx ++ lit ": field `slot` is required")
          end
      | _ => throw (lit "service item must be an object")
      end
  end.

Definition ParseServices (n : option yaml) : result (list ServiceConfig) :=
  match n with
  | None => inr []
  | Some (YSeq l) => parse_services 0 [] l
  | Some _ => throw (lit "services must be an array")
  end.

Definition ParseLogger (n : option yaml) : result (option FactoryConfig) :=
  match n with
  | None => inr None
  | Some _ => let* f := ParseFactoryConfig n (lit "logger") in inr (Some f)
  end.

Definition bool_or_false (n : option yaml) : result bool :=
  match n with None => inr false | Some n => convert as_bool n end.

Definition parse_route (i : nat) (n : yaml) : result RouteConfig :=
  match n with
  | YMap _ =>
      let ctx := indexed (lit "routes") i in
      match field n (lit "path") with
      | Some (YScalar path) =>
          let* method := ParseMethod (field n (lit "method")) ctx in
          let* ignore := bool_or_false (field n (lit "ignore_default_route")) in
          let* cpu := bool_or_false (field n (lit "cpu")) in
          let* handler := ParseFactoryConfig (field n (lit "handler")) (ctx ++ lit ".handler") in
          let* aspects := ParseFactoryConfigList (field n (lit "aspects")) (ctx ++ lit ".aspects") in
          let* terminal :=
            ParseFactoryConfigList (field n (lit "terminal_aspects")) (ctx ++ lit ".terminal_aspects") in
          inr (mkRoute method path ignore cpu handler aspects terminal)
      | _ => throw (ctx ++ lit ": field `path` is required")
      end
  | _ => throw (lit "route item must be an object")
  end.

Definition ParseRoutes (n : option yaml) : result (list RouteConfig) :=
  match n with
  | None => inr []
  | Some (YSeq l) => parse_items parse_route 0 l
  | Some _ => throw (lit "routes must be an array")
  end.

Definition ParseGlobal (n : option yaml) : result GlobalConfig :=
  match n with
  | None => inr (mkGlobal None [])
  | Some (YMap l) =>
      let* default_handler :=
        match field (YMap l) (lit "default_handler") with
        | None => inr None
        | Some h => let* f := ParseFactoryConfig (Some h) (lit "global.default_handler") in inr (Some f)
        end in
      let* aspects := ParseFactoryConfigList (field (YMap l) (lit "aspects")) (lit "global.aspects") in
      inr (mkGlobal default_handler aspects)
  | Some _ => throw (lit "global must be an object")
  end.

Definition default_executor : ExecutorConfig :=
  mkExecutor false hardware_concurrency (2 ^ 31 - 1) 0 60000 100 1.

(** An optional number. *)
Definition size_field (n : option yaml) (name : str) (dflt : Z) : result Z :=
  match n with
  | None => inr dflt
  | Some (YScalar s) => convert as_size (YScalar s)
  | Some _ => throw (name ++ lit " must be a number")
  end.

(** An optional number that must not be 0. *)
Definition positive_field (n : option yaml) (name : str) (dflt : Z) : result Z :=
  match n with
  | None => inr dflt
  | Some _ =>
      let* z := size_field n name dflt in
      if (z =? 0)%Z then throw (name ++ lit " must be greater than 0") else inr z
  end.

Definition ParseExecutorConfig (n : option yaml) : result ExecutorConfig :=
  let d := default_executor in
  match n with
  | None => inr d
  | Some (YMap l) =>
      let f k := field (YMap l) k in
      let* core := positive_field (f (lit "core_thread_num")) (lit "server.executor.core_thread_num")
                     (core_thread_num d) in
      let* max := positive_field (f (lit "max_thread_num")) (lit "server.executor.max_thread_num")
                    (max_thread_num d) in
      if (max <? core)%Z
      then throw (lit "server.executor.max_thread_num must be greater than or equal to core_thread_num")
      else
        let* queue := size_field (f (lit "fast_queue_capacity")) (lit "server.executor.fast_queue_capacity")
                        (fast_queue_capacity d) in
        let* clean := size_field (f (lit "thread_clean_interval")) (lit "server.executor.thread_clean_interval")
                        (thread_clean_interval d) in
        let* scan := size_field (f (lit "task_scan_interval")) (lit "server.executor.task_scan_interval")
                       (task_scan_interval d) in
        let* suspend := size_field (f (lit "suspend_time")) (lit "server.executor.suspend_time")
                          (suspend_time d) in
        inr (mkExecutor true core max queue clean scan suspend)
  | Some _ => throw (lit "server.executor must be an object")
  end.

Definition ParseServerSection (n : option yaml) : result ServerSectionConfig :=
  match n with
  | None => inr (mkSection 4 false 0 default_executor)
  | Some (YMap l) =>
      let f k := field (YMap l) k in
      let* threads := positive_field (f (lit "thread_count")) (lit "server.thread_count") 4 in
      let* has_max :=
        match f (lit "has_max_connection") with
        | None => inr false
        | Some (YScalar s) => convert as_bool (YScalar s)
        | Some _ => throw (lit "server.has_max_connection must be a bool")
        end in
      let* max :=
        match f (lit "max_connection") with
        | None => inr 0%Z
        | Some (YScalar s) =>
            let* z := convert as_int64 (YScalar s) in
            if (z <=? 0)%Z then throw (lit "server.max_connection must be greater than 0") else inr z
        | Some _ => throw (lit "server.max_connection must be a number")
        end in
      if has_max && (max =? 0)%Z
      then throw (lit "server.max_connection must be greater than 0 when server.has_max_connection is true")
      else
        let* executor := ParseExecutorConfig (f (lit "executor")) in
        inr (mkSection threads has_max max executor)
  | Some _ => throw (lit "server must be an object")
  end.

(** [LoadConfigFromFile], on what the file holds. *)
Definition LoadConfig (root : option yaml) : result ServerConfig :=
  match root with
  | Some (YMap l) =>
      let f k := field (YMap l) k in
      let* server := ParseServerSection (f (lit "server")) in
      let* listeners := ParseListeners (f (lit "listeners")) in
      let* services := ParseServices (f (lit "services")) in
      let* logger := ParseLogger (f (lit "logger")) in
      let* global := ParseGlobal (f (lit "global")) in
      let* routes := ParseRoutes (f (lit "routes")) in
      inr (mkServerConfig (sec_thread_count server) (sec_has_max_connection server) (sec_max_connection server)
             (sec_executor server) listeners services logger global routes)
  | _ => throw (lit "config root must be an object")
  end.

(** Which file is read: the one given, or the first of two defaults. *)
Definition ResolveConfigPath (exists_ : str -> bool) (cwd : str) (cli_path : option str) : result str :=
  match cli_path with
  | Some p => if exists_ p then inr p else throw (lit "config file not found: " ++ p)
  | None =>
      let cwd_default := cwd ++ lit "/bsrvrun.yaml" in
      let etc_default := lit "/etc/bsrvrun/bsrvrun.yaml" in
      if exists_ cwd_default then inr cwd_default
      else if exists_ etc_default then inr etc_default
      else throw (lit "cannot find config file; checked ./bsrvrun.yaml and /etc/bsrvrun/bsrvrun.yaml")
  end.

(** ** What a loaded configuration satisfies *)

Definition factory_ok (f : FactoryConfig) : Prop := NoDup (params f).*1.

Definition executor_ok (e : ExecutorConfig) : Prop :=
  if configured e then
    (core_thread_num e <= max_thread_num e)%Z /\
    (is_size_t (core_thread_num e) /\ is_size_t (max_thread_num e) /\ is_size_t (fast_queue_capacity e)) /\
    is_size_t (thread_clean_interval e) /\ is_size_t (task_scan_interval e) /\ is_size_t (suspend_time e) /\
    (core_thread_num e = 0 -> hardware_concurrency = 0)%Z /\ (max_thread_num e <> 0)%Z
  else e = default_executor.

Definition listener_ok (l : ListenerConfig) : Prop :=
  (1 <= port l <= 65535)%Z /\ (io_threads l <> 0)%Z /\ is_size_t (io_threads l).

Definition route_ok (r : RouteConfig) : Prop :=
  method r < 6 /\ factory_ok (handler r) /\ Forall factory_ok (aspects r) /\ Forall factory_ok (terminal_aspects r).

Record config_ok (c : ServerConfig) : Prop := {
  ok_threads : (thread_count c <> 0)%Z /\ is_size_t (thread_count c);
  ok_limit : (0 <= max_connection c <= int64_max)%Z /\ (has_max_connection c = true -> max_connection c <> 0%Z);
  ok_executor : executor_ok (executor c);
  ok_listeners : listeners c <> [] /\ Forall listener_ok (listeners c);
  ok_slots : NoDup (slot <$> services c);
  ok_services : Forall (fun s => (0 <= slot s <= int64_max)%Z /\ factory_ok (factory s)) (services c);
  ok_logger : forall f, logger c = Some f -> factory_ok f;
  ok_global : (forall f, default_handler (global c) = Some f -> factory_ok f) /\
    Forall factory_ok (global_aspects (global c));
  ok_routes : Forall route_ok (routes c);
}.

Lemma bind_inr {A B} (m : result A) (f : A -> result B) b : bind m f = inr b <-> exists a, m = inr a /\ f a = inr b.
Proof. destruct m; cbn; split; intros; destruct_and?; naive_solver. Qed.

(** Take a successful parse apart. *)
Ltac inv_result :=
  repeat match goal with
  | H : bind _ _ = inr _ |- _ => apply bind_inr in H as (? & ? & ?)
  | H : throw _ = inr _ |- _ => discriminate H
  | H : inl _ = inr _ |- _ => discriminate H
  | H : inr _ = inr _ |- _ => injection H as H; simplify_eq
  | H : context [if ?b then throw _ else _] |- _ => destruct b eqn:?; [discriminate H|]
  | H : context [match ?x with None => _ | Some _ => _ end] |- _ => destruct x eqn:?
  | H : context [match ?x with YNull => _ | _ => _ end] |- _ => destruct x eqn:?
  end.

Hypothesis as_size_range : forall s z, as_size s = Some z -> is_size_t z.
Hypothesis as_int64_range : forall s z, as_int64 s = Some z -> is_int64 z.
Hypothesis hardware_range : (0 <= hardware_concurrency < 2 ^ 31)%Z.

Lemma convert_inr {A} (conv : str -> option A) n a : convert conv n = inr a -> exists s, n = YScalar s /\ conv s = Some a.
Proof. unfold convert. destruct n; try done. destruct (conv s) eqn:E; [|done]. intros [= <-]. by exists s. Qed.

Lemma parse_items_inr {A} (f : nat -> yaml -> result A) (P : A -> Prop) l : forall i r,
  (forall i n a, f i n = inr a -> P a) -> parse_items f i l = inr r -> Forall P r /\ length r = length l.
Proof.
  induction l as [|n l IH]; intros i r Hf; cbn [parse_items]; intros Hr; inv_result; [done|].
  match goal with H : parse_items _ _ _ = inr _ |- _ => destruct (IH _ _ Hf H) as [IH1 IH2] end.
  split; [constructor; eauto|cbn; lia].
Qed.

Lemma existsb_key k (l : list (str * str)) : existsb (fun kv => kv.1 =s k) l = true <-> k ∈ l.*1.
Proof.
  rewrite existsb_exists, list_elem_of_fmap. split.
  - intros (kv & Hin & Hk). exists kv. apply str_eqb_eq in Hk. split; [done|by apply list_elem_of_In].
  - intros (kv & -> & Hin). exists kv. split; [by apply list_elem_of_In|apply str_eqb_refl].
Qed.

Lemma emplace_nodup l k v : NoDup l.*1 -> NoDup (emplace l k v).*1.
Proof.
  intros Hl. unfold emplace. destruct (existsb _ l) eqn:E; [done|]. rewrite fmap_app. apply NoDup_app.
  split; [done|]. split; [|apply NoDup_singleton]. intros x Hx Hk%list_elem_of_singleton. cbn in Hk. subst x.
  apply existsb_key in Hx. congruence.
Qed.

Lemma parse_params_nodup context items : forall acc r,
  NoDup acc.*1 -> parse_params context items acc = inr r -> NoDup r.*1.
Proof.
  induction items as [|[k v] items IH]; intros acc r Hacc; cbn [parse_params]; [by intros [= <-]|].
  destruct k; try done. destruct v; try done. intros Hr. eapply IH; [|done]. by apply emplace_nodup.
Qed.

Lemma ParseFactoryConfig_ok n context f : ParseFactoryConfig n context = inr f -> factory_ok f.
Proof.
  unfold ParseFactoryConfig, factory_ok. intros Hf. inv_result; try constructor.
  eapply parse_params_nodup; [|done]. constructor.
Qed.

Lemma ParseFactoryConfigList_ok n context l : ParseFactoryConfigList n context = inr l -> Forall factory_ok l.
Proof.
  unfold ParseFactoryConfigList. intros Hl. inv_result; [|constructor].
  eapply parse_items_inr; [|done]. intros i m a. apply ParseFactoryConfig_ok.
Qed.

Lemma parse_listener_ok n l : parse_listener n = inr l -> listener_ok l.
Proof.
  unfold parse_listener, listener_ok. intros Hl. inv_result; reflect_bools; cbn.
  - match goal with H : convert as_size _ = inr _ |- _ => apply convert_inr in H as (? & ? & ?%as_size_range) end.
    split; [lia|done].
  - split; [lia|]. split; [done|]. unfold is_size_t, size_t_mod. lia.
Qed.

Lemma parse_services_ok l : forall i seen r,
  parse_services i seen l = inr r ->
  NoDup (slot <$> r) /\ (forall x, x ∈ slot <$> r -> x ∉ seen) /\
  Forall (fun s => (0 <= slot s <= int64_max)%Z /\ factory_ok (factory s)) r.
Proof.
  induction l as [|n l IH]; intros i seen r; cbn [parse_services]; intros Hr; inv_result.
  - split; [constructor|]. split; [|constructor]. intros x Hx. by apply elem_of_nil in Hx.
  - match goal with H : parse_services _ _ _ = inr _ |- _ => destruct (IH _ _ _ H) as (I1 & I2 & I3) end.
    match goal with H : ParseFactoryConfig _ _ = inr _ |- _ => apply ParseFactoryConfig_ok in H end.
    match goal with H : as_int64 _ = Some _ |- _ => apply as_int64_range in H end.
    reflect_bools. rewrite fmap_cons. cbn [slot]. split_and!.
    + constructor; [|done]. intros Hx. apply (I2 _ Hx). by constructor.
    + intros y [->|Hy]%elem_of_cons; [done|]. intros Hs. apply (I2 _ Hy). by constructor.
    + constructor; [|done]. cbn. unfold is_int64 in *. split; [lia|done].
Qed.

Lemma method_known m v : list_find (fun kv : str * nat => kv.1 = m) kMethodMap = Some v -> v.2.2 < 6.
Proof.
  destruct v as [i [k v]]. intros (Hl & _)%list_find_Some. apply list_elem_of_lookup_2 in Hl.
  unfold kMethodMap in Hl. repeat (apply elem_of_cons in Hl as [Hl|Hl]; [injection Hl as _ ->; cbn; lia|]).
  by apply elem_of_nil in Hl.
Qed.

Lemma parse_route_ok i n r : parse_route i n = inr r -> route_ok r.
Proof.
  unfold parse_route, ParseMethod. intros Hr. inv_result.
  match goal with H : list_find _ _ = Some ?p |- _ => destruct p as [? [? ?]]; apply method_known in H end.
  inv_result.
  repeat match goal with
  | H : ParseFactoryConfig _ _ = inr _ |- _ => apply ParseFactoryConfig_ok in H
  | H : ParseFactoryConfigList _ _ = inr _ |- _ => apply ParseFactoryConfigList_ok in H
  end.
  split; [done|]. cbn. done.
Qed.

Lemma size_field_range n name dflt z : is_size_t dflt -> size_field n name dflt = inr z -> is_size_t z.
Proof.
  unfold size_field. intros Hd Hz. inv_result; [|done].
  match goal with H : convert _ _ = inr _ |- _ => apply convert_inr in H as (? & ? & ?%as_size_range) end. done.
Qed.

Lemma positive_field_range n name dflt z :
  is_size_t dflt -> positive_field n name dflt = inr z -> is_size_t z /\ (z = 0 -> dflt = 0)%Z.
Proof.
  unfold positive_field. intros Hd Hz. inv_result; [|done]. reflect_bools.
  split; [by eapply size_field_range|done].
Qed.

Lemma ParseExecutorConfig_ok n e : ParseExecutorConfig n = inr e -> executor_ok e.
Proof.
  unfold ParseExecutorConfig. intros He. inv_result; [|done]. unfold executor_ok. cbn.
  assert (is_size_t hardware_concurrency) as Hh by (unfold is_size_t, size_t_mod; lia).
  assert (forall z, (0 <= z < 2 ^ 31)%Z -> is_size_t z) as Hs by (unfold is_size_t, size_t_mod; lia).
  repeat match goal with
  | H : positive_field _ _ _ = inr _ |- _ =>
      apply positive_field_range in H as [? ?]; [|cbn [default_executor core_thread_num max_thread_num]; auto with lia]
  | H : size_field _ _ _ = inr _ |- _ =>
      apply size_field_range in H; [|apply Hs; cbn; lia]
  end.
  reflect_bools. cbn in *. split_and!; try done; lia.
Qed.

Lemma ParseServerSection_ok n s :
  ParseServerSection n = inr s ->
  ((sec_thread_count s <> 0)%Z /\ is_size_t (sec_thread_count s)) /\
  ((0 <= sec_max_connection s <= int64_max)%Z /\ (sec_has_max_connection s = true -> sec_max_connection s <> 0%Z)) /\
  executor_ok (sec_executor s).
Proof.
  unfold ParseServerSection. intros Hs.
  assert (is_size_t 4) as H4 by (unfold is_size_t, size_t_mod; lia). inv_result; cbn;
    repeat match goal with
    | H : ParseExecutorConfig _ = inr _ |- _ => apply ParseExecutorConfig_ok in H
    | H : positive_field _ _ _ = inr _ |- _ => apply positive_field_range in H as [? ?]; [|done]
    | H : convert as_int64 _ = inr _ |- _ => apply convert_inr in H as (? & ? & ?%as_int64_range)
    end; reflect_bools; unfold is_int64, int64_max in *;
    repeat match goal with H : (?a && ?b) = false |- _ => apply andb_false_iff in H end.
  all: split_and!; try done; try lia; intros Ht; try (destruct_or?; [congruence|reflect_bools; lia]); try congruence; lia.
Qed.

Lemma ParseListeners_ok n l : ParseListeners n = inr l -> l <> [] /\ Forall listener_ok l.
Proof.
  unfold ParseListeners. intros Hl. destruct n as [[| |[|x items]|]|]; try done.
  destruct (parse_items_inr _ listener_ok _ _ _ (fun _ => parse_listener_ok) Hl) as [H1 H2].
  split; [by destruct l|done].
Qed.

Lemma ParseServices_ok n l :
  ParseServices n = inr l ->
  NoDup (slot <$> l) /\ Forall (fun s => (0 <= slot s <= int64_max)%Z /\ factory_ok (factory s)) l.
Proof.
  unfold ParseServices. intros Hl. inv_result; [|by split; constructor].
  match goal with H : parse_services _ _ _ = inr _ |- _ => apply parse_services_ok in H as (? & _ & ?) end. done.
Qed.

Lemma ParseLogger_ok n o : ParseLogger n = inr o -> forall f, o = Some f -> factory_ok f.
Proof.
  unfold ParseLogger. intros Hl f ->. inv_result. by eapply ParseFactoryConfig_ok.
Qed.

Lemma ParseGlobal_ok n g :
  ParseGlobal n = inr g -> (forall f, default_handler g = Some f -> factory_ok f) /\ Forall factory_ok (global_aspects g).
Proof.
  unfold ParseGlobal. intros Hg. destruct n as [[| | |l]|]; try done; [|injection Hg as <-; by split; [|constructor]].
  apply bind_inr in Hg as (dh & Hdh & Hg). apply bind_inr in Hg as (asp & Hasp & Hg). injection Hg as <-.
  split; [|by eapply ParseFactoryConfigList_ok]. cbn. intros f ->. inv_result. by eapply ParseFactoryConfig_ok.
Qed.

Lemma ParseRoutes_ok n l : ParseRoutes n = inr l -> Forall route_ok l.
Proof.
  unfold ParseRoutes. intros Hl. destruct n as [[| |items|]|]; try done; [|injection Hl as <-; constructor].
  by destruct (parse_items_inr _ route_ok _ _ _ parse_route_ok Hl).
Qed.

Lemma LoadConfig_ok root c : LoadConfig root = inr c -> config_ok c.
Proof.
  unfold LoadConfig. intros Hc. destruct root as [[| | |l]|]; try done.
  apply bind_inr in Hc as (s & Hs & Hc). apply bind_inr in Hc as (ls & Hls & Hc).
  apply bind_inr in Hc as (sv & Hsv & Hc). apply bind_inr in Hc as (lg & Hlg & Hc).
  apply bind_inr in Hc as (gl & Hgl & Hc). apply bind_inr in Hc as (rs & Hrs & Hc). injection Hc as <-.
  apply ParseServerSection_ok in Hs as (S1 & S2 & S3). apply ParseServices_ok in Hsv as [V1 V2].
  constructor; cbn; [done|done|done|by apply ParseListeners_ok in Hls|done|done|by eapply ParseLogger_ok
    |by apply ParseGlobal_ok in Hgl|by apply ParseRoutes_ok in Hrs].
Qed.

(** ** Writing a configuration *)

Definition entry (k : str) (v : yaml) : yaml * yaml := (YScalar k, v).
Definition number (z : Z) : yaml := YScalar (to_string z).
Definition boolean (b : bool) : yaml := YScalar (if b then lit "true" else lit "false").

Definition factory_fields (f : FactoryConfig) : list (yaml * yaml) :=
  [entry (lit "factory") (YScalar (library f));
   entry (lit "params") (YMap ((fun kv => entry kv.1 (YScalar kv.2)) <$> params f))].
Definition yaml_of_factory (f : FactoryConfig) : yaml := YMap (factory_fields f).
Definition yaml_of_factories (l : list FactoryConfig) : yaml := YSeq (yaml_of_factory <$> l).

Definition yaml_of_listener (l : ListenerConfig) : yaml :=
  YMap [entry (lit "address") (YScalar (address l)); entry (lit "port") (number (port l));
        entry (lit "io_threads") (number (io_threads l))].

Definition yaml_of_service (s : ServiceConfig) : yaml :=
  YMap (entry (lit "slot") (number (slot s)) :: factory_fields (factory s)).

Definition method_name (m : nat) : str :=
  match m with
  | 0 => lit "GET" | 1 => lit "POST" | 2 => lit "PUT" | 3 => lit "DELETE" | 4 => lit "PATCH" | _ => lit "HEAD"
  end.

Definition yaml_of_route (r : RouteConfig) : yaml :=
  YMap [entry (lit "method") (YScalar (method_name (method r))); entry (lit "path") (YScalar (path r));
        entry (lit "ignore_default_route") (boolean (ignore_default_route r)); entry (lit "cpu") (boolean (cpu r));
        entry (lit "handler") (yaml_of_factory (handler r)); entry (lit "aspects") (yaml_of_factories (aspects r));
        entry (lit "terminal_aspects") (yaml_of_factories (terminal_aspects r))].

Definition yaml_of_global (g : GlobalConfig) : yaml :=
  YMap ((match default_handler g with
         | Some f => [entry (lit "default_handler") (yaml_of_factory f)]
         | None => []
         end) ++ [entry (lit "aspects") (yaml_of_factories (global_aspects g))]).

Definition yaml_of_executor (e : ExecutorConfig) : yaml :=
  YMap ((if (core_thread_num e =? 0)%Z then [] else [entry (lit "core_thread_num") (number (core_thread_num e))]) ++
        [entry (lit "max_thread_num") (number (max_thread_num e));
         entry (lit "fast_queue_capacity") (number (fast_queue_capacity e));
         entry (lit "thread_clean_interval") (number (thread_clean_interval e));
         entry (lit "task_scan_interval") (number (task_scan_interval e));
         entry (lit "suspend_time") (number (suspend_time e))]).

Definition yaml_of_server (c : ServerConfig) : yaml :=
  YMap ([entry (lit "thread_count") (number (thread_count c));
         entry (lit "has_max_connection") (boolean (has_max_connection c))] ++
        (if (max_connection c =? 0)%Z then [] else [entry (lit "max_connection") (number (max_connection c))]) ++
        (if configured (executor c) then [entry (lit "executor") (yaml_of_executor (executor c))] else [])).

Definition yaml_of_config (c : ServerConfig) : yaml :=
  YMap ([entry (lit "server") (yaml_of_server c); entry (lit "listeners") (YSeq (yaml_of_listener <$> listeners c));
         entry (lit "services") (YSeq (yaml_of_service <$> services c))] ++
        (match logger c with Some f => [entry (lit "logger") (yaml_of_factory f)] | None => [] end) ++
        [entry (lit "global") (yaml_of_global (global c)); entry (lit "routes") (YSeq (yaml_of_route <$> routes c))]).

Hypothesis as_size_reads : forall z, is_size_t z -> as_size (to_string z) = Some z.
Hypothesis as_int_reads : forall z, (1 <= z <= 65535)%Z -> as_int (to_string z) = Some z.
Hypothesis as_int64_reads : forall z, (0 <= z <= int64_max)%Z -> as_int64 (to_string z) = Some z.
Hypothesis as_bool_reads : forall b : bool, as_bool (if b then lit "true" else lit "false") = Some b.

Lemma map_find_here k v l : map_find k (entry k v :: l) = Some v.
Proof. cbn. by rewrite str_eqb_refl. Qed.

Lemma map_find_next k k' v l : k' <> k -> map_find k (entry k' v :: l) = map_find k l.
Proof. intros Hk. cbn. by rewrite (proj2 (str_eqb_neq _ _) Hk). Qed.

(** Look up a field of a document that was written out. *)
Ltac find_fields :=
  cbn [field app];
  repeat (rewrite map_find_here || (rewrite map_find_next by (apply (bool_decide_unpack _); vm_compute; exact I)));
  cbn [map_find].

Lemma parse_params_written context items : forall acc,
  NoDup (acc ++ items).*1 ->
  parse_params context ((fun kv => entry kv.1 (YScalar kv.2)) <$> items) acc = inr (acc ++ items).
Proof.
  induction items as [|[k v] items IH]; intros acc Hnd; cbn [fmap list_fmap parse_params entry fst snd];
    [by rewrite app_nil_r|].
  unfold emplace. destruct (existsb _ acc) eqn:E.
  - apply existsb_key in E. rewrite fmap_app in Hnd. apply NoDup_app in Hnd as (_ & Hd & _).
    exfalso. apply (Hd k E). constructor.
  - rewrite IH; rewrite <- app_assoc; [done|]. exact Hnd.
Qed.

Lemma ParseFactory_fields l f context :
  factory_ok f -> field (YMap l) (lit "factory") = Some (YScalar (library f)) ->
  field (YMap l) (lit "params") = Some (YMap ((fun kv => entry kv.1 (YScalar kv.2)) <$> params f)) ->
  ParseFactoryConfig (Some (YMap l)) context = inr f.
Proof.
  intros Hf H1 H2. unfold ParseFactoryConfig. rewrite H1, H2, (parse_params_written context (params f) []) by done.
  cbn. by destruct f.
Qed.

Lemma ParseFactory_written f context :
  factory_ok f -> ParseFactoryConfig (Some (yaml_of_factory f)) context = inr f.
Proof. intros Hf. apply ParseFactory_fields; [done|..]; unfold factory_fields; by find_fields. Qed.

Lemma parse_items_written {A} (f : nat -> yaml -> result A) (print : A -> yaml) (P : A -> Prop) l : forall i,
  (forall i a, P a -> f i (print a) = inr a) -> Forall P l -> parse_items f i (print <$> l) = inr l.
Proof.
  induction l as [|a l IH]; intros i Hf Hl; [done|]. apply Forall_cons in Hl as [Ha Hl].
  cbn [fmap list_fmap parse_items]. rewrite Hf by done. cbn [bind]. change (list_fmap _ _ print l) with (print <$> l).
  by rewrite IH.
Qed.

Lemma ParseFactoryList_written l context :
  Forall factory_ok l -> ParseFactoryConfigList (Some (yaml_of_factories l)) context = inr l.
Proof.
  intros Hl. unfold ParseFactoryConfigList, yaml_of_factories.
  apply (parse_items_written _ yaml_of_factory factory_ok); [|done]. intros i a Ha. by apply ParseFactory_written.
Qed.

Lemma parse_listener_written l : listener_ok l -> parse_listener (yaml_of_listener l) = inr l.
Proof.
  intros (Hp & H0 & Hs). unfold parse_listener, yaml_of_listener, number. find_fields.
  cbn [convert]. rewrite as_int_reads, as_size_reads by done. cbn [bind].
  rewrite (proj2 (Z.leb_gt _ _)), (proj2 (Z.ltb_ge _ _)), (proj2 (Z.eqb_neq _ _)) by lia. by destruct l.
Qed.

Lemma ParseService_factory s context :
  factory_ok (factory s) -> ParseFactoryConfig (Some (yaml_of_service s)) context = inr (factory s).
Proof. intros Hf. apply ParseFactory_fields; [done|..]; unfold factory_fields; by find_fields. Qed.

Lemma parse_services_written l : forall i seen,
  NoDup (slot <$> l) -> (forall x, x ∈ slot <$> l -> x ∉ seen) ->
  Forall (fun s => (0 <= slot s <= int64_max)%Z /\ factory_ok (factory s)) l ->
  parse_services i seen (yaml_of_service <$> l) = inr l.
Proof.
  induction l as [|s l IH]; intros i seen Hnd Hseen Hok; [done|].
  change (slot <$> s :: l) with (slot s :: (slot <$> l)) in *.
  change (yaml_of_service <$> s :: l) with (yaml_of_service s :: (yaml_of_service <$> l)).
  apply NoDup_cons in Hnd as [Hs Hnd]. apply Forall_cons in Hok as [[Hr Hf] Hok].
  cbn [parse_services]. unfold yaml_of_service at 1 2, number. find_fields.
  rewrite as_int64_reads by done. cbn [bind]. rewrite (proj2 (Z.ltb_ge _ _)) by lia.
  rewrite bool_decide_eq_false_2 by (apply Hseen; constructor).
  rewrite ParseService_factory by done.
  cbn [bind]. rewrite IH; [cbn; by destruct s|done| |done].
  intros x Hx [->|Hin]%elem_of_cons; [done|]. apply (Hseen x); [by constructor|done].
Qed.

Lemma ParseMethod_written m context : m < 6 -> ParseMethod (Some (YScalar (method_name m))) context = inr m.
Proof.
  intros Hm. destruct m as [|[|[|[|[|[|m]]]]]]; [vm_compute; reflexivity..|lia].
Qed.

Lemma parse_route_written i r : route_ok r -> parse_route i (yaml_of_route r) = inr r.
Proof.
  intros (Hm & Hh & Ha & Ht). unfold parse_route, yaml_of_route, boolean, bool_or_false. find_fields.
  rewrite ParseMethod_written by done. cbn [bind convert]. rewrite !as_bool_reads. cbn [bind].
  rewrite ParseFactory_written by done. cbn [bind]. rewrite !ParseFactoryList_written by done. cbn [bind].
  by destruct r.
Qed.

Lemma ParseGlobal_written g :
  (forall f, default_handler g = Some f -> factory_ok f) -> Forall factory_ok (global_aspects g) ->
  ParseGlobal (Some (yaml_of_global g)) = inr g.
Proof.
  intros Hd Ha. unfold ParseGlobal, yaml_of_global. destruct g as [[f|] asp]; cbn [default_handler global_aspects] in *.
  - find_fields. rewrite ParseFactory_written by (by apply Hd). cbn [bind]. by rewrite ParseFactoryList_written.
  - find_fields. cbn [bind]. by rewrite ParseFactoryList_written.
Qed.

Lemma size_field_written name dflt z : is_size_t z -> size_field (Some (number z)) name dflt = inr z.
Proof. intros Hz. unfold size_field, number. cbn [convert]. by rewrite as_size_reads. Qed.

Lemma positive_field_written name dflt z :
  is_size_t z -> (z <> 0)%Z -> positive_field (Some (number z)) name dflt = inr z.
Proof.
  intros Hz H0. unfold positive_field. rewrite size_field_written by done. cbn [bind].
  by rewrite (proj2 (Z.eqb_neq _ _)).
Qed.

Lemma ParseExecutor_written e :
  configured e = true -> executor_ok e -> ParseExecutorConfig (Some (yaml_of_executor e)) = inr e.
Proof.
  intros Hc He. unfold executor_ok in He. rewrite Hc in He.
  destruct He as (Hle & (R1 & R2 & R3) & R4 & R5 & R6 & Hz & Hm).
  assert (positive_field (field (yaml_of_executor e) (lit "core_thread_num")) (lit "server.executor.core_thread_num")
    (core_thread_num default_executor) = inr (core_thread_num e)) as H1.
  { unfold yaml_of_executor. destruct (core_thread_num e =? 0)%Z eqn:E.
    - apply Z.eqb_eq in E. find_fields. cbn. by rewrite E, Hz.
    - apply Z.eqb_neq in E. find_fields. by apply positive_field_written. }
  unfold ParseExecutorConfig. unfold yaml_of_executor at 1. cbv zeta.
  change (field (YMap _) (lit "core_thread_num")) with (field (yaml_of_executor e) (lit "core_thread_num")).
  rewrite H1. cbn [bind]. clear H1.
  destruct (core_thread_num e =? 0)%Z; find_fields;
    (rewrite positive_field_written by done; cbn [bind];
     rewrite (proj2 (Z.ltb_ge _ _)) by lia; rewrite size_field_written by done; cbn [bind];
     rewrite size_field_written by done; cbn [bind]; rewrite size_field_written by done; cbn [bind];
     rewrite size_field_written by done; cbn [bind]; rewrite <- Hc; by destruct e).
Qed.

Lemma ParseServer_written c :
  config_ok c ->
  ParseServerSection (Some (yaml_of_server c)) =
    inr (mkSection (thread_count c) (has_max_connection c) (max_connection c) (executor c)).
Proof.
  intros [[T1 T2] [L1 L2] He _ _ _ _ _ _].
  assert (ParseExecutorConfig (field (yaml_of_server c) (lit "executor")) = inr (executor c)) as Hex.
  { unfold yaml_of_server. destruct (max_connection c =? 0)%Z; destruct (configured (executor c)) eqn:Hc; find_fields;
      try (by apply ParseExecutor_written); unfold executor_ok in He; rewrite Hc in He; by rewrite He. }
  unfold ParseServerSection. unfold yaml_of_server at 1. cbv zeta.
  change (field (YMap _) (lit "executor")) with (field (yaml_of_server c) (lit "executor")). rewrite Hex. clear Hex.
  destruct (max_connection c =? 0)%Z eqn:Hm; destruct (configured (executor c)); find_fields;
    (rewrite positive_field_written by done; unfold boolean, number; cbn [bind convert]; rewrite as_bool_reads;
     cbn [bind]; rewrite ?as_int64_reads by done; cbn [bind]).
  1-2: apply Z.eqb_eq in Hm; destruct (has_max_connection c); [by destruct L2|]; cbn; by rewrite Hm.
  all: apply Z.eqb_neq in Hm; rewrite (proj2 (Z.leb_gt _ _)) by lia; cbn [bind];
    rewrite (proj2 (Z.eqb_neq _ _)) by done; by rewrite andb_false_r.
Qed.

(** ** What a document says

    The meaning of a document as a relation between it and a configuration: each
    part of the configuration against the field it is spelt in, with no reference
    to the parsers.  An optional scalar that is absent has its default; a given one
    is what yaml-cpp converts it to, and satisfies [ok]. *)

Definition given {A} (conv : str -> option A) (ok : A -> Prop) (n : option yaml) (dflt a : A) : Prop :=
  match n with
  | None => a = dflt
  | Some (YScalar s) => conv s = Some a /\ ok a
  | Some _ => False
  end.

Definition anything {A} (_ : A) : Prop := True.
Definition not_zero (z : Z) : Prop := z <> 0%Z.
Definition above_zero (z : Z) : Prop := (0 < z)%Z.

(** The first value of every key. *)
Fixpoint firsts (l : list (str * str)) : list (str * str) :=
  match l with
  | [] => []
  | kv :: l => kv :: filter (fun kv' => kv'.1 <> kv.1) (firsts l)
  end.

Definition params_from (n : option yaml) (ps : list (str * str)) : Prop :=
  match n with
  | None => ps = []
  | Some (YMap items) => exists kvs, items = (fun kv => entry kv.1 (YScalar kv.2)) <$> kvs /\ ps = firsts kvs
  | Some _ => False
  end.

Definition factory_from (n : option yaml) (f : FactoryConfig) : Prop :=
  exists l, n = Some (YMap l) /\ field (YMap l) (lit "factory") = Some (YScalar (library f)) /\
    params_from (field (YMap l) (lit "params")) (params f).

Definition optional_factory_from (n : option yaml) (o : option FactoryConfig) : Prop :=
  match n, o with None, None => True | Some _, Some f => factory_from n f | _, _ => False end.

(** An optional array: item [i] of it gives element [i]. *)
Definition each_from {A} (R : yaml -> A -> Prop) (n : option yaml) (l : list A) : Prop :=
  match n with None => l = [] | Some (YSeq items) => Forall2 R items l | Some _ => False end.

Definition factories_from : option yaml -> list FactoryConfig -> Prop :=
  each_from (fun item => factory_from (Some item)).

Definition listener_from (item : yaml) (l : ListenerConfig) : Prop :=
  exists p, field item (lit "address") = Some (YScalar (address l)) /\
    field item (lit "port") = Some (YScalar p) /\ as_int p = Some (port l) /\
    given as_size not_zero (field item (lit "io_threads")) 1%Z (io_threads l).

Definition service_from (item : yaml) (s : ServiceConfig) : Prop :=
  exists p, field item (lit "slot") = Some (YScalar p) /\ as_int64 p = Some (slot s) /\
    factory_from (Some item) (factory s).

Definition route_from (item : yaml) (r : RouteConfig) : Prop :=
  field item (lit "method") = Some (YScalar (method_name (method r))) /\
  field item (lit "path") = Some (YScalar (path r)) /\
  given as_bool anything (field item (lit "ignore_default_route")) false (ignore_default_route r) /\
  given as_bool anything (field item (lit "cpu")) false (cpu r) /\
  factory_from (field item (lit "handler")) (handler r) /\
  factories_from (field item (lit "aspects")) (aspects r) /\
  factories_from (field item (lit "terminal_aspects")) (terminal_aspects r).

Definition global_from (n : option yaml) (g : GlobalConfig) : Prop :=
  match n with
  | None => g = mkGlobal None []
  | Some (YMap l) =>
      optional_factory_from (field (YMap l) (lit "default_handler")) (default_handler g) /\
      factories_from (field (YMap l) (lit "aspects")) (global_aspects g)
  | Some _ => False
  end.

Definition executor_from (n : option yaml) (e : ExecutorConfig) : Prop :=
  match n with
  | None => e = default_executor
  | Some (YMap l) =>
      let size k ok dflt z := given as_size ok (field (YMap l) k) dflt z in
      configured e = true /\
      size (lit "core_thread_num") not_zero hardware_concurrency (core_thread_num e) /\
      size (lit "max_thread_num") not_zero (2 ^ 31 - 1)%Z (max_thread_num e) /\
      size (lit "fast_queue_capacity") anything 0%Z (fast_queue_capacity e) /\
      size (lit "thread_clean_interval") anything 60000%Z (thread_clean_interval e) /\
      size (lit "task_scan_interval") anything 100%Z (task_scan_interval e) /\
      size (lit "suspend_time") anything 1%Z (suspend_time e)
  | Some _ => False
  end.

Definition server_from (n : option yaml) (s : ServerSectionConfig) : Prop :=
  match n with
  | None => s = mkSection 4 false 0 default_executor
  | Some (YMap l) =>
      given as_size not_zero (field (YMap l) (lit "thread_count")) 4%Z (sec_thread_count s) /\
      given as_bool anything (field (YMap l) (lit "has_max_connection")) false (sec_has_max_connection s) /\
      given as_int64 above_zero (field (YMap l) (lit "max_connection")) 0%Z (sec_max_connection s) /\
      executor_from (field (YMap l) (lit "executor")) (sec_executor s)
  | Some _ => False
  end.

Definition config_from (root : option yaml) (c : ServerConfig) : Prop :=
  exists l, root = Some (YMap l) /\
    server_from (field (YMap l) (lit "server"))
      (mkSection (thread_count c) (has_max_connection c) (max_connection c) (executor c)) /\
    each_from listener_from (field (YMap l) (lit "listeners")) (listeners c) /\
    each_from service_from (field (YMap l) (lit "services")) (services c) /\
    optional_factory_from (field (YMap l) (lit "logger")) (logger c) /\
    global_from (field (YMap l) (lit "global")) (global c) /\
    each_from route_from (field (YMap l) (lit "routes")) (routes c).

(** ** The parsers read exactly that *)

Lemma convert_iff {A} (conv : str -> option A) s a : convert conv (YScalar s) = inr a <-> conv s = Some a.
Proof. cbn. destruct (conv s); naive_solver. Qed.

Lemma size_field_iff n name dflt z : size_field n name dflt = inr z <-> given as_size anything n dflt z.
Proof. destruct n as [[]|]; cbn; unfold anything, throw; [naive_solver| |naive_solver..]. destruct (as_size s); naive_solver. Qed.

Lemma positive_field_iff n name dflt z : positive_field n name dflt = inr z <-> given as_size not_zero n dflt z.
Proof.
  destruct n as [[]|]; cbn; unfold not_zero, throw; [naive_solver| |naive_solver..].
  destruct (as_size s) as [w|]; cbn; [|naive_solver]. destruct (Z.eqb_spec w 0); naive_solver.
Qed.

Lemma bool_or_false_iff n b : bool_or_false n = inr b <-> given as_bool anything n false b.
Proof. destruct n as [[]|]; cbn; unfold anything; [naive_solver| |naive_solver..]. destruct (as_bool s); naive_solver. Qed.

Lemma emplace_firsts acc k v kvs :
  emplace acc k v ++ filter (fun kv => kv.1 ∉ (emplace acc k v).*1) (firsts kvs) =
  acc ++ filter (fun kv => kv.1 ∉ acc.*1) (firsts ((k, v) :: kvs)).
Proof.
  cbn [firsts]. rewrite filter_cons, list_filter_filter. unfold emplace.
  destruct (existsb _ acc) eqn:E; cbn [fst].
  - apply existsb_key in E. rewrite decide_False by (intros Hk; by apply Hk). f_equal.
    apply list_filter_iff. intros kv. split; [|naive_solver]. intros Hk. split; [done|]. by intros Heq; rewrite Heq in Hk.
  - assert (k ∉ acc.*1) as Hk by (intros Hk%existsb_key; congruence). rewrite decide_True by done.
    rewrite <- app_assoc. f_equal. cbn [app]. f_equal. apply list_filter_iff. intros kv.
    rewrite fmap_app, not_elem_of_app. cbn. rewrite list_elem_of_singleton. naive_solver.
Qed.

Lemma parse_params_iff context items : forall acc r,
  parse_params context items acc = inr r <->
  exists kvs, items = (fun kv => entry kv.1 (YScalar kv.2)) <$> kvs /\
    r = acc ++ filter (fun kv => kv.1 ∉ acc.*1) (firsts kvs).
Proof.
  induction items as [|[k v] items IH]; intros acc r; cbn [parse_params].
  - split; [intros [= <-]; exists []; by rewrite app_nil_r|].
    intros ([|] & Hi & ->); [|done]. cbn. by rewrite app_nil_r.
  - destruct k as [|k| |]; try (split; [done|]; by intros ([|[] ?] & [=] & _)).
    destruct v as [|v| |]; try (split; [done|]; by intros ([|[] ?] & [=] & _)).
    rewrite IH. split.
    + intros (kvs & -> & ->). exists ((k, v) :: kvs). split; [done|]. apply emplace_firsts.
    + intros ([|[k' v'] kvs] & Hi & ->); [done|]. injection Hi as -> -> ->. exists kvs. split; [done|].
      symmetry. apply emplace_firsts.
Qed.

Lemma ParseFactoryConfig_iff n context f : ParseFactoryConfig n context = inr f <-> factory_from n f.
Proof.
  unfold ParseFactoryConfig, factory_from, params_from.
  destruct n as [[| | |l]|]; try (split; [done|]; by intros (? & [=] & _)).
  transitivity (field (YMap l) (lit "factory") = Some (YScalar (library f)) /\
    params_from (field (YMap l) (lit "params")) (params f)); [|unfold params_from; naive_solver].
  destruct f as [lib ps]. cbn [library params].
  destruct (field (YMap l) (lit "factory")) as [[|lib'| |]|]; try (split; [done|]; by intros [[=] _]).
  unfold params_from. destruct (field (YMap l) (lit "params")) as [[| | |items]|]; try (split; [done|]; by intros [_ []]).
  - rewrite bind_inr. setoid_rewrite parse_params_iff. cbn [app].
    assert (forall kvs, filter (fun kv : str * str => kv.1 ∉ ([] : list (str * str)).*1) (firsts kvs) = firsts kvs) as Hf.
    { intros kvs. induction (firsts kvs) as [|kv l' IHl]; [done|]. rewrite filter_cons_True by apply not_elem_of_nil. by rewrite IHl. }
    setoid_rewrite Hf. naive_solver.
  - naive_solver.
Qed.

Lemma parse_items_iff {A} (f : nat -> yaml -> result A) (R : yaml -> A -> Prop) l : forall i r,
  (forall i n a, f i n = inr a <-> R n a) -> parse_items f i l = inr r <-> Forall2 R l r.
Proof.
  induction l as [|n l IH]; intros i r Hf; cbn [parse_items].
  - split; [by intros [= <-]|]. by intros ->%Forall2_nil_inv_l.
  - setoid_rewrite bind_inr. setoid_rewrite bind_inr. split.
    + intros (a & Ha & rest & Hr & [= <-]). constructor; [by eapply Hf|by eapply IH].
    + intros (a & rest & Ha & Hr & ->)%Forall2_cons_inv_l. exists a. split; [by apply Hf|].
      exists rest. split; [by apply IH|done].
Qed.

Lemma ParseFactoryConfigList_iff n context l : ParseFactoryConfigList n context = inr l <-> factories_from n l.
Proof.
  unfold ParseFactoryConfigList, factories_from, each_from. destruct n as [[| |items|]|]; try (by split);
    [|split; [by intros [= <-]|by intros ->]].
  apply parse_items_iff. intros i n a. apply ParseFactoryConfig_iff.
Qed.

Lemma ParseMethod_iff n context m :
  ParseMethod n context = inr m <-> m < 6 /\ n = Some (YScalar (method_name m)).
Proof.
  split; [|by intros [Hm ->]; apply ParseMethod_written].
  unfold ParseMethod. destruct n as [[|s| |]|]; try done. destruct (list_find _ _) as [[i [k v]]|] eqn:E; [|done].
  intros [= <-]. apply list_find_Some in E as (Hl & <- & _). cbn in Hl.
  apply list_elem_of_lookup_2 in Hl. unfold kMethodMap in Hl.
  repeat (apply elem_of_cons in Hl as [Hl|Hl]; [injection Hl as -> ->; split; [lia|reflexivity]|]).
  by apply elem_of_nil in Hl.
Qed.

Lemma parse_listener_iff item l :
  parse_listener item = inr l <-> listener_from item l /\ (1 <= port l <= 65535)%Z.
Proof.
  unfold parse_listener, listener_from.
  destruct item as [| | |items]; try (split; [done|]; intros [(? & [=] & _) _]).
  destruct (field _ (lit "address")) as [[|a| |]|]; try (split; [done|]; intros [(? & [=] & _) _]).
  destruct (field _ (lit "port")) as [[|p| |]|]; try (split; [done|]; intros [(? & _ & [=] & _) _]).
  rewrite bind_inr. setoid_rewrite convert_iff. split.
  - intros (z & Hz & Hl). destruct (_ || _) eqn:E; [done|]. reflect_bools. apply bind_inr in Hl as (t & Ht & [= <-]).
    cbn [address port io_threads]. split; [|lia]. exists p. split_and!; try done. destruct (field _ (lit "io_threads")) as [[]|]; try done; cbn.
    + apply bind_inr in Ht as (w & Hw%convert_iff & Ht). destruct (Z.eqb_spec w 0); [done|]. injection Ht as <-. split; [exact Hw|done].
    + by injection Ht as <-.
  - intros [(p' & [= ->] & [= <-] & Hp & Ht) Hr]. exists (port l). split; [done|].
    rewrite (proj2 (Z.leb_gt _ _)), (proj2 (Z.ltb_ge _ _)) by lia. cbn [orb]. apply bind_inr. exists (io_threads l).
    split; [|by destruct l]. destruct (field _ (lit "io_threads")) as [[]|]; cbn in Ht; try done.
    + destruct Ht as [Ht H0]. cbn [convert]. rewrite Ht. cbn [bind]. by rewrite (proj2 (Z.eqb_neq _ _) H0).
    + by rewrite Ht.
Qed.

Lemma parse_services_iff l : forall i seen r,
  parse_services i seen l = inr r <->
  Forall2 service_from l r /\ NoDup (slot <$> r) /\ (forall x, x ∈ slot <$> r -> x ∉ seen) /\
  Forall (fun s => (0 <= slot s)%Z) r.
Proof.
  induction l as [|n l IH]; intros i seen r; cbn [parse_services].
  - split.
    + intros [= <-]. split_and!; try constructor. intros x Hx. by apply elem_of_nil in Hx.
    + by intros [->%Forall2_nil_inv_l _].
  - split.
    + intros Hr. destruct n as [| | |items]; try done. destruct (field _ (lit "slot")) as [[|p| |]|] eqn:Hp; try done.
      apply bind_inr in Hr as (z & Hz & Hr). destruct (as_int64 p) as [z'|] eqn:Ha; [|done]. injection Hz as ->.
      destruct (Z.ltb_spec z 0); [done|]. case_bool_decide as Hs; [done|].
      apply bind_inr in Hr as (f & Hf%ParseFactoryConfig_iff & Hr).
      apply bind_inr in Hr as (rest & (I1 & I2 & I3 & I4)%IH & Hr). injection Hr as <-. rewrite fmap_cons. cbn [slot].
      split_and!.
      * constructor; [|done]. by exists p.
      * constructor; [|done]. intros Hx. apply (I3 _ Hx). by constructor.
      * intros x [->|Hx]%elem_of_cons; [done|]. intros Hin. apply (I3 _ Hx). by constructor.
      * by constructor.
    + intros (H2 & Hnd & Hseen & H0). apply Forall2_cons_inv_l in H2 as (s & rest & (p & Hp & Ha & Hf) & H2 & ->).
      rewrite fmap_cons in Hnd, Hseen. apply NoDup_cons in Hnd as [Hs Hnd]. apply Forall_cons in H0 as [Hs0 H0].
      destruct n as [| | |items]; try (by destruct Hf as (? & [=] & _)). rewrite Hp, Ha. cbn [bind].
      rewrite (proj2 (Z.ltb_ge _ _)) by done. rewrite bool_decide_eq_false_2 by (apply Hseen; constructor).
      rewrite (proj2 (ParseFactoryConfig_iff _ _ _) Hf). cbn [bind]. rewrite (proj2 (IH _ _ rest)); [cbn; by destruct s|].
      split_and!; try done. intros x Hx [->|Hin]%elem_of_cons; [done|]. apply (Hseen x); [by constructor|done].
Qed.

Lemma parse_route_iff i n r : parse_route i n = inr r <-> route_from n r /\ method r < 6.
Proof.
  unfold parse_route, route_from. destruct n as [| | |items]; try (split; [done|]; by intros [[[=] _] _]). split.
  - intros Hr. destruct (field _ (lit "path")) as [[|p| |]|]; try done. rewrite !bind_inr in Hr.
    destruct Hr as (m & [Hm Hn]%ParseMethod_iff & Hr). apply bind_inr in Hr as (ig & Hig%bool_or_false_iff & Hr).
    apply bind_inr in Hr as (cp & Hcp%bool_or_false_iff & Hr).
    apply bind_inr in Hr as (h & Hh%ParseFactoryConfig_iff & Hr).
    apply bind_inr in Hr as (a & Has%ParseFactoryConfigList_iff & Hr).
    apply bind_inr in Hr as (t & Ht%ParseFactoryConfigList_iff & Hr). injection Hr as <-. done.
  - intros [(Hn & Hp & Hig & Hcp & Hh & Has & Ht) Hm]. rewrite Hp. rewrite (proj2 (ParseMethod_iff _ _ _)) by done.
    cbn [bind]. rewrite (proj2 (bool_or_false_iff _ _) Hig). cbn [bind].
    rewrite (proj2 (bool_or_false_iff _ _) Hcp). cbn [bind]. rewrite (proj2 (ParseFactoryConfig_iff _ _ _) Hh). cbn [bind].
    rewrite (proj2 (ParseFactoryConfigList_iff _ _ _) Has). cbn [bind].
    rewrite (proj2 (ParseFactoryConfigList_iff _ _ _) Ht). cbn [bind]. by destruct r.
Qed.

Lemma ParseLogger_iff n o : ParseLogger n = inr o <-> optional_factory_from n o.
Proof.
  unfold ParseLogger, optional_factory_from. destruct n as [n|]; [|destruct o; naive_solver].
  rewrite bind_inr. setoid_rewrite ParseFactoryConfig_iff. destruct o; naive_solver.
Qed.

Lemma ParseGlobal_iff n g : ParseGlobal n = inr g <-> global_from n g.
Proof.
  unfold ParseGlobal, global_from. destruct n as [[| | |l]|]; try (by split); [|split; [by intros [= <-]|by intros ->]].
  assert (forall h, match h with
    | None => inr None
    | Some h => let* f := ParseFactoryConfig (Some h) (lit "global.default_handler") in inr (Some f)
    end = inr (default_handler g) <-> optional_factory_from h (default_handler g)) as Hd.
  { intros [h|]; cbn [optional_factory_from]; [|by destruct (default_handler g)]. rewrite bind_inr.
    setoid_rewrite ParseFactoryConfig_iff. destruct (default_handler g); naive_solver. }
  generalize (field (YMap l) (lit "default_handler")), (field (YMap l) (lit "aspects")). intros h asp.
  rewrite <- Hd. setoid_rewrite bind_inr. setoid_rewrite bind_inr. setoid_rewrite ParseFactoryConfigList_iff.
  split; [by intros (d & Hh & a & Ha & [= <-])|]. intros [Hh Ha]. exists (default_handler g). split; [done|].
  exists (global_aspects g). split; [done|]. by destruct g.
Qed.

Lemma ParseExecutorConfig_iff n e :
  ParseExecutorConfig n = inr e <-> executor_from n e /\ (core_thread_num e <= max_thread_num e)%Z.
Proof.
  unfold ParseExecutorConfig, executor_from.
  destruct n as [[| | |l]|]; try (by split; [|intros [[] _]]);
    [|split; [intros [= <-]; split; [done|cbn; lia]|by intros [-> _]]].
  cbv zeta. split.
  - intros He. apply bind_inr in He as (a & Ha%positive_field_iff & He).
    apply bind_inr in He as (b & Hb%positive_field_iff & He). destruct (Z.ltb_spec b a); [done|].
    apply bind_inr in He as (q & Hq%size_field_iff & He). apply bind_inr in He as (t & Ht%size_field_iff & He).
    apply bind_inr in He as (u & Hu%size_field_iff & He). apply bind_inr in He as (v & Hv%size_field_iff & He).
    by injection He as <-.
  - intros [(Hc & Ha & Hb & Hq & Ht & Hu & Hv) Hle]. destruct e as [c a b q t u v]. cbn [configured core_thread_num
      max_thread_num fast_queue_capacity thread_clean_interval task_scan_interval suspend_time] in *.
    apply bind_inr. exists a. split; [by apply positive_field_iff|]. apply bind_inr. exists b.
    split; [by apply positive_field_iff|]. rewrite (proj2 (Z.ltb_ge _ _)) by done.
    apply bind_inr. exists q. split; [by apply size_field_iff|]. apply bind_inr. exists t. split; [by apply size_field_iff|].
    apply bind_inr. exists u. split; [by apply size_field_iff|]. apply bind_inr. exists v. split; [by apply size_field_iff|].
    by rewrite Hc.
Qed.

Lemma Forall2_checked {A B} (R : A -> B -> Prop) (P : B -> Prop) l r :
  Forall2 (fun a b => R a b /\ P b) l r <-> Forall2 R l r /\ Forall P r.
Proof.
  split.
  - induction 1 as [|? ? ? ? [] ? []]; by repeat constructor.
  - intros [H2 Hl]. revert Hl. induction H2; [by constructor|]. intros []%Forall_cons. constructor; auto.
Qed.

Lemma limit_switch_iff n b :
  match n with
  | None => inr false
  | Some (YScalar s) => convert as_bool (YScalar s)
  | Some _ => throw (lit "server.has_max_connection must be a bool")
  end = inr b <-> given as_bool anything n false b.
Proof.
  destruct n as [[]|]; cbn [given]; [by split|rewrite convert_iff; unfold anything; tauto|by split|by split|].
  split; [by intros [= <-]|by intros ->].
Qed.

Lemma limit_iff n z :
  match n with
  | None => inr 0%Z
  | Some (YScalar s) =>
      let* z := convert as_int64 (YScalar s) in
      if (z <=? 0)%Z then throw (lit "server.max_connection must be greater than 0") else inr z
  | Some _ => throw (lit "server.max_connection must be a number")
  end = inr z <-> given as_int64 above_zero n 0%Z z.
Proof.
  destruct n as [[]|]; cbn [given]; [by split| |by split|by split|split; [by intros [= <-]|by intros ->]].
  rewrite bind_inr. setoid_rewrite convert_iff. unfold above_zero. split.
  - intros (w & Hw & Hz). destruct (Z.leb_spec w 0); [done|]. injection Hz as <-. by split.
  - intros [Hz H0]. exists z. split; [done|]. by rewrite (proj2 (Z.leb_gt _ _)) by lia.
Qed.

Lemma ParseServerSection_iff n s :
  ParseServerSection n = inr s <->
  server_from n s /\ (sec_has_max_connection s = true -> sec_max_connection s <> 0%Z) /\
  (core_thread_num (sec_executor s) <= max_thread_num (sec_executor s))%Z.
Proof.
  unfold ParseServerSection, server_from.
  destruct n as [[| | |l]|]; try (by split; [|intros [[] _]]);
    [|split; [intros [= <-]; split; [done|split; [done|cbn; lia]]|by intros [-> _]]].
  cbv zeta. generalize (field (YMap l) (lit "has_max_connection")), (field (YMap l) (lit "max_connection")),
    (field (YMap l) (lit "executor")), (field (YMap l) (lit "thread_count")). intros hn mn en tn.
  destruct s as [t h m e]. cbn [sec_thread_count sec_has_max_connection sec_max_connection sec_executor].
  rewrite <- limit_switch_iff, <- limit_iff. split.
  - intros Hs. apply bind_inr in Hs as (t' & Ht%positive_field_iff & Hs). apply bind_inr in Hs as (h' & Hh' & Hs).
    apply bind_inr in Hs as (m' & Hm' & Hs). destruct (_ && _) eqn:E; [done|].
    apply bind_inr in Hs as (e' & [He Hle]%ParseExecutorConfig_iff & Hs). injection Hs as -> -> -> ->.
    split_and!; try done. intros -> ->. discriminate E.
  - intros ((Ht & Hh' & Hm' & He) & H0 & Hle). apply bind_inr. exists t. split; [by apply positive_field_iff|].
    apply bind_inr. exists h. split; [done|]. apply bind_inr. exists m. split; [done|].
    replace (h && (m =? 0)%Z) with false by (destruct h; [|done]; symmetry; apply Z.eqb_neq; auto).
    apply bind_inr. exists e. split; [by apply ParseExecutorConfig_iff|done].
Qed.

Lemma ParseListeners_iff n l :
  ParseListeners n = inr l <->
  each_from listener_from n l /\ Forall (fun l => (1 <= port l <= 65535)%Z) l /\ l <> [].
Proof.
  assert (forall items, parse_items (fun _ => parse_listener) 0 items = inr l <->
    Forall2 listener_from items l /\ Forall (fun l => (1 <= port l <= 65535)%Z) l) as Hi.
  { intros items. rewrite <- Forall2_checked. apply parse_items_iff. intros _ m a. apply parse_listener_iff. }
  unfold ParseListeners, each_from. destruct n as [[| |[|x items]|]|]; try (by split; [|intros ([] & _)]).
  - split; [done|]. by intros (->%Forall2_nil_inv_l & _ & []).
  - rewrite Hi. split; [|tauto]. intros [H2 Hl]. split_and!; try done. by intros ->; apply Forall2_nil_inv_r in H2.
  - split; [done|]. by intros (-> & _ & []).
Qed.

Lemma ParseServices_iff n l :
  ParseServices n = inr l <->
  each_from service_from n l /\ NoDup (slot <$> l) /\ Forall (fun s => (0 <= slot s)%Z) l.
Proof.
  unfold ParseServices, each_from. destruct n as [[| |items|]|]; try (by split; [|intros ([] & _)]).
  - rewrite parse_services_iff. split; [tauto|]. intros (? & ? & ?). split_and!; try done.
    intros x _ Hx. by apply elem_of_nil in Hx.
  - split; [intros [= <-]; split_and!; try done; constructor|]. by intros [-> _].
Qed.

Lemma ParseRoutes_iff n l : ParseRoutes n = inr l <-> each_from route_from n l /\ Forall (fun r => method r < 6) l.
Proof.
  unfold ParseRoutes, each_from. destruct n as [[| |items|]|]; try (by split; [|intros ([] & _)]).
  - rewrite <- Forall2_checked. apply parse_items_iff, parse_route_iff.
  - split; [intros [= <-]; by split|]. by intros [-> _].
Qed.

Lemma LoadConfig_iff root c : LoadConfig root = inr c <-> config_from root c /\ config_ok c.
Proof.
  split.
  - intros Hc. split; [|by eapply LoadConfig_ok]. unfold LoadConfig in Hc. destruct root as [[| | |l]|]; try done.
    apply bind_inr in Hc as (s & [Hs _]%ParseServerSection_iff & Hc).
    apply bind_inr in Hc as (ls & [Hls _]%ParseListeners_iff & Hc).
    apply bind_inr in Hc as (sv & [Hsv _]%ParseServices_iff & Hc). apply bind_inr in Hc as (lg & Hlg%ParseLogger_iff & Hc).
    apply bind_inr in Hc as (gl & Hgl%ParseGlobal_iff & Hc).
    apply bind_inr in Hc as (rs & [Hrs _]%ParseRoutes_iff & Hc). injection Hc as <-. exists l. by destruct s.
  - intros [(l & -> & Hs & Hls & Hsv & Hlg & Hgl & Hrs) [_ [_ L2] He [N1 N2] S1 S2 _ _ Hr]].
    assert (core_thread_num (executor c) <= max_thread_num (executor c))%Z as Hle.
    { unfold executor_ok in He. destruct (configured (executor c)); [tauto|]. rewrite He. cbn. lia. }
    unfold LoadConfig. cbv zeta. rewrite (proj2 (ParseServerSection_iff _ _)) by (split; [exact Hs|by split]). cbn [bind].
    rewrite (proj2 (ParseListeners_iff _ _)) by
      (split; [exact Hls|]; split; [eapply Forall_impl; [exact N2|by intros ? []]|done]). cbn [bind].
    rewrite (proj2 (ParseServices_iff _ _)) by
      (split; [exact Hsv|]; split; [done|]; eapply Forall_impl; [exact S2|]; intros ? [? _]; lia). cbn [bind].
    rewrite (proj2 (ParseLogger_iff _ _) Hlg). cbn [bind]. rewrite (proj2 (ParseGlobal_iff _ _) Hgl). cbn [bind].
    rewrite (proj2 (ParseRoutes_iff _ _)) by (split; [exact Hrs|]; eapply Forall_impl; [exact Hr|by intros ? []]).
    cbn [bind]. by destruct c.
Qed.

Lemma LoadConfig_written c : config_ok c -> LoadConfig (Some (yaml_of_config c)) = inr c.
Proof.
  intros Hok.
  pose proof Hok as [_ _ _ [N1 N2] S1 S2 Hl [G1 G2] Hr].
  assert (ParseListeners (Some (YSeq (yaml_of_listener <$> listeners c))) = inr (listeners c)) as Hls.
  { unfold ParseListeners. destruct (listeners c) as [|x l]; [done|].
    change (yaml_of_listener <$> x :: l) with (yaml_of_listener x :: (yaml_of_listener <$> l)).
    apply (parse_items_written _ yaml_of_listener listener_ok (x :: l)); [|done].
    intros i a Ha. by apply parse_listener_written. }
  assert (ParseRoutes (Some (YSeq (yaml_of_route <$> routes c))) = inr (routes c)) as Hrs.
  { unfold ParseRoutes. apply (parse_items_written _ yaml_of_route route_ok); [|done].
    intros i a Ha. by apply parse_route_written. }
  assert (ParseServices (Some (YSeq (yaml_of_service <$> services c))) = inr (services c)) as Hsv.
  { unfold ParseServices. apply parse_services_written; [done| |done]. intros x _ Hx. by apply elem_of_nil in Hx. }
  unfold LoadConfig, yaml_of_config. destruct (logger c) as [f|] eqn:Hlg; find_fields;
    (rewrite ParseServer_written by done; cbn [bind]; rewrite Hls; cbn [bind]; rewrite Hsv; cbn [bind ParseLogger];
     rewrite ?ParseFactory_written by (by apply Hl); cbn [bind];
     rewrite ParseGlobal_written by done; cbn [bind]; rewrite Hrs; cbn [bind]).
  - destruct c; cbn in *. by rewrite Hlg.
  - destruct c; cbn in *. by rewrite Hlg.
Qed.
(** C35. Loading a configuration is what the document says.  For every document and
    every configuration, the loader returns that configuration exactly when the
    document spells it - every listener, service, route, factory, aspect and number
    from the item and the field it is written in, or its default where the field
    is absent; the method by its name; of a parameter given twice, the first
    value - and the configuration is sound: there is a listener, ports and
    thread counts are in range, service slots are distinct, a connection limit is
    positive and fits a signed 64-bit number, the executor's thread counts are
    ordered.  And every sound configuration can be written out as a document,
    which loads back as the same configuration. *)
Theorem config_loaded :
  (forall root c, LoadConfig root = inr c <-> config_from root c /\ config_ok c) /\
  (forall c, config_ok c -> LoadConfig (Some (yaml_of_config c)) = inr c).
Proof. split; [apply LoadConfig_iff|apply LoadConfig_written]. Qed.
End loader.

(** ** Samples *)

Module ConfigSample.

Definition convert_to (max : Z) (s : str) : option Z :=
  match read_number s with
  | Some z => if (0 <=? z)%Z && (z <=? max)%Z then Some z else None
  | None => None
  end.
Definition to_bool (s : str) : option bool :=
  if s =s lit "true" then Some true else if s =s lit "false" then Some false else None.

Lemma convert_range max s z : convert_to max s = Some z -> (0 <= z <= max)%Z.
Proof. unfold convert_to. intros Hz. destruct (read_number s); [|done]. case_match; [|done]. simplify_eq. reflect_bools. lia. Qed.

Lemma convert_reads max z : (0 <= z <= max)%Z -> (max < 10 ^ 20)%Z -> convert_to max (to_string z) = Some z.
Proof.
  intros Hz Hm. unfold convert_to, to_string. rewrite (proj2 (Z.ltb_ge _ _)) by lia.
  rewrite read_number_decimal by lia. by rewrite !(proj2 (Z.leb_le _ _)) by lia.
Qed.

Definition sample : ServerConfig :=
  mkServerConfig 4 true 4096 (mkExecutor true 4 8 256 60000 100 1)
    [mkListener (lit "0.0.0.0") 8080 2; mkListener (lit "::1") 8443 1]
    [mkService 0 (mkFactory (lit "libgreeting.so") [(lit "prefix", lit "service|")])]
    (Some (mkFactory (lit "liblogger.so") []))
    (mkGlobal None [mkFactory (lit "libaspect.so") [(lit "level", lit "info")]])
    [mkRoute 0 (lit "/hello/{name}") true false (mkFactory (lit "libhello.so") []) [] []].

Lemma sample_ok : config_ok 8 sample.
Proof.
  constructor; cbn; unfold is_size_t, size_t_mod, int64_max, executor_ok, factory_ok, listener_ok, route_ok.
  - lia.
  - lia.
  - cbn. unfold is_size_t, size_t_mod. lia.
  - split; [done|]. repeat constructor; cbn; lia.
  - repeat constructor. apply not_elem_of_nil.
  - repeat constructor; cbn; try lia. apply not_elem_of_nil.
  - intros f [= <-]. constructor.
  - split; [done|]. repeat constructor; cbn; apply not_elem_of_nil.
  - repeat constructor.
Qed.

Definition load : option yaml -> result ServerConfig :=
  LoadConfig (convert_to 65535) (convert_to (size_t_mod - 1)) (convert_to int64_max) to_bool 8.

(** A document that leaves everything it can out. *)
Definition short : yaml :=
  YMap [entry (lit "listeners") (YSeq [YMap [entry (lit "address") (YScalar (lit "::")); entry (lit "port") (YScalar (lit "80"))]]);
        entry (lit "routes") (YSeq [YMap
          [entry (lit "path") (YScalar (lit "/x")); entry (lit "method") (YScalar (lit "PATCH"));
           entry (lit "handler") (YMap [entry (lit "factory") (YScalar (lit "libx.so"));
             entry (lit "params") (YMap [entry (lit "k") (YScalar (lit "1")); entry (lit "k") (YScalar (lit "2"))])]);
           entry (lit "terminal_aspects") (YSeq [YMap [entry (lit "factory") (YScalar (lit "libt.so"))]])]])].
Definition short_config : ServerConfig :=
  mkServerConfig 4 false 0 (default_executor 8) [mkListener (lit "::") 80 1] [] None (mkGlobal None [])
    [mkRoute 4 (lit "/x") false false (mkFactory (lit "libx.so") [(lit "k", lit "1")]) [] [mkFactory (lit "libt.so") []]].

Lemma config_loaded_witness :
  load (Some (yaml_of_config sample)) = inr sample /\
  config_from (convert_to 65535) (convert_to (size_t_mod - 1)) (convert_to int64_max) to_bool 8 (Some short) short_config.
Proof.
  assert (forall c, load (Some short) = inr c -> config_from (convert_to 65535) (convert_to (size_t_mod - 1))
    (convert_to int64_max) to_bool 8 (Some short) c) as Hshort; [intros c Hc|].
  2: split; [|apply Hshort; vm_compute; reflexivity].
  1: eapply (config_loaded (convert_to 65535) (convert_to (size_t_mod - 1)) (convert_to int64_max) to_bool 8); [..|exact Hc].
  8: apply (config_loaded (convert_to 65535) (convert_to (size_t_mod - 1)) (convert_to int64_max) to_bool 8); [..|apply sample_ok].
  1,8: intros s z Hz%convert_range; unfold is_size_t; lia.
  1,7: intros s z Hz%convert_range; unfold is_int64, int64_min; lia.
  1,6: lia.
  1,5: intros z Hz; unfold is_size_t in Hz; apply convert_reads; [lia|reflexivity].
  1,4: intros z Hz; apply convert_reads; [lia|reflexivity].
  1,3: intros z Hz; apply convert_reads; [lia|reflexivity].
  all: intros []; reflexivity.
Defined.

(** A worker limit below the number of processors is refused unless the core
    count is given too: the defaults are checked as if they had been written. *)
Lemma small_pool_refused :
  ParseExecutorConfig (convert_to (size_t_mod - 1)) 8
    (Some (YMap [(YScalar (lit "max_thread_num"), YScalar (lit "4"))])) =
  throw (lit "server.executor.max_thread_num must be greater than or equal to core_thread_num").
Proof. vm_compute. reflexivity. Qed.
End ConfigSample.
