(* ===== verification/ServerRoutes.v ===== *)
(** * The server with its routes

    [src/src/core/http_server_route_config.cc], the blueprints of
    [src/src/core/blue_print.cc] and the worker-pool decorator of
    [src/src/route/computing_route_handler.cc].  The server of [ServerRuntime]
    gets the route table of [RouteTable]: every routing call takes the server's
    mutex, does nothing while the server runs, and forwards to the table.  A
    blueprint is a route table of its own until it is mounted. *)

From S2P Require Import Prelude RouteTarget RouteLayer RouteTable RouteMount ServerRuntime.

(** ** Tables stay well-formed under mounting *)

Section mount_wf.
Context {H A : Type}.
Abbreviation layer := (HttpRouteTableLayer H A).

Lemma assoc_set_wf k (c : layer) m :
  k <> [] -> layer_wf c -> NoDup m.*1 -> Forall (fun kv => kv.1 <> [] /\ layer_wf kv.2) m ->
  NoDup (assoc_set k c m).*1 /\ Forall (fun kv => kv.1 <> [] /\ layer_wf kv.2) (assoc_set k c m).
Proof.
  intros Hk Hc Hnd HF. split.
  - rewrite assoc_set_keys. case_decide; [done|]. apply NoDup_app.
    split_and!; [done| |apply NoDup_singleton]. by intros x Hx ->%list_elem_of_singleton.
  - apply Forall_forall. intros kv [Hkv|[-> ->]]%assoc_set_elem; [|done].
    rewrite Forall_forall in HF. by apply HF.
Qed.

Lemma layer_wf_merge (src dst : layer) : layer_wf src -> layer_wf dst -> layer_wf (MoveMergeLayer dst src).
Proof.
  revert dst. induction src as [d m dr IHm IHdr] using layer_tree_ind. intros [d' m' dr'] Hs Hd.
  inversion Hs as [? ? ? _ Hm Hdr]; subst. inversion Hd as [? ? ? Hnd HF Hdr']; subst. cbn [MoveMergeLayer map_ default_route_ data_].
  assert (forall l acc, (forall kv, kv ∈ l -> kv ∈ m) ->
    NoDup acc.*1 -> Forall (fun kv => kv.1 <> [] /\ layer_wf kv.2) acc ->
    let r := fold_left (fun m kv => match assoc_find kv.1 m with
       | None => assoc_set kv.1 kv.2 m
       | Some d => assoc_set kv.1 (MoveMergeLayer d kv.2) m end) l acc in
    NoDup r.*1 /\ Forall (fun kv => kv.1 <> [] /\ layer_wf kv.2) r) as Hfold.
  { induction l as [|kv l IHl]; intros acc Hin Hacc HFacc; [done|]. cbn [fold_left].
    assert (kv ∈ m) as Hkv by (apply Hin; by left).
    rewrite Forall_forall in Hm, IHm. destruct (Hm kv Hkv) as [Hne Hw].
    assert (forall x, layer_wf x -> NoDup (assoc_set kv.1 x acc).*1 /\
      Forall (fun kv => kv.1 <> [] /\ layer_wf kv.2) (assoc_set kv.1 x acc)) as Hset
      by (intros x Hx; by apply assoc_set_wf).
    apply IHl; [intros x Hx; apply Hin; by right|..];
      (destruct (assoc_find kv.1 acc) as [x|] eqn:Hx; [|by apply Hset]);
      apply Hset, IHm; try done; rewrite Forall_forall in HFacc; by destruct (HFacc _ (assoc_find_elem _ _ _ Hx)). }
  destruct (Hfold m m' (fun _ x => x) Hnd HF) as [H1 H2]. constructor; [done|done|].
  intros c Hc. destruct dr as [s|]; [|by apply Hdr']. injection Hc as <-.
  destruct dr' as [x|]; [apply (IHdr s eq_refl); [by apply Hdr|by apply Hdr']|by apply Hdr].
Qed.

Lemma layer_wf_update_node p g (l : layer) :
  (forall x, layer_wf x -> layer_wf (g x)) -> layer_wf l -> layer_wf (update_node p g l).
Proof.
  intros Hg. revert l. induction p as [|e p IH]; intros l Hl; cbn [update_node]; [by apply Hg|].
  apply layer_wf_set_child; [done|]. apply IH.
  destruct (child e l) eqn:Hc; cbn [default]; [by eapply layer_wf_child|apply layer_wf_new].
Qed.

Lemma mount_check_wf prefix (dsts : list layer) : forall srcs ok ds ss,
  mount_check prefix dsts srcs = (ok, ds, ss) -> Forall layer_wf dsts -> Forall layer_wf srcs ->
  length ds = length dsts /\ length ss = length srcs /\ Forall layer_wf ds /\ Forall layer_wf ss.
Proof.
  induction dsts as [|d dsts IH]; intros [|s srcs] ok ds ss; cbn [mount_check]; try (by intros [= <- <- <-]).
  intros Hc [Hd Hds]%Forall_cons [Hs Hss]%Forall_cons.
  assert (layer_wf (get_or_create_mount_layer prefix d)) as Hd' by by apply layer_wf_update_node.
  pose proof (layer_wf_prefix prefix _ Hs) as Hs'.
  destruct (CanMergeLayer _ _).
  - destruct (mount_check prefix dsts srcs) as [[ok' ds'] ss'] eqn:E. injection Hc as <- <- <-.
    destruct (IH _ _ _ _ E Hds Hss) as (L1 & L2 & F1 & F2). cbn [length].
    split_and!; [congruence|congruence|by constructor|by constructor].
  - injection Hc as <- <- <-. split_and!; [done|done|by constructor|by constructor].
Qed.

Lemma mount_merge_wf prefix (dsts : list layer) : forall srcs,
  length dsts = length srcs -> Forall layer_wf dsts -> Forall layer_wf srcs ->
  length (mount_merge prefix dsts srcs) = length dsts /\ Forall layer_wf (mount_merge prefix dsts srcs).
Proof.
  unfold mount_merge. intros srcs Hl Hd Hs. split; [rewrite length_zip_with; lia|].
  revert srcs Hl Hs. induction Hd as [|d dsts Hd Hds IH]; intros [|s srcs] Hl Hs; try done.
  apply Forall_cons in Hs as [Hs Hss]. cbn [zip_with]. constructor; [|apply IH; [by injection Hl|done]].
  apply layer_wf_update_node; [|done]. intros x Hx. by apply layer_wf_merge.
Qed.

(** Mounting, accepted or refused, leaves well-formed tables. *)
Lemma MountAt_wf prefix (source t : HttpRouteTable H A) :
  table_wf source -> table_wf t ->
  match MountAt prefix source t with
  | Mounted t' => table_wf t'
  | Refused t' source' => table_wf t' /\ table_wf source'
  end.
Proof.
  intros [Ls Fs] [Lt Ft]. unfold MountAt. destruct (IsValidParametricTarget prefix); [|done]. cbn [negb].
  destruct (mount_check _ _ _) as [[ok ds] ss] eqn:E.
  destruct (mount_check_wf _ _ _ _ _ _ E Ft Fs) as (L1 & L2 & F1 & F2). unfold table_wf.
  destruct ok; cbn [with_entrance entrance_].
  - destruct (mount_merge_wf prefix ds ss) as [L F]; [congruence|done|done|]. by rewrite L, L1.
  - by rewrite L1, L2.
Qed.

Lemma MountAt_const_wf ch ca (h0 : H) prefix (source t : HttpRouteTable H A) :
  table_wf source -> table_wf t -> table_wf (MountAt_const ch ca h0 prefix source t).2.
Proof.
  intros [Ls Fs] Ht. unfold MountAt_const. destruct (IsValidParametricTarget prefix); [|done]. cbn [negb].
  destruct (mapM _ _) as [e|] eqn:E; [|done]. apply mapM_Some in E.
  assert (table_wf (with_entrance (new_table (A := A) h0) e)) as He.
  { split; cbn [with_entrance entrance_]; [by rewrite <- (Forall2_length _ _ _ E)|].
    clear Ls. induction E as [|s c ss cs Hc _ IH]; [done|]. apply Forall_cons in Fs as [Fs Fss].
    constructor; [by eapply layer_wf_clone|by apply IH]. }
  pose proof (MountAt_wf prefix _ t He Ht). case_match; [by destruct_and?|done].
Qed.
End mount_wf.

(** ** Handlers *)

(** A handler of the user, or one wrapped for the worker pool. *)
Inductive route_handler (U : Type) :=
  | UserHandler (u : U)
  | ComputingRouteHandler (inner : route_handler U).
Arguments UserHandler {_} _.
Arguments ComputingRouteHandler {_} _.

Definition WrapComputingHandler {U} (h : option (route_handler U)) : option (route_handler U) :=
  match h with None => None | Some h => Some (ComputingRouteHandler h) end.

(** Where a handler's body runs. *)
Inductive place := OnConnection | OnWorkerPool.

(** [Service]: the user's handler that runs in the end, and where. *)
Fixpoint Service {U} (p : place) (h : route_handler U) : place * U :=
  match h with
  | UserHandler u => (p, u)
  | ComputingRouteHandler inner => Service OnWorkerPool inner
  end.

(** ** The server *)

Section routes.
Context {U A : Type}.
Abbreviation handler_t := (route_handler U).
Abbreviation table := (HttpRouteTable handler_t A).

Record http_server := mkHttpServer {
  base : HttpServer;
  route_table_ : table;
}.

Definition set_base (b : HttpServer) (s : http_server) : http_server := mkHttpServer b (route_table_ s).

(** What all routing calls do. *)
Definition on_table (f : table -> table) (s : http_server) : http_server :=
  if is_running_ (base s) then s else mkHttpServer (base s) (f (route_table_ s)).

Definition AddRouteEntry (method : nat) (url : str) (h : option handler_t) : http_server -> http_server :=
  on_table (fun t => (RouteTable.AddRouteEntry method url h t).2).

Definition AddComputingRouteEntry (method : nat) (url : str) (h : option handler_t) : http_server -> http_server :=
  AddRouteEntry method url (WrapComputingHandler h).

Definition AddExclusiveRouteEntry (method : nat) (url : str) (h : option handler_t) : http_server -> http_server :=
  on_table (fun t => (RouteTable.AddExclusiveRouteEntry method url h t).2).

Definition AddAspect (method : nat) (url : str) (aspect : A) : http_server -> http_server :=
  on_table (fun t => (RouteTable.AddAspect method url aspect t).2).

Definition AddTerminalAspect (method : nat) (url : str) (aspect : A) : http_server -> http_server :=
  on_table (fun t => (RouteTable.AddTerminalAspect method url aspect t).2).

Definition AddGlobalAspectFor (method : nat) (aspect : A) : http_server -> http_server :=
  on_table (fun t => (RouteTable.AddGlobalAspectFor method aspect t).2).

Definition AddGlobalAspect (aspect : A) : http_server -> http_server :=
  on_table (fun t => (RouteTable.AddGlobalAspect aspect t).2).

Definition SetReadExpiry (method : nat) (url : str) (expiry : Z) : http_server -> http_server :=
  on_table (fun t => (RouteTable.SetReadExpiry method url expiry t).2).

Definition SetWriteExpiry (method : nat) (url : str) (expiry : Z) : http_server -> http_server :=
  on_table (fun t => (RouteTable.SetWriteExpiry method url expiry t).2).

Definition SetMaxBodySize (method : nat) (url : str) (n : Z) : http_server -> http_server :=
  on_table (fun t => (RouteTable.SetMaxBodySize method url n t).2).

Definition SetDefaultReadExpiry (expiry : Z) : http_server -> http_server :=
  on_table (RouteTable.SetDefaultReadExpiry expiry).

Definition SetDefaultWriteExpiry (expiry : Z) : http_server -> http_server :=
  on_table (RouteTable.SetDefaultWriteExpiry expiry).

Definition SetDefaultMaxBodySize (n : Z) : http_server -> http_server :=
  on_table (RouteTable.SetDefaultMaxBodySize n).

Definition SetDefaultHandler (h : option handler_t) : http_server -> http_server :=
  on_table (RouteTable.SetDefaultHandler h).

(** ** Blueprints *)

(** [impl_] is null, or its table was moved into a server, once it is moved
    from. *)
Inductive BluePrint := Draft (t : table) | MovedFrom.

Definition new_BluePrint (empty_route_handler : handler_t) : BluePrint := Draft (new_table empty_route_handler).

(** The calls on a blueprint forward to its table; on a moved-from one they are
    undefined. *)
Inductive blueprint_op :=
  | BpAddRouteEntry (method : nat) (url : str) (h : option handler_t)
  | BpAddExclusiveRouteEntry (method : nat) (url : str) (h : option handler_t)
  | BpAddAspect (method : nat) (url : str) (aspect : A)
  | BpAddTerminalAspect (method : nat) (url : str) (aspect : A)
  | BpSetReadExpiry (method : nat) (url : str) (expiry : Z)
  | BpSetWriteExpiry (method : nat) (url : str) (expiry : Z)
  | BpSetMaxBodySize (method : nat) (url : str) (n : Z).

Definition run_blueprint_op (t : table) (op : blueprint_op) : table :=
  match op with
  | BpAddRouteEntry m u h => (RouteTable.AddRouteEntry m u h t).2
  | BpAddExclusiveRouteEntry m u h => (RouteTable.AddExclusiveRouteEntry m u h t).2
  | BpAddAspect m u a => (RouteTable.AddAspect m u a t).2
  | BpAddTerminalAspect m u a => (RouteTable.AddTerminalAspect m u a t).2
  | BpSetReadExpiry m u e => (RouteTable.SetReadExpiry m u e t).2
  | BpSetWriteExpiry m u e => (RouteTable.SetWriteExpiry m u e t).2
  | BpSetMaxBodySize m u n => (RouteTable.SetMaxBodySize m u n t).2
  end.

(** [BluePrint::MountInto]: the answer, the table mounted into, the blueprint. *)
Definition MountInto (prefix : str) (bp : BluePrint) (t : table) : bool * (table * BluePrint) :=
  match bp with
  | MovedFrom => (false, (t, bp))
  | Draft source =>
      match MountAt prefix source t with
      | Mounted t' => (true, (t', MovedFrom))
      | Refused t' source' => (false, (t', Draft source'))
      end
  end.

(** The answer is dropped. *)
Definition AddBluePrint (prefix : str) (bp : BluePrint) (s : http_server) : http_server * BluePrint :=
  if is_running_ (base s) then (s, bp)
  else
    let '(_, (t, bp)) := MountInto prefix bp (route_table_ s) in
    (mkHttpServer (base s) t, bp).

Section reuseable.
Context (clone_handler : U -> option U) (clone_aspect : A -> option A) (empty_route_handler : handler_t).

(** Only the user's handlers are put into a reusable blueprint; a decorated
    handler is not cloneable. *)
Definition clone_route_handler (h : handler_t) : option handler_t :=
  match h with
  | UserHandler u => UserHandler <$> clone_handler u
  | ComputingRouteHandler _ => None
  end.

Definition ReuseableMountInto (prefix : str) (bp : BluePrint) (t : table) : bool * table :=
  match bp with
  | MovedFrom => (false, t)
  | Draft source => MountAt_const clone_route_handler clone_aspect empty_route_handler prefix source t
  end.

Definition AddReuseableBluePrint (prefix : str) (bp : BluePrint) : http_server -> http_server :=
  on_table (fun t => (ReuseableMountInto prefix bp t).2).

(** ** Calls on the server *)

Context {K : Type} (sys : nat -> syscall -> K -> bool * K) (has_reuse_port : bool).

Inductive http_op :=
  | HAddRouteEntry (method : nat) (url : str) (h : option handler_t)
  | HAddComputingRouteEntry (method : nat) (url : str) (h : option handler_t)
  | HAddExclusiveRouteEntry (method : nat) (url : str) (h : option handler_t)
  | HAddAspect (method : nat) (url : str) (aspect : A)
  | HAddTerminalAspect (method : nat) (url : str) (aspect : A)
  | HAddGlobalAspectFor (method : nat) (aspect : A)
  | HAddGlobalAspect (aspect : A)
  | HSetReadExpiry (method : nat) (url : str) (expiry : Z)
  | HSetWriteExpiry (method : nat) (url : str) (expiry : Z)
  | HSetMaxBodySize (method : nat) (url : str) (n : Z)
  | HSetDefaultReadExpiry (expiry : Z)
  | HSetDefaultWriteExpiry (expiry : Z)
  | HSetDefaultMaxBodySize (n : Z)
  | HSetDefaultHandler (h : option handler_t)
  | HAddBluePrint (mount_point : str) (bp : BluePrint)
  | HAddReuseableBluePrint (mount_point : str) (bp : BluePrint)
  | HRuntime (op : server_op (K := K)).

Definition run_http_op (s : http_server) (op : http_op) : http_server :=
  match op with
  | HAddRouteEntry m u h => AddRouteEntry m u h s
  | HAddComputingRouteEntry m u h => AddComputingRouteEntry m u h s
  | HAddExclusiveRouteEntry m u h => AddExclusiveRouteEntry m u h s
  | HAddAspect m u a => AddAspect m u a s
  | HAddTerminalAspect m u a => AddTerminalAspect m u a s
  | HAddGlobalAspectFor m a => AddGlobalAspectFor m a s
  | HAddGlobalAspect a => AddGlobalAspect a s
  | HSetReadExpiry m u e => SetReadExpiry m u e s
  | HSetWriteExpiry m u e => SetWriteExpiry m u e s
  | HSetMaxBodySize m u n => SetMaxBodySize m u n s
  | HSetDefaultReadExpiry e => SetDefaultReadExpiry e s
  | HSetDefaultWriteExpiry e => SetDefaultWriteExpiry e s
  | HSetDefaultMaxBodySize n => SetDefaultMaxBodySize n s
  | HSetDefaultHandler h => SetDefaultHandler h s
  | HAddBluePrint p bp => (AddBluePrint p bp s).1
  | HAddReuseableBluePrint p bp => AddReuseableBluePrint p bp s
  | HRuntime op => set_base (run_op sys has_reuse_port (base s) op) s
  end.

(** ** What the calls preserve *)

(** A blueprint that is mounted was built by the calls above. *)
Definition draft_ok (bp : BluePrint) : Prop :=
  match bp with Draft t => table_wf t | MovedFrom => True end.

Definition op_ok (op : http_op) : Prop :=
  match op with HAddBluePrint _ bp | HAddReuseableBluePrint _ bp => draft_ok bp | _ => True end.

Lemma blueprint_ops_wf ops t : table_wf t -> table_wf (foldl run_blueprint_op t ops).
Proof.
  revert t. induction ops as [|op ops IH]; intros t Ht; [done|]. apply IH.
  destruct op; by apply table_wf_registered.
Qed.

Lemma on_table_wf f s :
  (forall t, table_wf t -> table_wf (f t)) -> table_wf (route_table_ s) -> table_wf (route_table_ (on_table f s)).
Proof. intros Hf Hs. unfold on_table. case_match; [done|]. by apply Hf. Qed.

Lemma run_http_op_wf s op : op_ok op -> table_wf (route_table_ s) -> table_wf (route_table_ (run_http_op s op)).
Proof.
  intros Hop Hs. destruct op; try (apply on_table_wf; [intros t Ht|done]); try done; try by apply table_wf_registered.
  - unfold RouteTable.AddGlobalAspectFor. by case_match.
  - cbn [run_http_op]. unfold AddBluePrint, MountInto. case_match; [done|]. destruct bp as [t|]; [|done].
    pose proof (MountAt_wf mount_point _ _ Hop Hs). case_match; [by destruct_and?|done].
  - unfold ReuseableMountInto. destruct bp; [|done]. by apply MountAt_const_wf.
Qed.

(** Whatever routes, aspects, limits and blueprints are given to a server, in
    whatever order with starts and stops, its table keeps one tree for each
    method and unique, non-empty keys at every layer, which is what the theorems
    on matching and mounting ask of a table. *)
Theorem server_routes_wf (s : http_server) (ops : list http_op) :
  table_wf (route_table_ s) -> Forall op_ok ops -> table_wf (route_table_ (foldl run_http_op s ops)).
Proof.
  intros Hs Hops. revert s Hs. induction Hops as [|op ops Hop _ IH]; intros s Hs; [done|].
  by apply IH, run_http_op_wf.
Qed.

(** What a running server reads without its mutex. *)
Definition same_config (c c' : server_config) : Prop :=
  kRuntimeOptions_ c' = kRuntimeOptions_ c /\ endpoint_configs_ c' = endpoint_configs_ c /\
  header_read_expiry_ c' = header_read_expiry_ c /\ keep_alive_timeout_ c' = keep_alive_timeout_ c /\
  logger_ c' = logger_ c.

Lemma select_frame b : same_config (cfg b) (cfg (SelectIoExecutorRoundRobin b).2) /\
  is_running_ (SelectIoExecutorRoundRobin b).2 = is_running_ b.
Proof. unfold SelectIoExecutorRoundRobin. by case_match. Qed.

Lemma run_op_running b (op : server_op (K := K)) :
  is_running_ b = true -> op <> OpStop ->
  is_running_ (run_op sys has_reuse_port b op) = true /\
  same_config (cfg b) (cfg (run_op sys has_reuse_port b op)).
Proof.
  intros Hr Hop. pose proof (select_frame b) as [Hs1 Hs2]. rewrite Hr in Hs2.
  destruct op; try done; cbn [run_op];
    unfold AddListen, SetHeaderReadExpiry, SetKeepAliveTimeout, SetLogger, ServerRuntime.Start, GetIoExecutor,
      GetExecutor, Post, Dispatch, PostToIoContext, DispatchToIoContext, SetTimer, on_timer, Post, PostToIoContext;
    rewrite ?Hr; cbn [negb fst snd]; try done;
    repeat case_match; simplify_eq/=; try done; by rewrite Hr.
Qed.

Lemma run_http_op_running s op :
  is_running_ (base s) = true -> op <> HRuntime OpStop ->
  let s' := run_http_op s op in
  is_running_ (base s') = true /\ route_table_ s' = route_table_ s /\ same_config (cfg (base s)) (cfg (base s')).
Proof.
  intros Hr Hop. assert (same_config (cfg (base s)) (cfg (base s))) as Hsame by done.
  assert (forall f, on_table f s = s) as Hon by (intros f; unfold on_table; by rewrite Hr).
  assert (op_frozen : forall s', s' = s -> is_running_ (base s') = true /\ route_table_ s' = route_table_ s /\
    same_config (cfg (base s)) (cfg (base s'))) by by intros s' ->.
  destruct op as [| | | | | | | | | | | | | |p bp| |op]; try apply op_frozen, Hon.
  - apply op_frozen. cbn [run_http_op]. unfold AddBluePrint. by rewrite Hr.
  - destruct (run_op_running (base s) op Hr) as [H1 H2]; [by intros ->|]. done.
Qed.

(** A running server is frozen.  Connections look routes up, and read the
    timeouts and the logger, without the server's mutex; so nothing that is
    called on a running server may change them.  Whatever routing, blueprint and
    runtime calls are made, in whatever order and until the server is stopped:
    it keeps running, and its route table, options, listeners, timeouts and
    logger are what they were. *)
Theorem running_routes_frozen (s : http_server) (ops : list http_op) :
  is_running_ (base s) = true -> HRuntime OpStop ∉ ops ->
  let s' := foldl run_http_op s ops in
  is_running_ (base s') = true /\ route_table_ s' = route_table_ s /\ same_config (cfg (base s)) (cfg (base s')).
Proof.
  revert s. induction ops as [|op ops IH]; intros s Hr Hops; [done|].
  apply not_elem_of_cons in Hops as [Hop Hops]. cbn [foldl].
  destruct (run_http_op_running s op Hr) as (R1 & R2 & R3); [by intros ->|].
  destruct (IH _ R1 Hops) as (S1 & S2 & S3). split; [done|]. split; [by rewrite S2|].
  unfold same_config in *. intuition congruence.
Qed.

End reuseable.
End routes.

(** ** A sample *)

Module RoutesSample.

Abbreviation Server := (http_server (U := nat) (A := nat)).
Abbreviation Op := (http_op (U := nat) (A := nat) (K := unit)).

Definition hello : option (route_handler nat) := Some (UserHandler 7).

Definition stopped : Server :=
  mkHttpServer (after RuntimeSample.all_good true RuntimeSample.options RuntimeSample.declared)
    (new_table (UserHandler 0)).

Definition run (ops : list Op) : Server -> Server :=
  fun s => foldl (run_http_op (fun _ => None) (fun _ => None) (UserHandler 0) RuntimeSample.all_good true) s ops.

Definition serving : Server := run [HAddComputingRouteEntry 0 (lit "/hello") hello; HRuntime (OpStart tt)] stopped.

Definition late : list Op :=
  [HAddRouteEntry 0 (lit "/late") hello; HSetDefaultHandler None; HRuntime (OpStart tt)].

Lemma running_routes_frozen_witness : route_table_ (run late serving) = route_table_ serving.
Proof.
  refine (proj1 (proj2 (running_routes_frozen _ _ _ _ _ serving late _ _))).
  - vm_compute. reflexivity.
  - unfold late. rewrite !not_elem_of_cons. split_and!; try done. apply not_elem_of_nil.
Defined.

(** The handler of a computing route runs on the worker pool. *)
Lemma computing_route_sample :
  Service OnConnection <$>
    handler (RouteInternal (fun _ => Some [lit "hello"]) 0 (lit "/hello") (route_table_ serving)) =
  Some (OnWorkerPool, 7).
Proof. vm_compute. reflexivity. Qed.
End RoutesSample.
