(* ===== verification/Launcher.v ===== *)
(** * bsrvrun: plugins, and a server made from a configuration

    [src/src/bsrvrun/plugin_loader.cc], server_builder.cc, bsrvrun_main.cc and
    parameter_map_impl.cc.  The launcher loads a configuration ([ConfigLoader]),
    opens the shared objects it names, has their factories make handlers,
    aspects, a logger and services, gives them to a server ([ServerRoutes],
    [ServerRuntime]), runs it until a signal comes, and takes everything down
    again; errors are exceptions, and what is left then is taken down by
    destructors.

    The dynamic linker and the code of the plugins are parameters: functions that
    may fail or throw (something derived from [std::exception]) and may change an
    environment of their own.  Objects and
    handles are numbers.  What happens to libraries, objects, services and the
    server is recorded in a [trace]; which factory made what from which
    configuration is a relation on the environments before and after
    ([makes]).  Memory is unbounded: the slots of a server
    grow as far as a configuration asks. *)

From S2P Require Import Prelude RouteTarget RouteLayer RouteTable ServerRuntime ServerRoutes ConfigLoader.

(** ** Plugins *)

Inductive factory_kind := KHandler | KAspect | KLogger | KService.

#[global] Instance factory_kind_eq_dec : EqDecision factory_kind.
Proof. solve_decision. Defined.

(** The symbol a plugin exports for a kind, and how messages name the kind. *)
Definition symbol_name (k : factory_kind) : str :=
  match k with
  | KHandler => lit "GetHandlerFactory"
  | KAspect => lit "GetAspectFactory"
  | KLogger => lit "GetLoggerFactory"
  | KService => lit "GetServiceFactory"
  end.

Definition kind_name (k : factory_kind) : str :=
  match k with
  | KHandler => lit "handler"
  | KAspect => lit "aspect"
  | KLogger => lit "logger"
  | KService => lit "service"
  end.

(** What a call into a plugin that makes something gives. *)
Inductive plugin_call := Threw (what : str) | ReturnedNull | Returned (n : nat).

(** [RuntimeParameterMap] *)
Definition BuildMap (config : FactoryConfig) : gmap str str :=
  foldl (fun m kv => <[kv.1 := kv.2]> m) ∅ (params config).

Definition ParameterGet (m : gmap str str) (key : str) : str := default [] (m !! key).

Record LoadedServiceRecord := mkServiceRecord {
  rec_slot : Z;
  rec_service : nat;
  rec_factory : nat;
  rec_destroyed : bool;
}.

(** What happens, in order.  A service is destroyed while the server is quiet
    (it does not run and has no thread), or not. *)
Inductive event :=
  | EvOpen (path : str) (handle : nat)
  | EvCreate (k : factory_kind) (handle obj : nat)
  | EvNewServer
  | EvStart (ok : bool)
  | EvStop
  | EvDestroyService (service : nat) (quiet : bool)
  | EvDestroyServer
  | EvClose (handle : nat).

Abbreviation Server := (http_server (U := nat) (A := nat)).

Section launcher.
Context {E K : Type}.
Context (dlopen : str -> E -> (str + nat) * E) (dlsym : nat -> factory_kind -> E -> bool * E).
Context (get_factory : nat -> factory_kind -> E -> plugin_call * E).
Context (create : nat -> gmap str str -> E -> plugin_call * E).
Context (destroy_service : nat -> nat -> E -> option str * E).
Context (make_endpoint : str -> Z -> option nat).
Context (sys : nat -> syscall -> K -> bool * K) (has_reuse_port : bool).

Record world := mkWorld {
  env : E;
  handles_ : list (str * nat);
  handle_order_ : list str;
  loaded_services_ : list LoadedServiceRecord;
  server_ : option Server;
  trace : list event;
}.

Definition set_env (e : E) (w : world) : world :=
  mkWorld e (handles_ w) (handle_order_ w) (loaded_services_ w) (server_ w) (trace w).
Definition set_services (l : list LoadedServiceRecord) (w : world) : world :=
  mkWorld (env w) (handles_ w) (handle_order_ w) l (server_ w) (trace w).
Definition set_server (s : option Server) (w : world) : world :=
  mkWorld (env w) (handles_ w) (handle_order_ w) (loaded_services_ w) s (trace w).
Definition record (ev : event) (w : world) : world :=
  mkWorld (env w) (handles_ w) (handle_order_ w) (loaded_services_ w) (server_ w) (trace w ++ [ev]).

(** Code that changes the world and may throw. *)
Definition M (A : Type) : Type := world -> (str + A) * world.

Definition ret {A} (a : A) : M A := fun w => (inr a, w).
Definition raise {A} (what : str) : M A := fun w => (inl what, w).
Definition bindM {A B} (m : M A) (f : A -> M B) : M B :=
  fun w => let '(r, w) := m w in match r with inl e => (inl e, w) | inr a => f a w end.
Definition modify (f : world -> world) : M unit := fun w => (inr tt, f w).
Definition plugin {A} (f : E -> A * E) : M A := fun w => let '(a, e) := f (env w) in (inr a, set_env e w).

Notation "'do' x <- m ; k" := (bindM m (fun x => k)) (at level 10, x pattern, m at level 100, k at level 200).

Fixpoint for_each {A} (f : A -> M unit) (l : list A) : M unit :=
  match l with
  | [] => ret tt
  | a :: l => do _ <- f a; for_each f l
  end.

(** ** The loader *)

Definition quoted (s : str) : str := lit "`" ++ s ++ lit "`".

Definition ResolveFactorySymbol (handle : nat) (library : str) (k : factory_kind) : M unit :=
  do found <- plugin (dlsym handle k);
  if (found : bool) then ret tt
  else raise (quoted (symbol_name k) ++ lit " not found in " ++ quoted library).

Definition GetOrOpenLibrary (path : str) : M nat := fun w =>
  match assoc_find path (handles_ w) with
  | Some h => (inr h, w)
  | None =>
      let '(r, e) := dlopen path (env w) in
      match r with
      | inl error => (inl (lit "failed to load library " ++ quoted path ++ lit ": " ++ error), set_env e w)
      | inr h =>
          (inr h,
           mkWorld e (handles_ w ++ [(path, h)]) (handle_order_ w ++ [path]) (loaded_services_ w) (server_ w)
             (trace w ++ [EvOpen path h]))
      end
  end.

(** The part [CreateHandler], [CreateAspect], [CreateLogger] and [CreateService]
    share: the factory and what it made. *)
Definition CreateObject (k : factory_kind) (config : FactoryConfig) : M (nat * nat) :=
  do handle <- GetOrOpenLibrary (library config);
  do _ <- ResolveFactorySymbol handle (library config) k;
  do f <- plugin (get_factory handle k);
  match f with
  | Threw what => raise what
  | ReturnedNull => raise (symbol_name k ++ lit " returned nullptr in " ++ quoted (library config))
  | Returned factory =>
      do o <- plugin (create factory (BuildMap config));
      match o with
      | Threw what => raise what
      | ReturnedNull => raise (kind_name k ++ lit " factory returned nullptr in " ++ quoted (library config))
      | Returned obj => do _ <- modify (record (EvCreate k handle obj)); ret (factory, obj)
      end
  end.

Definition CreateHandler (config : FactoryConfig) : M nat := do x <- CreateObject KHandler config; ret x.2.
Definition CreateAspect (config : FactoryConfig) : M nat := do x <- CreateObject KAspect config; ret x.2.
Definition CreateLogger (config : FactoryConfig) : M nat := do x <- CreateObject KLogger config; ret x.2.

Definition CreateService (config : ServiceConfig) : M nat :=
  do x <- CreateObject KService (factory config);
  do _ <- modify (fun w => set_services (loaded_services_ w ++ [mkServiceRecord (slot config) x.2 x.1 false]) w);
  ret x.2.

(** ** Taking services and libraries down *)

Definition quiet (s : option Server) : bool :=
  match s with
  | None => true
  | Some s => negb (is_running_ (base s)) && bool_decide (live_threads (base s) = [])
  end.

Definition on_server (f : Server -> Server) (w : world) : world := set_server (f <$> server_ w) w.

(** One turn of the loop of [DestroyServiceRecords]. *)
Definition destroy_record (with_server : bool) (acc : option str * world) (r : LoadedServiceRecord) :
    option str * world :=
  let '(first_error, w) := acc in
  if rec_destroyed r then (first_error, w)
  else
    let w :=
      if with_server
      then on_server (fun s => set_base (SetServiceProvider (Z.to_nat (rec_slot r)) None (base s)) s) w else w in
    let '(error, e) := destroy_service (rec_factory r) (rec_service r) (env w) in
    let w := record (EvDestroyService (rec_service r) (quiet (server_ w))) (set_env e w) in
    (match first_error with Some _ => first_error | None => error end, w).

Definition DestroyServiceRecords (with_server : bool) (w : world) : option str * world :=
  let '(first_error, w) := foldl (destroy_record with_server) (None, w) (rev (loaded_services_ w)) in
  (first_error, set_services [] w).

Definition DestroyServices : M unit := fun w =>
  let '(error, w) := DestroyServiceRecords true w in
  match error with Some what => (inl what, w) | None => (inr tt, w) end.

Definition close_library (w : world) (path : str) : world :=
  match assoc_find path (handles_ w) with
  | Some h => record (EvClose h) w
  | None => w
  end.

(** [~PluginLoader] *)
Definition destroy_loader (w : world) : world :=
  let w := (DestroyServiceRecords false w).2 in
  foldl close_library w (rev (handle_order_ w)).

(** ** Applying a configuration *)

Definition server_call (f : Server -> Server) : M unit := modify (on_server f).

Definition apply_listener (l : ListenerConfig) : M unit :=
  match make_endpoint (address l) (port l) with
  | None => raise (lit "make_address")
  | Some ep => server_call (fun s => set_base (AddListen ep (Z.to_nat (ConfigLoader.io_threads l)) None (base s)) s)
  end.

Definition apply_logger (l : option FactoryConfig) : M unit :=
  match l with
  | None => ret tt
  | Some f => do logger <- CreateLogger f; server_call (fun s => set_base (SetLogger logger (base s)) s)
  end.

Definition apply_service (c : ServiceConfig) : M unit :=
  do service <- CreateService c;
  server_call (fun s => set_base (SetServiceProvider (Z.to_nat (slot c)) (Some service) (base s)) s).

Definition apply_default_handler (h : option FactoryConfig) : M unit :=
  match h with
  | None => ret tt
  | Some f => do h <- CreateHandler f; server_call (SetDefaultHandler (Some (UserHandler h)))
  end.

Definition apply_global_aspect (f : FactoryConfig) : M unit :=
  do a <- CreateAspect f; server_call (AddGlobalAspect a).

(** The handler a route is registered with. *)
Definition route_handler_of (cpu : bool) (h : nat) : option (route_handler nat) :=
  if cpu then WrapComputingHandler (Some (UserHandler h)) else Some (UserHandler h).

Definition apply_route (r : RouteConfig) : M unit :=
  do h <- CreateHandler (ConfigLoader.handler r);
  let route_handler := route_handler_of (cpu r) h in
  do _ <- server_call
    (if ignore_default_route r then AddExclusiveRouteEntry (method r) (path r) route_handler
     else AddRouteEntry (method r) (path r) route_handler);
  do _ <- for_each (fun f => do a <- CreateAspect f; server_call (AddAspect (method r) (path r) a))
    (ConfigLoader.aspects r);
  for_each (fun f => do a <- CreateAspect f; server_call (AddTerminalAspect (method r) (path r) a))
    (terminal_aspects r).

Definition ApplyConfigToServer (config : ServerConfig) : M unit := fun w =>
  match server_ w with
  | None => raise (lit "server cannot be nullptr") w
  | Some _ =>
      (do _ <- for_each apply_listener (listeners config);
       do _ <- apply_logger (logger config);
       do _ <- for_each apply_service (services config);
       do _ <- apply_default_handler (default_handler (global config));
       do _ <- for_each apply_global_aspect (global_aspects (global config));
       for_each apply_route (routes config)) w
  end.

(** ** The program *)

Definition runtime_options (hardware_concurrency : Z) (c : ServerConfig) : HttpServerRuntimeOptions :=
  let o := default_runtime_options hardware_concurrency in
  let x := executor c in
  if configured x then
    mkRuntimeOptions (ConfigLoader.core_thread_num x) (ConfigLoader.max_thread_num x)
      (ConfigLoader.fast_queue_capacity x) (ConfigLoader.thread_clean_interval x)
      (ConfigLoader.task_scan_interval x) (ConfigLoader.suspend_time x)
      (ConfigLoader.has_max_connection c) (ConfigLoader.max_connection c)
  else
    mkRuntimeOptions (thread_count c) (thread_count c) (ServerRuntime.fast_queue_capacity o)
      (ServerRuntime.thread_clean_interval o) (ServerRuntime.task_scan_interval o) (ServerRuntime.suspend_time o)
      (ConfigLoader.has_max_connection c) (ConfigLoader.max_connection c).

(** [AllocateUnique<HttpServer>(runtime_options)]; the built-in handler for no
    route is the number 0. *)
Definition make_server (o : HttpServerRuntimeOptions) : M unit :=
  modify (fun w => record EvNewServer (set_server (Some (mkHttpServer (new_HttpServer o) (new_table (UserHandler 0)))) w)).

(** [server.reset()], and the destructor of the pointer: a server stops when it
    is destroyed, and takes its handlers, aspects and logger with it. *)
Definition destroy_server (w : world) : world :=
  match server_ w with
  | None => w
  | Some _ => record EvDestroyServer (set_server None w)
  end.

Definition start_server (k : K) : M bool := fun w =>
  match server_ w with
  | None => (inr false, w)
  | Some s =>
      let '(ok, (b, _)) := ServerRuntime.Start sys has_reuse_port k (base s) in
      (inr ok, record (EvStart ok) (set_server (Some (set_base b s)) w))
  end.

Definition stop_server : M unit :=
  modify (fun w => record EvStop (on_server (fun s => set_base (Stop (base s)) s) w)).

(** From the construction of the loader to the end of its scope.  [None]: the
    loop that waits for a signal has not ended.  While it waits, handlers may
    call the server's runtime functions, [during]. *)
Definition serve (o : HttpServerRuntimeOptions) (config : ServerConfig) (k : K) (signal : bool)
    (during : list (server_op (K := K))) : M (option Z) :=
  do _ <- make_server o;
  do _ <- ApplyConfigToServer config;
  do ok <- start_server k;
  if (ok : bool) then
    do _ <- server_call (fun s => set_base (foldl (run_op sys has_reuse_port) (base s) during) s);
    if signal then
      do _ <- stop_server;
      do _ <- DestroyServices;
      do _ <- modify destroy_server;
      ret (Some 0%Z)
    else ret None
  else
    do _ <- DestroyServices;
    ret (Some 3%Z).

(** Leaving the scope: the server was declared after the loader. *)
Definition leave_scope (w : world) : world := destroy_loader (destroy_server w).

Inductive outcome := Exited (code : Z) | Waiting.

(** What the command line asks for. *)
Inductive command := BadArguments (what : str) | Help | Run (config : option str).

Definition RunMain (as_int as_size as_int64 : str -> option Z) (as_bool : str -> option bool)
    (hardware_concurrency : Z) (exists_ : str -> bool) (cwd : str) (load_file : str -> str + option yaml)
    (c : command) (k : K) (signal : bool) (during : list (server_op (K := K))) (w : world) : outcome * world :=
  match c with
  | BadArguments _ => (Exited 2, w)
  | Help => (Exited 0, w)
  | Run cli_path =>
      match ResolveConfigPath exists_ cwd cli_path with
      | inl _ => (Exited 2, w)
      | inr config_path =>
          match load_file config_path with
          | inl _ => (Exited 2, w)
          | inr root =>
              match LoadConfig as_int as_size as_int64 as_bool hardware_concurrency root with
              | inl _ => (Exited 2, w)
              | inr config =>
                  let '(r, w) := serve (runtime_options hardware_concurrency config) config k signal during w in
                  match r with
                  | inl _ => (Exited 2, leave_scope w)
                  | inr (Some code) => (Exited code, leave_scope w)
                  | inr None => (Waiting, w)
                  end
              end
          end
      end
  end.

Definition initial (e : E) : world := mkWorld e [] [] [] None [].
End launcher.

(** ** The order of events *)

(** What is alive: libraries and services latest first, the objects given to the
    server, the server. *)
Record plugins := mkPlugins {
  opened : list nat;
  live_services : list nat;
  live_objects : list nat;
  has_server : bool;
}.

(** What may happen.  Things are made from an open library and for a server;
    services are destroyed latest first and while the server is quiet; a library
    is closed when nothing that was made from any library is left, latest
    first. *)
Definition plugins_next (p : plugins) (ev : event) : option plugins :=
  match ev with
  | EvOpen _ h => Some (mkPlugins (h :: opened p) (live_services p) (live_objects p) (has_server p))
  | EvCreate k h o =>
      if bool_decide (h ∈ opened p) && has_server p then
        Some (match k with
              | KService => mkPlugins (opened p) (o :: live_services p) (live_objects p) true
              | _ => mkPlugins (opened p) (live_services p) (o :: live_objects p) true
              end)
      else None
  | EvNewServer =>
      if has_server p then None else Some (mkPlugins (opened p) (live_services p) (live_objects p) true)
  | EvStart _ | EvStop => if has_server p then Some p else None
  | EvDestroyService s q =>
      match live_services p with
      | x :: l => if (x =? s) && q then Some (mkPlugins (opened p) l (live_objects p) (has_server p)) else None
      | [] => None
      end
  | EvDestroyServer => if has_server p then Some (mkPlugins (opened p) (live_services p) [] false) else None
  | EvClose h =>
      match opened p, live_services p, live_objects p with
      | x :: l, [], [] => if (x =? h) && negb (has_server p) then Some (mkPlugins l [] [] false) else None
      | _, _, _ => None
      end
  end.

Definition nothing : plugins := mkPlugins [] [] [] false.

Definition run_trace (l : list event) : option plugins :=
  foldl (fun acc ev => p ← acc; plugins_next p ev) (Some nothing) l.

Lemma run_trace_snoc l ev : run_trace (l ++ [ev]) = p ← run_trace l; plugins_next p ev.
Proof. unfold run_trace. by rewrite foldl_app. Qed.

(** ** The invariant of the launcher *)

Lemma fmap_rev_list {A B} (f : A -> B) (l : list A) : f <$> rev l = rev (f <$> l).
Proof. exact (List.map_rev f l). Qed.

Section teardown.
Context {E K : Type}.
Context (dlopen : str -> E -> (str + nat) * E) (dlsym : nat -> factory_kind -> E -> bool * E).
Context (get_factory : nat -> factory_kind -> E -> plugin_call * E).
Context (create : nat -> gmap str str -> E -> plugin_call * E).
Context (destroy_service : nat -> nat -> E -> option str * E).
Context (make_endpoint : str -> Z -> option nat).
Context (sys : nat -> syscall -> K -> bool * K) (has_reuse_port : bool).
Abbreviation world := (world (E := E)).

(** [x]: a service that was made and is not on the list yet. *)
Record launch_inv (x : list nat) (p : plugins) (w : world) : Prop := {
  li_run : run_trace (trace w) = Some p;
  li_order : (handles_ w).*1 = handle_order_ w;
  li_paths : NoDup (handle_order_ w);
  li_opened : opened p = rev (handles_ w).*2;
  li_services : live_services p = x ++ rev (rec_service <$> loaded_services_ w);
  li_alive : Forall (fun r => rec_destroyed r = false) (loaded_services_ w);
  li_server : has_server p = bool_decide (is_Some (server_ w));
  li_objects : server_ w = None -> live_objects p = [];
  li_ok : forall s, server_ w = Some s -> server_ok (base s);
}.

(** There is a server, and it does not run. *)
Definition ready (w : world) : Prop :=
  (exists p, launch_inv [] p w) /\ exists s, server_ w = Some s /\ is_running_ (base s) = false.

(** Code that keeps the launcher ready, also when it throws. *)
Definition keeps {A} (m : world -> (str + A) * world) : Prop := forall w, ready w -> ready (m w).2.

Lemma keeps_ret {A} (a : A) : keeps (ret a).
Proof. by intros w Hw. Qed.

Lemma keeps_raise {A} what : keeps (raise (A := A) what).
Proof. by intros w Hw. Qed.

Lemma keeps_bind {A B} (m : world -> (str + A) * world) (f : A -> world -> (str + B) * world) :
  keeps m -> (forall a, keeps (f a)) -> keeps (bindM m f).
Proof.
  intros Hm Hf w Hw. unfold bindM. specialize (Hm w Hw). destruct (m w) as [[e|a] w']; [done|]. by apply Hf.
Qed.

Lemma keeps_for_each {A} (f : A -> world -> (str + unit) * world) l :
  (forall a, keeps (f a)) -> keeps (for_each f l).
Proof.
  intros Hf. induction l as [|a l IH]; cbn [for_each]; [apply keeps_ret|].
  by apply keeps_bind.
Qed.

Lemma launch_inv_env x p e w : launch_inv x p w -> launch_inv x p (set_env e w).
Proof. intros [L1 L2 L3 L4 L5 L6 L7 L8 L9]. by constructor. Qed.

Lemma keeps_plugin {A} (f : E -> A * E) : keeps (plugin f).
Proof.
  intros w [[p Hi] Hs]. unfold plugin. destruct (f (env w)) as [a e]. split; [|done].
  exists p. by apply launch_inv_env.
Qed.

(** A change of the server that keeps it well and at rest. *)
Lemma keeps_server_call (f : Server -> Server) :
  (forall s, is_running_ (base s) = false -> server_ok (base s) ->
     is_running_ (base (f s)) = false /\ server_ok (base (f s))) ->
  keeps (server_call f).
Proof.
  intros Hf w [[p [L1 L2 L3 L4 L5 L6 L7 L8 L9]] (s & Hs & Hr)]. destruct (Hf s Hr (L9 s Hs)) as [F1 F2].
  unfold server_call, modify, on_server, set_server. cbn [snd]. rewrite Hs in *. cbn [fmap option_fmap option_map].
  split; [|by exists (f s)]. exists p. constructor; try done. by intros ? [= <-].
Qed.

Lemma keeps_base (f : HttpServer -> HttpServer) :
  (forall b, is_running_ b = false -> server_ok b -> is_running_ (f b) = false /\ server_ok (f b)) ->
  keeps (server_call (fun s => set_base (f (base s)) s)).
Proof. intros Hf. apply keeps_server_call. intros s. apply Hf. Qed.

Lemma keeps_on_table f : keeps (server_call (on_table f)).
Proof. apply keeps_server_call. intros s Hr Hok. unfold on_table. by rewrite Hr. Qed.

Lemma keeps_open path w :
  ready w ->
  ready (GetOrOpenLibrary dlopen path w).2 /\
  forall h, (GetOrOpenLibrary dlopen path w).1 = inr h -> h ∈ (handles_ (GetOrOpenLibrary dlopen path w).2).*2.
Proof.
  intros [[p Hi] Hs]. unfold GetOrOpenLibrary. destruct (assoc_find path (handles_ w)) as [h|] eqn:Hf.
  { split; [split; [by exists p|done]|]. intros ? [= <-]. apply list_elem_of_fmap.
    exists (path, h). split; [done|]. by apply assoc_find_elem. }
  destruct (dlopen path (env w)) as [[err|h] e].
  { split; [|done]. split; [|done]. exists p. by apply launch_inv_env. }
  split; [|intros ? [= <-]; cbn [snd handles_]; rewrite fmap_app, elem_of_app; right; by left].
  split; [|done]. destruct Hi as [L1 L2 L3 L4 L5 L6 L7 L8 L9].
  exists (mkPlugins (h :: opened p) (live_services p) (live_objects p) (has_server p)).
  constructor; cbn [snd handles_ handle_order_ loaded_services_ server_ trace opened live_services live_objects
    has_server]; try done.
  - by rewrite run_trace_snoc, L1.
  - by rewrite fmap_app, L2.
  - apply NoDup_app. split; [done|]. split; [|apply NoDup_singleton].
    intros x Hx ->%list_elem_of_singleton. rewrite <- L2 in Hx. apply list_elem_of_fmap in Hx as ([k v] & -> & Hx).
    apply assoc_find_unique in Hx; [|by rewrite L2]. cbn in Hf. congruence.
  - by rewrite fmap_app, rev_app_distr, L4.
Qed.

(** What a factory made: a service still has to be listed, everything else is
    the server's. *)
Definition made (k : factory_kind) (o : nat) (w : world) : Prop :=
  (exists p, launch_inv (if decide (k = KService) then [o] else []) p w) /\
  exists s, server_ w = Some s /\ is_running_ (base s) = false.

Lemma create_made k h o w :
  ready w -> h ∈ (handles_ w).*2 -> made k o (record (EvCreate k h o) w).
Proof.
  intros [[p [L1 L2 L3 L4 L5 L6 L7 L8 L9]] Hs] Hh. split; [|done].
  assert (h ∈ opened p) as Ho by (rewrite L4; apply list_elem_of_In; rewrite <- in_rev; by apply list_elem_of_In).
  destruct Hs as (s & Hs & _). rewrite Hs in L7. rewrite bool_decide_eq_true_2 in L7 by done.
  exists (match k with
          | KService => mkPlugins (opened p) (o :: live_services p) (live_objects p) true
          | _ => mkPlugins (opened p) (live_services p) (o :: live_objects p) true
          end).
  assert (plugins_next p (EvCreate k h o) =
    Some (match k with
          | KService => mkPlugins (opened p) (o :: live_services p) (live_objects p) true
          | _ => mkPlugins (opened p) (live_services p) (o :: live_objects p) true
          end)) as Hn by (cbn; by rewrite bool_decide_eq_true_2, L7).
  constructor; cbn [record handles_ handle_order_ loaded_services_ server_ trace]; try done.
  - rewrite run_trace_snoc, L1. exact Hn.
  - by destruct k.
  - destruct k; cbn; by rewrite ?L5.
  - rewrite Hs. by destruct k.
  - by rewrite Hs.
Qed.

Lemma CreateObject_made k config w :
  ready w ->
  match CreateObject dlopen dlsym get_factory create k config w with
  | (inl _, w') => ready w'
  | (inr (_, o), w') => made k o w'
  end.
Proof.
  intros Hw. unfold CreateObject, ResolveFactorySymbol, bindM, plugin, modify, raise, ret.
  destruct (keeps_open (library config) w Hw) as [Hr Hh].
  destruct (GetOrOpenLibrary dlopen (library config) w) as [[err|h] w1]; [done|]. cbn [fst snd] in *.
  specialize (Hh h eq_refl).
  assert (forall e, ready (set_env e w1)) as Henv.
  { intros e. destruct Hr as [[p Hp] Hs]. split; [|done]. exists p. by apply launch_inv_env. }
  destruct (dlsym h k (env w1)) as [[] e1]; [|by apply Henv].
  destruct (get_factory h k _) as [[what| |f] e2]; [by apply Henv|by apply Henv|].
  destruct (create f _ _) as [[what| |o] e3]; [by apply Henv|by apply Henv|].
  by apply create_made; [apply Henv|].
Qed.

Lemma keeps_made k config {B} (f : nat * nat -> world -> (str + B) * world) :
  (forall x w, made k x.2 w -> ready (f x w).2) ->
  keeps (bindM (CreateObject dlopen dlsym get_factory create k config) f).
Proof.
  intros Hf w Hw. unfold bindM. pose proof (CreateObject_made k config w Hw) as Hm.
  destruct (CreateObject _ _ _ _ k config w) as [[e|[g o]] w']; [done|]. by apply (Hf (g, o)).
Qed.

Lemma keeps_CreateService config : keeps (CreateService dlopen dlsym get_factory create config).
Proof.
  apply keeps_made. intros [g o] w [[p [L1 L2 L3 L4 L5 L6 L7 L8 L9]] Hs].
  split; [|done]. exists p. constructor; try done; cbn [set_services loaded_services_ bindM modify ret snd].
  - rewrite fmap_app, rev_app_distr. exact L5.
  - apply Forall_app. by repeat constructor.
Qed.

(** Everything else a factory makes. *)
Lemma keeps_other k config :
  k <> KService -> keeps (bindM (CreateObject dlopen dlsym get_factory create k config) (fun x => ret x.2)).
Proof. intros Hk. apply keeps_made. intros x w. unfold made. by rewrite decide_False. Qed.

Ltac keep :=
  repeat first
    [ apply keeps_ret | apply keeps_raise | apply keeps_on_table | by apply keeps_other | apply keeps_CreateService
    | apply keeps_bind; [|intros ?] | apply keeps_for_each; intros ?
    | apply keeps_base; intros ? ? ? ].

Lemma SetServiceProvider_rest i v b :
  is_running_ b = false -> server_ok b ->
  is_running_ (SetServiceProvider i v b) = false /\ server_ok (SetServiceProvider i v b).
Proof. intros Hr Hok. split; [done|by apply server_ok_cfg]. Qed.

Lemma AddListen_rest ep n ssl b :
  is_running_ b = false -> server_ok b -> is_running_ (AddListen ep n ssl b) = false /\ server_ok (AddListen ep n ssl b).
Proof. intros Hr Hok. split; [unfold AddListen; by rewrite Hr|by apply AddListen_ok]. Qed.

Lemma SetLogger_rest l b :
  is_running_ b = false -> server_ok b -> is_running_ (SetLogger l b) = false /\ server_ok (SetLogger l b).
Proof. intros Hr Hok. unfold SetLogger. rewrite Hr. split; [done|by apply server_ok_cfg]. Qed.

Lemma keeps_apply config :
  keeps (ApplyConfigToServer dlopen dlsym get_factory create make_endpoint config).
Proof.
  intros w Hw. unfold ApplyConfigToServer. destruct (server_ w); [|done].
  match goal with |- ready (?m w).2 => enough (keeps m) as Hk by by apply Hk end.
  unfold apply_listener, apply_logger, apply_service, apply_default_handler, apply_global_aspect, apply_route.
  keep.
  all: try (destruct (make_endpoint _ _)); try (destruct (logger config)); try (destruct (default_handler _));
    try (destruct (ignore_default_route _)); keep.
  all: eauto using AddListen_rest, SetLogger_rest, SetServiceProvider_rest.
Qed.

(** *** Taking down *)

(** The same server but for its service slots. *)
Definition rests (a b : option Server) : Prop :=
  match a, b with
  | None, None => True
  | Some s, Some s' =>
      exists c, base s' = set_cfg c (base s) /\ endpoint_configs_ c = endpoint_configs_ (cfg (base s))
  | _, _ => False
  end.

Lemma rests_refl a : rests a a.
Proof. destruct a as [s|]; [|done]. exists (cfg (base s)). split; [|done]. by destruct (base s). Qed.

Lemma rests_trans a b c : rests a b -> rests b c -> rests a c.
Proof.
  destruct a, b, c; try done. intros (x & Ex & Hx) (y & Ey & Hy). exists y. rewrite Ex in Ey, Hy.
  split; [done|]. by rewrite <- Hx.
Qed.

Lemma rests_quiet a b : rests a b -> quiet b = quiet a.
Proof. destruct a, b; try done. intros (c & Hc & _). unfold quiet. by rewrite Hc. Qed.

Lemma destroy_record_spec ws fe w r l p :
  rec_destroyed r = false -> run_trace (trace w) = Some p -> live_services p = rec_service r :: l ->
  quiet (server_ w) = true ->
  let w' := (destroy_record destroy_service ws (fe, w) r).2 in
  run_trace (trace w') = Some (mkPlugins (opened p) l (live_objects p) (has_server p)) /\
  handles_ w' = handles_ w /\ handle_order_ w' = handle_order_ w /\ rests (server_ w) (server_ w').
Proof.
  intros Hr Ht Hl Hq. unfold destroy_record. rewrite Hr.
  set (w1 := if ws then _ else w).
  assert (rests (server_ w) (server_ w1)) as Hs.
  { subst w1. destruct ws; [|apply rests_refl]. unfold on_server, set_server. cbn [server_].
    destruct (server_ w) as [s|]; [|done]. cbn [fmap option_fmap option_map]. by eexists. }
  assert (trace w1 = trace w /\ handles_ w1 = handles_ w /\ handle_order_ w1 = handle_order_ w) as (T1 & T2 & T3)
    by (subst w1; by destruct ws).
  destruct (destroy_service _ _ _) as [err e]. cbn [snd record set_env trace handles_ handle_order_ server_].
  split; [|done]. rewrite run_trace_snoc, T1, Ht, (rests_quiet _ _ Hs), Hq. cbn. by rewrite Hl, Nat.eqb_refl.
Qed.

Lemma destroy_records_spec ws l : forall fe w p,
  Forall (fun r => rec_destroyed r = false) l -> run_trace (trace w) = Some p ->
  live_services p = rec_service <$> l -> quiet (server_ w) = true ->
  let w' := (foldl (destroy_record destroy_service ws) (fe, w) l).2 in
  run_trace (trace w') = Some (mkPlugins (opened p) [] (live_objects p) (has_server p)) /\
  handles_ w' = handles_ w /\ handle_order_ w' = handle_order_ w /\ rests (server_ w) (server_ w').
Proof.
  induction l as [|r l IH]; intros fe w p Hl Ht Hs Hq.
  { cbn. split; [destruct p; cbn in *; by subst|]. split_and!; try done. apply rests_refl. }
  apply Forall_cons in Hl as [Hr Hl]. cbn [foldl].
  destruct (destroy_record_spec ws fe w r (list_fmap _ _ rec_service l) p Hr Ht Hs Hq) as (D1 & D2 & D3 & D4).
  destruct (destroy_record destroy_service ws (fe, w) r) as [fe' w']. cbn [snd] in *.
  destruct (IH fe' w' _ Hl D1 eq_refl) as (I1 & I2 & I3 & I4); [by rewrite (rests_quiet _ _ D4)|].
  split; [done|]. split; [congruence|]. split; [congruence|]. by eapply rests_trans.
Qed.

Lemma DestroyServiceRecords_inv ws p w :
  launch_inv [] p w -> quiet (server_ w) = true ->
  let w' := (DestroyServiceRecords destroy_service ws w).2 in
  launch_inv [] (mkPlugins (opened p) [] (live_objects p) (has_server p)) w' /\ rests (server_ w) (server_ w').
Proof.
  intros [L1 L2 L3 L4 L5 L6 L7 L8 L9] Hq. unfold DestroyServiceRecords.
  destruct (destroy_records_spec ws (rev (loaded_services_ w)) None w p) as (D1 & D2 & D3 & D4); try done.
  { by apply Forall_rev. }
  { by rewrite L5, <- fmap_rev_list. }
  destruct (foldl _ _ _) as [fe w']. cbn [snd] in *. split; [|done].
  constructor; cbn [set_services trace handles_ handle_order_ loaded_services_ server_ opened live_services
    live_objects has_server]; try done.
  - by rewrite D2, D3.
  - by rewrite D3.
  - by rewrite D2.
  - rewrite L7. apply bool_decide_ext. by destruct (server_ w), (server_ w').
  - intros Hn. apply L8. by destruct (server_ w), (server_ w').
  - intros s' Hs'. rewrite Hs' in D4. destruct (server_ w) as [s|]; [|done].
    destruct D4 as (c & -> & Hc). by apply server_ok_cfg, L9.
Qed.

Lemma close_libraries l : forall w : world,
  (forall kv, kv ∈ l -> assoc_find kv.1 (handles_ w) = Some kv.2) ->
  run_trace (trace w) = Some (mkPlugins l.*2 [] [] false) ->
  run_trace (trace (foldl close_library w l.*1)) = Some nothing.
Proof.
  induction l as [|[path h] l IH]; intros w Hl Ht; [done|]. cbn [fmap list_fmap foldl fst].
  pose proof (Hl (path, h) ltac:(by left)) as Hh. cbn [fst snd] in Hh.
  assert (close_library w path = record (EvClose h) w) as -> by (unfold close_library; by rewrite Hh).
  apply IH.
  - intros kv Hkv. apply Hl. by right.
  - cbn [record trace]. rewrite run_trace_snoc, Ht. cbn. by rewrite Nat.eqb_refl.
Qed.

Lemma leave_scope_empty p w :
  launch_inv [] p w -> run_trace (trace (leave_scope destroy_service w)) = Some nothing.
Proof.
  intros Hi. unfold leave_scope, destroy_loader.
  assert (exists p', launch_inv [] p' (destroy_server w) /\ has_server p' = false /\ live_objects p' = [] /\
    server_ (destroy_server w) = None) as (p' & Hi' & Hs & Ho & Hn).
  { destruct Hi as [L1 L2 L3 L4 L5 L6 L7 L8 L9]. unfold destroy_server. destruct (server_ w) as [s|] eqn:Hs.
    - rewrite bool_decide_eq_true_2 in L7 by done.
      exists (mkPlugins (opened p) (live_services p) [] false). split; [|done]. constructor; try done.
      cbn [record set_server trace]. rewrite run_trace_snoc, L1. cbn. by rewrite L7.
    - rewrite bool_decide_eq_false_2 in L7 by by intros [].
      exists p. split; [constructor; rewrite ?Hs; try done|by auto]. }
  destruct (DestroyServiceRecords_inv false p' _ Hi') as [Hd Hr]; [by rewrite Hn|].
  destruct Hd as [L1 L2 L3 L4 L5 L6 L7 L8 L9]. cbn [opened live_objects has_server] in *.
  set (w1 := (DestroyServiceRecords destroy_service false (destroy_server w)).2) in *.
  rewrite <- L2, <- fmap_rev_list. apply close_libraries.
  - intros [k v] Hkv. apply assoc_find_unique; [by rewrite L2|]. by apply list_elem_of_In, in_rev, list_elem_of_In.
  - by rewrite L1, Hs, Ho, L4, <- fmap_rev_list.
Qed.

(** *** The trace only grows *)

Lemma destroy_record_trace ws acc r : trace acc.2 `prefix_of` trace (destroy_record destroy_service ws acc r).2.
Proof.
  destruct acc as [fe w]. unfold destroy_record. destruct (rec_destroyed r); [done|].
  destruct ws; destruct (destroy_service _ _ _); by apply prefix_app_r.
Qed.

Lemma foldl_trace {A B} (f : A -> B -> A) (t : A -> list event) :
  (forall a b, t a `prefix_of` t (f a b)) -> forall l a, t a `prefix_of` t (foldl f a l).
Proof. intros Hf l. induction l as [|b l IH]; intros a; cbn; [done|]. by etrans; [apply Hf|apply IH]. Qed.

Lemma DestroyServiceRecords_trace ws w : trace w `prefix_of` trace (DestroyServiceRecords destroy_service ws w).2.
Proof.
  unfold DestroyServiceRecords.
  pose proof (foldl_trace (destroy_record destroy_service ws) (fun a => trace a.2)
    (destroy_record_trace ws) (rev (loaded_services_ w)) (None, w)) as Hp.
  by destruct (foldl _ _ _) as [fe w'].
Qed.

Lemma leave_scope_trace (w : world) : trace w `prefix_of` trace (leave_scope destroy_service w).
Proof.
  unfold leave_scope, destroy_loader. trans (trace (destroy_server w)).
  { unfold destroy_server. destruct (server_ w); [by apply prefix_app_r|done]. }
  etrans; [apply (DestroyServiceRecords_trace false)|].
  apply (foldl_trace close_library trace). intros v path. unfold close_library.
  destruct (assoc_find _ _); [by apply prefix_app_r|done].
Qed.

(** *** Running the server *)

Lemma quiet_stopped s : server_ok (base s) -> is_running_ (base s) = false -> quiet (Some s) = true.
Proof.
  intros [_ _ Hst] Hr. cbn [quiet]. rewrite Hr in Hst |- *. destruct Hst as [S1 S2].
  unfold live_threads. by rewrite S1, S2.
Qed.

Lemma server_ok_new o : server_ok (new_HttpServer o).
Proof. repeat constructor. Qed.

Lemma make_server_ready o e : ready (make_server o (initial e)).2.
Proof.
  split; [|by eexists]. exists (mkPlugins [] [] [] true). constructor; try done; [constructor|].
  intros s [= <-]. apply server_ok_new.
Qed.

(** The server is changed and an event recorded that says so. *)
Lemma launch_inv_server p w ev s s' :
  launch_inv [] p w -> server_ w = Some s -> server_ok (base s') -> plugins_next p ev = Some p ->
  launch_inv [] p (record ev (set_server (Some s') w)).
Proof.
  intros [L1 L2 L3 L4 L5 L6 L7 L8 L9] Hs Hok Hn.
  constructor; cbn [record set_server trace handles_ handle_order_ loaded_services_ server_]; try done.
  - by rewrite run_trace_snoc, L1.
  - by rewrite L7, Hs.
  - by intros ? [= <-].
Qed.

Lemma start_server_ready k w :
  ready w ->
  exists ok w', start_server sys has_reuse_port k w = (inr ok, w') /\ (exists p, launch_inv [] p w') /\
    EvStart ok ∈ trace w' /\ exists s, server_ w' = Some s /\ (ok = false -> is_running_ (base s) = false).
Proof.
  intros [[p Hi] (s & Hs & Hr)]. unfold start_server. rewrite Hs.
  pose proof (li_ok _ _ _ Hi s Hs) as Hok. pose proof (start_effect sys has_reuse_port k (base s) Hok) as He.
  destruct (ServerRuntime.Start _ _ _ _) as [ok [b k']] eqn:Hb. apply Start_server_ok in Hb; [|done].
  eexists ok, _. split; [done|]. split; [exists p; eapply launch_inv_server; [done..|]|split].
  - pose proof (li_server _ _ _ Hi) as Hp. rewrite Hs in Hp. cbn. rewrite Hp. by rewrite bool_decide_eq_true_2.
  - cbn. apply elem_of_app. right. by left.
  - eexists. split; [done|]. intros ->. cbn [set_base base]. rewrite Hr in He. tauto.
Qed.

Lemma DestroyServices_inv p w :
  launch_inv [] p w -> quiet (server_ w) = true ->
  exists r w', DestroyServices destroy_service w = (r, w') /\ trace w `prefix_of` trace w' /\
    exists p', launch_inv [] p' w'.
Proof.
  intros Hi Hq. unfold DestroyServices. pose proof (DestroyServiceRecords_inv true p w Hi Hq) as [Hd _].
  pose proof (DestroyServiceRecords_trace true w) as Ht.
  destruct (DestroyServiceRecords destroy_service true w) as [[what|] w']; eauto 6.
Qed.

Lemma destroy_server_inv p w :
  launch_inv [] p w -> trace w `prefix_of` trace (destroy_server w) /\ exists p', launch_inv [] p' (destroy_server w).
Proof.
  intros Hi. unfold destroy_server. destruct (server_ w) as [s|] eqn:Hs; [|by eauto].
  split; [by apply prefix_app_r|]. destruct Hi as [L1 L2 L3 L4 L5 L6 L7 L8 L9].
  rewrite Hs, bool_decide_eq_true_2 in L7 by done.
  exists (mkPlugins (opened p) (live_services p) [] false). constructor; try done.
  cbn [record set_server trace]. rewrite run_trace_snoc, L1. cbn. by rewrite L7.
Qed.

Lemma bindM_run {A B} (m : world -> (str + A) * world) (f : A -> world -> (str + B) * world) w a w' :
  m w = (inr a, w') -> bindM m f w = f a w'.
Proof. unfold bindM. by intros ->. Qed.

Lemma bindM_err {A B} (m : world -> (str + A) * world) (f : A -> world -> (str + B) * world) w what w' :
  m w = (inl what, w') -> bindM m f w = (inl what, w').
Proof. unfold bindM. by intros ->. Qed.

(** How the scope of the loader and the server may be left, or not. *)
Definition served (signal : bool) (x : (str + option Z) * world) : Prop :=
  let '(r, w) := x in
  (exists p, launch_inv [] p w) /\
  match r with
  | inl _ => True
  | inr (Some code) => (code = 0%Z /\ EvStart true ∈ trace w) \/ (code = 3%Z /\ EvStart false ∈ trace w)
  | inr None => signal = false /\ EvStart true ∈ trace w /\ is_Some (server_ w)
  end.

(** The way down of a server that has been told to stop. *)
Lemma shutdown_served signal p w s :
  launch_inv [] p w -> server_ w = Some s -> EvStart true ∈ trace w ->
  served signal (bindM (stop_server (E := E)) (fun _ => bindM (DestroyServices destroy_service)
    (fun _ => bindM (modify destroy_server) (fun _ => ret (Some 0%Z)))) w).
Proof.
  intros Hi Hs Ht. erewrite bindM_run by done. unfold on_server. rewrite Hs. cbn [fmap option_fmap option_map].
  pose proof (li_ok _ _ _ Hi s Hs) as Hok. pose proof (li_server _ _ _ Hi) as Hp.
  rewrite Hs, bool_decide_eq_true_2 in Hp by done.
  assert (launch_inv [] p (record EvStop (set_server (Some (set_base (Stop (base s)) s)) w))) as Hi'.
  { eapply launch_inv_server; [done..| |cbn; by rewrite Hp]. by apply Stop_ok. }
  apply DestroyServices_inv in Hi' as (r & w' & Hd & Ht' & p' & Hi'').
  2:{ cbn [server_ set_server record]. apply quiet_stopped; [by apply Stop_ok|]. cbn [set_base base].
      destruct (is_running_ (base s)) eqn:Hr; [by rewrite Stop_spec|unfold Stop; by rewrite Hr]. }
  destruct r as [what|[]]; [erewrite bindM_err by done; split; [by exists p'|done]|].
  do 2 erewrite bindM_run by done. apply destroy_server_inv in Hi'' as [Hp' Hi''']. split; [done|]. left.
  split; [done|]. eapply elem_of_prefix; [|done]. eapply elem_of_prefix; [|done]. cbn. by apply elem_of_app; left.
Qed.

Lemma during_inv p w s ops :
  launch_inv [] p w -> server_ w = Some s ->
  launch_inv [] p (on_server (fun s => set_base (foldl (run_op sys has_reuse_port) (base s) ops) s) w).
Proof.
  intros [L1 L2 L3 L4 L5 L6 L7 L8 L9] Hs. unfold on_server. rewrite Hs in L7, L9 |- *.
  constructor; try done. intros s' [= <-]. cbn [set_base base]. specialize (L9 s eq_refl). revert L9.
  generalize (base s). clear. induction ops as [|op ops IH]; intros b Hb; cbn; [done|]. by apply IH, run_op_ok.
Qed.

Lemma serve_served o config k signal during e :
  served signal (serve dlopen dlsym get_factory create destroy_service make_endpoint sys has_reuse_port
    o config k signal during (initial e)).
Proof.
  unfold serve. pose proof (make_server_ready o e) as Hr. erewrite bindM_run by done.
  apply (keeps_apply config) in Hr as Hr'. cbn [make_server modify snd] in Hr'.
  destruct (ApplyConfigToServer _ _ _ _ _ config _) as [[what|[]] w2] eqn:Ha;
    [erewrite bindM_err by done; split; [apply Hr'|done]|].
  erewrite bindM_run by done.
  cbn [snd] in Hr'. destruct (start_server_ready k w2 Hr') as (ok & w3 & Hst & [p Hi] & Ht & s & Hs & Hrun).
  erewrite bindM_run by done. destruct ok; cycle 1.
  - destruct (DestroyServices_inv p w3 Hi) as (r & w' & Hd & Ht' & p' & Hi').
    { rewrite Hs. apply quiet_stopped; [by eapply li_ok|by apply Hrun]. }
    destruct r as [what|[]]; [erewrite bindM_err by done; split; [by exists p'|done]|].
    erewrite bindM_run by done. split; [by exists p'|]. right. split; [done|]. by eapply elem_of_prefix.
  - erewrite bindM_run by done. pose proof (during_inv p w3 s during Hi Hs) as Hi'. destruct signal.
    + eapply shutdown_served; [done| |done]. unfold on_server. by rewrite Hs.
    + split; [by exists p|]. split; [done|]. split; [done|]. unfold on_server. cbn. rewrite Hs. by eexists.
Qed.

(** C37. However the launcher ends - bad arguments, an unreadable configuration, a
    library that does not open, a factory that throws or gives nothing, a server
    that does not start, a signal, a service that throws when destroyed - the
    sequence of what it did is one [plugins_next] allows: things are made only
    from open libraries and while there is a server; services are destroyed once
    each, latest first, and only when no thread of the server is left; a library
    is closed once, latest first, after the server, every handler, aspect and
    logger, and every service.  When it has exited nothing is left, and the exit
    code is 0 only for help or after a successful start, 3 only after a failed
    one, and 2 otherwise.  It goes on waiting only when no signal has come, and
    then with the server in place. *)
Theorem launcher_teardown as_int as_size as_int64 as_bool hardware_concurrency exists_ cwd load_file c k signal
    during e :
  let '(out, w) := RunMain dlopen dlsym get_factory create destroy_service make_endpoint sys has_reuse_port
    as_int as_size as_int64 as_bool hardware_concurrency exists_ cwd load_file c k signal during (initial e) in
  exists p, run_trace (trace w) = Some p /\
  match out with
  | Exited code =>
      p = nothing /\
      ((code = 0%Z /\ (c = Help \/ EvStart true ∈ trace w)) \/ code = 2%Z \/
       (code = 3%Z /\ EvStart false ∈ trace w))
  | Waiting =>
      signal = false /\ EvStart true ∈ trace w /\ has_server p = true /\
      live_services p = rev (rec_service <$> loaded_services_ w)
  end.
Proof.
  assert (forall code, code = 0%Z /\ c = Help \/ code = 2%Z -> exists p, run_trace (trace (initial e)) = Some p /\
    p = nothing /\ ((code = 0%Z /\ (c = Help \/ EvStart true ∈ trace (initial e))) \/ code = 2%Z \/
       (code = 3%Z /\ EvStart false ∈ trace (initial e)))) as Hearly.
  { intros code Hc. exists nothing. split; [done|]. split; [done|]. tauto. }
  unfold RunMain. destruct c as [what| |cli_path]; [apply Hearly; auto..|].
  destruct (ResolveConfigPath _ _ _) as [?|config_path]; [apply Hearly; auto|].
  destruct (load_file config_path) as [?|root]; [apply Hearly; auto|].
  destruct (LoadConfig _ _ _ _ _ _) as [?|config]; [apply Hearly; auto|]. clear Hearly.
  pose proof (serve_served (runtime_options hardware_concurrency config) config k signal during e) as Hs.
  destruct (serve _ _ _ _ _ _ _ _ _ _ _ _ _ _) as [r w]. destruct Hs as [[p Hi] Hr].
  destruct r as [what|[code|]].
  - exists nothing. split; [by eapply leave_scope_empty|]. auto.
  - exists nothing. split; [by eapply leave_scope_empty|]. split; [done|].
    destruct Hr as [[-> Ht]|[-> Ht]]; [left|right; right];
      (split; [done|]); try right; (eapply elem_of_prefix; [exact Ht|apply leave_scope_trace]).
  - exists p. destruct Hi, Hr as (-> & Ht & Hsrv). split; [done|]. rewrite li_server0, li_services0.
    by rewrite bool_decide_eq_true_2.
Qed.
End teardown.

(** ** The server a configuration asks for *)

Section config_effect.
Context {E : Type}.
Context (dlopen : str -> E -> (str + nat) * E) (dlsym : nat -> factory_kind -> E -> bool * E).
Context (get_factory : nat -> factory_kind -> E -> plugin_call * E).
Context (create : nat -> gmap str str -> E -> plugin_call * E).
Context (make_endpoint : str -> Z -> option nat).
Abbreviation world := (world (E := E)).
Abbreviation state := (list LoadedServiceRecord * Server)%type.

Definition has_state (w : world) (x : state) : Prop := loaded_services_ w = x.1 /\ server_ w = Some x.2.

(** *** Calls of factories

    What the plugins are asked for, one call after the other: a call names the
    kind of factory and the configuration it is for, and gives the factory and
    what it made.  The library of the configuration is opened unless it is open,
    its factory of that kind is looked up and called with the parameters of the
    configuration.  The environment of the plugins and the table of open libraries
    go from one call to the next. *)

Definition call : Type := factory_kind * FactoryConfig * (nat * nat).
Abbreviation plugin_state := (E * list (str * nat))%type.

Inductive opens (path : str) : plugin_state -> nat -> plugin_state -> Prop :=
  | opens_again e hs h : assoc_find path hs = Some h -> opens path (e, hs) h (e, hs)
  | opens_first e hs h e' :
      assoc_find path hs = None -> dlopen path e = (inr h, e') -> opens path (e, hs) h (e', hs ++ [(path, h)]).

Inductive makes : plugin_state -> list call -> plugin_state -> Prop :=
  | makes_none x : makes x [] x
  | makes_one k f g o m h x e1 hs e2 e3 e4 l y :
      opens (library f) x h (e1, hs) -> dlsym h k e1 = (true, e2) -> get_factory h k e2 = (Returned g, e3) ->
      (factory_ok f -> m = list_to_map (params f)) -> create g m e3 = (Returned o, e4) ->
      makes (e4, hs) l y -> makes x ((k, f, (g, o)) :: l) y.

Lemma makes_app x l y l' z : makes x l y -> makes y l' z -> makes x (l ++ l') z.
Proof. induction 1; [done|]. intros Hz. cbn [app]. econstructor; eauto. Qed.

Lemma BuildMap_params f : factory_ok f -> BuildMap f = list_to_map (params f).
Proof.
  unfold BuildMap, factory_ok. intros Hnd.
  enough (forall m, foldl (fun m kv => <[kv.1 := kv.2]> m) m (params f) = list_to_map (params f) ∪ m) as ->
    by by rewrite (right_id_L ∅ (∪)).
  induction (params f) as [|[k v] l IH]; intros m; cbn; [by rewrite (left_id_L ∅ (∪))|].
  apply NoDup_cons in Hnd as [Hk Hnd]. rewrite IH by done.
  rewrite <- insert_union_l. symmetry. apply insert_union_r. by apply not_elem_of_list_to_map_1.
Qed.

Definition plugins_of (w : world) : plugin_state := (env w, handles_ w).

(** When [m] does not throw it makes the calls and takes the records and the
    server as [R] says. *)
Definition does {A} (m : world -> (str + A) * world) (R : state -> A -> list call -> state -> Prop) : Prop :=
  forall w x a w', has_state w x -> m w = (inr a, w') ->
    exists l x', has_state w' x' /\ makes (plugins_of w) l (plugins_of w') /\ R x a l x'.

Lemma does_ret {A} (a : A) : does (ret a) (fun x b l y => b = a /\ l = [] /\ y = x).
Proof. intros w x b w' Hw [= <- <-]. exists [], x. split; [done|]. split; [constructor|done]. Qed.

Lemma does_raise {A} what R : does (raise (A := A) what) R.
Proof. by intros w x a w' _ Hr. Qed.

Lemma does_bind {A B} (m : world -> (str + A) * world) (f : A -> world -> (str + B) * world) R S :
  does m R -> (forall a, does (f a) (S a)) ->
  does (bindM m f) (fun x b l z => exists a y l1 l2, l = l1 ++ l2 /\ R x a l1 y /\ S a y b l2 z).
Proof.
  intros Hm Hf w x b w' Hw. unfold bindM. destruct (m w) as [[e|a] w1] eqn:Hmw; [done|].
  destruct (Hm _ _ _ _ Hw Hmw) as (l1 & y & Hy & H1 & HR). intros Hfw.
  destruct (Hf a _ _ _ _ Hy Hfw) as (l2 & z & Hz & H2 & HS). exists (l1 ++ l2), z. split; [done|].
  split; [by eapply makes_app|]. eauto 10.
Qed.

Lemma does_weaken {A} (m : world -> (str + A) * world) (R S : state -> A -> list call -> state -> Prop) :
  does m R -> (forall x a l y, R x a l y -> S x a l y) -> does m S.
Proof. intros Hm HRS w x a w' Hw Ha. destruct (Hm _ _ _ _ Hw Ha) as (l & y & Hy & Hl & HR). eauto 6. Qed.

Lemma does_server_call f : does (server_call f) (fun x _ l y => l = [] /\ y = (x.1, f x.2)).
Proof.
  intros w [rs s] [] w' [H1 H2] [= <-]. eexists [], _. split; [|split; [constructor|done]].
  split; [done|]. cbn in *. by rewrite H2.
Qed.

Lemma does_CreateObject k config :
  does (CreateObject dlopen dlsym get_factory create k config) (fun x go l y => y = x /\ l = [(k, config, go)]).
Proof.
  intros w x [g o] w' [H1 H2]. unfold CreateObject, ResolveFactorySymbol, bindM, plugin, modify, raise, ret.
  intros Ha. exists [(k, config, (g, o))], x.
  assert (forall h w1, GetOrOpenLibrary dlopen (library config) w = (inr h, w1) ->
    has_state w1 x /\ opens (library config) (plugins_of w) h (plugins_of w1)) as Ho.
  { intros h w1. unfold GetOrOpenLibrary, plugins_of. destruct (assoc_find _ _) eqn:Hf.
    - intros [= -> ->]. split; [done|]. by constructor.
    - destruct (dlopen _ _) as [[|] ?] eqn:Hd; [done|]. intros [= -> <-]. split; [done|]. by constructor. }
  destruct (GetOrOpenLibrary _ _ _) as [[|h] w1]; [done|]. destruct (Ho _ _ eq_refl) as [[O1 O2] O3].
  destruct (dlsym _ _ _) as [[] e1] eqn:E1; [|done]. destruct (get_factory _ _ _) as [[| |] e2] eqn:E2; [done..|].
  destruct (create _ _ _) as [[| |] e3] eqn:E3; [done..|]. injection Ha as -> -> <-.
  split; [done|]. split; [|done]. econstructor; [exact O3|exact E1|exact E2|apply BuildMap_params|exact E3|constructor].
Qed.

(** The common case: make something, hand it to the server. *)
Lemma does_give k config (g : nat -> Server -> Server) :
  does (bindM (bindM (CreateObject dlopen dlsym get_factory create k config) (fun x => ret x.2))
          (fun a => server_call (g a)))
    (fun x _ l y => exists go, l = [(k, config, go)] /\ y = (x.1, g go.2 x.2)).
Proof.
  eapply does_weaken; [apply does_bind; [apply does_bind; [apply does_CreateObject|intros a; apply does_ret]|
    intros a; apply does_server_call]|].
  intros x [] l y (a & z & l1 & l2 & -> & (go & u & l3 & l4 & -> & [-> ->] & -> & -> & ->) & -> & ->). by exists go.
Qed.

(** The steps of a loop, one after the other. *)
Fixpoint chain {A} (R : A -> state -> list call -> state -> Prop) (l : list A) (x : state) (cs : list call) (y : state) :
    Prop :=
  match l with
  | [] => cs = [] /\ y = x
  | a :: l => exists c cs' z, cs = c ++ cs' /\ R a x c z /\ chain R l z cs' y
  end.

Lemma does_for_each {A} (f : A -> world -> (str + unit) * world) R l :
  (forall a, does (f a) (fun x _ => R a x)) -> does (for_each f l) (fun x _ => chain R l x).
Proof.
  intros Hf. induction l as [|a l IH]; cbn [for_each].
  { eapply does_weaken; [apply does_ret|]. by intros x b c y [_ ?]. }
  eapply does_weaken; [apply does_bind; [apply Hf|intros b; apply IH]|].
  intros x [] c y (b & z & c1 & c2 & -> & Hz & Hc). by exists c1, c2, z.
Qed.

(** Calls of one kind, for one configuration each. *)
Definition calls_for (k : factory_kind) (fs : list FactoryConfig) (os : list (nat * nat)) : list call :=
  zip_with (fun f go => (k, f, go)) fs os.

(** A loop that makes something for each item and hands it to the server. *)
Lemma chain_give k (g : nat -> Server -> Server) l : forall x cs y,
  chain (fun f x l y => exists go, l = [(k, f, go)] /\ y = (x.1, g go.2 x.2)) l x cs y ->
  exists gos, length gos = length l /\ cs = calls_for k l gos /\ y = (x.1, foldl (fun s a => g a s) x.2 gos.*2).
Proof.
  induction l as [|f l IH]; intros x cs y; cbn [chain].
  { intros [-> ->]. exists []. by destruct x. }
  intros (c & cs' & z & -> & (go & -> & ->) & (gos & Hl & -> & ->)%IH). exists (go :: gos). split; [cbn; lia|done].
Qed.

(** *** The steps of [ApplyConfigToServer] *)

Definition listener_step (l : ListenerConfig) (x : state) (cs : list call) (y : state) : Prop :=
  cs = [] /\ exists ep, make_endpoint (address l) (port l) = Some ep /\
    y = (x.1, set_base (AddListen ep (Z.to_nat (ConfigLoader.io_threads l)) None (base x.2)) x.2).

Definition service_step (c : ServiceConfig) (x : state) (l : list call) (y : state) : Prop :=
  exists go, l = [(KService, factory c, go)] /\
    y = (x.1 ++ [mkServiceRecord (slot c) go.2 go.1 false],
      set_base (SetServiceProvider (Z.to_nat (slot c)) (Some go.2) (base x.2)) x.2).

(** One thing of a kind, if it is configured. *)
Definition optional_step (k : factory_kind) (g : nat -> Server -> Server) (f : option FactoryConfig) (x : state)
    (l : list call) (y : state) : Prop :=
  match f with
  | None => l = [] /\ y = x
  | Some f => exists go, l = [(k, f, go)] /\ y = (x.1, g go.2 x.2)
  end.

Definition logger_step : option FactoryConfig -> state -> list call -> state -> Prop :=
  optional_step KLogger (fun l s => set_base (SetLogger l (base s)) s).

Definition default_step : option FactoryConfig -> state -> list call -> state -> Prop :=
  optional_step KHandler (fun h => SetDefaultHandler (Some (UserHandler h))).

Definition global_step (f : FactoryConfig) (x : state) (l : list call) (y : state) : Prop :=
  exists go, l = [(KAspect, f, go)] /\ y = (x.1, AddGlobalAspect go.2 x.2).

(** What is made for a route: its handler, aspects and terminal aspects, each with
    the factory that made it. *)
Record built_route := mkBuilt {
  b_handler : nat * nat;
  b_aspects : list (nat * nat);
  b_terminal : list (nat * nat);
}.

Definition route_calls (r : RouteConfig) (b : built_route) : list call :=
  (KHandler, ConfigLoader.handler r, b_handler b) ::
  calls_for KAspect (ConfigLoader.aspects r) (b_aspects b) ++ calls_for KAspect (terminal_aspects r) (b_terminal b).

(** As many aspects as the route has entries. *)
Definition route_shape (r : RouteConfig) (b : built_route) : Prop :=
  length (b_aspects b) = length (ConfigLoader.aspects r) /\ length (b_terminal b) = length (terminal_aspects r).

(** A route with its handler and aspects. *)
Definition route_entry (r : RouteConfig) (b : built_route) (s : Server) : Server :=
  let h := route_handler_of (cpu r) (b_handler b).2 in
  let s := (if ignore_default_route r then AddExclusiveRouteEntry else AddRouteEntry) (method r) (path r) h s in
  let s := foldl (fun s a => AddAspect (method r) (path r) a s) s (b_aspects b).*2 in
  foldl (fun s a => AddTerminalAspect (method r) (path r) a s) s (b_terminal b).*2.

Definition route_step (r : RouteConfig) (x : state) (l : list call) (y : state) : Prop :=
  exists b, y = (x.1, route_entry r b x.2) /\ l = route_calls r b /\ route_shape r b.

Lemma does_listener l : does (apply_listener make_endpoint l) (fun x _ => listener_step l x).
Proof.
  unfold apply_listener. destruct (make_endpoint _ _) as [ep|] eqn:He; [|apply does_raise].
  eapply does_weaken; [apply does_server_call|]. intros x a c y [-> ->]. split; [done|]. by exists ep.
Qed.

Lemma does_logger l : does (apply_logger dlopen dlsym get_factory create l) (fun x _ => logger_step l x).
Proof.
  destruct l as [f|]; cbn [apply_logger]; [apply (does_give KLogger f)|].
  eapply does_weaken; [apply does_ret|]. by intros x a l y [_ ?].
Qed.

Lemma does_default h : does (apply_default_handler dlopen dlsym get_factory create h) (fun x _ => default_step h x).
Proof.
  destruct h as [f|]; cbn [apply_default_handler]; [apply (does_give KHandler f)|].
  eapply does_weaken; [apply does_ret|]. by intros x a l y [_ ?].
Qed.

Lemma does_global f : does (apply_global_aspect dlopen dlsym get_factory create f) (fun x _ => global_step f x).
Proof. apply (does_give KAspect f). Qed.

Lemma does_service c : does (apply_service dlopen dlsym get_factory create c) (fun x _ => service_step c x).
Proof.
  assert (does (CreateService dlopen dlsym get_factory create c) (fun x o l y =>
    exists go, o = go.2 /\ l = [(KService, factory c, go)] /\
      y = (x.1 ++ [mkServiceRecord (slot c) go.2 go.1 false], x.2))) as Hc.
  { unfold CreateService. eapply does_weaken.
    - apply does_bind; [apply does_CreateObject|]. intros a.
      apply (does_bind _ _ (fun x _ l y => l = [] /\ y = (x.1 ++ [mkServiceRecord (slot c) a.2 a.1 false], x.2))).
      + intros w x [] w' [H1 H2] [= <-]. eexists [], _. split; [|split; [constructor|done]].
        split; [cbn; by rewrite H1|done].
      + intros u. apply does_ret.
    - intros x o l y (a & z & l1 & l2 & -> & [-> ->] & [] & u & l3 & l4 & -> & [-> ->] & -> & -> & ->). by exists a. }
  eapply does_weaken; [apply does_bind; [apply Hc|intros a; apply does_server_call]|].
  intros x [] l y (o & z & l1 & l2 & -> & (go & -> & -> & ->) & -> & ->). by exists go.
Qed.

(** A loop over the aspects of a route. *)
Lemma does_aspects (g : nat -> Server -> Server) l :
  does (for_each (fun f => bindM (CreateAspect dlopen dlsym get_factory create f) (fun a => server_call (g a))) l)
    (fun x _ cs y => exists gos, length gos = length l /\ cs = calls_for KAspect l gos /\
       y = (x.1, foldl (fun s a => g a s) x.2 gos.*2)).
Proof.
  eapply does_weaken; [apply does_for_each; intros f; apply (does_give KAspect f g)|].
  intros x u cs y Hc. cbn beta in Hc. by apply chain_give in Hc.
Qed.

Lemma does_route r : does (apply_route dlopen dlsym get_factory create r) (fun x _ => route_step r x).
Proof.
  unfold apply_route, CreateHandler. eapply does_weaken.
  - apply does_bind; [apply does_bind; [apply does_CreateObject|intros go; apply does_ret]|intros h].
    apply does_bind; [apply does_server_call|intros u].
    apply does_bind; [apply does_aspects|intros v]. apply does_aspects.
  - intros x _ cs y (h & z & l1 & l2 & -> & (go & u & l3 & l4 & -> & [-> ->] & -> & -> & ->) & [] & v & l5 & l6 & -> &
      [-> ->] & [] & t & l7 & l8 & -> & (as_ & La & -> & ->) & ts & Lt & -> & ->).
    exists (mkBuilt go as_ ts). split; [|done]. unfold route_entry. cbn. by destruct (ignore_default_route r).
Qed.

(** Everything, in order. *)
Definition applied (config : ServerConfig) (x : state) (cs : list call) (y : state) : Prop :=
  exists x1 x2 x3 x4 x5 c2 c3 c4 c5 c6, cs = c2 ++ c3 ++ c4 ++ c5 ++ c6 /\
    chain listener_step (listeners config) x [] x1 /\ logger_step (logger config) x1 c2 x2 /\
    chain service_step (services config) x2 c3 x3 /\ default_step (default_handler (global config)) x3 c4 x4 /\
    chain global_step (global_aspects (global config)) x4 c5 x5 /\ chain route_step (routes config) x5 c6 y.

Lemma listeners_call_nothing ls : forall x cs y, chain listener_step ls x cs y -> cs = [].
Proof.
  induction ls as [|l ls IH]; intros x cs y; cbn [chain]; [by intros [-> _]|].
  by intros (c & cs' & z & -> & [-> _] & ->%IH).
Qed.

Lemma does_apply config :
  does (ApplyConfigToServer dlopen dlsym get_factory create make_endpoint config) (fun x _ => applied config x).
Proof.
  intros w x [] w' Hw. unfold ApplyConfigToServer. destruct (server_ w); [|done].
  generalize (@tt). intros tt'. revert w x tt' w' Hw.
  match goal with |- forall w x a w', _ -> ?m w = _ -> _ => change (does m (fun x _ => applied config x)) end.
  eapply does_weaken.
  - apply does_bind; [apply does_for_each, does_listener|intros u1].
    apply does_bind; [apply does_logger|intros u2].
    apply does_bind; [apply does_for_each, does_service|intros u3].
    apply does_bind; [apply does_default|intros u4].
    apply does_bind; [apply does_for_each, does_global|intros u5].
    apply does_for_each, does_route.
  - intros x _ cs y (_ & x1 & c1 & ? & -> & H1 & _ & x2 & c2 & ? & -> & H2 & _ & x3 & c3 & ? & -> & H3 &
      _ & x4 & c4 & ? & -> & H4 & _ & x5 & c5 & c6 & -> & H5 & H6).
    pose proof (listeners_call_nothing _ _ _ _ H1) as ->. exists x1, x2, x3, x4, x5, c2, c3, c4, c5, c6. by split_and!.
Qed.

(** *** What the steps change *)

Definition endpoints (x : state) : list EndpointListenConfig := endpoint_configs_ (cfg (base x.2)).
Definition running (x : state) : bool := is_running_ (base x.2).
Definition provider (i : nat) (x : state) : option nat := GetServiceProvider i (base x.2).
Definition entrance (x : state) : list (HttpRouteTableLayer (route_handler nat) nat) := entrance_ (route_table_ x.2).

Definition logger_of (x : state) : nat := logger_ (cfg (base x.2)).

(** The global aspects and the default handler. *)
Definition globals (s : Server) : list nat * option (route_handler nat) :=
  (global_aspects_ (route_table_ s), default_handler_ (route_table_ s)).

(** Everything a configuration is about but the default handler, the global
    aspects and the logger. *)
Definition same_state (x y : state) : Prop :=
  y.1 = x.1 /\ endpoints y = endpoints x /\ running y = running x /\ (forall i, provider i y = provider i x) /\
  entrance y = entrance x.

Lemma logger_effect f x cs y :
  logger_step f x cs y -> running x = false ->
  same_state x y /\ globals y.2 = globals x.2 /\
  exists b, length (option_list b) = length (option_list f) /\
    cs = calls_for KLogger (option_list f) (option_list b) /\ logger_of y = default (logger_of x) (snd <$> b).
Proof.
  unfold running. intros Hs Hr. destruct f as [f|]; cbn in Hs.
  - destruct Hs as (go & -> & ->).
    unfold same_state, endpoints, running, provider, entrance, globals, logger_of, SetLogger. cbn. rewrite Hr. cbn.
    split; [done|]. split; [done|]. by exists (Some go).
  - destruct Hs as [-> ->]. split; [done|]. split; [done|]. by exists None.
Qed.

Lemma default_effect f x cs y :
  default_step f x cs y -> running x = false ->
  same_state x y /\ logger_of y = logger_of x /\
  exists b, length (option_list b) = length (option_list f) /\
    cs = calls_for KHandler (option_list f) (option_list b) /\
    globals y.2 = ((globals x.2).1, from_option (fun go => Some (UserHandler go.2)) (globals x.2).2 b).
Proof.
  unfold running. intros Hs Hr. destruct f as [f|]; cbn in Hs.
  - destruct Hs as (go & -> & ->).
    unfold same_state, endpoints, running, provider, entrance, globals, logger_of, SetDefaultHandler, on_table. cbn.
    rewrite Hr. cbn. split; [done|]. split; [done|]. by exists (Some go).
  - destruct Hs as [-> ->]. split; [done|]. split; [done|]. by exists None.
Qed.

Lemma global_effect fs x cs y :
  chain global_step fs x cs y -> running x = false ->
  same_state x y /\ logger_of y = logger_of x /\
  exists b, length b = length fs /\ cs = calls_for KAspect fs b /\
    globals y.2 = ((globals x.2).1 ++ b.*2, (globals x.2).2).
Proof.
  intros (b & Hl & Hcs & ->)%chain_give Hr. destruct x as [rs s]. unfold running in Hr. cbn [fst snd] in *.
  enough (base (foldl (fun s a => AddGlobalAspect a s) s b.*2) = base s /\
    entrance_ (route_table_ (foldl (fun s a => AddGlobalAspect a s) s b.*2)) = entrance_ (route_table_ s) /\
    globals (foldl (fun s a => AddGlobalAspect a s) s b.*2) = ((globals s).1 ++ b.*2, (globals s).2)) as (H1 & H2 & H3).
  { unfold same_state, endpoints, running, provider, entrance, logger_of. cbn [fst snd]. rewrite H1.
    split; [done|]. split; [done|]. by exists b. }
  clear Hl Hcs. revert s Hr. induction (b.*2) as [|a l IH]; intros s Hr; cbn [foldl]; [by rewrite app_nil_r|].
  destruct (IH (AddGlobalAspect a s)) as (I1 & I2 & I3); [unfold AddGlobalAspect, on_table; by rewrite Hr|].
  rewrite I1, I2, I3. unfold AddGlobalAspect, on_table, globals. rewrite Hr. cbn. by rewrite <- app_assoc.
Qed.

Definition listens (l : ListenerConfig) (c : EndpointListenConfig) : Prop :=
  make_endpoint (address l) (port l) = Some (cfg_endpoint c) /\
  cfg_io_threads c = Nat.max 1 (Z.to_nat (ConfigLoader.io_threads l)) /\ cfg_ssl_ctx c = None.

Lemma listeners_effect ls : forall x cs y,
  chain listener_step ls x cs y -> running x = false ->
  y.1 = x.1 /\ running y = false /\ (forall i, provider i y = provider i x) /\ route_table_ y.2 = route_table_ x.2 /\
  logger_of y = logger_of x /\ exists es, endpoints y = endpoints x ++ es /\ Forall2 listens ls es.
Proof.
  induction ls as [|l ls IH]; intros x cs y; cbn [chain].
  { intros [_ ->] Hr. split_and!; try done. exists []. by rewrite app_nil_r. }
  intros (c & cs' & z & -> & (-> & ep & Hep & ->) & Hc) Hr. unfold running in *.
  apply IH in Hc as (H1 & H2 & H3 & H4 & H0 & es & H5 & H6); [|cbn; unfold AddListen; by rewrite Hr].
  unfold logger_of, AddListen in *. rewrite Hr in *. cbn in *. split_and!; try done.
  exists (mkListen ep (if Z.to_nat (ConfigLoader.io_threads l) =? 0 then 1 else Z.to_nat (ConfigLoader.io_threads l))
    None :: es). split.
  - rewrite H5. unfold endpoints. cbn. by rewrite <- app_assoc.
  - constructor; [|done]. split; [done|]. split; [|done]. cbn.
    destruct (Nat.eqb_spec (Z.to_nat (ConfigLoader.io_threads l)) 0); lia.
Qed.

Lemma provider_set i j v s :
  GetServiceProvider i (SetServiceProvider j v s) = if decide (i = j) then v else GetServiceProvider i s.
Proof.
  unfold GetServiceProvider, SetServiceProvider. cbn. set (l := service_providers_ (cfg s)).
  set (l' := if length l <=? j then resize (S j) None l else l).
  assert (j < length l' /\ length l <= length l') as [Hj Hl].
  { subst l'. destruct (Nat.leb_spec (length l) j); rewrite ?length_resize; lia. }
  rewrite length_insert. case_decide as Hij.
  - subst i. destruct (Nat.leb_spec (length l') j); [lia|]. by rewrite list_lookup_insert_eq.
  - rewrite list_lookup_insert_ne by done. destruct (Nat.leb_spec (length l) i).
    + destruct (Nat.leb_spec (length l') i); [done|]. subst l'. destruct (Nat.leb_spec (length l) j); [|lia].
      rewrite length_resize in *. rewrite lookup_resize_new by lia. done.
    + destruct (Nat.leb_spec (length l') i); [lia|]. subst l'. destruct (Nat.leb_spec (length l) j); [|done].
      by rewrite lookup_resize by lia.
Qed.

(** The record of a service. *)
Definition recorded (c : ServiceConfig) (go : nat * nat) : LoadedServiceRecord :=
  mkServiceRecord (slot c) go.2 go.1 false.

Lemma services_effect cs : forall x calls y,
  chain service_step cs x calls y ->
  endpoints y = endpoints x /\ running y = running x /\ route_table_ y.2 = route_table_ x.2 /\
  logger_of y = logger_of x /\
  (forall i, i ∉ Z.to_nat <$> (slot <$> cs) -> provider i y = provider i x) /\
  exists b, length b = length cs /\ calls = calls_for KService (factory <$> cs) b /\
    y.1 = x.1 ++ zip_with recorded cs b /\
    (NoDup (Z.to_nat <$> (slot <$> cs)) ->
     forall i c go, cs !! i = Some c -> b !! i = Some go -> provider (Z.to_nat (slot c)) y = Some go.2).
Proof.
  induction cs as [|c cs IH]; intros x calls y; cbn [chain].
  { intros [-> ->]. split_and!; try done. exists []. rewrite app_nil_r. by split_and!. }
  intros (l & cs' & z & -> & (go & -> & ->) & Hc).
  apply IH in Hc as (H1 & H2 & H3 & H0 & H4 & b & H5 & -> & H6 & H7). cbn in H1, H2, H3, H6.
  split_and!; try done.
  - intros i Hi. cbn in Hi. apply not_elem_of_cons in Hi as [Hi1 Hi2]. rewrite H4 by done.
    unfold provider. cbn. rewrite provider_set. by rewrite decide_False.
  - exists (go :: b). rewrite H6, <- app_assoc. split; [cbn; lia|]. split; [done|]. split; [done|].
    intros Hnd i c' go' Hc Hb. cbn in Hnd. apply NoDup_cons in Hnd as [N1 N2].
    destruct i as [|i]; [|by eapply H7]. injection Hc as <-. injection Hb as <-. rewrite H4 by done.
    unfold provider. cbn. by rewrite provider_set, decide_True.
Qed.

Lemma slots_distinct cs :
  NoDup (slot <$> cs) -> Forall (fun c => 0 <= slot c)%Z cs -> NoDup (Z.to_nat <$> (slot <$> cs)).
Proof.
  intros Hnd Hpos. apply NoDup_fmap_2_strong; [|done].
  intros a b (ca & -> & Hca)%list_elem_of_fmap (cb & -> & Hcb)%list_elem_of_fmap Hab.
  rewrite Forall_forall in Hpos. apply Hpos in Hca, Hcb. lia.
Qed.

(** *** Routes *)

(** The data of a place of the table; a place that is not there has none. *)
Definition place_data (m : nat) (p : list edge) (s : Server) : LayerData (route_handler nat) nat :=
  default new_data (root ← entrance_ (route_table_ s) !! m; data_at p root).

Definition roomy (s : Server) : Prop :=
  is_running_ (base s) = false /\ length (entrance_ (route_table_ s)) = kHttpRequestMethodNum.

(** A registration changes the data of its own place and of no other. *)
Lemma registered_place m p m' target k s :
  roomy s ->
  let s' := on_table (fun t => (registered m' target k t).2) s in
  roomy s' /\ base s' = base s /\
  place_data m p s' =
    if decide (registration_ok m' target = true /\ m = m' /\ p = target_path target)
    then k (SetRouteTemplate (NormalizeRouteTemplate target)
              (SetParamNames (ExtractParamNames target) (place_data m p s)))
    else place_data m p s.
Proof.
  intros [Hr Hl]. unfold on_table. rewrite Hr. cbn. unfold roomy, registered. cbn [base route_table_].
  destruct (registration_ok m' target) eqn:Hok; cbn [snd]; [|by destruct (decide _) as [[? _]|_]].
  split_and!; [done|unfold GetOrCreateRouteTableLayer; cbn; by rewrite length_alter|done|].
  unfold place_data. cbn [route_table_]. destruct (decide (m = m')) as [->|Hm].
  - unfold registration_ok in Hok. apply andb_true_iff in Hok as [Hlt _]. apply negb_true_iff, Nat.leb_gt in Hlt.
    destruct (lookup_lt_is_Some_2 (entrance_ (route_table_ s)) m') as [root Hroot]; [by rewrite Hl|].
    rewrite (registered_entry _ _ _ _ _ Hroot), Hroot. cbn [mbind option_bind].
    rewrite data_at_update_path by apply target_path_ok.
    destruct (decide (p = target_path target)) as [->|Hp]; [by rewrite decide_True|].
    rewrite (decide_False (P := _ = true /\ _)) by (intros (_ & _ & ?); done). by destruct (decide _).
  - rewrite (decide_False (P := _ = true /\ _)) by (intros (_ & ? & _); done). unfold GetOrCreateRouteTableLayer. cbn.
    by rewrite list_lookup_alter_ne by done.
Qed.

(** Registering one thing after the other at one target. *)
Lemma registered_places {X} m p m' target (k : X -> LayerData _ nat -> LayerData _ nat) (l : list X) : forall s,
  roomy s ->
  let s' := foldl (fun s a => on_table (fun t => (registered m' target (k a) t).2) s) s l in
  roomy s' /\ base s' = base s /\
  place_data m p s' =
    if decide (registration_ok m' target = true /\ m = m' /\ p = target_path target)
    then foldl (fun d a => k a (SetRouteTemplate (NormalizeRouteTemplate target)
              (SetParamNames (ExtractParamNames target) d))) (place_data m p s) l
    else place_data m p s.
Proof.
  induction l as [|a l IH]; intros s Hs; cbn [foldl]; [by destruct (decide _)|].
  destruct (registered_place m p m' target (k a) s Hs) as (H1 & H2 & H3).
  destruct (IH _ H1) as (I1 & I2 & I3). split; [done|]. split; [by rewrite I2|]. rewrite I3, H3. by destruct (decide _).
Qed.

(** What a route's place holds once the route is there. *)
Record route_in_place (r : RouteConfig) (b : built_route) (old d : LayerData (route_handler nat) nat) : Prop := {
  rp_handler : handler_ d = route_handler_of (cpu r) (b_handler b).2;
  rp_aspects : aspects_ d = aspects_ old ++ (b_aspects b).*2;
  rp_terminal : terminal_aspects_ d = terminal_aspects_ old ++ (b_terminal b).*2;
  rp_ignore : ignore_default_route_ d = ignore_default_route r || ignore_default_route_ old;
  rp_template : route_template_ d = NormalizeRouteTemplate (path r);
  rp_names : param_names_ d = ExtractParamNames (path r);
}.

Lemma aspects_folded target (l : list nat) : forall d : LayerData (route_handler nat) nat,
  let g d := SetRouteTemplate (NormalizeRouteTemplate target) (SetParamNames (ExtractParamNames target) d) in
  let d' := foldl (fun d a => RouteLayer.AddAspect a (g d)) (g d) l in
  let d'' := foldl (fun d a => RouteLayer.AddTerminalAspect a (g d)) (g d) l in
  (handler_ d' = handler_ d /\ aspects_ d' = aspects_ d ++ l /\ terminal_aspects_ d' = terminal_aspects_ d /\
   ignore_default_route_ d' = ignore_default_route_ d /\ d' = g d') /\
  (handler_ d'' = handler_ d /\ aspects_ d'' = aspects_ d /\ terminal_aspects_ d'' = terminal_aspects_ d ++ l /\
   ignore_default_route_ d'' = ignore_default_route_ d /\ d'' = g d'').
Proof.
  intros d. cbn zeta. revert d. induction l as [|a l IH]; intros d; cbn [foldl]; [by rewrite !app_nil_r|].
  destruct (IH (RouteLayer.AddAspect a d)) as [(A1 & A2 & A3 & A4 & A5) _].
  destruct (IH (RouteLayer.AddTerminalAspect a d)) as [_ (T1 & T2 & T3 & T4 & T5)].
  cbn in A1, A2, A3, A4, T1, T2, T3, T4.
  rewrite <- app_assoc in A2, T3. by split.
Qed.

Lemma route_entry_place m p r b s :
  roomy s ->
  let s' := route_entry r b s in
  roomy s' /\ base s' = base s /\
  if decide (registration_ok (method r) (path r) = true /\ m = method r /\ p = target_path (path r))
  then route_in_place r b (place_data m p s) (place_data m p s')
  else place_data m p s' = place_data m p s.
Proof.
  intros Hs. unfold route_entry. destruct (route_handler_of (cpu r) (b_handler b).2) as [hx|] eqn:Hh;
    [|by destruct (cpu r)]. set (h := Some hx).
  set (s1 := (if ignore_default_route r then _ else _) (method r) (path r) h s).
  assert (roomy s1 /\ base s1 = base s /\
    if decide (registration_ok (method r) (path r) = true /\ m = method r /\ p = target_path (path r))
    then place_data m p s1 = SetRouteTemplate (NormalizeRouteTemplate (path r)) (SetParamNames (ExtractParamNames (path r))
      (place_data m p s1)) /\ handler_ (place_data m p s1) = h /\
      aspects_ (place_data m p s1) = aspects_ (place_data m p s) /\
      terminal_aspects_ (place_data m p s1) = terminal_aspects_ (place_data m p s) /\
      ignore_default_route_ (place_data m p s1) = ignore_default_route r || ignore_default_route_ (place_data m p s)
    else place_data m p s1 = place_data m p s) as (R1 & B1 & P1).
  { subst s1. destruct (ignore_default_route r).
    - destruct (registered_place m p (method r) (path r) (fun d => SetIgnoreDefaultRoute true (SetHandler h d)) s Hs)
        as (H1 & H2 & H3). split; [exact H1|]. split; [exact H2|]. unfold AddExclusiveRouteEntry, RouteTable.AddExclusiveRouteEntry.
      rewrite H3. destruct (decide _); [by split_and!|done].
    - destruct (registered_place m p (method r) (path r) (SetHandler h) s Hs)
        as (H1 & H2 & H3). split; [exact H1|]. split; [exact H2|]. unfold AddRouteEntry, RouteTable.AddRouteEntry.
      rewrite H3. destruct (decide _); [by split_and!|done]. }
  clearbody s1.
  destruct (registered_places m p (method r) (path r) RouteLayer.AddAspect (b_aspects b).*2 s1 R1) as (R2 & B2 & P2).
  unfold AddAspect, RouteTable.AddAspect.
  set (s2 := foldl _ s1 (b_aspects b).*2) in *. clearbody s2.
  destruct (registered_places m p (method r) (path r) RouteLayer.AddTerminalAspect (b_terminal b).*2 s2 R2) as (R3 & B3 & P3).
  unfold AddTerminalAspect, RouteTable.AddTerminalAspect.
  set (s3 := foldl _ s2 (b_terminal b).*2) in *. clearbody s3.
  split; [done|]. split; [congruence|].
  destruct (decide _) as [Hd|Hd]; [|congruence].
  destruct P1 as (P0 & P1a & P1b & P1c & P1d).
  destruct (aspects_folded (path r) (b_aspects b).*2 (place_data m p s1)) as [(A1 & A2 & A3 & A4 & A5) _].
  rewrite <- P0, <- P2 in A1, A2, A3, A4, A5.
  destruct (aspects_folded (path r) (b_terminal b).*2 (place_data m p s2)) as [_ (T1 & T2 & T3 & T4 & T5)].
  rewrite <- A5, <- P3 in T1, T2, T3, T4, T5.
  subst h. constructor; [congruence|congruence|congruence|congruence|by rewrite T5|by rewrite T5].
Qed.

Definition place_of (r : RouteConfig) : nat * list edge := (method r, target_path (path r)).

(** The server registers the route: its path is a valid target. *)
Definition valid (r : RouteConfig) : Prop := registration_ok (method r) (path r) = true.

Lemma registered_globals m target k s : globals (on_table (fun t => (registered m target k t).2) s) = globals s.
Proof.
  unfold on_table. destruct (is_running_ (base s)); [done|]. unfold globals, registered. cbn.
  by destruct (registration_ok m target).
Qed.

Lemma route_entry_globals r b s : globals (route_entry r b s) = globals s.
Proof.
  unfold route_entry.
  assert (forall (f : nat -> LayerData (route_handler nat) nat -> LayerData _ nat) l s,
    globals (foldl (fun s a => on_table (fun t => (registered (method r) (path r) (f a) t).2) s) s l) = globals s) as Hl.
  { intros f l. induction l as [|a l IH]; intros s'; cbn [foldl]; [done|]. by rewrite IH, registered_globals. }
  unfold AddAspect, RouteTable.AddAspect, AddTerminalAspect, RouteTable.AddTerminalAspect. rewrite !Hl.
  destruct (ignore_default_route r), (route_handler_of _ _) eqn:Hh; try apply registered_globals;
    unfold route_handler_of in Hh; by destruct (cpu r).
Qed.

Lemma routes_effect rs : forall x cs y,
  chain route_step rs x cs y -> roomy x.2 ->
  exists bs, Forall2 route_shape rs bs /\ cs = concat (zip_with route_calls rs bs) /\
  y.1 = x.1 /\ base y.2 = base x.2 /\ globals y.2 = globals x.2 /\
  (forall m p, (forall r, r ∈ rs -> valid r -> place_of r <> (m, p)) -> place_data m p y.2 = place_data m p x.2) /\
  forall i r b, rs !! i = Some r -> bs !! i = Some b -> valid r ->
    (forall j r', rs !! j = Some r' -> j <> i -> valid r' -> place_of r' <> place_of r) ->
    route_in_place r b (place_data (method r) (target_path (path r)) x.2)
      (place_data (method r) (target_path (path r)) y.2).
Proof.
  induction rs as [|r0 rs IH]; intros x cs y; cbn [chain]; [intros [-> ->] _; by exists []|].
  intros (c & cs' & z & -> & (b0 & -> & -> & Hb) & Hc) Hx.
  pose proof (fun m p => route_entry_place m p r0 b0 x.2 Hx) as Hr. cbn zeta in Hr.
  destruct (Hr 0 []) as (R1 & R2 & _). apply IH in Hc as (bs & I0 & -> & I1 & I2 & I2' & I3 & I4); [|done].
  exists (b0 :: bs). split; [by constructor|]. split; [done|]. split; [done|]. split; [by rewrite I2|].
  split; [by rewrite I2'; apply route_entry_globals|]. cbn [snd] in I3, I4. split.
  - intros m p Hn. rewrite I3 by (intros r Hin; apply Hn; by right).
    destruct (Hr m p) as (_ & _ & Hmp). destruct (decide _) as [(Hv & -> & ->)|_]; [|exact Hmp].
    destruct (Hn r0); [by left|done|done].
  - intros [|i] r b Hri Hbi Hok Hd; cbn in Hri, Hbi.
    + injection Hri as <-. injection Hbi as <-. rewrite I3.
      2:{ intros r' Hin Hv Hp. apply list_elem_of_lookup in Hin as [j Hj]. by apply (Hd (S j) r' Hj). }
      destruct (Hr (method r0) (target_path (path r0))) as (_ & _ & Hmp). by rewrite decide_True in Hmp.
    + assert (route_in_place r b (place_data (method r) (target_path (path r)) (route_entry r0 b0 x.2))
        (place_data (method r) (target_path (path r)) y.2)) as I5.
      { apply (I4 i r b Hri Hbi Hok). intros j r' Hj Hij. by apply (Hd (S j)); [|lia]. }
      destruct (Hr (method r) (target_path (path r))) as (_ & _ & Hmp).
      destruct (decide _) as [(Hv & E1 & E2)|_]; [|by rewrite Hmp in I5].
      destruct (Hd 0 r0); [done|lia|done|]. unfold place_of. congruence.
Qed.

(** What is made for a configuration. *)
Record built := mkBuiltServer {
  b_logger : option (nat * nat);
  b_services : list (nat * nat);
  b_default : option (nat * nat);
  b_global : list (nat * nat);
  b_routes : list built_route;
}.

(** One thing for every entry of the configuration. *)
Record built_shape (config : ServerConfig) (b : built) : Prop := {
  bs_logger : length (option_list (b_logger b)) = length (option_list (logger config));
  bs_services : length (b_services b) = length (services config);
  bs_default : length (option_list (b_default b)) = length (option_list (default_handler (global config)));
  bs_global : length (b_global b) = length (global_aspects (global config));
  bs_routes : Forall2 route_shape (routes config) (b_routes b);
}.

(** And the calls that made it: every entry with its own configuration, in the
    order of the program. *)
Definition built_calls (config : ServerConfig) (b : built) : list call :=
  calls_for KLogger (option_list (logger config)) (option_list (b_logger b)) ++
  calls_for KService (factory <$> services config) (b_services b) ++
  calls_for KHandler (option_list (default_handler (global config))) (option_list (b_default b)) ++
  calls_for KAspect (global_aspects (global config)) (b_global b) ++
  concat (zip_with route_calls (routes config) (b_routes b)).

(** What a route's place of the table holds. *)
Definition route_data (r : RouteConfig) (b : built_route) : LayerData (route_handler nat) nat -> Prop := fun d =>
  let h := UserHandler (b_handler b).2 in
  handler_ d = Some (if cpu r then ComputingRouteHandler h else h) /\
  aspects_ d = (b_aspects b).*2 /\ terminal_aspects_ d = (b_terminal b).*2 /\
  ignore_default_route_ d = ignore_default_route r /\
  route_template_ d = NormalizeRouteTemplate (path r) /\ param_names_ d = ExtractParamNames (path r).

(** The server of a configuration whose parts are [b]. *)
Record configured_server (config : ServerConfig) (b : built) (o : HttpServerRuntimeOptions) (s : Server) : Prop := {
  cs_listeners : Forall2 listens (listeners config) (endpoint_configs_ (cfg (base s)));
  cs_logger : logger_ (cfg (base s)) = default (logger_ (cfg (new_HttpServer o))) (snd <$> b_logger b);
  cs_services : forall i c go, services config !! i = Some c -> b_services b !! i = Some go ->
    GetServiceProvider (Z.to_nat (slot c)) (base s) = Some go.2;
  cs_no_service : forall i, i ∉ Z.to_nat <$> (slot <$> services config) -> GetServiceProvider i (base s) = None;
  cs_default : default_handler_ (route_table_ s) = Some (UserHandler (from_option snd 0 (b_default b)));
  cs_global : global_aspects_ (route_table_ s) = (b_global b).*2;
  cs_routes : forall i r x, routes config !! i = Some r -> b_routes b !! i = Some x -> valid r ->
    (forall j r', routes config !! j = Some r' -> j <> i -> valid r' -> place_of r' <> place_of r) ->
    exists root d, entrance_ (route_table_ s) !! method r = Some root /\
      data_at (target_path (path r)) root = Some d /\ route_data r x d;
  cs_no_route : forall m p root d, (forall r, r ∈ routes config -> valid r -> place_of r <> (m, p)) ->
    entrance_ (route_table_ s) !! m = Some root -> data_at p root = Some d -> d = new_data;
}.

Lemma new_places m p (s : Server) :
  entrance_ (route_table_ s) = replicate kHttpRequestMethodNum new_layer -> place_data m p s = new_data.
Proof.
  intros He. unfold place_data. rewrite He. destruct (replicate _ _ !! _) as [root|] eqn:Hroot; [|done].
  apply lookup_replicate in Hroot as [-> _]. cbn. rewrite data_at_new. by destruct (decide _).
Qed.

(** The data of a route's place, from what its registration left there. *)
Lemma placed_data r b s :
  route_in_place r b new_data (place_data (method r) (target_path (path r)) s) ->
  exists root d, entrance_ (route_table_ s) !! method r = Some root /\
    data_at (target_path (path r)) root = Some d /\ route_data r b d.
Proof.
  intros [P1 P2 P3 P4 P5 P6]. cbn in P2, P3, P4. rewrite orb_false_r in P4. unfold place_data in *.
  assert (route_handler_of (cpu r) (b_handler b).2 =
    Some (if cpu r then ComputingRouteHandler (UserHandler (b_handler b).2) else UserHandler (b_handler b).2)) as Hh
    by (unfold route_handler_of; by destruct (cpu r)).
  rewrite Hh in P1. destruct (entrance_ (route_table_ s) !! method r) as [root|]; [|done].
  cbn [mbind option_bind] in *. destruct (data_at (target_path (path r)) root) as [d|] eqn:Hdata; [|done].
  exists root, d. split; [done|]. split; [done|]. by unfold route_data; split_and!.
Qed.

(** C36. A server made from a configuration is what the configuration says.  When
    [ApplyConfigToServer] returns on a new server, then for every entry of the
    configuration - logger, services, default handler, global aspects, each
    route's handler, aspects and terminal aspects - one call was made, in the order
    of the program, of the factory of that kind in the library the entry names,
    with the parameters of that entry, and [b] is what those calls gave.  Those
    objects are where the configuration puts them, and nothing else is:
    the listeners are those of the file, in order, each at the endpoint of its
    address and port with its number of threads; the logger, the default handler
    and the global aspects are the ones made; every configured slot answers with
    its own service and no other slot does, and the loader keeps each service
    with its slot and factory; every route whose path is a valid target and whose
    method and place no other such route shares stands in the table under its own
    template and parameter names, with its own handler (moved to the worker
    pool exactly when the route says so), its own aspects and terminal aspects in
    order, and closed to the default route exactly when the route says so; every
    place that is of no such route is empty.  (The server drops a route whose path
    is not a valid target without a word.) *)
Theorem config_applied config o (w w' : world) :
  ApplyConfigToServer dlopen dlsym get_factory create make_endpoint config w = (inr tt, w') ->
  loaded_services_ w = [] -> server_ w = Some (mkHttpServer (new_HttpServer o) (new_table (UserHandler 0))) ->
  NoDup (slot <$> services config) -> Forall (fun c => 0 <= slot c)%Z (services config) ->
  exists b s, makes (plugins_of w) (built_calls config b) (plugins_of w') /\ built_shape config b /\
    server_ w' = Some s /\ configured_server config b o s /\
    loaded_services_ w' = zip_with recorded (services config) (b_services b).
Proof.
  intros Ha Hrec Hsrv Hnd Hpos.
  destruct (does_apply config w ([], _) tt w' (conj Hrec Hsrv) Ha) as (cs & [recs s] & [W1 W2] & Hm &
    x1 & x2 & x3 & x4 & x5 & c2 & c3 & c4 & c5 & c6 & -> & H1 & H2 & H3 & H4 & H5 & H6). cbn in W1, W2.
  apply listeners_effect in H1 as (L1 & L2 & L3 & L4 & L0 & es & L5 & L6); [|done].
  apply logger_effect in H2 as ((G1 & G2 & G3 & G4 & G5) & G6 & lg & G7 & -> & G8); [|done].
  apply services_effect in H3 as (S1 & S2 & S3 & S0 & S4 & sv & S5 & -> & S6 & S7).
  apply default_effect in H4 as ((D1 & D2 & D3 & D4 & D5) & D6 & dh & D7 & -> & D8); [|congruence].
  apply global_effect in H5 as ((A1 & A2 & A3 & A4 & A5) & A6 & ga & A7 & -> & A8); [|congruence].
  assert (entrance x5 = replicate kHttpRequestMethodNum new_layer) as He.
  { rewrite A5, D5. unfold entrance at 1. rewrite S3. fold (entrance x2). rewrite G5. unfold entrance. by rewrite L4. }
  apply routes_effect in H6 as (rt & R0 & -> & R1 & R2 & R3 & R4 & R5).
  2:{ split; [change (running x5 = false); congruence|]. change (length (entrance x5) = kHttpRequestMethodNum).
      by rewrite He. }
  cbn [fst snd] in *. exists (mkBuiltServer lg sv dh ga rt), s. split; [done|]. split; [by constructor|]. split; [done|].
  assert (globals s = (ga.*2, Some (UserHandler (from_option snd 0 dh)))) as Hg.
  { rewrite R3, A8, D8. unfold globals at 1 3 4. rewrite S3. fold (globals x2.2). rewrite G6. unfold globals. rewrite L4.
    by destruct dh. }
  split; [|by rewrite W1, R1, A1, D1, S6, G1, L1].
  constructor; cbn [b_logger b_services b_default b_global b_routes].
  - rewrite R2. change (Forall2 listens (listeners config) (endpoints x5)). by rewrite A2, D2, S1, G2, L5.
  - rewrite R2. change (logger_of x5 = default (logger_ (cfg (new_HttpServer o))) (snd <$> lg)).
    by rewrite A6, D6, S0, G8, L0.
  - intros i c go Hc Hb. rewrite R2. change (provider (Z.to_nat (slot c)) x5 = Some go.2). rewrite A4, D4.
    eapply S7; [by apply slots_distinct|done..].
  - intros i Hi. rewrite R2. change (provider i x5 = None). by rewrite A4, D4, S4, G4, L3.
  - by injection Hg.
  - by injection Hg.
  - intros i r x Hr Hx Hv Hd. apply placed_data. rewrite <- (new_places (method r) (target_path (path r)) x5.2 He).
    by eapply R5.
  - intros m p root d Hn Hroot Hdat. specialize (R4 m p Hn). rewrite (new_places m p x5.2 He) in R4.
    unfold place_data in R4. rewrite Hroot in R4. cbn in R4. by rewrite Hdat in R4.
Qed.
End config_effect.

(** ** A plugin and a configuration *)

Module LaunchSample.
(** One library; its factories count the objects they have made. *)
Definition dlopen (path : str) (e : nat) : (str + nat) * nat :=
  if bool_decide (path = lit "libhello.so") then (inr 1, e) else (inl (lit "no such file"), e).
Definition dlsym (h : nat) (k : factory_kind) (e : nat) : bool * nat := (true, e).
Definition get_factory (h : nat) (k : factory_kind) (e : nat) : plugin_call * nat := (Returned 5, e).
Definition create (f : nat) (m : gmap str str) (e : nat) : plugin_call * nat := (Returned e, S e).
Definition destroy_service (f s e : nat) : option str * nat := (None, e).
Definition make_endpoint (a : str) (p : Z) : option nat := Some (Z.to_nat p).
Definition sys (k : nat) (c : syscall) (u : unit) : bool * unit := (true, u).

Definition hello : FactoryConfig := mkFactory (lit "libhello.so") [].
Definition hello_route : RouteConfig := mkRoute 0 (lit "/hello/{name}") true true hello [hello; hello] [hello].
Definition sample : ServerConfig :=
  mkServerConfig 2 false 0 (mkExecutor false 0 0 0 0 0 0) [mkListener (lit "::") 80 2]
    [mkService 3 hello; mkService 1 hello] None (mkGlobal None [hello]) [hello_route].

Abbreviation World := (world (E := nat)).

Definition made_server : World := (make_server (runtime_options 8 sample) (initial 10)).2.
Definition after_sample : World :=
  (ApplyConfigToServer dlopen dlsym get_factory create make_endpoint sample made_server).2.

Lemma config_applied_witness :
  exists b s x, makes dlopen dlsym get_factory create (plugins_of made_server) (built_calls sample b) (plugins_of after_sample) /\
    server_ after_sample = Some s /\ GetServiceProvider 3 (base s) = snd <$> b_services b !! 0 /\
    exists root d, entrance_ (route_table_ s) !! 0 = Some root /\ data_at (target_path (lit "/hello/{name}")) root = Some d /\
      route_data hello_route x d.
Proof.
  destruct (config_applied dlopen dlsym get_factory create make_endpoint sample
    (runtime_options 8 sample) made_server after_sample) as (b & s & Hm & [_ B2 _ _ B5] & Hs & Hc & _).
  - vm_compute. reflexivity.
  - vm_compute. reflexivity.
  - vm_compute. reflexivity.
  - cbn. apply NoDup_cons. split; [|apply NoDup_singleton]. by intros ?%list_elem_of_singleton.
  - repeat constructor; cbn; lia.
  - destruct (b_services b) as [|go l] eqn:Hb; [discriminate B2|].
    destruct (b_routes b) as [|x l'] eqn:Hr; [apply Forall2_length in B5; discriminate B5|].
    exists b, s, x. split; [exact Hm|]. split; [exact Hs|]. clear Hm Hs. split.
    + rewrite Hb. apply (cs_services _ _ _ _ _ Hc 0 (mkService 3 hello) go); [reflexivity|rewrite Hb; reflexivity].
    + apply (cs_routes _ _ _ _ _ Hc 0 hello_route x); [reflexivity|rewrite Hr; reflexivity|vm_compute; reflexivity|].
      intros [|j] r Hj Hne; [destruct (Hne eq_refl)|destruct j; discriminate Hj].
Defined.

(** What is made, by which factory, and where it goes. *)
Lemma sample_applied :
  (fun s => (service_providers_ (cfg (base s)), global_aspects_ (route_table_ s))) <$> server_ after_sample =
    Some ([None; Some 11; None; Some 10], [12]) /\
  handles_ after_sample = [(lit "libhello.so", 1)] /\
  loaded_services_ after_sample = [mkServiceRecord 3 10 5 false; mkServiceRecord 1 11 5 false].
Proof. vm_compute. split_and!; reflexivity. Qed.

(** Started, stopped by a signal, and taken down. *)
Lemma launch_sample :
  trace (leave_scope destroy_service
    (serve dlopen dlsym get_factory create destroy_service make_endpoint sys true
      (runtime_options 8 sample) sample tt true [] (initial 10)).2) =
  [EvNewServer; EvOpen (lit "libhello.so") 1; EvCreate KService 1 10; EvCreate KService 1 11; EvCreate KAspect 1 12;
   EvCreate KHandler 1 13; EvCreate KAspect 1 14; EvCreate KAspect 1 15; EvCreate KAspect 1 16; EvStart true; EvStop;
   EvDestroyService 11 true; EvDestroyService 10 true; EvDestroyServer; EvClose 1].
Proof. vm_compute. reflexivity. Qed.
End LaunchSample.
