(* ===== verification/FileTransfer.v ===== *)
(** * Files and uploads

    [src/src/file/file_reader.cc] and file_writer.cc, [connection/client/put_generator.cc]
    and [connection/server/put_processor.cc]: reading a file into memory, writing
    memory to a file, a PUT request made from a file, and the file made from a
    PUT request.

    Everything is asynchronous: work and callbacks are posted to executors.  A
    [world] has the disk, the jobs posted and not yet run, the build states of
    the generator (shared by several jobs), and what the callbacks were told.
    Any job may run next.  The disk is an interface: what [file_size], the file
    streams and other processes do to it is a class with any instance, and
    [DiskLaws] is what a disk that is left alone does; under them different path
    strings are different files, so no links and no second spelling of a path. *)

From S2P Require Import Prelude Text AsyncWaiter MultipartGenerator.

Inductive error_code := FsError (n : nat) | IoError | InvalidArgument | OperationNotSupported.

(** ** The disk *)

Inductive write_outcome := NotOpened | WriteFailed | Written.

(** The system under the file streams; every call may find a changed disk. *)
Class Disk (D : Type) := {
  file_size : str -> D -> (nat + nat) * D;
  open_input : str -> D -> option str * D;
  read_fails : str -> D -> bool * D;
  write_output : str -> str -> D -> write_outcome * D;
}.

(** A disk nobody else writes to. *)
Class DiskLaws (D : Type) `{Disk D} := {
  content : D -> gmap str str;
  file_size_law : forall p s d, content d !! p = Some s -> file_size p d = (inr (length s), d);
  open_input_law : forall p s d, content d !! p = Some s -> open_input p d = (Some s, d);
  read_fails_law : forall p s d, content d !! p = Some s -> read_fails p d = (false, d);
  write_output_law : forall p s d d',
    write_output p s d = (Written, d') -> content d' = <[p := s]> (content d);
}.

(** ** Readers and writers *)

(** An executor may be missing. *)
Record FileReader := mkReader {
  path_ : str;
  r_work_executor_ : bool;
  r_callback_executor_ : bool;
}.

Record FileWriter := mkWriter {
  data_ : option str;
  size_ : nat;
  valid_ : bool;
  w_work_executor_ : bool;
  w_callback_executor_ : bool;
}.

Record FileReadingState := mkReading {
  rs_path : str;
  rs_ec : option error_code;
  rs_size : nat;
  rs_writer : option FileWriter;
}.

Record FileWritingState := mkWriting {
  ws_path : str;
  ws_ec : option error_code;
  ws_size : nat;
  ws_reader : option FileReader;
}.

Definition new_reading : FileReadingState := mkReading [] None 0 None.
Definition new_writing : FileWritingState := mkWriting [] None 0 None.

(** [FileReader::Create] *)
Definition CreateReader (path : str) (work callback : bool) : FileReader := mkReader path work callback.

Definition ReaderIsValid (r : FileReader) : bool := match path_ r with [] => false | _ => true end.

Definition Assign (payload : str) (w : FileWriter) : FileWriter :=
  mkWriter (match payload with [] => data_ w | _ => Some payload end) (length payload) true
    (w_work_executor_ w) (w_callback_executor_ w).

(** [FileWriter::Create] *)
Definition CreateWriter (payload : str) (work callback : bool) : FileWriter :=
  Assign payload (mkWriter None 0 false work callback).

(** The bytes from [Data] on, [Size] of them. *)
Definition bytes (w : FileWriter) : str := default [] (data_ w).

(** [CopyTo]: the answer and the destination. *)
Definition CopyTo (dest : option str) (w : FileWriter) : bool * option str :=
  if negb (valid_ w)
     || (negb (size_ w =? 0) && match dest with None => true | Some d => length d <? size_ w end)
  then (false, dest)
  else if size_ w =? 0 then (true, dest)
  else (true, (fun d => bytes w ++ drop (size_ w) d) <$> dest).

(** ** Generators *)

(** A PUT that is ready to be started. *)
Record PutTask := mkPutTask {
  pt_https : bool;
  pt_ssl_ctx : option nat;
  pt_host : str;
  pt_port : str;
  pt_target : str;
  pt_body : str;
  pt_content_type : str;
}.

Record PutGenerator := mkPut {
  host_ : str;
  port_ : str;
  target_ : str;
  reader_ : option FileReader;
  content_type_ : str;
  use_ssl_ : bool;
  ssl_ctx_ : option nat;
  create_error_ : option error_code;
}.

Definition PutHttp (host port target : str) : PutGenerator := mkPut host port target None [] false None None.

Definition PutHttps (ssl_ctx : option nat) (host port target : str) : PutGenerator :=
  mkPut host port target None [] true ssl_ctx
    (match ssl_ctx with None => Some InvalidArgument | Some _ => None end).

(** The process-wide TLS state is a context and whether making it failed. *)
Definition PutHttpsDefault (ssl_state : option nat * bool) (host port target : str) : PutGenerator :=
  let g := PutHttps ssl_state.1 host port target in
  if ssl_state.2
  then mkPut (host_ g) (port_ g) (target_ g) (reader_ g) (content_type_ g) (use_ssl_ g) (ssl_ctx_ g) (Some IoError)
  else g.

Definition PutFromUrl (parse_uri : str -> option url_view) (ssl_state : option nat * bool) (url : str) : PutGenerator :=
  match ParseHttpUrl parse_uri url with
  | None => mkPut [] [] (lit "/") None [] false None (Some InvalidArgument)
  | Some p =>
      mkPut (url_host p) (url_port p) (url_target p) None [] (url_https p)
        (if url_https p then ssl_state.1 else None)
        (if url_https p && ssl_state.2 then Some IoError else None)
  end.

Definition PutFromUrlWith (parse_uri : str -> option url_view) (ssl_ctx : option nat) (url : str) : PutGenerator :=
  match ParseHttpUrl parse_uri url with
  | None => mkPut [] [] (lit "/") None [] false None (Some InvalidArgument)
  | Some p =>
      let ctx := if url_https p then ssl_ctx else None in
      mkPut (url_host p) (url_port p) (url_target p) None [] (url_https p) ctx
        (if url_https p && bool_decide (ctx = None) then Some InvalidArgument else None)
  end.

Definition SetFile (r : option FileReader) (g : PutGenerator) : PutGenerator :=
  mkPut (host_ g) (port_ g) (target_ g) r (content_type_ g) (use_ssl_ g) (ssl_ctx_ g) (create_error_ g).

Definition SetContentType (s : str) (g : PutGenerator) : PutGenerator :=
  mkPut (host_ g) (port_ g) (target_ g) (reader_ g) s (use_ssl_ g) (ssl_ctx_ g) (create_error_ g).

(** ** Jobs *)

(** The callback of a read: the user's, or the slot of a generator's waiter. *)
Inductive read_callback := ReadUser (n : nat) | ReadWaiter (build : nat).
(** The callback of a write: the user's, or the processor's around the user's. *)
Inductive write_callback := WriteUser (n : nat) | WriteDump (n : nat).

Inductive job :=
  | JRead (r : FileReader) (st : FileReadingState) (cb : option read_callback)
  | JReadDone (st : FileReadingState) (cb : read_callback)
  | JWrite (w : FileWriter) (path : str) (st : FileWritingState) (cb : option write_callback)
  | JWriteDone (st : FileWritingState) (cb : write_callback)
  | JBuild (build : nat) (states : list FileReadingState)
  | JReady (n : nat) (r : error_code + PutTask).

(** What callbacks were told. *)
Inductive told_event :=
  | ToldRead (n : nat) (st : FileReadingState)
  | ToldWrite (n : nat) (st : FileWritingState)
  | ToldDump (n : nat) (ok : bool)
  | ToldReady (n : nat) (r : error_code + PutTask).

Record PutBuildState := mkBuildState {
  bs_generator : PutGenerator;
  bs_callback : option nat;
  bs_done : bool;
  bs_waiter : AsyncSameTypeWaiter unit FileReadingState;
}.

Section transfer.
Context {D : Type} `{Disk D}.

Record world := mkWorld {
  disk : D;
  jobs : list job;
  builds : list PutBuildState;
  told : list told_event;
}.

Definition set_disk (d : D) (w : world) : world := mkWorld d (jobs w) (builds w) (told w).
Definition post (j : job) (w : world) : world := mkWorld (disk w) (jobs w ++ [j]) (builds w) (told w).
Definition tell (e : told_event) (w : world) : world := mkWorld (disk w) (jobs w) (builds w) (told w ++ [e]).
Definition set_build (b : nat) (s : PutBuildState) (w : world) : world :=
  mkWorld (disk w) (jobs w) (<[b := s]> (builds w)) (told w).

(** *** Completing a build *)

Definition DispatchReadyCallback (callback : option nat) (r : error_code + PutTask) (w : world) : world :=
  match callback with None => w | Some n => post (JReady n r) w end.

Definition Complete (b : nat) (r : error_code + PutTask) (w : world) : world :=
  match builds w !! b with
  | None => w
  | Some s =>
      if bs_done s then w
      else DispatchReadyCallback (bs_callback s) r
             (set_build b (mkBuildState (bs_generator s) None true (bs_waiter s)) w)
  end.

(** What [BuildTask] completes with. *)
Definition built_task (g : PutGenerator) (states : list FileReadingState) : error_code + PutTask :=
  match states with
  | [state] =>
      match rs_ec state, rs_writer state with
      | None, Some wr =>
          if valid_ wr then
            inr (mkPutTask (use_ssl_ g) (if use_ssl_ g then ssl_ctx_ g else None) (host_ g) (port_ g) (target_ g)
                   (if size_ wr =? 0 then [] else bytes wr)
                   (match content_type_ g with [] => lit "application/octet-stream" | c => c end))
          else inl IoError
      | Some e, _ => inl e
      | None, None => inl IoError
      end
  | _ => inl IoError
  end.

Definition BuildTask (b : nat) (states : list FileReadingState) (w : world) : world :=
  match builds w !! b with
  | None => w
  | Some s => Complete b (built_task (bs_generator s) states) w
  end.

(** The waiter of a build gets the state of its read; when it is ready it posts
    the building of the task. *)
Definition fulfil_build (b : nat) (st : FileReadingState) (w : world) : world :=
  match builds w !! b with
  | None => w
  | Some s =>
      let '(wt, completion) := Fulfill 0 st (bs_waiter s) in
      let w := set_build b (mkBuildState (bs_generator s) (bs_callback s) (bs_done s) wt) w in
      match completion with
      | Some (_, Some states) => post (JBuild b states) w
      | _ => w
      end
  end.

(** *** Reading *)

Definition call_read (cb : read_callback) (st : FileReadingState) (w : world) : world :=
  match cb with
  | ReadUser n => tell (ToldRead n st) w
  | ReadWaiter b => fulfil_build b st w
  end.

Definition DispatchReadCallback (executor : bool) (st : FileReadingState) (cb : option read_callback) (w : world) :
    world :=
  match cb with
  | None => w
  | Some cb => if executor then post (JReadDone st cb) w else call_read cb st w
  end.

(** [std::string(n, '\0')], filled by a read. *)
Definition read_buffer (n : nat) (s : str) : str := resize n "000"%char s.

(** [AsyncFileReadOp::Run] up to [Finish]: the state and the disk. *)
Definition RunRead (r : FileReader) (st : FileReadingState) (d : D) : FileReadingState * D :=
  let '(size, d) := file_size (path_ r) d in
  match size with
  | inl e => (mkReading (path_ r) (Some (FsError e)) (rs_size st) (rs_writer st), d)
  | inr n =>
      let '(stream, d) := open_input (path_ r) d in
      match stream with
      | None => (mkReading (path_ r) (Some IoError) n (rs_writer st), d)
      | Some s =>
          let loaded := mkReading (path_ r) None n
            (Some (CreateWriter (read_buffer n s) (r_work_executor_ r) (r_callback_executor_ r))) in
          if n =? 0 then (loaded, d)
          else
            let '(bad, d) := read_fails (path_ r) d in
            if (bad : bool) then (mkReading (path_ r) (Some IoError) n (rs_writer st), d) else (loaded, d)
      end
  end.

Definition AsyncReadFromDisk (r : FileReader) (state : option FileReadingState) (cb : option read_callback) (w : world) :
    bool * world :=
  if negb (ReaderIsValid r) || negb (r_work_executor_ r) || (bool_decide (cb <> None) && negb (r_callback_executor_ r))
  then (false, w)
  else (true, post (JRead r (default new_reading state) cb) w).

(** *** Writing *)

Definition call_write (cb : write_callback) (st : FileWritingState) (w : world) : world :=
  match cb with
  | WriteUser n => tell (ToldWrite n st) w
  | WriteDump n => tell (ToldDump n (bool_decide (ws_ec st = None))) w
  end.

Definition DispatchWriteCallback (executor : bool) (st : FileWritingState) (cb : option write_callback) (w : world) :
    world :=
  match cb with
  | None => w
  | Some cb => if executor then post (JWriteDone st cb) w else call_write cb st w
  end.

(** [AsyncFileWriteOp::Run] up to [Finish]. *)
Definition RunWrite (wr : FileWriter) (path : str) (st : FileWritingState) (d : D) : FileWritingState * D :=
  let '(o, d) := write_output path (if size_ wr =? 0 then [] else bytes wr) d in
  match o with
  | Written =>
      (mkWriting path None (size_ wr) (Some (CreateReader path (w_work_executor_ wr) (w_callback_executor_ wr))), d)
  | _ => (mkWriting path (Some IoError) (size_ wr) (ws_reader st), d)
  end.

Definition AsyncWriteToDisk (wr : FileWriter) (path : str) (state : option FileWritingState) (cb : option write_callback)
    (w : world) : bool * world :=
  if negb (valid_ wr) || negb (w_work_executor_ wr) || (match path with [] => true | _ => false end)
     || (bool_decide (cb <> None) && negb (w_callback_executor_ wr))
  then (false, w)
  else (true, post (JWrite wr path (default new_writing state) cb) w).

(** *** Uploading *)

Definition AsyncCreateTask (g : PutGenerator) (callback : option nat) (w : world) : bool * world :=
  match callback with
  | None => (false, w)
  | Some _ =>
      match create_error_ g, reader_ g with
      | Some e, _ => (true, DispatchReadyCallback callback (inl e) w)
      | None, None => (true, DispatchReadyCallback callback (inl InvalidArgument) w)
      | None, Some r =>
          let b := length (builds w) in
          let '(waiter, _) := OnReadyAllocated (Some tt) (Create 1) in
          let w := mkWorld (disk w) (jobs w) (builds w ++ [mkBuildState g callback false waiter]) (told w) in
          let '(ok, w) := AsyncReadFromDisk r None (Some (ReadWaiter b)) w in
          (true, if ok then w else Complete b (inl OperationNotSupported) w)
      end
  end.

(** [PutProcessor], of a request and its executors. *)
Record PutProcessor := mkProcessor { writer_ : option FileWriter; is_put_ : bool }.

Definition CreateProcessor (is_put : bool) (body : str) (work callback : bool) : PutProcessor :=
  mkProcessor (if is_put then Some (CreateWriter body work callback) else None) is_put.

Definition AsyncDumpToDisk (p : PutProcessor) (path : str) (callback : option nat) (w : world) : bool * world :=
  match writer_ p, path with
  | None, _ | _, [] => (false, w)
  | Some wr, _ =>
      match callback with
      | None => AsyncWriteToDisk wr path None None w
      | Some n => AsyncWriteToDisk wr path (Some new_writing) (Some (WriteDump n)) w
      end
  end.

(** *** Running *)

Definition run_job (j : job) (w : world) : world :=
  match j with
  | JRead r st cb =>
      let '(st, d) := RunRead r st (disk w) in DispatchReadCallback (r_callback_executor_ r) st cb (set_disk d w)
  | JReadDone st cb => call_read cb st w
  | JWrite wr path st cb =>
      let '(st, d) := RunWrite wr path st (disk w) in
      DispatchWriteCallback (w_callback_executor_ wr) st cb (set_disk d w)
  | JWriteDone st cb => call_write cb st w
  | JBuild b states => BuildTask b states w
  | JReady n r => tell (ToldReady n r) w
  end.

(** The [i]-th job is taken from its queue and run. *)
Definition run_nth (i : nat) (w : world) : world :=
  match jobs w !! i with
  | None => w
  | Some j => run_job j (mkWorld (disk w) (delete i (jobs w)) (builds w) (told w))
  end.

Definition run_schedule (l : list nat) (w : world) : world := foldl (fun w i => run_nth i w) w l.
End transfer.
Arguments world : clear implicits.

(** ** Every accepted call is answered *)

(** What identifies an answer: the kind of call and its callback. *)
Inductive token := TRead (n : nat) | TWrite (n : nat) | TDump (n : nat) | TReady (n : nat).

Definition told_token (e : told_event) : token :=
  match e with
  | ToldRead n _ => TRead n
  | ToldWrite n _ => TWrite n
  | ToldDump n _ => TDump n
  | ToldReady n _ => TReady n
  end.

(** The build a job works on. *)
Definition job_build (j : job) : list nat :=
  match j with
  | JRead _ _ (Some (ReadWaiter b)) | JReadDone _ (ReadWaiter b) | JBuild b _ => [b]
  | _ => []
  end.

(** The answer a job will bring. *)
Definition job_tokens (bs : list PutBuildState) (j : job) : list token :=
  match j with
  | JRead _ _ (Some (ReadUser n)) | JReadDone _ (ReadUser n) => [TRead n]
  | JWrite _ _ _ (Some (WriteUser n)) | JWriteDone _ (WriteUser n) => [TWrite n]
  | JWrite _ _ _ (Some (WriteDump n)) | JWriteDone _ (WriteDump n) => [TDump n]
  | JReady n _ => [TReady n]
  | JRead _ _ (Some (ReadWaiter b)) | JReadDone _ (ReadWaiter b) | JBuild b _ =>
      match bs !! b ≫= bs_callback with Some n => [TReady n] | None => [] end
  | JRead _ _ None | JWrite _ _ _ None => []
  end.

(** How many jobs a job leads to, itself included. *)
Definition job_weight (j : job) : nat :=
  match j with
  | JRead _ _ _ => 4
  | JReadDone _ _ => 3
  | JBuild _ _ | JWrite _ _ _ _ => 2
  | JWriteDone _ _ | JReady _ _ => 1
  end.

Section answered.
Context {D : Type} `{Disk D}.
Abbreviation World := (world D).

Definition pending (w : World) : list token := jobs w ≫= job_tokens (builds w).
Definition weight (w : World) : nat := sum_list_with job_weight (jobs w).

(** The calls of the interface. *)
Inductive api :=
  | ApiRead (r : FileReader) (state : option FileReadingState) (cb : option nat)
  | ApiWrite (wr : FileWriter) (path : str) (state : option FileWritingState) (cb : option nat)
  | ApiDump (p : PutProcessor) (path : str) (cb : option nat)
  | ApiCreate (g : PutGenerator) (cb : option nat).

Definition run_api (a : api) (w : World) : bool * World :=
  match a with
  | ApiRead r state cb => AsyncReadFromDisk r state (ReadUser <$> cb) w
  | ApiWrite wr path state cb => AsyncWriteToDisk wr path state (WriteUser <$> cb) w
  | ApiDump p path cb => AsyncDumpToDisk p path cb w
  | ApiCreate g cb => AsyncCreateTask g cb w
  end.

(** The answer a call asks for. *)
Definition api_tokens (a : api) : list token :=
  match a with
  | ApiRead _ _ cb => TRead <$> option_list cb
  | ApiWrite _ _ _ cb => TWrite <$> option_list cb
  | ApiDump _ _ cb => TDump <$> option_list cb
  | ApiCreate _ cb => TReady <$> option_list cb
  end.

(** What happens: calls, jobs in any order, and changes of the disk from
    outside; with the answers asked for by the calls that were accepted. *)
Inductive reach : list token -> World -> Prop :=
  | reach_start d : reach [] (mkWorld d [] [] [])
  | reach_call a l w ok w' :
      reach l w -> run_api a w = (ok, w') -> reach (if ok then l ++ api_tokens a else l) w'
  | reach_run i l w : reach l w -> reach l (run_nth i w)
  | reach_disk d l w : reach l w -> reach l (set_disk d w).

(** A waiter that waits for its one read. *)
Definition armed : AsyncSameTypeWaiter unit FileReadingState := mkWaiter false 1 [false] [None] (Some tt).

Definition job_ok (bs : list PutBuildState) (j : job) : Prop :=
  forall b, b ∈ job_build j -> exists g n wt, bs !! b = Some (mkBuildState g (Some n) false wt) /\
    match j with JBuild _ _ => True | _ => wt = armed end.

(** [toks] and [bld]: the answer and the build in hand. *)
Record inv (asked toks : list token) (bld : list nat) (w : World) : Prop := {
  inv_tokens : asked ≡ₚ (told_token <$> told w) ++ toks ++ pending w;
  inv_builds : NoDup (bld ++ (jobs w ≫= job_build));
  inv_jobs : Forall (job_ok (builds w)) (jobs w);
}.

Lemma inv_tell asked t bld e w : inv asked [t] bld w -> told_token e = t -> inv asked [] [] (tell e w).
Proof.
  intros [I1 I2 I3] <-. constructor; [|apply NoDup_app in I2; tauto|done].
  cbn. rewrite fmap_app. cbn. rewrite I1. unfold pending. cbn. by rewrite <- app_assoc.
Qed.

Lemma inv_drop asked bld w : inv asked [] bld w -> inv asked [] [] w.
Proof. intros [I1 I2 I3]. constructor; [done|apply NoDup_app in I2; tauto|done]. Qed.

Lemma inv_post asked j w :
  inv asked (job_tokens (builds w) j) (job_build j) w -> job_ok (builds w) j -> inv asked [] [] (post j w).
Proof.
  intros [I1 I2 I3] Hj. constructor.
  - rewrite I1. unfold pending. cbn. rewrite bind_app. cbn. rewrite app_nil_r. f_equiv. by rewrite (comm (++)).
  - cbn. rewrite bind_app. cbn. rewrite app_nil_r. by rewrite (comm (++)) .
  - cbn. apply Forall_app. by repeat constructor.
Qed.

Lemma inv_post_new asked j w :
  inv asked [] [] w -> job_build j = [] -> inv (asked ++ job_tokens (builds w) j) [] [] (post j w).
Proof.
  intros [I1 I2 I3] Hj. apply inv_post; [|intros b; by rewrite Hj, elem_of_nil]. rewrite Hj. constructor; [|done|done].
  rewrite I1. cbn. rewrite <- app_assoc. f_equiv. by rewrite (comm (++)).
Qed.

(** Jobs on other builds do not see a change. *)
Lemma other_job bs b s j : b ∉ job_build j ->
  job_tokens (<[b := s]> bs) j = job_tokens bs j /\ (job_ok bs j -> job_ok (<[b := s]> bs) j).
Proof.
  intros Hb. split.
  - destruct j as [? ? [[|b']|]|? [|b']| | |b' ?|]; try done; cbn in *;
      rewrite list_lookup_insert_ne by (intros ->; apply Hb; by left); done.
  - intros Hj b' Hb'. destruct (Hj b' Hb') as (g & n & wt & Hl & Hm). exists g, n, wt. split; [|done].
    rewrite list_lookup_insert_ne; [done|]. by intros ->.
Qed.

Lemma inv_set_build asked toks b s w : inv asked toks [b] w -> inv asked toks [b] (set_build b s w).
Proof.
  intros [I1 I2 I3].
  assert (forall j, j ∈ jobs w -> b ∉ job_build j) as Ho.
  { intros j Hj Hb. apply NoDup_cons in I2 as [I2 _]. apply I2, list_elem_of_bind. by exists j. }
  constructor; [|done|].
  - rewrite I1. unfold pending. cbn. do 2 f_equiv. rewrite (Forall_bind_ext (job_tokens (<[b := s]> (builds w))) (job_tokens (builds w))); [done|].
    apply Forall_forall. intros j Hj. by apply other_job, Ho.
  - cbn. rewrite Forall_forall in I3 |- *. intros j Hj. by apply other_job; [apply Ho|apply I3].
Qed.

Lemma inv_take asked w i j :
  inv asked [] [] w -> jobs w !! i = Some j ->
  let w' := mkWorld (disk w) (delete i (jobs w)) (builds w) (told w) in
  inv asked (job_tokens (builds w) j) (job_build j) w' /\ job_ok (builds w) j.
Proof.
  intros [I1 I2 I3] Hj. pose proof (delete_Permutation _ _ _ Hj) as Hp. unfold pending in I1.
  rewrite Hp in I1, I2, I3. apply Forall_cons in I3 as [I3 I3']. by split.
Qed.

(** *** Running a job *)

Lemma armed_fulfilled st : Fulfill 0 st armed = (mkWaiter true 0 [true] [Some st] None, Some (tt, Some [st])).
Proof. done. Qed.

Lemma call_read_inv asked cb st w :
  inv asked (job_tokens (builds w) (JReadDone st cb)) (job_build (JReadDone st cb)) w ->
  job_ok (builds w) (JReadDone st cb) -> inv asked [] [] (call_read cb st w).
Proof.
  destruct cb as [n|b]; cbn [call_read job_build]; intros Hi Hj; [by eapply inv_tell|].
  destruct (Hj b) as (g & n & wt & Hb & ->); [by left|].
  unfold fulfil_build. rewrite Hb. cbn [bs_waiter]. rewrite armed_fulfilled.
  cbn [bs_generator bs_callback bs_done].
  set (s := mkBuildState g (Some n) false (mkWaiter true 0 [true] [Some st] None)).
  assert (builds (set_build b s w) !! b = Some s) as Hs
    by (cbn; apply list_lookup_insert_eq; by eapply lookup_lt_Some).
  apply inv_post; cbn [job_tokens job_build] in *; rewrite Hb in Hi; cbn in Hi.
  - rewrite Hs. cbn. by apply inv_set_build.
  - intros b' ->%list_elem_of_singleton. exists g, n, (mkWaiter true 0 [true] [Some st] None). by split.
Qed.

Lemma call_write_inv asked cb st w bs :
  inv asked (job_tokens bs (JWriteDone st cb)) [] w -> inv asked [] [] (call_write cb st w).
Proof. destruct cb; intros Hi; by eapply inv_tell. Qed.

Lemma BuildTask_inv asked b states w :
  inv asked (job_tokens (builds w) (JBuild b states)) [b] w -> job_ok (builds w) (JBuild b states) ->
  inv asked [] [] (BuildTask b states w).
Proof.
  intros Hi Hj. destruct (Hj b) as (g & n & wt & Hb & _); [by left|].
  unfold BuildTask, Complete. rewrite Hb. cbn [bs_done bs_generator bs_callback bs_waiter DispatchReadyCallback].
  cbn [job_tokens] in Hi. rewrite Hb in Hi. cbn in Hi.
  apply inv_post; [|by intros b' ?%elem_of_nil]. cbn [job_tokens job_build].
  apply (inv_set_build _ _ _ (mkBuildState g None true wt)) in Hi as [I1 I2 I3]. constructor; [done| |done].
  by apply NoDup_cons in I2 as [_ I2].
Qed.

Lemma inv_set_disk asked toks bld d w : inv asked toks bld w -> inv asked toks bld (set_disk d w).
Proof. intros [I1 I2 I3]. by constructor. Qed.

Lemma run_job_inv asked j w :
  inv asked (job_tokens (builds w) j) (job_build j) w -> job_ok (builds w) j -> inv asked [] [] (run_job j w).
Proof.
  intros Hi Hj. destruct j as [r st cb|st cb|wr path st cb|st cb|b states|n r]; cbn [run_job].
  - destruct (RunRead r st (disk w)) as [st' d]. apply (inv_set_disk _ _ _ d) in Hi.
    destruct cb as [cb|]; cbn [DispatchReadCallback]; [|by eapply inv_drop].
    assert (job_tokens (builds w) (JRead r st (Some cb)) = job_tokens (builds w) (JReadDone st' cb)) as E1 by by destruct cb.
    assert (job_build (JRead r st (Some cb)) = job_build (JReadDone st' cb)) as E2 by by destruct cb.
    assert (job_ok (builds w) (JReadDone st' cb)) as Hj' by (unfold job_ok in *; by rewrite <- E2).
    rewrite E1, E2 in Hi. destruct (r_callback_executor_ r); [by apply inv_post|by apply call_read_inv].
  - by apply call_read_inv.
  - destruct (RunWrite wr path st (disk w)) as [st' d]. apply (inv_set_disk _ _ _ d) in Hi.
    destruct cb as [cb|]; cbn [DispatchWriteCallback]; [|by eapply inv_drop].
    assert (job_tokens (builds w) (JWrite wr path st (Some cb)) = job_tokens (builds w) (JWriteDone st' cb)) as E1
      by by destruct cb.
    rewrite E1 in Hi. destruct (w_callback_executor_ wr); [|by eapply call_write_inv].
    apply inv_post; [done|by intros b ?%elem_of_nil].
  - by eapply call_write_inv.
  - by apply BuildTask_inv.
  - by eapply inv_tell.
Qed.

(** *** Calls *)

Lemma inv_new_build asked s w :
  inv asked [] [] w ->
  inv asked [] [length (builds w)] (mkWorld (disk w) (jobs w) (builds w ++ [s]) (told w)).
Proof.
  intros [I1 I2 I3].
  assert (forall j, j ∈ jobs w -> job_tokens (builds w ++ [s]) j = job_tokens (builds w) j /\
    job_ok (builds w ++ [s]) j /\ length (builds w) ∉ job_build j) as Hj.
  { intros j Hj. rewrite Forall_forall in I3. pose proof (I3 j Hj) as Hok. split_and!.
    - destruct j as [? ? [[|b]|]|? [|b]| | |b ?|]; try done; cbn;
        destruct (Hok b) as (g & n & wt & Hb & _); try (by left);
        rewrite lookup_app_l by (by eapply lookup_lt_Some); done.
    - intros b Hb. destruct (Hok b Hb) as (g & n & wt & Hl & Hm). exists g, n, wt. split; [|done].
      by apply lookup_app_l_Some.
    - intros Hb. destruct (Hok _ Hb) as (g & n & wt & Hl & _). apply lookup_lt_Some in Hl. lia. }
  constructor; cbn.
  - rewrite I1. unfold pending. cbn. f_equiv.
    rewrite (Forall_bind_ext (job_tokens (builds w ++ [s])) (job_tokens (builds w))); [done|].
    apply Forall_forall. intros j Hjj. by apply Hj.
  - apply NoDup_cons. split; [|done]. intros (j & Hb & Hjj)%list_elem_of_bind. by apply (Hj j Hjj).
  - apply Forall_forall. intros j Hjj. by apply Hj.
Qed.

Lemma AsyncCreateTask_inv asked g n w :
  inv asked [] [] w -> inv (asked ++ [TReady n]) [] [] (AsyncCreateTask g (Some n) w).2.
Proof.
  intros Hi. unfold AsyncCreateTask. destruct (create_error_ g); [by apply (inv_post_new _ (JReady n _))|].
  destruct (reader_ g) as [r|]; [|by apply (inv_post_new _ (JReady n _))].
  change (OnReadyAllocated (Some tt) (Create 1)) with (armed, @None (unit * option (list FileReadingState))).
  cbn beta iota zeta. set (b := length (builds w)). set (s := mkBuildState g (Some n) false armed).
  pose proof (inv_new_build asked s w Hi) as Hw. fold b in Hw.
  set (w1 := mkWorld (disk w) (jobs w) (builds w ++ [s]) (told w)) in *.
  assert (builds w1 !! b = Some s) as Hs by (cbn; by apply list_lookup_middle).
  assert (inv (asked ++ [TReady n]) [TReady n] [b] w1) as Hw'.
  { destruct Hw as [I1 I2 I3]. constructor; [|done|done]. rewrite I1, <- app_assoc. f_equiv.
    symmetry. apply Permutation_cons_append. }
  unfold AsyncReadFromDisk. destruct (_ || _); cbn [snd].
  - unfold Complete. rewrite Hs. cbn [bs_done bs_generator bs_callback bs_waiter s DispatchReadyCallback].
    apply inv_post; [|by intros b' ?%elem_of_nil]. cbn [job_tokens job_build].
    apply (inv_set_build _ _ _ (mkBuildState g None true armed)) in Hw' as [I1 I2 I3]. constructor; [done| |done].
    by apply NoDup_cons in I2 as [_ I2].
  - apply inv_post; cbn [job_tokens job_build].
    + rewrite Hs. exact Hw'.
    + intros b' ->%list_elem_of_singleton. by exists g, n, armed.
Qed.

Lemma run_api_inv asked a w ok w' :
  inv asked [] [] w -> run_api a w = (ok, w') -> inv (if ok then asked ++ api_tokens a else asked) [] [] w'.
Proof.
  intros Hi. destruct a as [r state cb|wr path state cb|p path cb|g cb]; cbn [run_api].
  - unfold AsyncReadFromDisk. destruct (_ || _); intros [= <- <-]; [done|].
    destruct cb as [n|];
      [exact (inv_post_new asked (JRead r _ (Some (ReadUser n))) w Hi eq_refl)|exact (inv_post_new asked (JRead r _ None) w Hi eq_refl)].
  - unfold AsyncWriteToDisk. destruct (_ || _); intros [= <- <-]; [done|].
    destruct cb as [n|];
      [exact (inv_post_new asked (JWrite wr path _ (Some (WriteUser n))) w Hi eq_refl)
      |exact (inv_post_new asked (JWrite wr path _ None) w Hi eq_refl)].
  - unfold AsyncDumpToDisk, AsyncWriteToDisk. destruct (writer_ p) as [wr|]; [|by intros [= <- <-]].
    destruct path; [by intros [= <- <-]|]. destruct cb as [n|]; destruct (_ || _); intros [= <- <-]; try done;
      [exact (inv_post_new asked (JWrite wr _ _ (Some (WriteDump n))) w Hi eq_refl)
      |exact (inv_post_new asked (JWrite wr _ _ None) w Hi eq_refl)].
  - destruct cb as [n|]; [|by intros [= <- <-]].
    intros Hc. pose proof (AsyncCreateTask_inv asked g n w Hi) as Hn. rewrite Hc in Hn.
    unfold AsyncCreateTask in Hc. cbn [api_tokens option_list fmap list_fmap].
    assert (ok = true) as ->; [|done].
    destruct (create_error_ g); [by injection Hc|]. destruct (reader_ g); [|by injection Hc].
    destruct (OnReadyAllocated _ _), (AsyncReadFromDisk _ _ _ _). by injection Hc.
Qed.

Lemma reach_inv asked w : reach asked w -> inv asked [] [] w.
Proof.
  induction 1 as [d|a l w ok w' _ IH Ha|i l w _ IH|d l w _ IH].
  - constructor; [done|constructor|constructor].
  - by eapply run_api_inv.
  - unfold run_nth. destruct (jobs w !! i) as [j|] eqn:Hj; [|done].
    destruct (inv_take _ _ _ _ IH Hj) as [Hi Hok]. by apply run_job_inv.
  - by apply inv_set_disk.
Qed.

(** *** Running out of jobs *)

Lemma weight_post j (w : World) : weight (post j w) = weight w + job_weight j.
Proof. unfold weight. cbn. rewrite sum_list_with_app. cbn. lia. Qed.

Lemma weight_set_disk d (w : World) : weight (set_disk d w) = weight w.
Proof. done. Qed.

Lemma call_read_weight cb st (w : World) : weight (call_read cb st w) <= weight w + 2.
Proof.
  destruct cb as [n|b]; cbn [call_read]; [unfold weight; cbn; lia|]. unfold fulfil_build.
  destruct (builds w !! b); [|lia]. destruct (Fulfill _ _ _) as [wt [[k [l|]]|]]; rewrite ?weight_post; unfold weight; cbn; lia.
Qed.

Lemma call_write_weight cb st (w : World) : weight (call_write cb st w) = weight w.
Proof. by destruct cb. Qed.

Lemma run_job_weight j (w : World) : weight (run_job j w) < weight w + job_weight j.
Proof.
  destruct j as [r st cb|st cb|wr path st cb|st cb|b states|n r]; cbn [run_job job_weight].
  - destruct (RunRead _ _ _) as [st' d]. unfold DispatchReadCallback.
    destruct cb as [cb|]; [|change (weight w < weight w + 4); lia]. destruct (r_callback_executor_ r).
    + rewrite weight_post, weight_set_disk. cbn [job_weight]. lia.
    + pose proof (call_read_weight cb st' (set_disk d w)) as Hw. rewrite weight_set_disk in Hw. lia.
  - pose proof (call_read_weight cb st w). lia.
  - destruct (RunWrite _ _ _ _) as [st' d]. unfold DispatchWriteCallback.
    destruct cb as [cb|]; [|change (weight w < weight w + 2); lia]. destruct (w_callback_executor_ wr).
    + rewrite weight_post, weight_set_disk. cbn [job_weight]. lia.
    + rewrite call_write_weight, weight_set_disk. lia.
  - rewrite call_write_weight. lia.
  - unfold BuildTask, Complete. destruct (builds w !! b) as [s|]; [|lia]. destruct (bs_done s); [lia|].
    unfold DispatchReadyCallback. destruct (bs_callback s); rewrite ?weight_post; unfold weight; cbn; lia.
  - unfold weight. cbn. lia.
Qed.

Lemma run_nth_weight i (w : World) : i < length (jobs w) -> weight (run_nth i w) < weight w.
Proof.
  intros Hi. unfold run_nth. destruct (lookup_lt_is_Some_2 _ _ Hi) as [j Hj]. rewrite Hj.
  set (w' := mkWorld _ _ _ _). pose proof (run_job_weight j w') as Hw.
  assert (weight w = weight w' + job_weight j) as ->; [|done].
  unfold weight. rewrite (delete_Permutation _ _ _ Hj) at 1. cbn. lia.
Qed.

(** A schedule that always names a job there is. *)
Fixpoint fair (l : list nat) (w : World) : Prop :=
  match l with
  | [] => True
  | i :: l => i < length (jobs w) /\ fair l (run_nth i w)
  end.

Lemma fair_short l : forall w : World, fair l w -> length l + weight (run_schedule l w) <= weight w.
Proof.
  induction l as [|i l IH]; intros w; cbn [fair length run_schedule foldl]; [lia|]. intros [Hi Hl].
  apply IH in Hl. apply run_nth_weight in Hi. unfold run_schedule in Hl. lia.
Qed.

Lemma reach_schedule asked l : forall w, reach asked w -> reach asked (run_schedule l w).
Proof. induction l as [|i l IH]; intros w Hw; [done|]. by apply IH, reach_run. Qed.

Lemma runs_out n : forall w : World, weight w <= n -> exists l, fair l w /\ jobs (run_schedule l w) = [].
Proof.
  induction n as [|n IH]; intros w Hw.
  - exists []. split; [done|]. unfold weight in Hw. cbn. destruct (jobs w) as [|j js]; [done|]. cbn in Hw.
    destruct j; cbn in Hw; lia.
  - destruct (jobs w) as [|j js] eqn:Hj; [by exists []|].
    assert (0 < length (jobs w)) as H0 by (rewrite Hj; cbn; lia). pose proof (run_nth_weight 0 w H0) as Hd.
    destruct (IH (run_nth 0 w)) as (l & Hl & Hn); [lia|]. exists (0 :: l). by split.
Qed.

(** Every call that is accepted is answered exactly once.  Reads, writes,
    dumps of an upload and the making of an upload task, whatever the disk
    answers, whatever else happens to it and in whatever order jobs run: at any
    time the answers asked for are those given and those that the pending jobs
    will give, one each; however the jobs are run, no more than [weight] of them
    are - four for a read, two for a write - before there are none, and then
    every answer has been given; and they can be run until there are none. *)
Theorem transfers_answered asked w :
  reach asked w ->
  asked ≡ₚ (told_token <$> told w) ++ pending w /\
  (forall l, fair l w -> length l <= weight w /\
     (jobs (run_schedule l w) = [] -> told_token <$> told (run_schedule l w) ≡ₚ asked)) /\
  exists l, fair l w /\ jobs (run_schedule l w) = [].
Proof.
  intros Hw. apply reach_inv in Hw as Hi. split; [by destruct Hi|]. split; [|by eapply runs_out].
  intros l Hl. apply fair_short in Hl. split; [lia|]. intros Hj.
  apply (reach_schedule _ l), reach_inv in Hw as [I1 _ _]. rewrite I1. unfold pending. rewrite Hj. cbn.
  by rewrite app_nil_r.
Qed.
End answered.

(** ** An upload, from disk to disk *)

Section round_trip.

Lemma CreateWriter_bytes s a b :
  let wr := CreateWriter s a b in (if size_ wr =? 0 then [] else bytes wr) = s /\ valid_ wr = true.
Proof. by destruct s. Qed.

Lemma CopyTo_spec s a b dest :
  length s <= length dest -> CopyTo (Some dest) (CreateWriter s a b) = (true, Some (s ++ drop (length s) dest)).
Proof.
  intros Hl. unfold CopyTo. destruct s as [|c s]; [done|]. cbn [CreateWriter Assign valid_ size_ negb orb].
  change (length (c :: s) =? 0) with false. cbn [negb andb].
  by destruct (Nat.ltb_spec (length dest) (length (c :: s))); [lia|].
Qed.

Lemma RunRead_quiet {C} `{DiskLaws C} p s a b st (d : C) :
  content d !! p = Some s ->
  RunRead (CreateReader p a b) st d = (mkReading p None (length s) (Some (CreateWriter s a b)), d).
Proof.
  intros Hp. unfold RunRead. cbn [CreateReader path_ r_work_executor_ r_callback_executor_].
  rewrite (file_size_law _ _ _ Hp), (open_input_law _ _ _ Hp), (read_fails_law _ _ _ Hp).
  unfold read_buffer. rewrite resize_all. by destruct (length s =? 0).
Qed.

Definition fresh {C} (d : C) : world C := mkWorld d [] [] [].

Lemma run_single {C} `{Disk C} j (d : C) bs l :
  run_nth 0 (mkWorld d [j] bs l) = run_job j (mkWorld d [] bs l).
Proof. done. Qed.

Lemma upload_task {C} `{DiskLaws C} p s g n (d : C) :
  content d !! p = Some s -> p <> [] -> create_error_ g = None -> reader_ g = Some (CreateReader p true true) ->
  exists bs, run_schedule [0; 0; 0; 0] (AsyncCreateTask g (Some n) (fresh d)).2 =
    mkWorld d [] bs [ToldReady n (inr (mkPutTask (use_ssl_ g) (if use_ssl_ g then ssl_ctx_ g else None)
      (host_ g) (port_ g) (target_ g) s
      (match content_type_ g with [] => lit "application/octet-stream" | c => c end)))].
Proof.
  intros Hs Hp He Hr. unfold AsyncCreateTask. rewrite He, Hr. destruct p as [|c p]; [done|].
  set (r := CreateReader (c :: p) true true).
  change (exists bs, run_schedule [0; 0; 0; 0] (mkWorld d [JRead r new_reading (Some (ReadWaiter 0))]
    [mkBuildState g (Some n) false armed] []) = mkWorld d [] bs [ToldReady n (inr (mkPutTask (use_ssl_ g)
      (if use_ssl_ g then ssl_ctx_ g else None) (host_ g) (port_ g) (target_ g) s
      (match content_type_ g with [] => lit "application/octet-stream" | c => c end)))]).
  unfold run_schedule. cbn [foldl]. rewrite run_single. cbn [run_job disk]. unfold r.
  rewrite (RunRead_quiet _ _ true true _ _ Hs).
  change (DispatchReadCallback _ ?st _ _) with
    (mkWorld d [JReadDone st (ReadWaiter 0)] [mkBuildState g (Some n) false armed] []).
  rewrite run_single. cbn [run_job call_read]. unfold fulfil_build. cbn [builds lookup list_lookup bs_waiter].
  rewrite armed_fulfilled. unfold post, set_build. cbn [disk jobs builds told app bs_generator bs_callback bs_done].
  rewrite run_single. cbn [run_job]. unfold BuildTask. cbn [builds lookup list_lookup insert list_insert bs_generator].
  destruct (CreateWriter_bytes s true true) as [Hb Hv].
  unfold built_task. cbn [rs_ec rs_writer]. rewrite Hv, Hb. by eexists.
Qed.

Lemma dump_upload {C} `{DiskLaws C} s q m (d : C) :
  q <> [] ->
  run_schedule [0; 0] (AsyncDumpToDisk (CreateProcessor true s true true) q (Some m) (fresh d)).2 =
    mkWorld (write_output q s d).2 [] []
      [ToldDump m (match (write_output q s d).1 with Written => true | _ => false end)].
Proof.
  intros Hq. destruct q as [|c q]; [done|]. destruct (CreateWriter_bytes s true true) as [Hb Hv].
  unfold AsyncDumpToDisk, CreateProcessor, AsyncWriteToDisk. cbn [writer_]. rewrite Hv.
  change (w_work_executor_ (CreateWriter s true true)) with true.
  change (w_callback_executor_ (CreateWriter s true true)) with true. rewrite bool_decide_eq_true_2 by done.
  cbn [negb orb andb snd default]. unfold post. cbn [fresh disk jobs builds told app]. unfold run_schedule.
  cbn [foldl]. rewrite run_single. cbn [run_job disk]. unfold RunWrite. rewrite Hb.
  destruct (write_output (c :: q) s d) as [o d']. by destruct o.
Qed.

(** An upload arrives.  Of a file that is left alone the generator makes a
    PUT task to its endpoint whose body is the file, byte for byte, under the
    content type that was set; and when the processor of a request with that
    body dumps it, the callback hears the truth: told that it worked, the server
    has a file with exactly the bytes of the client's and all its other files
    are as they were, and a reader of the new file loads them again; told that
    it did not, writing failed. *)
Theorem upload_round_trip {C S} `{DiskLaws C} `{DiskLaws S} (dc : C) (ds : S) p s g n q m :
  content dc !! p = Some s -> p <> [] -> q <> [] ->
  create_error_ g = None -> reader_ g = Some (CreateReader p true true) ->
  exists task,
    told (run_schedule [0; 0; 0; 0] (AsyncCreateTask g (Some n) (fresh dc)).2) = [ToldReady n (inr task)] /\
    pt_body task = s /\ pt_https task = use_ssl_ g /\
    pt_host task = host_ g /\ pt_port task = port_ g /\ pt_target task = target_ g /\
    (content_type_ g <> [] -> pt_content_type task = content_type_ g) /\
    let w := run_schedule [0; 0] (AsyncDumpToDisk (CreateProcessor true (pt_body task) true true) q (Some m) (fresh ds)).2 in
    exists ok, told w = [ToldDump m ok] /\
    if ok
    then content (disk w) = <[q := s]> (content ds) /\
      exists st, (RunRead (CreateReader q true true) new_reading (disk w)).1 = st /\
        rs_ec st = None /\ rs_size st = length s /\ from_option bytes [] (rs_writer st) = s
    else (write_output q s ds).1 <> Written.
Proof.
  intros Hs Hp Hq He Hr. destruct (upload_task p s g n dc Hs Hp He Hr) as [bs ->]. eexists. split; [done|].
  cbn [pt_body pt_https pt_host pt_port pt_target pt_content_type]. do 5 (split; [done|]).
  split; [by destruct (content_type_ g)|]. rewrite dump_upload by done. eexists. split; [done|].
  destruct (write_output q s ds) as [o d'] eqn:Hw. cbn [fst snd disk].
  destruct o; [done|done|]. apply write_output_law in Hw. split; [done|]. eexists. split; [done|].
  rewrite (RunRead_quiet q s) by (rewrite Hw; by apply lookup_insert_eq). cbn. by destruct s.
Qed.
End round_trip.

(** ** Samples *)

Module TransferSample.
(** A disk that is left alone. *)
#[local] Instance plain_disk : Disk (gmap str str) := {
  file_size p d := (match d !! p with Some s => inr (length s) | None => inl 2 end, d);
  open_input p d := (d !! p, d);
  read_fails p d := (false, d);
  write_output p s d := (Written, <[p := s]> d);
}.

#[local] Instance plain_disk_laws : DiskLaws (gmap str str).
Proof.
  refine {| content := fun d => d |}.
  - intros p s d Hp. cbn. by rewrite Hp.
  - intros p s d Hp. cbn. by rewrite Hp.
  - done.
  - by intros p s d d' [= <-].
Defined.

Definition note : gmap str str := {[ lit "note.txt" := lit "hello" ]}.
Definition upload : PutGenerator :=
  SetFile (Some (CreateReader (lit "note.txt") true true)) (PutHttp (lit "host") (lit "80") (lit "/up")).

Lemma upload_round_trip_witness :
  exists task,
    told (run_schedule [0; 0; 0; 0] (AsyncCreateTask upload (Some 1) (fresh note)).2) = [ToldReady 1 (inr task)] /\
    pt_body task = lit "hello".
Proof.
  destruct (upload_round_trip note (∅ : gmap str str) (lit "note.txt") (lit "hello") upload 1 (lit "copy.txt") 2)
    as (task & H1 & H2 & _).
  - reflexivity.
  - done.
  - done.
  - reflexivity.
  - reflexivity.
  - by exists task.
Defined.

Definition asked_twice : world (gmap str str) :=
  (run_api (ApiCreate upload (Some 7)) (run_nth 0 (run_api (ApiRead (CreateReader (lit "gone") true true) None (Some 3)) (fresh note)).2)).2.

Lemma transfers_answered_witness :
  exists l, fair l asked_twice /\ told_token <$> told (run_schedule l asked_twice) ≡ₚ [TRead 3; TReady 7].
Proof.
  destruct (transfers_answered [TRead 3; TReady 7] asked_twice) as (_ & H1 & l & H2 & H3).
  - refine (reach_call (ApiCreate upload (Some 7)) [TRead 3] _ true _ _ eq_refl). apply reach_run.
    exact (reach_call (ApiRead (CreateReader (lit "gone") true true) None (Some 3)) [] _ true _ (reach_start note) eq_refl).
  - exists l. split; [exact H2|]. exact (proj2 (H1 l H2) H3).
Defined.

(** A file that is emptied between the question for its size and the reading
    ([true]: it has been emptied). *)
#[local] Instance shrinking_disk : Disk bool := {
  file_size p d := (inr (if d then 0 else 3), true);
  open_input p d := (Some (if d then [] else lit "abc"), d);
  read_fails p d := (false, d);
  write_output p s d := (NotOpened, d);
}.

(** What is read is then three zero bytes, and no error. *)
Lemma shrunk_file_padded :
  (RunRead (CreateReader (lit "f") true true) new_reading false).1 =
    mkReading (lit "f") None 3 (Some (CreateWriter ["000"; "000"; "000"]%char true true)).
Proof. vm_compute. reflexivity. Qed.
End TransferSample.
