(* ===== verification/ServerTask.v ===== *)
(** * The task a handler works with

    [src/src/connection/server/http_server_task_base.cc] with the helpers of
    http_server_task_detail.h, [session/context.cc], and the session and context
    calls of [core/http_server_runtime.cc] and http_server_connection.cc that
    they go through.

    A task is the shared state of [Lifecycle] with what belongs to the request:
    the parsed cookies, the session identifier, the route.  The calls also reach
    the server's session map ([SessionMap]), the attributes of contexts, and
    executors; all of that is a [server_task] and a [server_env].  A context is a
    reference: two calls that return the same one see each other's attributes.
    [GenerateSessionId] is random: its result is an argument.  The order in which
    an [unordered_map] is walked is a parameter.  Boost.JSON is a parameter.

    Together with the client's cookie jar this is how a session lives on from
    one request to the next. *)

From S2P Require Import Prelude Text HttpFields SessionMap RouteLayer RouteTable ServerRuntime ServerCookie ClientCookie CookieExchange Lifecycle.

(** ** Contexts *)

Section context.
Context {A : Type}.

(** A value may be a null pointer. *)
Record Context := mkContext { attribute_map_ : gmap str (option A) }.

Definition new_Context : Context := mkContext ∅.

Definition GetAttribute (key : str) (c : Context) : option A := default None (attribute_map_ c !! key).

Definition SetAttribute (key : str) (val : option A) (c : Context) : Context :=
  mkContext (<[key := val]> (attribute_map_ c)).

Definition HasAttribute (key : str) (c : Context) : bool := bool_decide (is_Some (attribute_map_ c !! key)).
End context.
Arguments Context : clear implicits.

(** ** State *)

Inductive context_ref := ServerContext | SessionContext (n : nat).

#[global] Instance context_ref_eq_dec : EqDecision context_ref.
Proof. solve_decision. Defined.
#[global] Instance context_ref_countable : Countable context_ref.
Proof.
  refine (inj_countable' (fun r => match r with ServerContext => None | SessionContext n => Some n end)
    (fun o => match o with None => ServerContext | Some n => SessionContext n end) _). by intros [].
Defined.

(** A callback handed to an executor: the worker pool, or the connection's. *)
Inductive scheduled := OnWorker (fn : nat) | OnIo (fn : nat) | Timer (timeout : Z) (fn : nat).

Section task.
Context {F : Type} {HF : HttpFields F} {W : Type}.
Context {H A : Type}.
Context {V : Type}.

Record server_task := mkTask {
  life : HttpTaskSharedState (F := F) (W := W);
  req_fields : F;
  req_body : str;
  cookies : gmap str str;
  is_cookie_parsed : bool;
  sessionid : option str;
  route_result : HttpRouteResultInternal H A;
}.

Record server_env := mkEnv {
  sessions_ : SessionMap;
  contexts : gmap context_ref (Context V);
  srv : HttpServer;
  queue : list scheduled;
}.

Definition set_life (l : HttpTaskSharedState) (t : server_task) : server_task :=
  mkTask l (req_fields t) (req_body t) (cookies t) (is_cookie_parsed t) (sessionid t) (route_result t).
Definition set_cookies_parsed (m : gmap str str) (b : bool) (t : server_task) : server_task :=
  mkTask (life t) (req_fields t) (req_body t) m b (sessionid t) (route_result t).
Definition set_sessionid (s : option str) (t : server_task) : server_task :=
  mkTask (life t) (req_fields t) (req_body t) (cookies t) (is_cookie_parsed t) s (route_result t).

(** [CreateTaskState], for a request on a live connection. *)
Definition new_task (fields : F) (body : str) (r : HttpRouteResultInternal H A) (running is_closed : bool) : server_task :=
  mkTask (CreateTaskState running is_closed) fields body ∅ false None r.

Definition set_sessions (m : SessionMap) (e : server_env) : server_env := mkEnv m (contexts e) (srv e) (queue e).
Definition schedule (x : scheduled) (e : server_env) : server_env :=
  mkEnv (sessions_ e) (contexts e) (srv e) (queue e ++ [x]).

(** ** Cookies and the session identifier *)

(** [req[HttpField::cookie]]: the first field of that name, or nothing. *)
Definition cookie_raw (t : server_task) : str := default [] (head (f_values (lit "Cookie") (req_fields t))).

Definition TaskGenerateCookiePairs (t : server_task) : server_task :=
  if is_cookie_parsed t then t
  else set_cookies_parsed (foldl add_cookie (cookies t) (SplitCookieHeaderUsingSplit (cookie_raw t))) true t.

Definition TaskGetCookie (key : str) (t : server_task) : str * server_task :=
  let t := TaskGenerateCookiePairs t in
  let '(v, m) := ServerCookie.GetCookie key (cookies t) in
  (v, set_cookies_parsed m (is_cookie_parsed t) t).

(** The walk of the [unordered_map]. *)
Context (order : gmap str str -> list (str * str)).

Definition is_session_name (k : str) : bool := ToLowerString k =s lit "sessionid".

Definition find_session (m : gmap str str) : option str :=
  snd <$> List.find (fun kv => is_session_name kv.1) (order m).

Definition session_cookie (id : str) : ServerSetCookie :=
  mkSetCookie (Some (lit "sessionId")) (Some id) None None None None None None None.

(** [AddCookie] (memory is unbounded, so it does not fail). *)
Definition TaskAddCookie (c : ServerSetCookie) (t : server_task) : bool * server_task :=
  (true, set_life (set_set_cookies (Lifecycle.set_cookies (life t) ++ [c]) (life t)) t).

(** [fresh]: what [GenerateSessionId] gives if it is called. *)
Definition GetSessionId (fresh : str) (t : server_task) : str * server_task :=
  let t := TaskGenerateCookiePairs t in
  let t := match find_session (cookies t) with Some v => set_sessionid (Some v) t | None => t end in
  match sessionid t with
  | Some v => (v, t)
  | None =>
      let t := set_sessionid (Some fresh) t in
      (fresh, (TaskAddCookie (session_cookie fresh) t).2)
  end.

(** ** Sessions and contexts *)

Definition TaskGetSession (fresh : str) (now now' : Z) (t : server_task) (e : server_env) :
    option context_ref * (server_task * server_env) :=
  if conn (life t) then
    let '(id, t) := GetSessionId fresh t in
    let '(c, m) := GetSession now now' id (sessions_ e) in
    (Some (SessionContext c), (t, set_sessions m e))
  else (None, (t, e)).

Definition GetContext (t : server_task) : option context_ref :=
  if conn (life t) then Some ServerContext else None.

Definition TaskSetSessionTimeout (fresh : str) (timeout now now' : Z) (t : server_task) (e : server_env) :
    bool * (server_task * server_env) :=
  if conn (life t) then
    let '(id, t) := GetSessionId fresh t in
    (true, (t, set_sessions (SetSessionTimeout now now' id timeout (sessions_ e)) e))
  else (false, (t, e)).

(** A context that nobody has written to is empty. *)
Definition the_context (r : context_ref) (e : server_env) : Context V := default new_Context (contexts e !! r).

Definition WriteAttribute (r : context_ref) (key : str) (val : option V) (e : server_env) : server_env :=
  mkEnv (sessions_ e) (<[r := SetAttribute key val (the_context r e)]> (contexts e)) (srv e) (queue e).

Definition ReadAttribute (r : context_ref) (key : str) (e : server_env) : option V := GetAttribute key (the_context r e).

Definition TaskGetServiceProvider (index : nat) (e : server_env) : option nat := GetServiceProvider index (srv e).

(** ** JSON *)

Section json.
Context {J O JE : Type} (json_parse : str -> JE + J) (json_serialize : J -> str) (as_object : J -> option O) (not_object : JE).

(** The error, if any, and what [out] holds then. *)
Definition ParseJsonValue (text : str) (out : J) : option JE * J :=
  match json_parse text with inl e => (Some e, out) | inr v => (None, v) end.

Definition ParseJsonObject (text : str) (out : O) : option JE * O :=
  match json_parse text with
  | inl e => (Some e, out)
  | inr v => match as_object v with Some o => (None, o) | None => (Some not_object, out) end
  end.

Definition ParseRequestJson (out : J) (t : server_task) : option JE * J := ParseJsonValue (req_body t) out.
Definition ParseRequestJsonObject (out : O) (t : server_task) : option JE * O := ParseJsonObject (req_body t) out.
Definition TryParseRequestJson (out : J) (t : server_task) : bool * J :=
  let '(ec, out) := ParseRequestJson out t in (negb (bool_decide (is_Some ec)), out).
Definition TryParseRequestJsonObject (out : O) (t : server_task) : bool * O :=
  let '(ec, out) := ParseRequestJsonObject out t in (negb (bool_decide (is_Some ec)), out).

Definition SetJson (value : J) (t : server_task) : server_task :=
  let r := resp (life t) in
  set_life (set_resp (mkResponse (json_serialize value) (f_set (lit "Content-Type") (lit "application/json") (resp_fields r)))
    (life t)) t.
End json.

(** ** Scheduling *)

Definition IsAvailable (t : server_task) : bool := IsTaskEnvironmentAvailable (life t).

Definition TaskPost (fn : nat) (t : server_task) (e : server_env) : server_env :=
  if IsAvailable t then schedule (OnWorker fn) e else e.
Definition TaskDispatch (fn : nat) (t : server_task) (e : server_env) : server_env :=
  if IsAvailable t then schedule (OnWorker fn) e else e.
Definition TaskPostToIoContext (fn : nat) (t : server_task) (e : server_env) : server_env :=
  if IsAvailable t then (if conn (life t) then schedule (OnIo fn) e else e) else e.
Definition TaskDispatchToIoContext (fn : nat) (t : server_task) (e : server_env) : server_env :=
  if IsAvailable t then (if conn (life t) then schedule (OnIo fn) e else e) else e.
Definition TaskSetTimer (timeout : Z) (fn : nat) (t : server_task) (e : server_env) : server_env :=
  if IsAvailable t then (if conn (life t) then schedule (Timer timeout fn) e else e) else e.

(** The wait of a timer ends, with an error when it was cancelled. *)
Definition OnTaskTimerExpired (ec : bool) (fn : nat) (t : server_task) (e : server_env) : server_env :=
  if ec || negb (IsAvailable t) then e else schedule (OnWorker fn) e.

Definition TaskGetEndpointExecutors (endpoint_index : nat) (t : server_task) (e : server_env) : list IoExecutor :=
  if conn (life t) && is_running_ (srv e) then GetEndpointExecutors endpoint_index (srv e) else [].
Definition TaskGetGlobalExecutors (t : server_task) (e : server_env) : list IoExecutor :=
  if conn (life t) && is_running_ (srv e) then GetGlobalExecutors (srv e) else [].

(** ** The route *)

Definition GetCurrentLocation (t : server_task) : str := current_location (route_result t).
Definition GetRouteTemplate (t : server_task) : str := route_template (route_result t).
Definition GetPathParameters (t : server_task) : gmap str str := parameters (route_result t).
Definition GetPathParameter (key : str) (t : server_task) : option str := parameters (route_result t) !! key.

(** ** Sequences of calls *)

(** What a task's handlers do to the session: the calls of [Lifecycle], those of
    this file that use the session identifier, and other requests' use of the
    session map in between. *)
Inductive task_call :=
  | LifeCall (c : call (F := F))
  | CallGetCookie (key : str)
  | CallGetSessionId (fresh : str)
  | CallGetSession (fresh : str) (now now' : Z)
  | CallSetSessionTimeout (fresh : str) (timeout now now' : Z)
  | OtherRequest (o : SessionMap.op).

(** The identifier the call used, if any, and the state after it. *)
Definition run_task_call (c : task_call) (t : server_task) (e : server_env) :
    option str * (server_task * server_env) :=
  match c with
  | LifeCall c => (None, (set_life (run_call (RouteTable.write_expiry (route_result t)) (life t) c) t, e))
  | CallGetCookie key => (None, ((TaskGetCookie key t).2, e))
  | CallGetSessionId fresh => let '(id, t) := GetSessionId fresh t in (Some id, (t, e))
  | CallGetSession fresh now now' =>
      (if conn (life t) then Some (GetSessionId fresh t).1 else None,
       (TaskGetSession fresh now now' t e).2)
  | CallSetSessionTimeout fresh timeout now now' =>
      (if conn (life t) then Some (GetSessionId fresh t).1 else None,
       (TaskSetSessionTimeout fresh timeout now now' t e).2)
  | OtherRequest o => (None, (t, set_sessions (SessionMap.run_op (sessions_ e) o) e))
  end.

Fixpoint run_task (cs : list task_call) (t : server_task) (e : server_env) :
    list str * (server_task * server_env) :=
  match cs with
  | [] => ([], (t, e))
  | c :: cs =>
      let '(id, (t, e)) := run_task_call c t e in
      let '(ids, te) := run_task cs t e in
      (option_list id ++ ids, te)
  end.

(** ** The identifier of a request *)

(** No call adds a session cookie behind the task's back: [GetCookie] is not
    asked for one, [AddCookie] is not given one. *)
Definition leaves_session (c : task_call) : Prop :=
  match c with
  | CallGetCookie key => is_session_name key = false
  | LifeCall (AddCookie c) => name_ c <> Some (lit "sessionId")
  | _ => True
  end.

Definition session_set_cookies (t : server_task) : list ServerSetCookie :=
  filter (fun c => name_ c = Some (lit "sessionId")) (Lifecycle.set_cookies (life t)).

(** At most one cookie of the request is named as the session's. *)
Definition one_session_cookie (m : gmap str str) : Prop :=
  forall k k', is_Some (m !! k) -> is_Some (m !! k') -> is_session_name k = true -> is_session_name k' = true -> k = k'.

Definition request_cookies (t : server_task) : gmap str str := ServerCookie.GenerateCookiePairs (cookie_raw t).

(** The cookies of [m'] named as the session's are those of [m]. *)
Definition same_session_cookies (m m' : gmap str str) : Prop :=
  forall k, is_session_name k = true -> m' !! k = m !! k.

Section walk.
Context (order_perm : forall m, order m ≡ₚ map_to_list m).

Lemma find_session_some m v :
  find_session m = Some v -> exists k, m !! k = Some v /\ is_session_name k = true.
Proof.
  unfold find_session. intros Hf. apply fmap_Some in Hf as ([k w] & Hf & ->). apply List.find_some in Hf as [Hin Hk].
  exists k. split; [|done]. apply list_elem_of_In in Hin. rewrite order_perm in Hin.
  by apply elem_of_map_to_list in Hin.
Qed.

Lemma find_session_none m k :
  find_session m = None -> is_session_name k = true -> m !! k = None.
Proof.
  unfold find_session. intros Hn Hk. apply fmap_None in Hn. destruct (m !! k) as [v|] eqn:E; [|done].
  apply elem_of_map_to_list in E. rewrite <- order_perm, list_elem_of_In in E.
  by pose proof (List.find_none _ _ Hn _ E) as Hk'; cbn in Hk'; rewrite Hk in Hk'.
Qed.

(** The walk's order does not matter. *)
Lemma find_session_same m m' :
  one_session_cookie m -> same_session_cookies m m' -> find_session m' = find_session m.
Proof.
  intros H1 Hs. destruct (find_session m') as [v'|] eqn:E'.
  - apply find_session_some in E' as (k' & Hk' & Hn'). rewrite Hs in Hk' by done.
    destruct (find_session m) as [v|] eqn:E.
    + apply find_session_some in E as (k & Hk & Hn).
      rewrite (H1 k' k) in Hk' by eauto. congruence.
    + by rewrite (find_session_none m k' E Hn') in Hk'.
  - destruct (find_session m) as [v|] eqn:E; [|done].
    apply find_session_some in E as (k & Hk & Hn). rewrite <- Hs in Hk by done.
    by rewrite (find_session_none m' k E' Hn) in Hk.
Qed.

(** What holds between calls, when the request's session cookie is [s] and the
    identifiers used so far are all [id]. *)
Record task_inv (m : gmap str str) (id : option str) (t : server_task) : Prop := {
  ti_cookies : same_session_cookies m (cookies (TaskGenerateCookiePairs t));
  ti_id : sessionid t = id;
  ti_set : session_set_cookies t =
    match find_session m, id with None, Some v => [session_cookie v] | _, _ => [] end;
  ti_known : forall v, find_session m = Some v -> id = None \/ id = Some v;
}.

Lemma parse_idempotent t : TaskGenerateCookiePairs (TaskGenerateCookiePairs t) = TaskGenerateCookiePairs t.
Proof. unfold TaskGenerateCookiePairs at 2 3. by destruct (is_cookie_parsed t) eqn:E; unfold TaskGenerateCookiePairs; [rewrite E|]. Qed.

Lemma parse_life t : life (TaskGenerateCookiePairs t) = life t.
Proof. unfold TaskGenerateCookiePairs. by destruct (is_cookie_parsed t). Qed.
Lemma parse_sessionid t : sessionid (TaskGenerateCookiePairs t) = sessionid t.
Proof. unfold TaskGenerateCookiePairs. by destruct (is_cookie_parsed t). Qed.
Lemma parse_parsed t : is_cookie_parsed (TaskGenerateCookiePairs t) = true.
Proof. unfold TaskGenerateCookiePairs. by destruct (is_cookie_parsed t) eqn:E. Qed.

(** [GetSessionId] gives the request's cookie, or the identifier already made,
    or a new one. *)
Lemma GetSessionId_inv m id fresh t :
  one_session_cookie m -> task_inv m id t ->
  let id' := default (default fresh id) (find_session m) in
  (GetSessionId fresh t).1 = id' /\ task_inv m (Some id') (GetSessionId fresh t).2 /\
  conn (life (GetSessionId fresh t).2) = conn (life t).
Proof.
  intros H1 [Hc Hid Hs Hk]. cbn zeta. unfold GetSessionId.
  rewrite (find_session_same m _ H1 Hc). unfold session_set_cookies in Hs.
  pose proof (parse_life t) as Hl. pose proof (parse_sessionid t) as Hp. pose proof (parse_parsed t) as Hpp.
  set (t1 := TaskGenerateCookiePairs t) in *.
  assert (forall u, cookies u = cookies t1 -> is_cookie_parsed u = true -> same_session_cookies m (cookies (TaskGenerateCookiePairs u))) as Hu.
  { intros u Eu Pu. unfold TaskGenerateCookiePairs. rewrite Pu. by rewrite Eu. }
  destruct (find_session m) as [v|] eqn:Ef.
  - cbn. rewrite Hl. split_and!; [done| |done]. split; [by apply Hu|done| |].
    + rewrite Ef. unfold session_set_cookies. cbn. by rewrite Hl.
    + rewrite Ef. intros w [= <-]. by right.
  - rewrite Hp, Hid. destruct id as [v|]; cbn.
    + rewrite Hl. split_and!; [done| |done]. split; [by apply Hu|by rewrite Hp, Hid| |by rewrite Ef].
      rewrite Ef. unfold session_set_cookies. by rewrite Hl.
    + rewrite Hl. split_and!; [done| |done]. split; [by apply Hu|done| |by rewrite Ef].
      rewrite Ef. unfold session_set_cookies. cbn [TaskAddCookie snd life set_life set_sessionid Lifecycle.set_cookies set_set_cookies]. rewrite filter_app, Hs. done.
Qed.

(** A call on the response or the connection leaves the session alone. *)
Lemma task_inv_life m id t l :
  filter (fun c => name_ c = Some (lit "sessionId")) (Lifecycle.set_cookies l) = session_set_cookies t ->
  task_inv m id t -> task_inv m id (set_life l t).
Proof.
  intros Hl [Hc Hid Hs Hk]. split; [|done|by rewrite <- Hs|done].
  revert Hc. unfold TaskGenerateCookiePairs. cbn. by destruct (is_cookie_parsed t).
Qed.

Lemma run_call_set_cookies write_expiry c (l : HttpTaskSharedState (F := F) (W := W)) :
  Lifecycle.set_cookies (run_call write_expiry l c) =
    Lifecycle.set_cookies l ++ match c with AddCookie k => [k] | _ => [] end.
Proof. destruct c; cbn; rewrite ?app_nil_r; repeat case_match; done. Qed.

Lemma task_inv_get_cookie m id t key :
  is_session_name key = false -> task_inv m id t -> task_inv m id (TaskGetCookie key t).2.
Proof.
  intros Hkey [Hc Hid Hs Hk]. unfold TaskGetCookie, ServerCookie.GetCookie.
  pose proof (parse_life t) as Hl. pose proof (parse_sessionid t) as Hp. pose proof (parse_parsed t) as Hpp.
  set (t1 := TaskGenerateCookiePairs t) in *. unfold session_set_cookies in *.
  destruct (cookies t1 !! key) as [v|] eqn:E; cbn;
    (split; [|cbn; congruence|unfold session_set_cookies; cbn [life set_cookies_parsed]; by rewrite Hl|done]);
    unfold TaskGenerateCookiePairs; cbn; rewrite Hpp; cbn; [done|].
  intros k Hn. rewrite lookup_insert_ne by congruence. by apply Hc.
Qed.

(** One call keeps the invariant; the identifier it uses is the one that then
    stands. *)
Lemma run_task_call_inv m id c t e :
  one_session_cookie m -> leaves_session c -> task_inv m id t ->
  let '(o, (t', e')) := run_task_call c t e in
  exists id', task_inv m id' t' /\ (id = None \/ id' = id) /\ (o = None /\ id' = id \/ is_Some o /\ id' = o).
Proof.
  intros H1 Hc Hi.
  assert (forall fresh, exists v, (GetSessionId fresh t).1 = v /\ task_inv m (Some v) (GetSessionId fresh t).2 /\
    (id = None \/ id = Some v)) as Hget.
  { intros fresh. destruct (GetSessionId_inv m id fresh t H1 Hi) as (Hv & Hi' & _).
    eexists. split; [exact Hv|]. split; [exact Hi'|]. destruct id as [v|]; [|by left]. right.
    destruct (find_session m) as [w|] eqn:Ef; [|done]. by destruct (ti_known _ _ _ Hi w Ef). }
  destruct c as [c|key|fresh|fresh now now'|fresh timeout now now'|o]; cbn in Hc |- *.
  - exists id. split_and!; [|by right|by left]. apply task_inv_life; [|done].
    rewrite run_call_set_cookies, filter_app. unfold session_set_cookies.
    destruct c; rewrite ?filter_cons_False by done; by rewrite app_nil_r.
  - exists id. split_and!; [|by right|by left]. by apply task_inv_get_cookie.
  - destruct (Hget fresh) as (v & Hv & Hi' & Hid). destruct (GetSessionId fresh t) as [w t']. cbn in *. subst w.
    exists (Some v). split_and!; [done| |right; eauto]. destruct Hid as [-> | ->]; eauto.
  - unfold TaskGetSession. destruct (conn (life t)); [|exists id; split_and!; [done|by right|by left]].
    destruct (Hget fresh) as (v & Hv & Hi' & Hid). destruct (GetSessionId fresh t) as [w t']. cbn in Hv, Hi'. subst w.
    destruct (GetSession now now' v (sessions_ e)) as [ctx sm]. cbn.
    exists (Some v). split_and!; [done| |right; eauto]. destruct Hid as [-> | ->]; eauto.
  - unfold TaskSetSessionTimeout. destruct (conn (life t)); [|exists id; split_and!; [done|by right|by left]].
    destruct (Hget fresh) as (v & Hv & Hi' & Hid). destruct (GetSessionId fresh t) as [w t']. cbn in Hv, Hi'. subst w.
    cbn. exists (Some v). split_and!; [done| |right; eauto]. destruct Hid as [-> | ->]; eauto.
  - exists id. split_and!; [done|by right|by left].
Qed.

Lemma run_task_inv m cs t e id :
  one_session_cookie m -> Forall leaves_session cs -> task_inv m id t ->
  let '(ids, (t', e')) := run_task cs t e in
  exists id', task_inv m id' t' /\ (id = None \/ id' = id) /\
    Forall (fun x => id' = Some x) ids /\ (ids = [] -> id' = id).
Proof.
  intros H1 Hcs. revert t e id. induction Hcs as [|c cs Hc Hcs IH]; intros t e id Hi; cbn [run_task].
  { exists id. split_and!; [done|by right|constructor|done]. }
  pose proof (run_task_call_inv m id c t e H1 Hc Hi) as Hstep.
  destruct (run_task_call c t e) as [o [t1 e1]]. destruct Hstep as (id1 & Hi1 & Hk1 & Ho).
  specialize (IH t1 e1 id1 Hi1). destruct (run_task cs t1 e1) as [ids [t2 e2]].
  destruct IH as (id2 & Hi2 & Hk2 & Hall & Hnil). exists id2. split; [done|].
  destruct Ho as [(-> & ->)|((x & Hx) & ->)]; cbn [option_list app].
  - by split_and!.
  - subst o. cbn. destruct Hk2 as [? | ->]; [done|]. split_and!; [by destruct Hk1; [left|right]|by constructor|done].
Qed.
End walk.

Lemma task_inv_new (order_perm : forall m, order m ≡ₚ map_to_list m) fields body r running is_closed :
  let t := new_task fields body r running is_closed in
  task_inv (request_cookies t) None t.
Proof.
  split; [|done| |by left].
  - intros k _. done.
  - by destruct (find_session _).
Qed.

(** One request, one session.  Whatever the handlers of a request call and
    in whatever order, while other requests use the session map too, every
    call that needs a session identifier uses the same one.  It is the value
    of the session cookie when the request carries one, whatever the case of
    its name and the order in which the map is walked, and then no Set-Cookie is
    added; otherwise it is a new one and exactly one Set-Cookie announces it.
    The request carries at most one such cookie, and the handlers do not read
    or add one themselves. *)
Theorem session_id_consistent (fields : F) body r running is_closed cs e :
  (forall m, order m ≡ₚ map_to_list m) ->
  let t := new_task fields body r running is_closed in
  one_session_cookie (request_cookies t) -> Forall leaves_session cs ->
  let '(ids, (t', _)) := run_task cs t e in
  (forall k v, request_cookies t !! k = Some v -> is_session_name k = true ->
     Forall (fun id => id = v) ids /\ session_set_cookies t' = []) /\
  ((forall k, is_session_name k = true -> request_cookies t !! k = None) ->
     match ids with
     | [] => session_set_cookies t' = []
     | id :: rest => Forall (fun x => x = id) rest /\ session_set_cookies t' = [session_cookie id]
     end).
Proof.
  intros Hp t H1 Hcs. pose proof (task_inv_new Hp fields body r running is_closed) as Hi. cbn zeta in Hi. fold t in Hi.
  pose proof (run_task_inv Hp _ cs t e None H1 Hcs Hi) as Hr.
  destruct (run_task cs t e) as [ids [t' e']]. destruct Hr as (id & [_ _ Hset Hk] & _ & Hall & Hnil).
  split.
  - intros k v Hkv Hn. assert (find_session (request_cookies t) = Some v) as Ef.
    { destruct (find_session (request_cookies t)) as [w|] eqn:Ef.
      - apply (find_session_some Hp) in Ef as (k' & Hk' & Hn'). rewrite (H1 k k') in Hkv by eauto. congruence.
      - by rewrite (find_session_none Hp _ k Ef Hn) in Hkv. }
    rewrite Ef in Hset. split; [|done]. eapply Forall_impl; [exact Hall|]. intros x ->.
    by destruct (Hk v Ef) as [|[=]].
  - intros Hno. assert (find_session (request_cookies t) = None) as Ef.
    { destruct (find_session (request_cookies t)) as [w|] eqn:Ef; [|done].
      apply (find_session_some Hp) in Ef as (k' & Hk' & Hn'). by rewrite Hno in Hk'. }
    rewrite Ef in Hset. destruct ids as [|x ids]; [by rewrite (Hnil eq_refl) in Hset|].
    apply Forall_cons in Hall as [-> Hall]. split; [|done].
    eapply Forall_impl; [exact Hall|]. by intros y [= ->].
Qed.
End task.

(** ** Reading the session cookie by name *)

Section by_name.
Context {F : Type} {HF : HttpFields F} {W H A : Type} (order : gmap str str -> list (str * str)).

(** A handler that looks for the session cookie with [GetCookie] before it uses
    the session makes one: [operator[]] stores an empty value under that name,
    which [GetSessionId] then takes for the client's.  Every such client has the
    empty identifier, so they share one session, and none is sent a cookie. *)
Theorem get_cookie_makes_empty_session (fields : F) body (r : HttpRouteResultInternal H A) running is_closed fresh :
  (forall m, order m ≡ₚ map_to_list m) ->
  let t : server_task (F := F) (W := W) := new_task fields body r running is_closed in
  (forall k, is_session_name k = true -> request_cookies t !! k = None) ->
  let t' := (TaskGetCookie (lit "sessionId") t).2 in
  (GetSessionId order fresh t').1 = [] /\ session_set_cookies (GetSessionId order fresh t').2 = [].
Proof.
  intros Hp t Hno. cbn zeta.
  unfold TaskGetCookie, TaskGenerateCookiePairs. cbn [t new_task is_cookie_parsed cookies cookie_raw req_fields].
  change (foldl add_cookie ∅ _) with (request_cookies t). cbn [cookies set_cookies_parsed is_cookie_parsed].
  unfold ServerCookie.GetCookie. rewrite Hno by done. unfold GetSessionId, TaskGenerateCookiePairs. cbn [is_cookie_parsed set_cookies_parsed snd cookies].
  destruct (find_session order _) as [v|] eqn:Ef; [|by apply (find_session_none order Hp _ (lit "sessionId")) in Ef; [rewrite lookup_insert_eq in Ef|]].
  apply (find_session_some order Hp) in Ef as (k & Hk & Hn).
  destruct (decide (k = lit "sessionId")) as [->|Hne]; [|by rewrite lookup_insert_ne, Hno in Hk].
  rewrite lookup_insert_eq in Hk. injection Hk as <-. done.
Qed.
End by_name.

(** ** After the connection is given up *)

Section released.
Context {F : Type} {HF : HttpFields F} {W H A V : Type} (order : gmap str str -> list (str * str)).

Lemma run_call_released write_expiry (l : HttpTaskSharedState (F := F) (W := W)) c :
  conn l = false -> conn (run_call write_expiry l c) = false.
Proof. destruct c; cbn; intros Hc; rewrite ?Hc; try done. by destruct (_ && _). Qed.

Lemma GetSessionId_life_conn fresh (t : server_task (F := F) (W := W) (H := H) (A := A)) :
  conn (life (GetSessionId order fresh t).2) = conn (life t).
Proof.
  unfold GetSessionId. pose proof (parse_life t) as Hl. set (t1 := TaskGenerateCookiePairs t) in *.
  destruct (find_session order (cookies t1)); cbn; [by rewrite Hl|].
  destruct (sessionid t1); cbn; by rewrite Hl.
Qed.

(** Once a task has given its connection up, whatever it calls later reaches
    neither the session map nor an executor; a timer that runs out then
    calls nobody. *)
Theorem released_task_quiet cs (t : server_task (F := F) (W := W) (H := H) (A := A)) (e : server_env (V := V)) fn timeout ec :
  conn (life t) = false -> Forall (fun c => match c with OtherRequest _ => False | _ => True end) cs ->
  let '(_, (t', e')) := run_task order cs t e in
  e' = e /\ conn (life t') = false /\
  TaskPost fn t' e = e /\ TaskDispatch fn t' e = e /\ TaskPostToIoContext fn t' e = e /\
  TaskDispatchToIoContext fn t' e = e /\ TaskSetTimer timeout fn t' e = e /\ OnTaskTimerExpired ec fn t' e = e.
Proof.
  intros Hc Hcs.
  assert (let '(_, (t', e')) := run_task order cs t e in e' = e /\ conn (life t') = false) as Hrun.
  { revert t e Hc. induction Hcs as [|c cs Hcc _ IH]; intros t e Hc; [done|]. cbn [run_task].
    assert (let '(_, (t1, e1)) := run_task_call order c t e in e1 = e /\ conn (life t1) = false) as Hstep.
    { destruct c; cbn; try done.
      - split; [done|]. by apply run_call_released.
      - split; [done|]. unfold TaskGetCookie. pose proof (parse_life t) as Hl.
        destruct (ServerCookie.GetCookie _ _). cbn. by rewrite Hl.
      - pose proof (GetSessionId_life_conn fresh t) as Hl. destruct (GetSessionId order fresh t). cbn in Hl. split; [done|congruence].
      - unfold TaskGetSession. by rewrite Hc.
      - unfold TaskSetSessionTimeout. by rewrite Hc. }
    destruct (run_task_call order c t e) as [o [t1 e1]]. destruct Hstep as [-> Hc1].
    specialize (IH t1 e Hc1). by destruct (run_task order cs t1 e) as [ids [t2 e2]]. }
  destruct (run_task order cs t e) as [ids [t' e']]. destruct Hrun as [-> Hc']. split; [done|]. split; [done|].
  assert (IsAvailable t' = false) as Ha.
  { unfold IsAvailable, IsTaskEnvironmentAvailable. rewrite Hc'. by destruct (srv_running _). }
  unfold TaskPost, TaskDispatch, TaskPostToIoContext, TaskDispatchToIoContext, TaskSetTimer, OnTaskTimerExpired.
  rewrite Ha. by destruct ec.
Qed.
End released.

(** ** From one request to the next *)

(** The form of a UUID's text. *)
Definition uuid_char (c : ascii) : bool :=
  let n := nat_of_ascii c in ((48 <=? n) && (n <=? 57)) || ((97 <=? n) && (n <=? 102)) || (n =? 45).
Definition is_uuid (s : str) : Prop := length s = 36 /\ Forall (fun c => uuid_char c = true) s.

Lemma uuid_char_plain c :
  uuid_char c = true ->
  is_ws c = false /\ isspace c = false /\ c <> ";"%char /\ c <> "034"%char.
Proof. destruct c as [[] [] [] [] [] [] [] []]; vm_compute; intros; try done; split_and!; done. Qed.

Lemma uuid_ok s : is_uuid s -> token_ok s /\ unquoted s.
Proof.
  intros [Hlen HF]. destruct s as [|a s]; [done|]. set (l := a :: s) in *.
  rewrite Forall_forall in HF. split_and!.
  - apply token_ok_solid; [done|]. apply Forall_forall. intros c Hc.
    destruct (uuid_char_plain c (HF c Hc)) as (? & ? & ? & _). by split_and!.
  - unfold unquoted, strip_quotes, l. destruct (uuid_char_plain a) as (_ & _ & _ & Hq); [apply HF; by left|].
    by rewrite (proj2 (Ascii.eqb_neq _ _) Hq).
Qed.

Lemma session_cookie_ok id : is_uuid id -> set_cookie_ok (session_cookie id) (lit "sessionId") id.
Proof.
  intros [Hid _]%uuid_ok. split; try done.
  split_and!; [done|apply trimmed_all; [done|]| |]; by apply (bool_decide_unpack _).
Qed.

(** What the client makes of the server's session cookie: it is for the host that
    sent it and for the directory of the request, until the jar is cleared. *)
Definition stored_session (host target id : str) : Cookie :=
  mkCookie (lit "sessionId") id (NormalizeHost host) true (DefaultPathFromTarget target) false None.

Lemma session_cookie_stored get_time now host target id :
  is_uuid id ->
  ParseSetCookieValue get_time now host target (ToString (session_cookie id)) =
    Some (stored_session host target id).
Proof. intros Hid. rewrite (set_cookie_parsed get_time now host target (lit "sessionId") id) by first [done|by apply session_cookie_ok]. done. Qed.

Lemma upsert_new c cs : Forall (fun x => same_cookie x c = false) cs -> UpsertCookieLocked c cs = cs ++ [c].
Proof. induction 1 as [|x cs Hx _ IH]; [done|]. cbn. by rewrite Hx, IH. Qed.

Lemma selected_app host target https a b :
  selected host target https (a ++ b) = selected host target https a ++ selected host target https b.
Proof. apply filter_app. Qed.

Lemma selected_cleanup host target https now jar :
  selected host target https (CleanupExpiredLocked now jar) = CleanupExpiredLocked now (selected host target https jar).
Proof. unfold selected, CleanupExpiredLocked. rewrite !list_filter_filter. apply list_filter_iff. intros c. tauto. Qed.

(** The jar after the response, and what goes with the next request. *)
Lemma session_cookie_selected get_time now1 now2 host target1 target2 https id jar :
  is_uuid id ->
  PathMatches (prefix_upto target2 (find_char "?"%char target2)) (DefaultPathFromTarget target1) = true ->
  Forall (fun c => is_session_name (c_name c) = true ->
    eligible (NormalizeHost host) (prefix_upto target2 (find_char "?"%char target2)) true c = false) jar ->
  selected host target2 https
    (CleanupExpiredLocked now2 (SyncSetCookie get_time now1 host target1 (ToString (session_cookie id)) jar)) =
  selected host target2 https (CleanupExpiredLocked now2 (CleanupExpiredLocked now1 jar))
    ++ [stored_session host target1 id].
Proof.
  intros Hid Hpath Hjar. unfold SyncSetCookie, UpsertFromSetCookieLocked.
  rewrite session_cookie_stored by done.
  replace (bool_decide (c_value (stored_session host target1 id) = []) && _) with false
    by (symmetry; apply andb_false_r).
  assert (eligible (NormalizeHost host) (prefix_upto target2 (find_char "?"%char target2)) https
    (stored_session host target1 id) = true) as He.
  { unfold eligible. cbn. by rewrite str_eqb_refl. }
  rewrite upsert_new.
  - unfold CleanupExpiredLocked at 1. rewrite filter_app, selected_app. f_equal.
    unfold selected. rewrite filter_cons_True by done. by rewrite filter_cons_True.
  - unfold CleanupExpiredLocked. apply Forall_forall. intros x [_ Hx]%list_elem_of_filter.
    rewrite Forall_forall in Hjar. specialize (Hjar x Hx).
    destruct (same_cookie x _) eqn:Hs; [|done]. apply same_cookie_spec in Hs.
    unfold identity in Hs. injection Hs as Hn Hd Ho Hp. rewrite Hn in Hjar. specialize (Hjar eq_refl).
    unfold eligible in Hjar. rewrite Ho, Hd, Hp, andb_false_r, str_eqb_refl in Hjar. cbn in Hjar. congruence.
Qed.

Section two_requests.
Context {F : Type} {HF : HttpFields F} {W H A V : Type}.
Context (get_time : str -> option tm) (sort : list (nat * nat) -> list (nat * nat))
        (order : gmap str str -> list (str * str)).
Context (sort_perm : forall l, sort l ≡ₚ l) (order_perm : forall m, order m ≡ₚ map_to_list m).

(** The first request: a new session and one Set-Cookie field. *)
Lemma first_request (t : server_task (F := F) (W := W) (H := H) (A := A)) (e : server_env (V := V)) id now now' :
  conn (life t) = true -> sessionid t = None -> is_cookie_parsed t = false -> cookies t = ∅ ->
  (forall k, is_session_name k = true -> request_cookies t !! k = None) ->
  exists t', GetSessionId order id t = (id, t') /\ life t' = set_set_cookies (Lifecycle.set_cookies (life t) ++ [session_cookie id]) (life t) /\
  TaskGetSession order id now now' t e =
    (Some (SessionContext (GetSession now now' id (sessions_ e)).1),
     (t', set_sessions (GetSession now now' id (sessions_ e)).2 e)).
Proof.
  intros Hc Hs Hp Hck Hno. unfold TaskGetSession. rewrite Hc. unfold GetSessionId, TaskGenerateCookiePairs. rewrite Hp, Hck.
  change (foldl add_cookie ∅ (SplitCookieHeaderUsingSplit (cookie_raw t))) with (request_cookies t). cbn [cookies set_cookies_parsed].
  destruct (find_session order (request_cookies t)) as [v|] eqn:Ef.
  { apply (find_session_some order order_perm) in Ef as (k & Hk & Hn). by rewrite Hno in Hk. }
  cbn. rewrite Hs. eexists. split_and!; [reflexivity|done|].
  by destruct (GetSession now now' id (sessions_ e)).
Qed.

Lemma response_fields id (s : HttpTaskSharedState (F := F) (W := W)) :
  is_uuid id -> Lifecycle.set_cookies s = [session_cookie id] -> f_values (lit "Set-Cookie") (resp_fields (resp s)) = [] ->
  f_values (lit "Set-Cookie") (resp_fields (resp (AppendSetCookies s))) = [ToString (session_cookie id)].
Proof.
  intros Hid Hs Hf. unfold AppendSetCookies. rewrite Hs. cbn [foldl resp set_resp]. unfold append_set_cookie.
  destruct (ToString (session_cookie id)) as [|a x] eqn:E.
  - pose proof (session_cookie_stored get_time 0 [] [] id Hid) as Hp. by rewrite E in Hp.
  - cbn [resp_fields]. by rewrite f_values_insert, Hf.
Qed.

(** The jar's side of the second request. *)
Lemma second_header tc1 tc2 host target1 target2 https id jar :
  is_uuid id ->
  PathMatches (prefix_upto target2 (find_char "?"%char target2)) (DefaultPathFromTarget target1) = true ->
  Forall (fun c => cookie_ok (pair_of c)) (selected host target2 https jar) ->
  NoDup (c_name <$> selected host target2 https jar) ->
  Forall (fun c => is_session_name (c_name c) = true ->
    eligible (NormalizeHost host) (prefix_upto target2 (find_char "?"%char target2)) true c = false) jar ->
  exists h,
    (MaybeInjectCookies sort tc2 false host target2 https
      (OnResponseHeader get_time tc1 host target1 [ToString (session_cookie id)] jar)).1 = Some h /\
    ServerCookie.GenerateCookiePairs h !! lit "sessionId" = Some id /\
    one_session_cookie (ServerCookie.GenerateCookiePairs h).
Proof.
  intros Hid Hpath Hok Hnd Hjar. unfold OnResponseHeader, MaybeInjectCookies. cbn [foldl].
  set (jar2 := CleanupExpiredLocked tc2 _).
  pose proof (session_cookie_selected get_time tc1 tc2 host target1 target2 https id jar Hid Hpath Hjar) as Hsel.
  fold jar2 in Hsel. set (old := selected host target2 https (CleanupExpiredLocked tc2 (CleanupExpiredLocked tc1 jar))) in Hsel.
  assert (sublist old (selected host target2 https jar)) as Hsub.
  { unfold old. rewrite !selected_cleanup. etrans; apply sublist_filter. }
  assert (forall c, c ∈ old -> c ∈ selected host target2 https jar) as Hin.
  { intros c Hc. eapply elem_of_submseteq; [exact Hc|by apply sublist_submseteq]. }
  assert (Forall (fun c => is_session_name (c_name c) = false) old) as Hold.
  { apply Forall_forall. intros c Hc. apply Hin in Hc. apply list_elem_of_filter in Hc as [He Hc].
    destruct (is_session_name (c_name c)) eqn:E; [|done]. rewrite Forall_forall in Hjar.
    specialize (Hjar c Hc E). revert He Hjar. unfold eligible. rewrite andb_false_r.
    destruct (c_secure c && negb https); [done|]. congruence. }
  assert (forall n v, ServerCookie.GenerateCookiePairs (BuildCookieHeaderLocked sort host target2 https jar2) !! n = Some v <->
    exists c, c ∈ old ++ [stored_session host target1 id] /\ c_name c = n /\ c_value c = v) as Hread.
  { intros n v. rewrite <- Hsel. apply cookie_header_read; [done| |]; rewrite Hsel.
    - apply Forall_app. split; [apply Forall_forall; intros c Hc; rewrite Forall_forall in Hok; apply Hok, Hin, Hc|]. constructor; [|constructor].
      destruct (uuid_ok id Hid) as [(Hne & Ht & Hsc & _) Hq].
      destruct (sc_n _ _ _ (session_cookie_ok id Hid)) as (? & ? & ? & ?).
      by unfold cookie_ok, clean.
    - rewrite fmap_app. apply NoDup_app. split_and!; [eapply sublist_NoDup; [exact Hnd|by apply fmap_sublist]| |apply NoDup_singleton].
      intros n' Hn ->%list_elem_of_singleton. apply list_elem_of_fmap in Hn as (c & Hn & Hc).
      rewrite Forall_forall in Hold. specialize (Hold c Hc). by rewrite <- Hn in Hold. }
  assert (forall k, is_Some (ServerCookie.GenerateCookiePairs (BuildCookieHeaderLocked sort host target2 https jar2) !! k) ->
    is_session_name k = true -> k = lit "sessionId") as Honly.
  { intros k [v Hv] Hk. apply Hread in Hv as (c & [Hc|Hc]%elem_of_app & <- & _).
    - rewrite Forall_forall in Hold. by rewrite (Hold c Hc) in Hk.
    - by apply list_elem_of_singleton in Hc as ->. }
  assert (ServerCookie.GenerateCookiePairs (BuildCookieHeaderLocked sort host target2 https jar2) !! lit "sessionId" = Some id) as Hme.
  { apply Hread. exists (stored_session host target1 id). split_and!; [|done|done]. apply elem_of_app. right. by left. }
  destruct (BuildCookieHeaderLocked sort host target2 https jar2) as [|a h]; [done|].
  exists (a :: h). split_and!; [done|done|]. intros k k' Hk Hk' Hn Hn'. rewrite (Honly k), (Honly k'); done.
Qed.

(** The second request: the cookie's session. *)
Lemma second_request (t : server_task (F := F) (W := W) (H := H) (A := A)) (e : server_env (V := V)) id fresh now now' x :
  conn (life t) = true -> is_cookie_parsed t = false -> cookies t = ∅ ->
  request_cookies t !! lit "sessionId" = Some id -> one_session_cookie (request_cookies t) ->
  SessionMap.map_ (sessions_ e) !! id = Some x -> (now < SessionMap.expiry_ x)%Z ->
  exists t', TaskGetSession order fresh now now' t e =
    (Some (SessionContext (ctx_ x)), (t', set_sessions (GetSession now now' id (sessions_ e)).2 e)) /\
  life t' = life t.
Proof.
  intros Hc Hp Hck Hid H1 Hx Hlt. unfold TaskGetSession. rewrite Hc. unfold GetSessionId, TaskGenerateCookiePairs. rewrite Hp, Hck.
  change (foldl add_cookie ∅ (SplitCookieHeaderUsingSplit (cookie_raw t))) with (request_cookies t). cbn [cookies set_cookies_parsed].
  destruct (find_session order (request_cookies t)) as [v|] eqn:Ef.
  - apply (find_session_some order order_perm) in Ef as (k & Hk & Hn).
    rewrite (H1 k (lit "sessionId")) in Hk by eauto. assert (v = id) as -> by congruence.
    cbn. pose proof (GetSession_live now now' id (sessions_ e) x Hx Hlt) as Hl.
    destruct (GetSession now now' id (sessions_ e)) as [c m]. cbn in Hl. subst c.
    eexists. split; reflexivity.
  - pose proof (find_session_none order order_perm _ (lit "sessionId") Ef eq_refl). congruence.
Qed.

(** C4. A session lives on from one request to the next.  A request without a
    session cookie asks for its session; the response that goes out carries the
    new identifier; the client's jar takes it in (from the copy of the header that
    its task makes) and sends it with its next
    request to that host, under the directory of the first; and there the
    server finds the same session, with the attributes written to it, whatever
    other requests did to the session map meanwhile short of removing that
    session, as long as the lease that the first request was given has not
    ended.  No further Set-Cookie is sent. *)
Theorem session_continuity (fields1 fields2 : F) body1 body2 (r1 r2 : HttpRouteResultInternal H A)
    id fresh (e : server_env (V := V)) now1 now1' now2 now2' tc1 tc2 others jar host target1 target2 https key val :
  let t1 : server_task (F := F) (W := W) := new_task fields1 body1 r1 true false in
  let t2 : server_task (F := F) (W := W) := new_task fields2 body2 r2 true false in
  let path2 := prefix_upto target2 (find_char "?"%char target2) in
  let lease := Z.max kMinSessionTimeout (default_timeout_ (sessions_ e)) in
  (* the first request, and the server at that time *)
  is_uuid id -> (forall k, is_session_name k = true -> request_cookies t1 !! k = None) ->
  session_inv (sessions_ e) -> is_size_t (default_timeout_ (sessions_ e)) -> SessionMap.map_ (sessions_ e) !! id = None ->
  (* time passes, others are served *)
  (0 <= now1 <= now1')%Z -> (now1' <= now2)%Z -> (now1 + lease * 1000000 <= int64_max)%Z ->
  (now2 < now1 + lease * 1000000)%Z ->
  Forall (fun o => ~ removes o id /\ (op_time o now2 <= now2)%Z) others ->
  (* the client's jar had no session for this place; its other cookies are well formed *)
  PathMatches path2 (DefaultPathFromTarget target1) = true ->
  Forall (fun c => cookie_ok (pair_of c)) (selected host target2 https jar) ->
  NoDup (c_name <$> selected host target2 https jar) ->
  Forall (fun c => is_session_name (c_name c) = true -> eligible (NormalizeHost host) path2 true c = false) jar ->
  let '(c1, (t1', e1)) := TaskGetSession order id now1 now1' t1 e in
  let resp1 := resp (AppendSetCookies (life t1')) in
  let jar1 := OnResponseHeader get_time tc1 host target1 (f_values (lit "Set-Cookie") (copy_by_set (resp_fields resp1))) jar in
  exists c h, c1 = Some c /\ (MaybeInjectCookies sort tc2 false host target2 https jar1).1 = Some h /\
    (head (f_values (lit "Cookie") fields2) = Some h ->
     let e2 := WriteAttribute c key val (set_sessions (foldl SessionMap.run_op (sessions_ e1) others) e1) in
     let '(c2, (t2', e3)) := TaskGetSession order fresh now2 now2' t2 e2 in
     c2 = Some c /\ ReadAttribute c key e3 = val /\ session_set_cookies t2' = []).
Proof.
  intros t1 t2 path2 lease Hid Hno Hinv Hd Hnew H01 H12 Hmax Hlt Hothers Hpath Hok Hnd Hjar.
  destruct (first_request t1 e id now1 now1') as (t1' & _ & Hl1 & ->); [done..|]. cbv beta iota zeta.
  rewrite f_values_copy_by_set, (response_fields id) by (done || (rewrite Hl1; first [done|apply f_values_empty])).
  destruct (second_header tc1 tc2 host target1 target2 https id jar) as (h & Hh & Hsid & H1); [done..|].
  eexists _, h. split; [done|]. split; [exact Hh|]. intros Hf2. cbn zeta.
  assert (request_cookies t2 = ServerCookie.GenerateCookiePairs h) as Hr2.
  { unfold request_cookies, cookie_raw. cbn [req_fields t2 new_task]. by rewrite Hf2. }
  assert (add_ms now1 lease = (now1 + lease * 1000000)%Z) as Hadd.
  { unfold is_size_t in Hd. apply add_ms_small; unfold is_int64, int64_min, int64_max in *;
      unfold lease, kMinSessionTimeout in *; lia. }
  pose proof (GetSession_fresh now1 now1' id (sessions_ e) Hinv Hnew) as Hfresh. fold lease in Hfresh.
  pose proof (GetSession_inv now1 now1' id (sessions_ e) Hinv) as Hinv1.
  destruct (GetSession now1 now1' id (sessions_ e)) as [c m1]. cbn [fst snd] in *. rewrite Hadd in Hfresh.
  specialize (Hfresh ltac:(lia)).
  destruct (run_ops_lease others id now2 m1 Hinv1 Hothers _ Hfresh ltac:(cbn; lia)) as (x & Hx & Hcx & Hex). cbn in Hcx, Hex.
  match goal with |- context [TaskGetSession order fresh now2 now2' t2 ?e2] =>
    destruct (second_request t2 e2 id fresh now2 now2' x) as (t2' & -> & Hl2) end; try done.
  { by rewrite Hr2. } { by rewrite Hr2. } { lia. }
  rewrite Hcx. split; [done|]. split.
  - unfold ReadAttribute, the_context. cbn. rewrite lookup_insert_eq. cbn. unfold GetAttribute, SetAttribute. cbn.
    by rewrite lookup_insert_eq.
  - unfold session_set_cookies. by rewrite Hl2.
Qed.

(** The client's task copies a response's fields one by one with [set] before the
    jar sees them, so of several Set-Cookie fields only the last arrives: a handler
    that adds a cookie of its own after the session's hides the session. *)
Theorem later_cookie_hides_session id c (s : HttpTaskSharedState (F := F) (W := W)) :
  Lifecycle.set_cookies s = [session_cookie id; c] -> ToString c <> [] ->
  f_values (lit "Set-Cookie") (copy_by_set (resp_fields (resp (AppendSetCookies s)))) = [ToString c].
Proof.
  intros Hs Hc. rewrite f_values_copy_by_set. unfold AppendSetCookies. rewrite Hs. cbn [foldl resp set_resp].
  unfold append_set_cookie at 1. destruct (ToString c) as [|a x]; [done|]. cbn [resp_fields].
  rewrite f_values_insert. change (IEquals (lit "Set-Cookie") (lit "Set-Cookie")) with true. cbn iota. by rewrite last_snoc.
Qed.
End two_requests.

(** ** The properties at concrete inputs *)

Module TaskSample.
Definition route : HttpRouteResultInternal unit unit := mkResult (lit "/shop/cart") (lit "/shop/cart") ∅ [] None 0 0 0.
Definition server : server_env (V := str) :=
  mkEnv SessionMap_init ∅ (new_HttpServer (default_runtime_options 4)) [].
Definition id : str := lit "0123abcd-0123-4abc-8abc-0123456789ab".
Definition request (fields : list (str * str)) : server_task (W := unit) := new_task fields [] route true false.

Definition with_cookie : list (str * str) := [(lit "Cookie", lit "lang=en; SessionID=s7")].
Definition calls : list (task_call (F := list (str * str))) :=
  [CallGetCookie (lit "lang"); CallGetSessionId (lit "x"); LifeCall (SetBody (lit "hi"));
   OtherRequest (OpGetSession 1 2 (lit "other")); CallGetSession (lit "y") 5 6; CallSetSessionTimeout (lit "z") 2000 7 8].
Definition jar : list Cookie := [mkCookie (lit "lang") (lit "en") (lit "a.org") true (lit "/") false None].
Definition sent_both : str := lit "sessionId=0123abcd-0123-4abc-8abc-0123456789ab; lang=en".
End TaskSample.

Lemma map_list_perm (m : gmap str str) : map_to_list m ≡ₚ map_to_list m.
Proof. done. Qed.

Lemma session_id_consistent_witness :
  let t := TaskSample.request TaskSample.with_cookie in
  (run_task map_to_list TaskSample.calls t TaskSample.server).1 = [lit "s7"; lit "s7"; lit "s7"] /\
  let '(ids, (t', _)) := run_task map_to_list TaskSample.calls t TaskSample.server in
  Forall (fun id => id = lit "s7") ids /\ session_set_cookies t' = [].
Proof.
  cbn zeta. split; [vm_compute; reflexivity|].
  assert (request_cookies (TaskSample.request TaskSample.with_cookie) =
    {[lit "lang" := lit "en"; lit "SessionID" := lit "s7"]}) as Hr by (vm_compute; reflexivity).
  assert (one_session_cookie (request_cookies (TaskSample.request TaskSample.with_cookie))) as H1.
  { rewrite Hr. intros k k' [v Hk] [v' Hk'] Hn Hn'.
    apply lookup_insert_Some in Hk as [[<- _]|[_ [<- _]%lookup_singleton_Some]]; [done|].
    by apply lookup_insert_Some in Hk' as [[<- _]|[_ [<- _]%lookup_singleton_Some]]. }
  pose proof (session_id_consistent map_to_list (W := unit) TaskSample.with_cookie [] TaskSample.route true false TaskSample.calls
    TaskSample.server map_list_perm H1) as Hc.
  specialize (Hc ltac:(repeat constructor)). unfold TaskSample.request in *.
  destruct (run_task map_to_list TaskSample.calls _ TaskSample.server) as [ids [t' e']].
  destruct Hc as [Hc _]. apply (Hc (lit "SessionID") (lit "s7")); [by rewrite Hr|done].
Defined.

Lemma session_continuity_witness :
  let t1 := TaskSample.request [] in
  let '(c1, (t1', e1)) := TaskGetSession map_to_list TaskSample.id 10 20 t1 TaskSample.server in
  exists c, c1 = Some c /\
    let e2 := WriteAttribute c (lit "cart") (Some (lit "3 items")) (set_sessions (foldl SessionMap.run_op (sessions_ e1)
      [OpGetSession 100 101 (lit "other"); OpCleanerTask 200 true]) e1) in
    let '(c2, (t2', e3)) := TaskGetSession map_to_list (lit "unused") 500000000 500000001
      (TaskSample.request [(lit "Cookie", TaskSample.sent_both)]) e2 in
    c2 = Some c /\ ReadAttribute c (lit "cart") e3 = Some (lit "3 items") /\ session_set_cookies t2' = [].
Proof.
  cbn zeta. unfold TaskSample.request.
  pose proof (session_continuity (W := unit) no_dates stable_sort map_to_list stable_sort_perm map_list_perm
    [] [(lit "Cookie", TaskSample.sent_both)] [] [] TaskSample.route TaskSample.route TaskSample.id (lit "unused")
    TaskSample.server 10 20 500000000 500000001 0 5 [OpGetSession 100 101 (lit "other"); OpCleanerTask 200 true]
    TaskSample.jar (lit "A.org") (lit "/shop/cart?x=1") (lit "/shop/pay") false (lit "cart") (Some (lit "3 items"))) as Hc.
  cbn zeta in Hc. repeat match type of Hc with ?P -> _ =>
    let HP := fresh in assert P as HP; [clear Hc|specialize (Hc HP); clear HP] end; cycle -1.
  - destruct (TaskGetSession map_to_list TaskSample.id 10 20 _ TaskSample.server) as [c1 [t1' e1]] eqn:E1.
    destruct Hc as (c & h & Hc & Hh & Hgo). exists c. split; [exact Hc|]. apply Hgo. rewrite <- Hh.
    injection E1 as <- <- <-. vm_compute. reflexivity.
  - split; [done|]. by repeat constructor.
  - intros k _. apply lookup_empty.
  - apply session_inv_init.
  - vm_decide.
  - done.
  - lia.
  - lia.
  - vm_decide.
  - vm_decide.
  - apply Forall_cons_2; [by split; [intros []|]|]. apply Forall_cons_2; [by split; [intros []|]|]. apply Forall_nil_2.
  - vm_decide.
  - replace (selected _ _ _ _) with TaskSample.jar by (vm_compute; reflexivity).
    apply Forall_cons_2; [|apply Forall_nil_2]. apply cookie_ok_solid; try discriminate; try reflexivity; by apply (bool_decide_unpack _).
  - by apply (bool_decide_unpack _).
  - apply Forall_cons_2; [done|apply Forall_nil_2].
Defined.
