(* ===== verification/JsonExchange.v ===== *)
(** * JSON calls, from a client to a handler and back

    The JSON calls of the client (http_client_task.cc: [ParseJsonText],
    [SetJsonBody], [HttpClientResult::ParseJsonBody] and [TryParseJsonBody],
    [HttpClientTask::SetJson]) and, with those of the server's task ([ServerTask])
    and the lifecycle of a request ([Lifecycle]), what a call with JSON in both
    directions comes to.  Boost.JSON is a parameter, as in [ServerTask]. *)

From S2P Require Import Prelude Text HttpFields RouteTable ServerCookie Lifecycle ServerTask.

(** A request as the client prepares it; its line does not matter here. *)
Record json_request (F : Type) := mkJsonRequest { request_body : str; request_fields : F }.
Arguments mkJsonRequest {_} _ _.
Arguments request_body {_} _.
Arguments request_fields {_} _.

Section json.
Context {F : Type} {HF : HttpFields F} {W H A : Type}.
Context {J O JE : Type} (json_parse : str -> JE + J) (json_serialize : J -> str) (as_object : J -> option O) (not_object : JE).

(** ** The client *)

Definition ParseJsonText (text : str) (out : J) : option JE * J :=
  match json_parse text with inl ec => (Some ec, out) | inr parsed => (None, parsed) end.

Definition ParseJsonTextObject (text : str) (out : O) : option JE * O :=
  match json_parse text with
  | inl ec => (Some ec, out)
  | inr parsed => match as_object parsed with None => (Some not_object, out) | Some o => (None, o) end
  end.

Definition SetJsonBody (value : J) (request : json_request F) : json_request F :=
  mkJsonRequest (json_serialize value) (f_set (lit "Content-Type") (lit "application/json") (request_fields request)).

(** [response] is the body of the response of a result. *)
Definition ParseJsonBody (response : str) (out : J) : option JE * J := ParseJsonText response out.
Definition ParseJsonBodyObject (response : str) (out : O) : option JE * O := ParseJsonTextObject response out.
Definition TryParseJsonBody (response : str) (out : J) : bool * J :=
  let '(parse_ec, out) := ParseJsonBody response out in (negb (bool_decide (is_Some parse_ec)), out).
Definition TryParseJsonBodyObject (response : str) (out : O) : bool * O :=
  let '(parse_ec, out) := ParseJsonBodyObject response out in (negb (bool_decide (is_Some parse_ec)), out).

(** ** The two sides agree *)

Lemma sides_agree (t : server_task (F := F) (W := W) (H := H) (A := A)) out outo :
  ParseRequestJson json_parse out t = ParseJsonBody (req_body t) out /\
  ParseRequestJsonObject json_parse as_object not_object outo t = ParseJsonBodyObject (req_body t) outo.
Proof. done. Qed.

(** What does not parse, or is not an object where one is asked for, leaves the
    caller's value alone and is reported. *)
Lemma bad_json_reported text out outo :
  (forall ec, json_parse text = inl ec -> ParseJsonBody text out = (Some ec, out) /\ TryParseJsonBody text out = (false, out)) /\
  (forall v, json_parse text = inr v -> as_object v = None ->
     ParseJsonBodyObject text outo = (Some not_object, outo) /\ TryParseJsonBodyObject text outo = (false, outo)).
Proof.
  unfold TryParseJsonBody, TryParseJsonBodyObject, ParseJsonBodyObject, ParseJsonTextObject, ParseJsonBody, ParseJsonText.
  split; [by intros ec ->|by intros v -> ->].
Qed.

(** ** A call *)

Context (n_aspects : nat) (write_expiry : Z).
Context (pre_hook : nat -> HttpTaskSharedState (F := F) (W := W) -> list (pre_call (F := F)))
        (pre_tail : HttpTaskSharedState (F := F) (W := W) -> list (pre_call (F := F)))
        (post_hook : nat -> HttpTaskSharedState (F := F) (W := W) -> list (call (F := F)))
        (post_tail : HttpTaskSharedState (F := F) (W := W) -> list (call (F := F))).

(** [SetJson] of a task, as calls. *)
Definition set_json_calls (value : J) : list (service_call (F := F) (W := W)) :=
  [ServiceCall (SetBody (json_serialize value));
   ServiceCall (SetField (lit "Content-Type") (lit "application/json"))].

Lemma set_json_calls_ok value (t : server_task (F := F) (W := W) (H := H) (A := A)) is_upgrade :
  life (SetJson json_serialize value t) =
    foldl (run_service_call write_expiry is_upgrade) (life t) (set_json_calls value).
Proof. done. Qed.

(** A handler that answers a JSON request with [f] of it, and says why not when the
    body does not parse. *)
Definition json_service (f : J -> J) (reason : JE -> str) (body : str) (_ : HttpTaskSharedState (F := F) (W := W)) :
    list (service_call (F := F) (W := W)) :=
  match json_parse body with
  | inr v => set_json_calls (f v)
  | inl ec => [ServiceCall (SetBody (reason ec))]
  end.

Definition json_call (f : J -> J) (reason : JE -> str) (request : json_request F) : HttpTaskSharedState (F := F) (W := W) :=
  run_request n_aspects true write_expiry false pre_hook pre_tail (json_service f reason (request_body request))
    post_hook post_tail (CreateTaskState true false).

Hypothesis Hpre : forall i s, Forall plain_pre (pre_hook i s).
Hypothesis Hpre_tail : forall s, Forall plain_pre (pre_tail s).
Hypothesis Hmarks : forall i s, MarkAspectFailure ∉ pre_hook i s.
Hypothesis Hmarks_tail : forall s, MarkAspectFailure ∉ pre_tail s.
Hypothesis Hpost : forall i s, Forall bodiless (post_hook i s).
Hypothesis Hpost_tail : forall s, Forall bodiless (post_tail s).

Lemma bodiless_plain (c : call (F := F)) : bodiless c -> plain c.
Proof. by destruct c. Qed.

(** A JSON value that the client sends arrives at the handler, and what the handler
    answers arrives at the client: for any aspects that let the request pass and
    leave the body alone, the response that is written parses as [f] of the value
    that was sent; a body that is not JSON is answered with the reason. *)
Theorem json_call_returns (f : J -> J) (reason : JE -> str) (v : J) (q : json_request F) (out : J) :
  json_parse (json_serialize v) = inr v -> json_parse (json_serialize (f v)) = inr (f v) ->
  exists r, actions (json_call f reason (SetJsonBody v q)) = [Lifecycle.DoWriteResponse r true write_expiry] /\
    ParseJsonBody (resp_body r) out = (None, f v) /\ TryParseJsonBody (resp_body r) out = (true, f v).
Proof.
  intros Hv Hfv.
  destruct (service_body_answered n_aspects true write_expiry false pre_hook pre_tail
    (json_service f reason (json_serialize v)) post_hook post_tail (json_serialize (f v)) (CreateTaskState true false))
    as (r & Ha & Hr); try done.
  - split; [done|done| | |]; cbn [may_pre may_service may_post].
    + intros s. unfold json_service. rewrite Hv. by repeat constructor.
    + intros i s. eapply Forall_impl; [apply Hpost|apply bodiless_plain].
    + intros s. eapply Forall_impl; [apply Hpost_tail|apply bodiless_plain].
  - split; [|done]. split; [done|]. unfold conn_inv, terminals. cbn. lia.
  - intros s _. unfold run_service, json_service. by rewrite Hv.
  - exists r. split; [exact Ha|]. unfold TryParseJsonBody, ParseJsonBody, ParseJsonText. by rewrite Hr, Hfv.
Qed.
End json.
