(* ===== verification/Allocator.v ===== *)
(** * Memory

    [src/src/allocator/allocator.cc] and the owning helpers of
    [include/bsrvcore/allocator/allocator.h].

    [Allocate] and [Deallocate] sit on top of mimalloc, or on Windows on the
    process heap, where alignments beyond the heap's own are made by hand: a
    larger block, an address rounded up inside it, and the block's base kept in
    the eight bytes before that address.  The system allocator is a parameter:
    where it would put a block, given the blocks that are live; what it promises
    are the laws of [system_laws].  Memory is a map from addresses to bytes.
    Addresses and sizes are 64-bit numbers.

    The theorem is about any client that writes only to memory it was given and
    asks for sizes that are a multiple of the alignment, as those of objects and
    arrays are ([op_wf]): the helpers of the header ask for no others, while a
    direct call of [Allocate] with its default alignment of 16 could. *)

From S2P Require Import Prelude.
Local Open Scope Z_scope.

(** ** The system's memory *)

Record memory := mkMemory {
  blocks : gmap Z Z;      (** live blocks: base and length *)
  bytes : gmap Z Z;
}.

Definition store8 (a v : Z) (m : memory) : memory := mkMemory (blocks m) (<[a := v]> (bytes m)).
Definition load8 (a : Z) (m : memory) : Z := default 0 (bytes m !! a).

(** A pointer in memory, lowest byte first. *)
Fixpoint store_bytes (n : nat) (a v : Z) (m : memory) : memory :=
  match n with
  | O => m
  | S n => store_bytes n (a + 1) (v / 256) (store8 a (v mod 256) m)
  end.
Fixpoint load_bytes (n : nat) (a : Z) (m : memory) : Z :=
  match n with
  | O => 0
  | S n => load8 a m + 256 * load_bytes n (a + 1) m
  end.
Definition store_ptr : Z -> Z -> memory -> memory := store_bytes 8.
Definition load_ptr : Z -> memory -> Z := load_bytes 8.

(** [sizeof(void* )], [alignof(std::max_align_t)] and
    [MEMORY_ALLOCATION_ALIGNMENT] on 64-bit systems. *)
Definition ptr_size : Z := 8.
Definition max_align : Z := 16.
Definition MEMORY_ALLOCATION_ALIGNMENT : Z := 16.

Section allocator.
(** Where the system puts a block of a size and an alignment; [None] is the null
    pointer.  On which platform.  Whether there is a process heap. *)
Context (place : gmap Z Z -> Z -> Z -> option Z) (windows : bool) (process_heap : bool).

Definition sys_alloc (size alignment : Z) (m : memory) : option (Z * memory) :=
  p ← place (blocks m) size alignment; Some (p, mkMemory (<[p := size]> (blocks m)) (bytes m)).

(** Freeing anything but the base of a live block is undefined. *)
Definition sys_free (base : Z) (m : memory) : option memory :=
  match blocks m !! base with
  | Some _ => Some (mkMemory (delete base (blocks m)) (bytes m))
  | None => None
  end.

(** Blocks of [malloc] are aligned for every type that fits. *)
Definition malloc_align (size : Z) : Z := if 16 <=? size then 16 else 8.

(** ** Allocate and Deallocate *)

Definition IsPowerOfTwo (value : Z) : bool :=
  negb (value =? 0) && (Z.land value (value - 1) =? 0).

(** [~x] on 64 bits. *)
Definition bnot (x : Z) : Z := Z.land (Z.lnot x) (Z.ones 64).

Definition sizeof_header : Z := ptr_size.

(** [None] is [std::bad_alloc]. *)
Definition AllocateFromProcessHeap (size alignment : Z) (m : memory) : option (Z * memory) :=
  if negb process_heap then None
  else if alignment <=? MEMORY_ALLOCATION_ALIGNMENT then sys_alloc size MEMORY_ALLOCATION_ALIGNMENT m
  else
    let extra := to_size_t (sizeof_header + alignment - 1) in
    if (size_t_mod - 1) - extra <? size then None
    else
      '(base, m) ← sys_alloc (to_size_t (size + extra)) MEMORY_ALLOCATION_ALIGNMENT m;
      let raw := to_size_t (base + sizeof_header) in
      let aligned := Z.land (to_size_t (raw + alignment - 1)) (bnot (alignment - 1)) in
      Some (aligned, store_ptr (to_size_t (aligned - sizeof_header)) base m).

(** [None] is undefined behaviour. *)
Definition DeallocateToProcessHeap (ptr alignment : Z) (m : memory) : option memory :=
  if negb process_heap then Some m
  else if alignment <=? MEMORY_ALLOCATION_ALIGNMENT then sys_free ptr m
  else sys_free (load_ptr (to_size_t (ptr - sizeof_header)) m) m.

Definition Allocate (size alignment : Z) (m : memory) : option (Z * memory) :=
  if size =? 0 then Some (0, m)
  else
    let alignment := Z.max alignment ptr_size in
    if negb (IsPowerOfTwo alignment) then None
    else if windows then AllocateFromProcessHeap size alignment m
    else if alignment <=? max_align then sys_alloc size (malloc_align size) m
    else sys_alloc size alignment m.

(** [mi_free_aligned] frees what [mi_free] frees. *)
Definition Deallocate (ptr alignment : Z) (m : memory) : option memory :=
  if ptr =? 0 then Some m
  else
    let alignment := Z.max alignment ptr_size in
    if negb (IsPowerOfTwo alignment) then (if windows then Some m else sys_free ptr m)
    else if windows then DeallocateToProcessHeap ptr alignment m
    else if alignment <=? max_align then sys_free ptr m
    else sys_free ptr m.
End allocator.

(** ** Owning helpers *)

Section helpers.
Context (place : gmap Z Z -> Z -> Z -> option Z) (windows process_heap : bool).

(** What a call ends with: a value, or an exception. *)
Inductive outcome (A : Type) := Returned (a : A) | BadAlloc | BadArrayNewLength | Rethrown.
Arguments Returned {_} _.
Arguments BadAlloc {_}.
Arguments BadArrayNewLength {_}.
Arguments Rethrown {_}.

(** [Allocator<T>::allocate] for a type of size [sizeof_T]. *)
Definition allocator_allocate (sizeof_T alignof_T n : Z) (m : memory) : outcome (Z * memory) :=
  if n =? 0 then Returned (0, m)
  else if (size_t_mod - 1) / sizeof_T <? n then BadArrayNewLength
  else
    match Allocate place windows process_heap (to_size_t (sizeof_T * n)) alignof_T m with
    | Some r => Returned r
    | None => BadAlloc
    end.

Definition allocator_deallocate (alignof_T ptr : Z) (m : memory) : option memory :=
  if ptr =? 0 then Some m else Deallocate windows process_heap ptr alignof_T m.

(** [AllocateConstruct]; [construct]: whether the constructor returns.  [None] is
    undefined behaviour. *)
Definition AllocateConstruct (sizeof_T alignof_T : Z) (construct : bool) (m : memory) : option (outcome Z * memory) :=
  match Allocate place windows process_heap sizeof_T alignof_T m with
  | None => Some (BadAlloc, m)
  | Some (raw, m) =>
      if construct then Some (Returned raw, m)
      else m ← Deallocate windows process_heap raw alignof_T m; Some (Rethrown, m)
  end.

(** [DestroyDeallocate], and [OwnedDeleter::DestroyImpl]. *)
Definition DestroyDeallocate (alignof_T ptr : Z) (m : memory) : option memory :=
  if ptr =? 0 then Some m else Deallocate windows process_heap ptr alignof_T m.

(** [AllocateUnique]: the pointer with the type its deleter is for. *)
Record OwnedPtr := mkOwned { owned_ptr : Z; deleter_align : Z }.

Definition AllocateUnique (sizeof_T alignof_T : Z) (construct : bool) (m : memory) : option (outcome OwnedPtr * memory) :=
  '(r, m) ← AllocateConstruct sizeof_T alignof_T construct m;
  Some (match r with
        | Returned p => Returned (mkOwned p alignof_T)
        | BadAlloc => BadAlloc | BadArrayNewLength => BadArrayNewLength | Rethrown => Rethrown
        end, m).

(** [AllocateUniqueAs]: the pointer is converted to the base class, which lies
    [offset] bytes into the object; the deleter stays the one of the derived
    class. *)
Definition AllocateUniqueAs (offset sizeof_D alignof_D : Z) (construct : bool) (m : memory) :
    option (outcome OwnedPtr * memory) :=
  '(r, m) ← AllocateUnique sizeof_D alignof_D construct m;
  Some (match r with
        | Returned o => Returned (mkOwned (owned_ptr o + offset) (deleter_align o))
        | r => r
        end, m).

(** [OwnedDeleter::operator()] *)
Definition delete_owned (o : OwnedPtr) (m : memory) : option memory :=
  DestroyDeallocate (deleter_align o) (owned_ptr o) m.
End helpers.

(** ** Arithmetic *)

Lemma store_bytes_blocks n a v m : blocks (store_bytes n a v m) = blocks m.
Proof. revert a v m. induction n as [|n IH]; intros a v m; [done|]. simpl. by rewrite IH. Qed.

Lemma load8_store_bytes n a v m b :
  (b < a \/ a + Z.of_nat n <= b) -> load8 b (store_bytes n a v m) = load8 b m.
Proof.
  revert a v m. induction n as [|n IH]; intros a v m Hb; [done|]. simpl. rewrite IH by lia.
  unfold load8, store8. cbn. rewrite lookup_insert_ne by lia. done.
Qed.

Lemma load_bytes_ext n a m m' :
  (forall b, a <= b < a + Z.of_nat n -> load8 b m = load8 b m') -> load_bytes n a m = load_bytes n a m'.
Proof.
  revert a. induction n as [|n IH]; intros a Hb; [done|]. simpl. rewrite (Hb a) by lia.
  rewrite (IH (a + 1)); [done|]. intros b Hab. apply Hb. lia.
Qed.

Lemma load_store_bytes n a v m : 0 <= v < 256 ^ Z.of_nat n -> load_bytes n a (store_bytes n a v m) = v.
Proof.
  revert a v m. induction n as [|n IH]; intros a v m Hv.
  { simpl in *. lia. }
  cbn [load_bytes store_bytes]. rewrite load8_store_bytes by lia.
  replace (256 ^ Z.of_nat (S n)) with (256 * 256 ^ Z.of_nat n) in Hv by (rewrite Nat2Z.inj_succ, Z.pow_succ_r by lia; lia).
  rewrite IH by (split; [apply Z.div_pos; lia|apply Z.div_lt_upper_bound; lia]).
  unfold load8, store8. cbn. rewrite lookup_insert_eq. cbn. pose proof (Z.div_mod v 256). lia.
Qed.

Lemma load_store_ptr a v m : is_size_t v -> load_ptr a (store_ptr a v m) = v.
Proof. intros Hv. apply load_store_bytes. exact Hv. Qed.

Lemma IsPowerOfTwo_spec v : 0 < v -> IsPowerOfTwo v = true -> exists k, 0 <= k /\ v = 2 ^ k.
Proof.
  intros Hv. unfold IsPowerOfTwo. intros [_ H0%Z.eqb_eq]%andb_prop.
  exists (Z.log2 v). split; [apply Z.log2_nonneg|].
  pose proof (Z.log2_spec v Hv) as [Hlo Hhi]. destruct (Z.eq_dec v (2 ^ Z.log2 v)) as [|Hne]; [done|exfalso].
  assert (Z.log2 (v - 1) = Z.log2 v) as Hl by (apply Z.log2_unique; [apply Z.log2_nonneg|lia]).
  assert (Z.testbit (Z.land v (v - 1)) (Z.log2 v) = true) as Hb.
  { rewrite Z.land_spec, Z.bit_log2 by lia. rewrite <- Hl at 1. pose proof (Z.pow_pos_nonneg 2 (Z.log2 v)). by rewrite Z.bit_log2 by (pose proof (Z.log2_nonneg v); lia). }
  rewrite H0 in Hb. by rewrite Z.bits_0 in Hb.
Qed.

(** Masking rounds down. *)
Lemma align_down x k :
  0 <= k -> is_size_t x -> Z.land x (bnot (2 ^ k - 1)) = x - x mod 2 ^ k.
Proof.
  intros Hk Hx. unfold bnot, is_size_t, size_t_mod in *.
  rewrite (Z.land_comm (Z.lnot _)), Z.land_assoc, Z.land_ones by lia. rewrite Z.mod_small by lia.
  replace (2 ^ k - 1) with (Z.ones k) by (rewrite Z.ones_equiv; lia).
  rewrite <- Z.ldiff_land, Z.ldiff_ones_r, Z.shiftl_mul_pow2, Z.shiftr_div_pow2 by lia.
  pose proof (Z.div_mod x (2 ^ k) ltac:(pose proof (Z.pow_pos_nonneg 2 k); lia)). lia.
Qed.

(** ** What the system promises *)

(** A block is not null, lies in the address space, is aligned as asked, and does not
    overlap a live one. *)
Definition system_laws (place : gmap Z Z -> Z -> Z -> option Z) : Prop :=
  forall bs size a p, place bs size a = Some p ->
    0 < p /\ p + size <= size_t_mod /\ (a | p) /\
    forall b l, bs !! b = Some l -> p + size <= b \/ b + l <= p.

Section client.
Context (place : gmap Z Z -> Z -> Z -> option Z) (windows process_heap : bool).
Context (laws : system_laws place).

(** Whether a pointer of this alignment has a header before it. *)
Definition has_header (alignment : Z) : bool :=
  windows && (MEMORY_ALLOCATION_ALIGNMENT <? Z.max alignment ptr_size).

(** The system block a pointer belongs to, as [Deallocate] finds it. *)
Definition base_of (p alignment : Z) (m : memory) : Z :=
  if has_header alignment then load_ptr (p - sizeof_header) m else p.

Record blocks_ok (m : memory) : Prop := {
  bo_range : forall b l, blocks m !! b = Some l -> 0 < b /\ 0 < l /\ b + l <= size_t_mod;
  bo_disjoint : forall b l b' l', blocks m !! b = Some l -> blocks m !! b' = Some l' -> b <> b' -> b + l <= b' \/ b' + l' <= b;
}.

(** [size] bytes at [p], aligned, inside the block at [base]. *)
Record holds (m : memory) (p size alignment base : Z) : Prop := {
  ho_size : 0 < size;
  ho_align : (Z.max alignment ptr_size | p);
  ho_power : IsPowerOfTwo (Z.max alignment ptr_size) = true;
  ho_heap : windows = true -> process_heap = true;
  ho_low : base + (if has_header alignment then sizeof_header else 0) <= p;
  ho_block : exists l, blocks m !! base = Some l /\ p + size <= base + l;
}.

Lemma sys_alloc_ok size a m p m' :
  blocks_ok m -> 0 < size -> sys_alloc place size a m = Some (p, m') ->
  blocks_ok m' /\ blocks m !! p = None /\ blocks m' = <[p := size]> (blocks m) /\ bytes m' = bytes m /\
  (a | p) /\ 0 < p /\ p + size <= size_t_mod.
Proof.
  intros [Hr Hd] Hs. unfold sys_alloc. intros (q & Hq & [= -> <-])%bind_Some.
  destruct (laws _ _ _ _ Hq) as (H0 & Hend & Ha & Hdis). cbn.
  assert (blocks m !! p = None) as Hnew.
  { destruct (blocks m !! p) as [l|] eqn:E; [|done]. destruct (Hr p l E). destruct (Hdis p l E); lia. }
  split_and!; try done. split; cbn.
  - intros b l [[<- <-]|[_ Hb]]%lookup_insert_Some; [lia|by apply Hr].
  - intros b l b' l' Hb Hb' Hne.
    apply lookup_insert_Some in Hb as [[<- <-]|[_ Hb]]; apply lookup_insert_Some in Hb' as [[<- <-]|[_ Hb']]; [done| | |by eapply Hd].
    + destruct (Hdis b' l' Hb'); lia.
    + destruct (Hdis b l Hb); lia.
Qed.

Lemma pow2_small k : 0 <= k -> 8 <= 2 ^ k <= 16 -> 2 ^ k = 8 \/ 2 ^ k = 16.
Proof.
  intros Hk [H1 H2]. change 8 with (2 ^ 3) in H1. change 16 with (2 ^ 4) in H2.
  apply Z.pow_le_mono_r_iff in H1; [|lia..]. apply Z.pow_le_mono_r_iff in H2; [|lia..].
  assert (k = 3 \/ k = 4) as [-> | ->] by lia; auto.
Qed.

(** [size] bytes at [p] in a new block, and nothing written outside it. *)
Definition placed (m m' : memory) (p size alignment : Z) : Prop :=
  exists base l, blocks m !! base = None /\ blocks m' = <[base := l]> (blocks m) /\ blocks_ok m' /\
    holds m' p size alignment base /\ base_of p alignment m' = base /\
    (forall a, ~ (base <= a < base + l) -> load8 a m' = load8 a m).

Lemma placed_plain size alignment a m p m' :
  blocks_ok m -> 0 < size -> IsPowerOfTwo (Z.max alignment ptr_size) = true -> (windows = true -> process_heap = true) ->
  has_header alignment = false -> (Z.max alignment ptr_size | a) ->
  sys_alloc place size a m = Some (p, m') -> placed m m' p size alignment.
Proof.
  intros Hm Hs Hp Hph Hh Hdv Ha. apply sys_alloc_ok in Ha as (Hm' & Hnew & Hb & Hby & Hap & H0 & Hend); [|done|lia].
  exists p, size. split_and!; try done.
  - split; try done; [by etransitivity|rewrite Hh; lia|]. exists size. rewrite Hb, lookup_insert_eq. split; [done|lia].
  - unfold base_of. by rewrite Hh.
  - intros b _. unfold load8. by rewrite Hby.
Qed.

(** Rounding up inside the larger block leaves room for the header and the bytes. *)
Lemma placed_header size alignment m p m' :
  blocks_ok m -> 0 < size < size_t_mod -> IsPowerOfTwo (Z.max alignment ptr_size) = true -> process_heap = true ->
  has_header alignment = true -> Z.max alignment ptr_size < size_t_mod ->
  AllocateFromProcessHeap place process_heap size (Z.max alignment ptr_size) m = Some (p, m') -> placed m m' p size alignment.
Proof.
  intros Hm Hs Hp Hph Hh. set (al := Z.max alignment ptr_size) in *. intros Hlt.
  assert (MEMORY_ALLOCATION_ALIGNMENT < al) as Hgt by (unfold has_header in Hh; apply andb_prop in Hh as [_ Hh]; by apply Z.ltb_lt).
  destruct (IsPowerOfTwo_spec al ltac:(unfold MEMORY_ALLOCATION_ALIGNMENT in *; lia) Hp) as (k & Hk & Hak).
  assert (al <= 2 ^ 63) as Hmax.
  { rewrite Hak in *. unfold size_t_mod in Hlt. apply Z.pow_le_mono_r; [lia|]. apply Z.pow_lt_mono_r_iff in Hlt; lia. }
  unfold AllocateFromProcessHeap. rewrite Hph. cbn [negb]. rewrite (proj2 (Z.leb_gt _ _) Hgt).
  unfold sizeof_header, ptr_size, MEMORY_ALLOCATION_ALIGNMENT in *. cbn zeta.
  rewrite (to_size_t_small (8 + al - 1)) by (unfold is_size_t, size_t_mod; lia).
  destruct (Z.ltb_spec (size_t_mod - 1 - (8 + al - 1)) size) as [|Hfit]; [done|].
  rewrite (to_size_t_small (size + _)) by (unfold is_size_t; lia).
  intros ([base m1] & Ha & [= <- <-])%bind_Some.
  apply sys_alloc_ok in Ha as (Hm1 & Hnew & Hb & Hby & Hap & H0 & Hend); [|done|lia].
  rewrite (to_size_t_small (base + 8)) by (unfold is_size_t; lia).
  rewrite (to_size_t_small (base + 8 + al - 1)) by (unfold is_size_t; lia).
  replace (bnot (al - 1)) with (bnot (2 ^ k - 1)) by (by rewrite <- Hak). rewrite align_down by (unfold is_size_t; lia).
  set (x := base + 8 + al - 1) in *. assert (0 <= x mod 2 ^ k < 2 ^ k) as Hmod by (apply Z.mod_pos_bound; lia).
  set (q := x - x mod 2 ^ k) in *.
  assert (base + 8 <= q /\ q + size <= base + (size + (8 + al - 1))) as [Hq1 Hq2] by (assert (x = base + 8 + al - 1) by done; clearbody x; unfold q; lia).
  rewrite (to_size_t_small (q - 8)) by (unfold is_size_t; lia).
  exists base, (size + (8 + al - 1)). unfold store_ptr at 1 2 3. rewrite store_bytes_blocks. split_and!; try done.
  - destruct Hm1 as [Hr Hd]. split; unfold store_ptr; rewrite store_bytes_blocks; done.
  - split; try done; [lia| |rewrite Hh; unfold sizeof_header, ptr_size; lia|].
    + change (al | q). rewrite Hak. exists (x / 2 ^ k). unfold q. pose proof (Z.div_mod x (2 ^ k)). lia.
    + exists (size + (8 + al - 1)). unfold store_ptr. rewrite store_bytes_blocks, Hb, lookup_insert_eq. split; [done|lia].
  - unfold base_of. rewrite Hh. apply load_store_ptr. unfold is_size_t. lia.
  - intros a Ha. unfold store_ptr. rewrite load8_store_bytes by lia. unfold load8. by rewrite Hby.
Qed.

Lemma Allocate_ok size alignment m p m' :
  blocks_ok m -> 0 < size < size_t_mod -> 0 <= alignment < size_t_mod -> (alignment | size) ->
  Allocate place windows process_heap size alignment m = Some (p, m') -> placed m m' p size alignment.
Proof.
  intros Hm Hs Hal Hdiv. unfold Allocate. destruct (Z.eqb_spec size 0); [lia|]. cbn zeta.
  destruct (IsPowerOfTwo (Z.max alignment ptr_size)) eqn:Hp; [|done]. cbn [negb].
  assert (8 <= Z.max alignment ptr_size < size_t_mod) as Hal8 by (unfold ptr_size, size_t_mod in *; lia).
  destruct (IsPowerOfTwo_spec (Z.max alignment ptr_size) ltac:(lia) Hp) as (k & Hk & Hak).
  destruct (Z.leb_spec (Z.max alignment ptr_size) 16) as [Hle|Hgt].
  - assert (has_header alignment = false) as Hh by (unfold has_header, MEMORY_ALLOCATION_ALIGNMENT; rewrite (proj2 (Z.ltb_ge _ _) Hle); apply andb_false_r).
    unfold AllocateFromProcessHeap, MEMORY_ALLOCATION_ALIGNMENT, max_align. rewrite (proj2 (Z.leb_le _ _) Hle).
    rewrite Hak in Hle, Hal8. destruct windows eqn:Hw; [destruct process_heap eqn:Hph; [|done]|]; cbn [negb];
      apply placed_plain; try done; try lia; try congruence; rewrite Hak; destruct (pow2_small k) as [E|E]; try lia; rewrite E in *; try first [by exists 2|by exists 1].
    + unfold malloc_align. destruct (16 <=? size); [by exists 2|by exists 1].
    + unfold malloc_align. destruct (Z.leb_spec 16 size) as [|Hlt]; [by exists 1|exfalso].
      assert (alignment = 16) as -> by (unfold ptr_size in *; lia). destruct Hdiv as [z Hz]. nia.
  - destruct windows eqn:Hw; [destruct process_heap eqn:Hph|].
    + rewrite <- Hph. apply placed_header; try done; [|lia]. unfold has_header. rewrite Hw. by apply Z.ltb_lt.
    + done.
    + unfold max_align. rewrite (proj2 (Z.leb_gt _ _) Hgt).
      apply placed_plain; try done; try lia; try congruence. unfold has_header. by rewrite Hw.
Qed.

(** [Deallocate] frees that block. *)
Lemma Deallocate_ok size alignment m p base :
  blocks_ok m -> holds m p size alignment base -> base_of p alignment m = base ->
  Deallocate windows process_heap p alignment m = Some (mkMemory (delete base (blocks m)) (bytes m)).
Proof.
  intros Hm [Hs Ha Hp Hh Hlow (l & Hl & Hend)] Hb. destruct (bo_range m Hm _ _ Hl) as (H0 & Hl0 & Hmax).
  assert (0 < p < size_t_mod) as Hpr by (unfold sizeof_header, ptr_size in *; destruct (has_header alignment); lia).
  unfold Deallocate. destruct (Z.eqb_spec p 0); [lia|]. rewrite Hp. cbn [negb].
  unfold base_of, has_header in *. unfold DeallocateToProcessHeap, sys_free.
  destruct windows; cbn [andb] in *; [rewrite Hh by done; cbn [negb]|].
  - destruct (Z.leb_spec (Z.max alignment ptr_size) MEMORY_ALLOCATION_ALIGNMENT) as [Hle|Hgt].
    + rewrite (proj2 (Z.ltb_ge _ _) Hle) in Hb. subst base. by rewrite Hl.
    + rewrite (proj2 (Z.ltb_lt _ _) Hgt) in Hb, Hlow.
      rewrite to_size_t_small by (unfold is_size_t, sizeof_header, ptr_size in *; lia). by rewrite Hb, Hl.
  - subst base. rewrite Hl. by destruct (_ <=? _).
Qed.

(** ** Clients *)

Record heap_state := mkHeap {
  mem : memory;
  given : gmap Z (Z * Z);     (** what the client has: pointer, size and alignment *)
}.

Inductive client_op :=
  | OpAllocate (size alignment : Z)
  | OpDeallocate (ptr : Z)
  | OpStore (a v : Z).

(** Deallocating and storing are done only with memory the client has; [None] is
    undefined behaviour. *)
Definition run_client_op (s : heap_state) (op : client_op) : option heap_state :=
  match op with
  | OpAllocate size alignment =>
      match Allocate place windows process_heap size alignment (mem s) with
      | None => Some s
      | Some (p, m) => Some (mkHeap m (if p =? 0 then given s else <[p := (size, alignment)]> (given s)))
      end
  | OpDeallocate p =>
      match given s !! p with
      | None => Some s
      | Some (_, alignment) =>
          m ← Deallocate windows process_heap p alignment (mem s); Some (mkHeap m (delete p (given s)))
      end
  | OpStore a v =>
      if decide (map_Exists (fun p sa => p <= a < p + sa.1) (given s)) then Some (mkHeap (store8 a v (mem s)) (given s))
      else Some s
  end.

(** Sizes and alignments are 64-bit numbers; the size of an object, or of an
    array, is a multiple of its alignment. *)
Definition op_wf (op : client_op) : Prop :=
  match op with
  | OpAllocate size alignment => 0 <= size < size_t_mod /\ 0 <= alignment < size_t_mod /\ (alignment | size)
  | _ => True
  end.

Fixpoint run_client (s : heap_state) (ops : list client_op) : option heap_state :=
  match ops with
  | [] => Some s
  | op :: ops => s ← run_client_op s op; run_client s ops
  end.

Definition no_memory : heap_state := mkHeap (mkMemory ∅ ∅) ∅.

(** ** The invariant *)

Record heap_inv (s : heap_state) : Prop := {
  hi_blocks : blocks_ok (mem s);
  hi_given : forall p size al, given s !! p = Some (size, al) -> holds (mem s) p size al (base_of p al (mem s));
  hi_own : forall p p' sa sa', given s !! p = Some sa -> given s !! p' = Some sa' ->
    base_of p sa.2 (mem s) = base_of p' sa'.2 (mem s) -> p = p';
  hi_used : forall b, is_Some (blocks (mem s) !! b) -> exists p sa, given s !! p = Some sa /\ base_of p sa.2 (mem s) = b;
}.

(** The header is inside the block, before the bytes. *)
Lemma base_of_ext m m' p size al :
  holds m p size al (base_of p al m) ->
  (forall a, base_of p al m <= a < p -> load8 a m' = load8 a m) -> base_of p al m' = base_of p al m.
Proof.
  intros Hh Ha. pose proof (ho_low _ _ _ _ _ Hh) as Hlow. revert Ha Hlow. unfold base_of. destruct (has_header al); [|done].
  intros Ha Hlow. apply load_bytes_ext. intros b Hb. apply Ha. unfold sizeof_header, ptr_size in *. lia.
Qed.

Lemma holds_blocks m m' p size al base :
  holds m p size al base -> (forall l, blocks m !! base = Some l -> blocks m' !! base = Some l) -> holds m' p size al base.
Proof. intros [] Hb. destruct ho_block0 as (l & Hl & ?). split; try done. exists l. split; [by apply Hb|done]. Qed.

(** Bytes of one block are not bytes of another. *)
Lemma other_block m b l b' l' a :
  blocks_ok m -> blocks m !! b = Some l -> blocks m !! b' = Some l' -> b <> b' -> b <= a < b + l -> ~ (b' <= a < b' + l').
Proof. intros Hm Hb Hb' Hne Ha Ha'. destruct (bo_disjoint m Hm b l b' l'); try done; lia. Qed.

Lemma heap_inv_allocate s size alignment p m :
  heap_inv s -> op_wf (OpAllocate size alignment) ->
  Allocate place windows process_heap size alignment (mem s) = Some (p, m) ->
  heap_inv (mkHeap m (if p =? 0 then given s else <[p := (size, alignment)]> (given s))).
Proof.
  intros [Hb Hg Ho Hu] (Hs & Hal & Hdiv) Ha. destruct (Z.eq_dec size 0) as [->|Hs0].
  { unfold Allocate in Ha. cbn in Ha. injection Ha as <- <-. by destruct s. }
  destruct (Allocate_ok size alignment (mem s) p m) as (base & l & Hnew & Hbl & Hb' & Hh & Hbase & Hby); [done|lia|done..|].
  destruct (bo_range m Hb' base l) as (H0 & Hl0 & _); [by rewrite Hbl, lookup_insert_eq|].
  assert (0 < p) as Hp0 by (pose proof (ho_low _ _ _ _ _ Hh); unfold sizeof_header, ptr_size in *; destruct (has_header alignment); lia).
  destruct (Z.eqb_spec p 0); [lia|].
  assert (forall q size al, given s !! q = Some (size, al) ->
    base_of q al m = base_of q al (mem s) /\ base_of q al (mem s) <> base /\ q <> p) as Hold.
  { intros q sz al Hq. specialize (Hg q sz al Hq). pose proof (ho_block _ _ _ _ _ Hg) as (l' & Hl' & Hend).
    assert (base_of q al (mem s) <> base) as Hne by congruence.
    assert (blocks m !! base_of q al (mem s) = Some l') as Hl'' by (by rewrite Hbl, lookup_insert_ne).
    assert (blocks m !! base = Some l) as Hlb by (by rewrite Hbl, lookup_insert_eq).
    pose proof (ho_size _ _ _ _ _ Hg). pose proof (ho_low _ _ _ _ _ Hg) as Hlow.
    assert (base_of q al (mem s) <= q) by (unfold sizeof_header, ptr_size in Hlow; destruct (has_header al); lia).
    split_and!; [|done|].
    - eapply base_of_ext; [exact Hg|]. intros a Hqa. apply Hby. eapply (other_block m); [done|exact Hl''|done|done|lia].
    - intros ->. pose proof (ho_block _ _ _ _ _ Hh) as (l2 & Hl2 & Hend2). pose proof (ho_low _ _ _ _ _ Hh) as Hlow2.
      assert (base <= p) by (unfold sizeof_header, ptr_size in Hlow2; destruct (has_header alignment); lia).
      pose proof (ho_size _ _ _ _ _ Hh). rewrite Hlb in Hl2. injection Hl2 as <-.
      eapply (other_block m _ l' base l p); try done; lia. }
  split; cbn [mem given]; [done|..].
  - intros q sz al [[<- [= <- <-]]|[Hne Hq]]%lookup_insert_Some; [by rewrite Hbase|].
    destruct (Hold q sz al Hq) as (-> & Hnb & _). eapply holds_blocks; [by apply Hg|].
    intros l' Hl'. by rewrite Hbl, lookup_insert_ne.
  - intros q q' [sz al] [sz' al'] Hq Hq' He. cbn in He.
    apply lookup_insert_Some in Hq as [[<- [= <- <-]]|[_ Hq]]; apply lookup_insert_Some in Hq' as [[<- [= <- <-]]|[_ Hq']]; [done|..].
    + destruct (Hold q' sz' al' Hq') as (E & Hnb & _). congruence.
    + destruct (Hold q sz al Hq) as (E & Hnb & _). congruence.
    + destruct (Hold q sz al Hq) as (E & _), (Hold q' sz' al' Hq') as (E' & _). eapply Ho; [done..|]. cbn. congruence.
  - intros b. rewrite Hbl. intros [x [[<- <-]|[Hne Hx]]%lookup_insert_Some].
    + exists p, (size, alignment). by rewrite lookup_insert_eq.
    + destruct (Hu b) as (q & [sz al] & Hq & Hqb); [by eexists|]. destruct (Hold q sz al Hq) as (E & _ & Hqp).
      exists q, (sz, al). rewrite lookup_insert_ne by done. split; [done|]. cbn. by rewrite E.
Qed.

Lemma heap_inv_deallocate s p size alignment :
  heap_inv s -> given s !! p = Some (size, alignment) ->
  exists m, Deallocate windows process_heap p alignment (mem s) = Some m /\ heap_inv (mkHeap m (delete p (given s))).
Proof.
  intros [Hb Hg Ho Hu] Hp. eexists. split; [eapply Deallocate_ok; [done|by apply Hg|done]|].
  set (base := base_of p alignment (mem s)).
  assert (forall q al m', bytes m' = bytes (mem s) -> base_of q al m' = base_of q al (mem s)) as Hsame.
  { intros q al m' Hm. unfold base_of. destruct (has_header al); [|done]. apply load_bytes_ext. intros a _. unfold load8. by rewrite Hm. }
  split; cbn [mem given].
  - destruct Hb as [Hr Hd]. split; cbn.
    + intros b l [_ Hbl]%lookup_delete_Some. by apply Hr.
    + intros b l b' l' [_ Hbl]%lookup_delete_Some [_ Hbl']%lookup_delete_Some. by apply Hd.
  - intros q sz al [Hne Hq]%lookup_delete_Some. rewrite Hsame by done.
    eapply holds_blocks; [by apply Hg|]. intros l Hl. cbn. rewrite lookup_delete_ne; [done|].
    intros E. apply Hne. by apply (Ho p q (size, alignment) (sz, al) Hp Hq).
  - intros q q' sa sa' [_ Hq]%lookup_delete_Some [_ Hq']%lookup_delete_Some. rewrite !Hsame by done. by apply Ho.
  - cbn. intros b [l [Hne Hl]%lookup_delete_Some]. destruct (Hu b) as (q & sa & Hq & Hqb); [by eexists|].
    exists q, sa. rewrite Hsame by done. split; [|done]. rewrite lookup_delete_ne; [done|]. intros ->.
    apply Hne. assert (sa = (size, alignment)) as -> by congruence. done.
Qed.

Lemma heap_inv_store s a v :
  heap_inv s -> map_Exists (fun p sa => p <= a < p + sa.1) (given s) -> heap_inv (mkHeap (store8 a v (mem s)) (given s)).
Proof.
  intros [Hb Hg Ho Hu] (p & [sz al] & Hp & Ha). cbn in Ha.
  assert (forall q sz al, given s !! q = Some (sz, al) -> base_of q al (store8 a v (mem s)) = base_of q al (mem s)) as Hsame.
  { intros q sz' al' Hq. eapply base_of_ext; [by eapply Hg|]. intros b Hbq. unfold load8, store8. cbn.
    rewrite lookup_insert_ne; [done|]. intros ->. specialize (Hg _ _ _ Hp) as Hgp. specialize (Hg _ _ _ Hq) as Hgq.
    pose proof (ho_block _ _ _ _ _ Hgp) as (l & Hl & Hend). pose proof (ho_block _ _ _ _ _ Hgq) as (l' & Hl' & Hend').
    pose proof (ho_low _ _ _ _ _ Hgp) as Hlow. pose proof (ho_low _ _ _ _ _ Hgq) as Hlow'.
    pose proof (ho_size _ _ _ _ _ Hgq).
    assert (base_of p al (mem s) <= p) by (unfold sizeof_header, ptr_size in Hlow; destruct (has_header al); lia).
    destruct (Z.eq_dec (base_of p al (mem s)) (base_of q al' (mem s))) as [E|E].
    - assert (p = q) as -> by (by apply (Ho p q (sz, al) (sz', al'))). lia.
    - eapply (other_block (mem s) (base_of p al (mem s)) l (base_of q al' (mem s)) l' b); try done; lia. }
  split; cbn [mem given].
  - destruct Hb. by split.
  - intros q sz' al' Hq. erewrite Hsame by done. eapply holds_blocks; [by apply Hg|]. done.
  - intros q q' [s1 a1] [s2 a2] Hq Hq'. cbn. erewrite !Hsame by done. by apply (Ho q q' (s1, a1) (s2, a2)).
  - intros b Hbl. destruct (Hu b Hbl) as (q & [s1 a1] & Hq & Hqb). exists q, (s1, a1). cbn in *. by erewrite Hsame.
Qed.

Lemma run_client_op_inv s op :
  heap_inv s -> op_wf op -> exists s', run_client_op s op = Some s' /\ heap_inv s'.
Proof.
  intros Hs Hop. destruct op as [size al|p|a v]; cbn [run_client_op].
  - destruct (Allocate _ _ _ _ _ _) as [[p m]|] eqn:Ha; [|by exists s]. eexists. split; [done|]. by eapply heap_inv_allocate.
  - destruct (given s !! p) as [[size al]|] eqn:Hp; [|by exists s].
    destruct (heap_inv_deallocate s p size al Hs Hp) as (m & -> & Hm). by eexists.
  - case_decide; [|by exists s]. eexists. split; [done|]. by apply heap_inv_store.
Qed.

Lemma run_client_inv s ops :
  heap_inv s -> Forall op_wf ops -> exists s', run_client s ops = Some s' /\ heap_inv s'.
Proof.
  intros Hs Hops. revert s Hs. induction Hops as [|op ops Hop _ IH]; intros s Hs; [by exists s|]. cbn.
  destruct (run_client_op_inv s op Hs Hop) as (s1 & -> & Hs1). cbn. by apply IH.
Qed.

Lemma heap_inv_none : heap_inv no_memory.
Proof.
  split; [split| | |]; cbn; intros *; try by rewrite lookup_empty.
Qed.

(** C40. Memory is handed out soundly, on either platform and over any system
    allocator that keeps its promises.  Whatever a client allocates, writes to its own
    memory and gives back, in whatever order and however often memory runs
    out: nothing undefined happens, in particular the system is only ever asked to
    free a live block; what the client has is aligned as asked, in the address
    space and never overlapping; and the system's live blocks are one for each
    of them, so nothing is left when all is given back. *)
Theorem allocator_sound (ops : list client_op) :
  Forall op_wf ops ->
  exists s, run_client no_memory ops = Some s /\
    (forall p size alignment, given s !! p = Some (size, alignment) ->
       0 < p /\ 0 < size /\ p + size <= size_t_mod /\ (Z.max alignment 8 | p)) /\
    (forall p sa p' sa', given s !! p = Some sa -> given s !! p' = Some sa' -> p <> p' -> p + sa.1 <= p' \/ p' + sa'.1 <= p) /\
    (forall b, is_Some (blocks (mem s) !! b) <-> exists p sa, given s !! p = Some sa /\ base_of p sa.2 (mem s) = b) /\
    (given s = ∅ -> blocks (mem s) = ∅).
Proof.
  intros Hops. destruct (run_client_inv no_memory ops heap_inv_none Hops) as (s & Hrun & [Hb Hg Ho Hu]).
  exists s. split; [done|].
  assert (forall p size al, given s !! p = Some (size, al) -> exists l, blocks (mem s) !! base_of p al (mem s) = Some l /\
    0 < base_of p al (mem s) <= p /\ 0 < size /\ p + size <= base_of p al (mem s) + l <= size_t_mod) as Hin.
  { intros p size al Hp. destruct (Hg p size al Hp) as [Hs _ _ _ Hlow (l & Hl & Hend)].
    destruct (bo_range _ Hb _ _ Hl). exists l. unfold sizeof_header, ptr_size in Hlow. destruct (has_header al); split_and!; done || lia. }
  split_and!.
  - intros p size al Hp. destruct (Hin p size al Hp) as (l & _ & ?). pose proof (ho_align _ _ _ _ _ (Hg p size al Hp)).
    split_and!; [lia..|done].
  - intros p [sz al] p' [sz' al'] Hp Hp' Hne. destruct (Hin p sz al Hp) as (l & Hl & ?), (Hin p' sz' al' Hp') as (l' & Hl' & ?).
    destruct (bo_disjoint _ Hb _ _ _ _ Hl Hl'); [|cbn; lia..].
    intros E. by apply Hne, (Ho p p' (sz, al) (sz', al')).
  - intros b. split; [apply Hu|]. intros (p & [sz al] & Hp & <-). destruct (Hin p sz al Hp) as (l & Hl & _). by exists l.
  - intros He. apply map_empty. intros b. destruct (blocks (mem s) !! b) eqn:E; [|done].
    destruct (Hu b) as (p & sa & Hp & _); [by eexists|]. by rewrite He, lookup_empty in Hp.
Qed.
End client.

(** ** The owning helpers *)

Section owning.
Context (place : gmap Z Z -> Z -> Z -> option Z) (windows process_heap : bool) (laws : system_laws place).

(** An array is never allocated with a size that has wrapped around: either the
    product fits and is what [Allocate] is asked for, or the call throws. *)
Theorem array_size_exact sizeof_T alignof_T n m :
  0 < sizeof_T -> 0 <= n < size_t_mod ->
  allocator_allocate place windows process_heap sizeof_T alignof_T n m =
    if n =? 0 then Returned _ (0, m)
    else if sizeof_T * n <? size_t_mod then
      match Allocate place windows process_heap (sizeof_T * n) alignof_T m with Some r => Returned _ r | None => BadAlloc _ end
    else BadArrayNewLength _.
Proof.
  intros Hs Hn. unfold allocator_allocate. destruct (Z.eqb_spec n 0) as [|Hn0]; [done|].
  pose proof (Z.div_mod (size_t_mod - 1) sizeof_T ltac:(lia)) as Hd.
  pose proof (Z.mod_pos_bound (size_t_mod - 1) sizeof_T Hs) as Hmod.
  destruct (Z.ltb_spec ((size_t_mod - 1) / sizeof_T) n) as [Hlt|Hge].
  - destruct (Z.ltb_spec (sizeof_T * n) size_t_mod); [nia|done].
  - destruct (Z.ltb_spec (sizeof_T * n) size_t_mod); [|nia]. by rewrite to_size_t_small by (unfold is_size_t; nia).
Qed.

(** A constructor that throws leaves the system's blocks as they were; an object
    that is constructed and destroyed does too. *)
Theorem construct_exception_safe sizeof_T alignof_T m :
  blocks_ok m -> 0 < sizeof_T < size_t_mod -> 0 <= alignof_T < size_t_mod -> (alignof_T | sizeof_T) ->
  (exists r m1, AllocateUnique place windows process_heap sizeof_T alignof_T false m = Some (r, m1) /\ blocks m1 = blocks m) /\
  (forall o m1, AllocateUnique place windows process_heap sizeof_T alignof_T true m = Some (Returned _ o, m1) ->
     exists m2, delete_owned windows process_heap o m1 = Some m2 /\ blocks m2 = blocks m).
Proof.
  intros Hm Hs Ha Hd. unfold AllocateUnique, AllocateConstruct.
  destruct (Allocate _ _ _ _ _ _) as [[p m']|] eqn:E.
  2: { split; [by eexists _, m|done]. }
  destruct (Allocate_ok place windows process_heap laws _ _ _ _ _ Hm Hs Ha Hd E) as (base & l & Hnew & Hbl & Hm' & Hh & Hb & _).
  pose proof (Deallocate_ok windows process_heap _ _ _ _ _ Hm' Hh Hb) as Hf.
  assert (delete base (blocks m') = blocks m) as Hdel by (rewrite Hbl; by apply delete_insert_id).
  split.
  - rewrite Hf. cbn. by eexists _, _.
  - cbn. intros o m1 [= <- <-]. unfold delete_owned, DestroyDeallocate. cbn.
    destruct (Z.eqb_spec p 0) as [->|]; [|rewrite Hf; by eexists].
    exfalso. pose proof (ho_low _ _ _ _ _ _ _ Hh) as Hlow. pose proof (ho_block _ _ _ _ _ _ _ Hh) as (l' & Hl' & _).
    destruct (bo_range _ Hm' _ _ Hl'). unfold sizeof_header, ptr_size in Hlow. destruct (has_header _ _); lia.
Qed.
End owning.

(** ** A system *)

(** Blocks one after the other. *)
Definition top_of (bs : gmap Z Z) : Z := foldr (fun bl t => Z.max (bl.1 + bl.2) t) 16 (map_to_list bs).
Definition bump (bs : gmap Z Z) (size a : Z) : option Z :=
  if a <=? 0 then None
  else
    let p := (top_of bs + a - 1) / a * a in
    if p + size <=? size_t_mod then Some p else None.

Lemma top_of_above bs b l : bs !! b = Some l -> b + l <= top_of bs.
Proof.
  intros Hb. apply elem_of_map_to_list in Hb. unfold top_of.
  induction (map_to_list bs) as [|[b' l'] xs IH]; [by apply not_elem_of_nil in Hb|]. cbn.
  apply elem_of_cons in Hb as [[= <- <-]|Hb]; [lia|]. specialize (IH Hb). lia.
Qed.
Lemma top_of_positive bs : 16 <= top_of bs.
Proof. unfold top_of. induction (map_to_list bs); cbn; lia. Qed.

Lemma bump_laws : system_laws bump.
Proof.
  intros bs size a p. unfold bump. destruct (Z.leb_spec a 0); [done|]. cbn zeta.
  destruct (Z.leb_spec ((top_of bs + a - 1) / a * a + size) size_t_mod); [|done]. intros [= <-].
  pose proof (top_of_positive bs). pose proof (Z.div_mod (top_of bs + a - 1) a ltac:(lia)).
  pose proof (Z.mod_pos_bound (top_of bs + a - 1) a ltac:(lia)).
  assert (top_of bs <= (top_of bs + a - 1) / a * a) by lia.
  split_and!; [lia|lia|by eexists|]. intros b l Hb. right. pose proof (top_of_above bs b l Hb). lia.
Qed.

Definition sample_ops : list client_op :=
  [OpAllocate 24 8; OpAllocate 128 64; OpAllocate 0 8; OpAllocate 12 12; OpStore 100 255; OpAllocate 64 32; OpDeallocate 64].

Lemma allocator_sound_witness :
  option_map (fun s => map_to_list (given s)) (run_client bump true true no_memory sample_ops) =
    Some [(288, (64, 32)); (16, (24, 8))] /\
  exists s, run_client bump true true no_memory sample_ops = Some s /\ (given s = ∅ -> blocks (mem s) = ∅).
Proof.
  split; [vm_compute; reflexivity|].
  destruct (allocator_sound bump true true bump_laws sample_ops) as (s & Hs & _ & _ & _ & He).
  - repeat apply Forall_cons_2; try apply Forall_nil_2; try exact I; cbn; unfold size_t_mod; split_and!; try lia;
      first [by exists 3|by exists 2|by exists 1|by exists 0].
  - exists s. split; [exact Hs|exact He].
Defined.

(** A base class that does not lie at the start of the object: the deleter is
    handed the address of the base and takes it for the object. *)
Example base_at_offset_undefined :
  exists o m, AllocateUniqueAs bump false true 8 24 8 true (mem no_memory) = Some (Returned _ o, m) /\
    delete_owned false true o m = None.
Proof. eexists _, _. split; vm_compute; reflexivity. Qed.
