(* ===== verification/CBinding.v ===== *)
(** * The C interface

    [src/src/c_binding]: server.cc, task.cc, callback_adapters.cc and the helpers
    of internal/common.h.

    A server handle is a pointer to a wrapper that owns the server of
    [ServerRoutes]; the objects that are live are in a [c_world].  Every function
    checks its arguments, runs under [Guard], which turns exceptions into result
    codes, and forwards.  Allocations may fail and calls of the server may throw:
    [budget] says which ones; what a call that throws leaves of the server is
    arbitrary ([aborted]).  A dangling handle is undefined behaviour.  The handler and aspect adapters
    belong to the route table they are put into and are not objects of the world.

    A C callback is a program that calls the task functions and sees their
    answers ([c_prog]); what a function pointer does is a parameter.  Which status
    numbers Boost.Beast takes is a parameter too. *)

From S2P Require Import Prelude Text HttpFields RouteLayer RouteTable ServerRuntime ServerRoutes Lifecycle ServerTask.

(** ** Result codes and exceptions *)

Inductive bsrvcore_result_t :=
  | RESULT_OK | RESULT_INVALID_ARGUMENT | RESULT_ALLOCATION_FAILURE | RESULT_NOT_FOUND | RESULT_PARSE_ERROR
  | RESULT_ALREADY_RUNNING | RESULT_NOT_RUNNING | RESULT_OPERATION_FAILED | RESULT_INTERNAL_ERROR.

#[global] Instance result_eq_dec : EqDecision bsrvcore_result_t.
Proof. solve_decision. Defined.

Inductive exn := bad_alloc | other_exception.

Inductive cres (A : Type) := Ok (a : A) | Throw (e : exn) | Undefined.
Arguments Ok {_} _.
Arguments Throw {_} _.
Arguments Undefined {_}.

(** What [Guard] makes of a body: [None] only for undefined behaviour. *)
Definition Guard (r : cres bsrvcore_result_t) : option bsrvcore_result_t :=
  match r with
  | Ok r => Some r
  | Throw bad_alloc => Some RESULT_ALLOCATION_FAILURE
  | Throw other_exception => Some RESULT_INTERNAL_ERROR
  | Undefined => None
  end.

(** The values of [bsrvcore_http_method_t]. *)
Definition TryConvertMethod (method : Z) : option nat :=
  if (method =? 0)%Z then Some 0
  else if (method =? 1)%Z then Some 1
  else if (method =? 2)%Z then Some 2
  else if (method =? 3)%Z then Some 3
  else if (method =? 4)%Z then Some 4
  else if (method =? 5)%Z then Some 5
  else None.

(** ** Adapters *)

Record RouteHandlerAdapter := mkRouteAdapter {
  fn_ : option nat;
  ctx_fn_ : option nat;
  ctx_ : option nat;
}.

Record AspectHandlerAdapter := mkAspectAdapter {
  pre_fn_ : option nat;
  post_fn_ : option nat;
  pre_ctx_fn_ : option nat;
  post_ctx_fn_ : option nat;
  aspect_ctx_ : option nat;
}.

(** A handler is an adapter, or the built-in one for requests without a route. *)
Abbreviation c_server := (http_server (U := option RouteHandlerAdapter) (A := AspectHandlerAdapter)).

Definition adapter (a : RouteHandlerAdapter) : option (route_handler (option RouteHandlerAdapter)) := Some (UserHandler (Some a)).

(** ** The world *)

Inductive c_object := Wrapper (native : option nat) | Native (s : c_server).

Record c_world := mkWorld {
  objects : gmap nat c_object;
  next_object : nat;
  budget : list (option exn);      (** how the allocations and server calls to come end; beyond it they succeed *)
  freed : list (nat * c_object);   (** what was given back, as it was then *)
  out_server : option nat;         (** what the caller's variable holds *)
}.

Definition M (A : Type) : Type := c_world -> cres A * c_world.
Definition ret {A} (a : A) : M A := fun w => (Ok a, w).
Definition undefined {A} : M A := fun w => (Undefined, w).
Definition bind {A B} (m : M A) (f : A -> M B) : M B := fun w =>
  match m w with
  | (Ok a, w) => f a w
  | (Throw e, w) => (Throw e, w)
  | (Undefined, w) => (Undefined, w)
  end.
Notation "'do' x <- m ; k" := (bind m (fun x => k)) (at level 10, x name, m at level 100, k at level 200, only parsing).

Definition set_objects (o : gmap nat c_object) (w : c_world) : c_world :=
  mkWorld o (next_object w) (budget w) (freed w) (out_server w).
Definition set_out (p : option nat) : M unit := fun w =>
  (Ok tt, mkWorld (objects w) (next_object w) (budget w) (freed w) p).

(** How the next thing that may fail ends. *)
Definition attempt : M (option exn) := fun w =>
  match budget w with
  | [] => (Ok None, w)
  | r :: budget => (Ok r, mkWorld (objects w) (next_object w) budget (freed w) (out_server w))
  end.

Definition throw {A} (e : exn) : M A := fun w => (Throw e, w).

(** One allocation with its construction. *)
Definition allocate : M unit :=
  do r <- attempt;
  match r with None => ret tt | Some e => throw e end.

Definition AllocateUnique (o : c_object) : M nat :=
  do _ <- allocate;
  fun w => (Ok (next_object w),
    mkWorld (<[next_object w := o]> (objects w)) (S (next_object w)) (budget w) (freed w) (out_server w)).

Definition store (p : nat) (o : c_object) : M unit := fun w => (Ok tt, set_objects (<[p := o]> (objects w)) w).

Definition deallocate (p : nat) : M unit := fun w =>
  match objects w !! p with
  | None => (Undefined, w)
  | Some o => (Ok tt, mkWorld (delete p (objects w)) (next_object w) (budget w) (freed w ++ [(p, o)]) (out_server w))
  end.

(** The destructor of a [bsrvcore_server]: the server it owns stops and goes first. *)
Definition destroy_wrapper (p : nat) : M unit := fun w =>
  match objects w !! p with
  | Some (Wrapper None) => (Ok tt, w)
  | Some (Wrapper (Some n)) =>
      match objects w !! n with
      | Some (Native s) => (do _ <- store n (Native (set_base (Stop (base s)) s)); deallocate n) w
      | _ => (Undefined, w)
      end
  | _ => (Undefined, w)
  end.

(** An [OwnedPtr] to a wrapper goes out of scope by an exception. *)
Definition release_on_throw {A} (p : nat) (m : M A) : M A := fun w =>
  match m w with
  | (Throw e, w) => (do _ <- destroy_wrapper p; do _ <- deallocate p; fun w => (Throw e, w)) w
  | r => r
  end.

Section server.
Context {K : Type} (sys : nat -> syscall -> K -> bool * K) (has_reuse_port : bool) (hardware_concurrency : Z).
(** [make_address] with a port; an endpoint is a number. *)
Context (make_endpoint : str -> Z -> option nat).
(** What a call of the server that ends with an exception leaves of it, given the
    server before and the one it would have left: anything. *)
Context (aborted : c_server -> c_server -> c_server).

Definition new_c_server (o : HttpServerRuntimeOptions) : c_server :=
  mkHttpServer (new_HttpServer o) (new_table (UserHandler None)).

(** A body under [Guard]. *)
Definition guarded (m : M bsrvcore_result_t) (w : c_world) : option bsrvcore_result_t * c_world :=
  let '(r, w) := m w in (Guard r, w).

(** [out]: whether the pointer to the caller's variable is not null. *)
Definition bsrvcore_server_create (worker_threads : Z) (out : bool) : c_world -> option bsrvcore_result_t * c_world :=
  guarded (
    if negb out then ret RESULT_INVALID_ARGUMENT
    else
      do _ <- set_out None;
      do wrapper <- AllocateUnique (Wrapper None);
      release_on_throw wrapper (
        do native <- AllocateUnique (Native (new_c_server
          (if (worker_threads =? 0)%Z then default_runtime_options hardware_concurrency
           else MakeRuntimeOptionsFromThreadNum hardware_concurrency worker_threads)));
        do _ <- store wrapper (Wrapper (Some native));
        do _ <- set_out (Some wrapper);
        ret RESULT_OK)).

(** [DestroyDeallocate] *)
Definition bsrvcore_server_destroy (server : option nat) : M unit :=
  match server with
  | None => ret tt
  | Some p => do _ <- destroy_wrapper p; deallocate p
  end.

(** [ValidateServer], then the rest with the server it refers to. *)
Definition with_server (server : option nat) (f : nat -> c_server -> M bsrvcore_result_t) : M bsrvcore_result_t := fun w =>
  match server with
  | None => (Ok RESULT_INVALID_ARGUMENT, w)
  | Some p =>
      match objects w !! p with
      | Some (Wrapper None) => (Ok RESULT_INVALID_ARGUMENT, w)
      | Some (Wrapper (Some n)) => match objects w !! n with Some (Native s) => f n s w | _ => (Undefined, w) end
      | _ => (Undefined, w)
      end
  end.

Definition invalid : M bsrvcore_result_t := ret RESULT_INVALID_ARGUMENT.

(** A call of the server [s], which leaves [s'] and lets the function answer [r],
    or throws. *)
Definition native_result (n : nat) (s s' : c_server) (r : bsrvcore_result_t) : M bsrvcore_result_t :=
  do e <- attempt;
  match e with
  | None => do _ <- store n (Native s'); ret r
  | Some e => do _ <- store n (Native (aborted s s')); throw e
  end.

(** One that answers nothing. *)
Definition native_call (n : nat) (s s' : c_server) : M bsrvcore_result_t := native_result n s s' RESULT_OK.

Definition bsrvcore_server_start (server : option nat) (k : K) : c_world -> option bsrvcore_result_t * c_world :=
  guarded (with_server server (fun n s =>
    if is_running_ (base s) then ret RESULT_ALREADY_RUNNING
    else
      let '(ok, (b, _)) := Start sys has_reuse_port k (base s) in
      native_result n s (set_base b s) (if ok then RESULT_OK else RESULT_OPERATION_FAILED))).

Definition bsrvcore_server_stop (server : option nat) : c_world -> option bsrvcore_result_t * c_world :=
  guarded (with_server server (fun n s => native_call n s (set_base (Stop (base s)) s))).

(** The answer is [running], or nothing when the variable for it is null. *)
Definition bsrvcore_server_is_running (server : option nat) (out : bool) (w : c_world) :
    option bsrvcore_result_t * option bool :=
  match with_server server (fun n s => if out then ret RESULT_OK else invalid) w with
  | (Ok RESULT_OK, _) =>
      (Some RESULT_OK,
       match server with
       | Some p => match objects w !! p with
                   | Some (Wrapper (Some n)) => match objects w !! n with Some (Native s) => Some (is_running_ (base s)) | _ => None end
                   | _ => None
                   end
       | None => None
       end)
  | (r, _) => (Guard r, None)
  end.

Definition bsrvcore_server_add_listen (server : option nat) (host : option str) (port : Z) (io_threads : nat) :
    c_world -> option bsrvcore_result_t * c_world :=
  guarded (with_server server (fun n s =>
    match host with
    | None => invalid
    | Some host =>
        match make_endpoint host port with
        | None => ret RESULT_PARSE_ERROR
        | Some ep => native_call n s (set_base (AddListen ep io_threads None (base s)) s)
        end
    end)).

Definition bsrvcore_server_set_header_read_expiry_ms (server : option nat) (timeout_ms : Z) :=
  guarded (with_server server (fun n s => native_call n s (set_base (SetHeaderReadExpiry timeout_ms (base s)) s))).
Definition bsrvcore_server_set_default_read_expiry_ms (server : option nat) (timeout_ms : Z) :=
  guarded (with_server server (fun n s => native_call n s (SetDefaultReadExpiry timeout_ms s))).
Definition bsrvcore_server_set_default_write_expiry_ms (server : option nat) (timeout_ms : Z) :=
  guarded (with_server server (fun n s => native_call n s (SetDefaultWriteExpiry timeout_ms s))).
Definition bsrvcore_server_set_default_max_body_size (server : option nat) (max_body_size : Z) :=
  guarded (with_server server (fun n s => native_call n s (SetDefaultMaxBodySize max_body_size s))).
Definition bsrvcore_server_set_keep_alive_timeout_ms (server : option nat) (timeout_ms : Z) :=
  guarded (with_server server (fun n s => native_call n s (set_base (SetKeepAliveTimeout timeout_ms (base s)) s))).

(** The arguments of a route. *)
Definition with_route (route : option str) (method : Z) (f : nat -> str -> M bsrvcore_result_t) : M bsrvcore_result_t :=
  match route with
  | None => invalid
  | Some route => match TryConvertMethod method with None => invalid | Some m => f m route end
  end.

Definition bsrvcore_server_set_route_read_expiry_ms (server : option nat) (method : Z) (route : option str) (timeout_ms : Z) :=
  guarded (with_server server (fun n s => with_route route method (fun m r => native_call n s (SetReadExpiry m r timeout_ms s)))).
Definition bsrvcore_server_set_route_write_expiry_ms (server : option nat) (method : Z) (route : option str) (timeout_ms : Z) :=
  guarded (with_server server (fun n s => with_route route method (fun m r => native_call n s (SetWriteExpiry m r timeout_ms s)))).
Definition bsrvcore_server_set_route_max_body_size (server : option nat) (method : Z) (route : option str) (max_body_size : Z) :=
  guarded (with_server server (fun n s => with_route route method (fun m r => native_call n s (SetMaxBodySize m r max_body_size s)))).

(** Registering makes an adapter first. *)
Definition registered (n : nat) (s s' : c_server) : M bsrvcore_result_t := do _ <- allocate; native_call n s s'.

Definition bsrvcore_server_add_route (server : option nat) (method : Z) (route : option str) (handler : option nat) :=
  guarded (with_server server (fun n s => with_route route method (fun m r =>
    match handler with
    | None => invalid
    | Some h => registered n s (AddRouteEntry m r (adapter (mkRouteAdapter (Some h) None None)) s)
    end))).
Definition bsrvcore_server_add_route_with_ctx (server : option nat) (method : Z) (route : option str) (handler ctx : option nat) :=
  guarded (with_server server (fun n s => with_route route method (fun m r =>
    match handler with
    | None => invalid
    | Some h => registered n s (AddRouteEntry m r (adapter (mkRouteAdapter None (Some h) ctx)) s)
    end))).

(** At least one half of an aspect is there. *)
Definition with_aspect (pre post : option nat) (f : M bsrvcore_result_t) : M bsrvcore_result_t :=
  match pre, post with None, None => invalid | _, _ => f end.
Definition plain_aspect (pre post : option nat) : AspectHandlerAdapter := mkAspectAdapter pre post None None None.
Definition ctx_aspect (pre post ctx : option nat) : AspectHandlerAdapter := mkAspectAdapter None None pre post ctx.

Definition bsrvcore_server_add_global_aspect (server pre post : option nat) :=
  guarded (with_server server (fun n s => with_aspect pre post (registered n s (AddGlobalAspect (plain_aspect pre post) s)))).
Definition bsrvcore_server_add_global_aspect_with_ctx (server pre post ctx : option nat) :=
  guarded (with_server server (fun n s => with_aspect pre post (registered n s (AddGlobalAspect (ctx_aspect pre post ctx) s)))).

Definition method_aspect (server : option nat) (method : Z) (pre post : option nat) (a : AspectHandlerAdapter) :=
  guarded (with_server server (fun n s => with_aspect pre post
    (match TryConvertMethod method with None => invalid | Some m => registered n s (AddGlobalAspectFor m a s) end))).
Definition bsrvcore_server_add_method_global_aspect (server : option nat) (method : Z) (pre post : option nat) :=
  method_aspect server method pre post (plain_aspect pre post).
Definition bsrvcore_server_add_method_global_aspect_with_ctx (server : option nat) (method : Z) (pre post ctx : option nat) :=
  method_aspect server method pre post (ctx_aspect pre post ctx).

Definition route_aspect (server : option nat) (method : Z) (route : option str) (pre post : option nat) (a : AspectHandlerAdapter) :=
  guarded (with_server server (fun n s => with_aspect pre post
    (with_route route method (fun m r => registered n s (AddAspect m r a s))))).
Definition bsrvcore_server_add_route_aspect (server : option nat) (method : Z) (route : option str) (pre post : option nat) :=
  route_aspect server method route pre post (plain_aspect pre post).
Definition bsrvcore_server_add_route_aspect_with_ctx (server : option nat) (method : Z) (route : option str) (pre post ctx : option nat) :=
  route_aspect server method route pre post (ctx_aspect pre post ctx).

Definition terminal_aspect (server : option nat) (method : Z) (route : option str) (pre post : option nat) (a : AspectHandlerAdapter) :=
  guarded (with_server server (fun n s => with_aspect pre post
    (with_route route method (fun m r => registered n s (AddTerminalAspect m r a s))))).
Definition bsrvcore_server_add_terminal_aspect (server : option nat) (method : Z) (route : option str) (pre post : option nat) :=
  terminal_aspect server method route pre post (plain_aspect pre post).
Definition bsrvcore_server_add_terminal_aspect_with_ctx (server : option nat) (method : Z) (route : option str) (pre post ctx : option nat) :=
  terminal_aspect server method route pre post (ctx_aspect pre post ctx).

(** ** Calls on a handle *)

Inductive c_op :=
  | CStart (k : K)
  | CStop
  | CAddListen (host : option str) (port : Z) (io_threads : nat)
  | CSetHeaderReadExpiry (t : Z)
  | CSetDefaultReadExpiry (t : Z)
  | CSetDefaultWriteExpiry (t : Z)
  | CSetDefaultMaxBodySize (n : Z)
  | CSetKeepAliveTimeout (t : Z)
  | CSetRouteReadExpiry (method : Z) (route : option str) (t : Z)
  | CSetRouteWriteExpiry (method : Z) (route : option str) (t : Z)
  | CSetRouteMaxBodySize (method : Z) (route : option str) (n : Z)
  | CAddRoute (method : Z) (route : option str) (handler : option nat)
  | CAddRouteWithCtx (method : Z) (route : option str) (handler ctx : option nat)
  | CAddGlobalAspect (pre post : option nat)
  | CAddGlobalAspectWithCtx (pre post ctx : option nat)
  | CAddMethodGlobalAspect (method : Z) (pre post : option nat)
  | CAddMethodGlobalAspectWithCtx (method : Z) (pre post ctx : option nat)
  | CAddRouteAspect (method : Z) (route : option str) (pre post : option nat)
  | CAddRouteAspectWithCtx (method : Z) (route : option str) (pre post ctx : option nat)
  | CAddTerminalAspect (method : Z) (route : option str) (pre post : option nat)
  | CAddTerminalAspectWithCtx (method : Z) (route : option str) (pre post ctx : option nat).

Definition run_c_op (h : option nat) (op : c_op) : c_world -> option bsrvcore_result_t * c_world :=
  match op with
  | CStart k => bsrvcore_server_start h k
  | CStop => bsrvcore_server_stop h
  | CAddListen host port n => bsrvcore_server_add_listen h host port n
  | CSetHeaderReadExpiry t => bsrvcore_server_set_header_read_expiry_ms h t
  | CSetDefaultReadExpiry t => bsrvcore_server_set_default_read_expiry_ms h t
  | CSetDefaultWriteExpiry t => bsrvcore_server_set_default_write_expiry_ms h t
  | CSetDefaultMaxBodySize n => bsrvcore_server_set_default_max_body_size h n
  | CSetKeepAliveTimeout t => bsrvcore_server_set_keep_alive_timeout_ms h t
  | CSetRouteReadExpiry m r t => bsrvcore_server_set_route_read_expiry_ms h m r t
  | CSetRouteWriteExpiry m r t => bsrvcore_server_set_route_write_expiry_ms h m r t
  | CSetRouteMaxBodySize m r n => bsrvcore_server_set_route_max_body_size h m r n
  | CAddRoute m r f => bsrvcore_server_add_route h m r f
  | CAddRouteWithCtx m r f c => bsrvcore_server_add_route_with_ctx h m r f c
  | CAddGlobalAspect a b => bsrvcore_server_add_global_aspect h a b
  | CAddGlobalAspectWithCtx a b c => bsrvcore_server_add_global_aspect_with_ctx h a b c
  | CAddMethodGlobalAspect m a b => bsrvcore_server_add_method_global_aspect h m a b
  | CAddMethodGlobalAspectWithCtx m a b c => bsrvcore_server_add_method_global_aspect_with_ctx h m a b c
  | CAddRouteAspect m r a b => bsrvcore_server_add_route_aspect h m r a b
  | CAddRouteAspectWithCtx m r a b c => bsrvcore_server_add_route_aspect_with_ctx h m r a b c
  | CAddTerminalAspect m r a b => bsrvcore_server_add_terminal_aspect h m r a b
  | CAddTerminalAspectWithCtx m r a b c => bsrvcore_server_add_terminal_aspect_with_ctx h m r a b c
  end.

(** ** What a call means *)

Abbreviation hop_t := (http_op (U := option RouteHandlerAdapter) (A := AspectHandlerAdapter) (K := K)).

(** The calls of [ServerRoutes], on servers without blueprints. *)
Definition native_op (s : c_server) (op : hop_t) : c_server :=
  run_http_op (fun _ => None) (fun _ => None) (UserHandler None) sys has_reuse_port s op.

Definition one_of (pre post : option nat) : bool := bool_decide (is_Some pre) || bool_decide (is_Some post).

(** A call on a server: refused with a code, or a call of the C++ interface; in
    the latter case, whether an adapter has to be made for it. *)
Definition for_route (method : Z) (route : option str) (f : nat -> str -> hop_t) : option hop_t :=
  r ← route; m ← TryConvertMethod method; Some (f m r).
Definition or_invalid (o : option hop_t) (adapter : bool) : bsrvcore_result_t + hop_t * bool :=
  match o with Some op => inr (op, adapter) | None => inl RESULT_INVALID_ARGUMENT end.
Definition when (b : bool) (o : option hop_t) : option hop_t := if b then o else None.

Definition meaning (op : c_op) (s : c_server) : bsrvcore_result_t + hop_t * bool :=
  match op with
  | CStart k => if is_running_ (base s) then inl RESULT_ALREADY_RUNNING else inr (HRuntime (OpStart k), false)
  | CStop => inr (HRuntime OpStop, false)
  | CAddListen None _ _ => inl RESULT_INVALID_ARGUMENT
  | CAddListen (Some host) port n =>
      match make_endpoint host port with
      | None => inl RESULT_PARSE_ERROR
      | Some ep => inr (HRuntime (OpAddListen ep n None), false)
      end
  | CSetHeaderReadExpiry t => inr (HRuntime (OpSetHeaderReadExpiry t), false)
  | CSetDefaultReadExpiry t => inr (HSetDefaultReadExpiry t, false)
  | CSetDefaultWriteExpiry t => inr (HSetDefaultWriteExpiry t, false)
  | CSetDefaultMaxBodySize n => inr (HSetDefaultMaxBodySize n, false)
  | CSetKeepAliveTimeout t => inr (HRuntime (OpSetKeepAliveTimeout t), false)
  | CSetRouteReadExpiry m r t => or_invalid (for_route m r (fun m r => HSetReadExpiry m r t)) false
  | CSetRouteWriteExpiry m r t => or_invalid (for_route m r (fun m r => HSetWriteExpiry m r t)) false
  | CSetRouteMaxBodySize m r n => or_invalid (for_route m r (fun m r => HSetMaxBodySize m r n)) false
  | CAddRoute m r f =>
      or_invalid (f ← f; for_route m r (fun m r => HAddRouteEntry m r (adapter (mkRouteAdapter (Some f) None None)))) true
  | CAddRouteWithCtx m r f c =>
      or_invalid (f ← f; for_route m r (fun m r => HAddRouteEntry m r (adapter (mkRouteAdapter None (Some f) c)))) true
  | CAddGlobalAspect a b => or_invalid (when (one_of a b) (Some (HAddGlobalAspect (plain_aspect a b)))) true
  | CAddGlobalAspectWithCtx a b c => or_invalid (when (one_of a b) (Some (HAddGlobalAspect (ctx_aspect a b c)))) true
  | CAddMethodGlobalAspect m a b =>
      or_invalid (when (one_of a b) (m ← TryConvertMethod m; Some (HAddGlobalAspectFor m (plain_aspect a b)))) true
  | CAddMethodGlobalAspectWithCtx m a b c =>
      or_invalid (when (one_of a b) (m ← TryConvertMethod m; Some (HAddGlobalAspectFor m (ctx_aspect a b c)))) true
  | CAddRouteAspect m r a b => or_invalid (when (one_of a b) (for_route m r (fun m r => HAddAspect m r (plain_aspect a b)))) true
  | CAddRouteAspectWithCtx m r a b c => or_invalid (when (one_of a b) (for_route m r (fun m r => HAddAspect m r (ctx_aspect a b c)))) true
  | CAddTerminalAspect m r a b => or_invalid (when (one_of a b) (for_route m r (fun m r => HAddTerminalAspect m r (plain_aspect a b)))) true
  | CAddTerminalAspectWithCtx m r a b c => or_invalid (when (one_of a b) (for_route m r (fun m r => HAddTerminalAspect m r (ctx_aspect a b c)))) true
  end.

(** The handle [p] of a server [s], which is the object [n]. *)
Definition handle_of (w : c_world) (p n : nat) (s : c_server) : Prop :=
  objects w !! p = Some (Wrapper (Some n)) /\ objects w !! n = Some (Native s).

(** How the [i]-th of the things to come that may fail ends. *)
Definition failure (w : c_world) (i : nat) : option exn := default None (budget w !! i).

(** The code an exception is turned into. *)
Definition exn_code (e : exn) : bsrvcore_result_t :=
  match e with bad_alloc => RESULT_ALLOCATION_FAILURE | other_exception => RESULT_INTERNAL_ERROR end.

(** The answer of a call that goes through. *)
Definition call_answer (op : c_op) (s : c_server) : bsrvcore_result_t :=
  match op with
  | CStart k => if (Start sys has_reuse_port k (base s)).1 then RESULT_OK else RESULT_OPERATION_FAILED
  | _ => RESULT_OK
  end.

(** What a call leaves behind, given its meaning: nothing is changed when it is
    refused or its adapter is not made; otherwise the server is what the C++ call
    makes of it, or leaves of it when it throws. *)
Definition outcome_ok (w : c_world) (n : nat) (s : c_server) (op : c_op) (r : bsrvcore_result_t) (w' : c_world) : Prop :=
  match meaning op s with
  | inl e => r = e /\ w' = w
  | inr (hop, needs_adapter) =>
      match (if needs_adapter : bool then failure w 0 else None) with
      | Some e => r = exn_code e /\ objects w' = objects w
      | None =>
          match failure w (if needs_adapter then 1 else 0) with
          | Some e => r = exn_code e /\ objects w' = <[n := Native (aborted s (native_op s hop))]> (objects w)
          | None => r = call_answer op s /\ objects w' = <[n := Native (native_op s hop)]> (objects w)
          end
      end
  end.

Lemma with_server_live w p n s f :
  handle_of w p n s -> guarded (with_server (Some p) f) w = guarded (f n s) w.
Proof. intros [Hp Hn]. unfold guarded, with_server. by rewrite Hp, Hn. Qed.

(** A call makes and frees no object of the world. *)
Definition same_objects (w w' : c_world) : Prop := next_object w' = next_object w /\ freed w' = freed w.

Lemma native_result_outcome w n s s' r :
  exists r' w', guarded (native_result n s s' r) w = (Some r', w') /\
    match failure w 0 with
    | Some e => r' = exn_code e /\ objects w' = <[n := Native (aborted s s')]> (objects w)
    | None => r' = r /\ objects w' = <[n := Native s']> (objects w)
    end /\ same_objects w w'.
Proof.
  unfold guarded, native_result, bind, attempt, failure, same_objects.
  destruct (budget w) as [|[[]|] b] eqn:E; eexists _, _; (split; [reflexivity|]); cbn; auto 10.
Qed.

Lemma registered_outcome w n s s' :
  exists r' w', guarded (registered n s s') w = (Some r', w') /\
    match failure w 0 with
    | Some e => r' = exn_code e /\ objects w' = objects w
    | None =>
        match failure w 1 with
        | Some e => r' = exn_code e /\ objects w' = <[n := Native (aborted s s')]> (objects w)
        | None => r' = RESULT_OK /\ objects w' = <[n := Native s']> (objects w)
        end
    end /\ same_objects w w'.
Proof.
  unfold guarded, registered, native_call, native_result, allocate, bind, attempt, failure, same_objects.
  destruct (budget w) as [|[[]|] [|[[]|] b]] eqn:E; eexists _, _; cbn; rewrite ?E; cbn; (split; [reflexivity|]); cbn; auto 10.
Qed.

Lemma run_c_op_outcome (op : c_op) (w : c_world) (p n : nat) (s : c_server) :
  handle_of w p n s ->
  exists r w', run_c_op (Some p) op w = (Some r, w') /\ outcome_ok w n s op r w' /\ same_objects w w'.
Proof.
  intros Hh.
  destruct op; cbn [run_c_op];
    unfold bsrvcore_server_start, bsrvcore_server_stop, bsrvcore_server_add_listen,
      bsrvcore_server_set_header_read_expiry_ms, bsrvcore_server_set_default_read_expiry_ms,
      bsrvcore_server_set_default_write_expiry_ms, bsrvcore_server_set_default_max_body_size,
      bsrvcore_server_set_keep_alive_timeout_ms, bsrvcore_server_set_route_read_expiry_ms,
      bsrvcore_server_set_route_write_expiry_ms, bsrvcore_server_set_route_max_body_size,
      bsrvcore_server_add_route, bsrvcore_server_add_route_with_ctx, bsrvcore_server_add_global_aspect,
      bsrvcore_server_add_global_aspect_with_ctx, bsrvcore_server_add_method_global_aspect,
      bsrvcore_server_add_method_global_aspect_with_ctx, bsrvcore_server_add_route_aspect,
      bsrvcore_server_add_route_aspect_with_ctx, bsrvcore_server_add_terminal_aspect,
      bsrvcore_server_add_terminal_aspect_with_ctx, method_aspect, route_aspect, terminal_aspect, outcome_ok;
    rewrite (with_server_live w p n s) by done.
  all: unfold with_route, with_aspect; cbn [meaning]; unfold for_route, or_invalid, when, one_of.
  1: { destruct (is_running_ (base s)); [by eexists _, _|]. unfold native_op. cbn [run_http_op run_op].
    cbn [call_answer]. destruct (Start sys has_reuse_port k (base s)) as [ok [b k']]. apply native_result_outcome. }
  all: repeat match goal with x : option _ |- _ => destruct x end; try destruct (TryConvertMethod _);
    try destruct (make_endpoint _ _); cbn [bool_decide orb mbind option_bind call_answer]; try (by eexists _, _);
    try apply native_result_outcome; try apply registered_outcome.
Qed.


(** ** Handles over time *)

(** A C program: it keeps the handles it was given and uses those it has not
    destroyed, or null ([nth] beyond them). *)
Inductive c_action :=
  | ACreate (worker_threads : Z) (out : bool)
  | ADestroy (i : nat)
  | ACall (i : nat) (op : c_op).

Record c_client := mkClient { handles : list nat; world : c_world }.

(** [None] is undefined behaviour. *)
Definition run_action (c : c_client) (a : c_action) : option c_client :=
  match a with
  | ACreate t out =>
      match bsrvcore_server_create t out (world c) with
      | (None, _) => None
      | (Some RESULT_OK, w) => Some (mkClient (handles c ++ option_list (out_server w)) w)
      | (Some _, w) => Some (mkClient (handles c) w)
      end
  | ADestroy i =>
      match bsrvcore_server_destroy (handles c !! i) (world c) with
      | (Ok _, w) => Some (mkClient (delete i (handles c)) w)
      | _ => None
      end
  | ACall i op =>
      match run_c_op (handles c !! i) op (world c) with
      | (None, _) => None
      | (Some _, w) => Some (mkClient (handles c) w)
      end
  end.

Fixpoint run_actions (c : c_client) (l : list c_action) : option c_client :=
  match l with
  | [] => Some c
  | a :: l => c ← run_action c a; run_actions c l
  end.

Definition new_client (b : list (option exn)) : c_client := mkClient [] (mkWorld ∅ 0 b [] None).

(** Two objects for each handle, its wrapper and its server, and no others. *)
Record client_inv (c : c_client) (natives : list nat) : Prop := {
  ci_length : length natives = length (handles c);
  ci_nodup : NoDup (handles c ++ natives);
  ci_live : forall i p n, handles c !! i = Some p -> natives !! i = Some n -> exists s, handle_of (world c) p n s;
  ci_only : forall p, is_Some (objects (world c) !! p) -> p ∈ handles c ++ natives;
  ci_fresh : forall p, is_Some (objects (world c) !! p) \/ p ∈ (freed (world c)).*1 -> p < next_object (world c);
  ci_freed : NoDup (freed (world c)).*1 /\ forall p, p ∈ (freed (world c)).*1 -> objects (world c) !! p = None;
  ci_stopped : forall p s, (p, Native s) ∈ freed (world c) -> is_running_ (base s) = false;
}.

Lemma Stop_not_running s : is_running_ (Stop s) = false.
Proof. destruct (is_running_ s) eqn:E; [by rewrite Stop_spec|]. unfold Stop. by rewrite E. Qed.

(** A server changes, nothing else. *)
Lemma client_inv_server c natives n s w' :
  client_inv c natives -> same_objects (world c) w' ->
  n ∈ natives -> objects w' = objects (world c) \/ objects w' = <[n := Native s]> (objects (world c)) ->
  client_inv (mkClient (handles c) w') natives.
Proof.
  intros [Hl Hnd Hlive Hon Hfr [Hfd Hfn] Hst] [Hx Hf] Hin Ho.
  assert (is_Some (objects (world c) !! n)) as Hn.
  { apply list_elem_of_lookup in Hin as [i Hi]. destruct (lookup_lt_is_Some_2 (handles c) i) as [p Hp]; [rewrite <- Hl; by eapply lookup_lt_Some|].
    destruct (Hlive i p n Hp Hi) as [x [_ Hx']]. by eexists. }
  assert (forall p, is_Some (objects w' !! p) <-> is_Some (objects (world c) !! p)) as Hdom.
  { intros p. destruct Ho as [-> | ->]; [done|]. destruct (decide (p = n)) as [->|]; [|by rewrite lookup_insert_ne].
    by rewrite lookup_insert_eq. }
  split; cbn [handles world]; rewrite ?Hx, ?Hf; try done.
  - intros i p m Hp Hm. destruct (Hlive i p m Hp Hm) as [x [H1 H2]]. destruct Ho as [E|E]; [exists x; unfold handle_of; by rewrite E|].
    assert (p <> n) as Hpn.
    { apply NoDup_app in Hnd as (_ & Hnd & _). intros ->. apply (Hnd n); [by eapply list_elem_of_lookup_2|done]. }
    destruct (decide (m = n)) as [->|Hmn]; [exists s|exists x]; unfold handle_of; rewrite E, lookup_insert_ne by done.
    + by rewrite lookup_insert_eq.
    + by rewrite lookup_insert_ne.
  - intros p Hp. by apply Hon, Hdom.
  - intros p [Hp|Hp]; apply Hfr; [left; by apply Hdom|by right].
  - split; [done|]. intros p Hp. destruct (objects w' !! p) eqn:E; [|done].
    assert (is_Some (objects (world c) !! p)) as [y Hy] by (apply Hdom; by eexists). by rewrite Hfn in Hy.
Qed.

Lemma client_inv_call c natives i op :
  client_inv c natives -> exists c', run_action c (ACall i op) = Some c' /\ client_inv c' natives.
Proof.
  intros Hi. pose proof Hi as [Hl Hnd Hlive _ _ _ _]. cbn [run_action].
  destruct (handles c !! i) as [p|] eqn:Hp.
  2: { destruct (run_c_op None op (world c)) as [r w] eqn:E.
       assert ((r, w) = (Some RESULT_INVALID_ARGUMENT, world c)) as [= -> ->] by (rewrite <- E; by destruct op).
       eexists. split; [done|]. by destruct c. }
  destruct (lookup_lt_is_Some_2 natives i) as [n Hn]; [rewrite Hl; by eapply lookup_lt_Some|].
  destruct (Hlive i p n Hp Hn) as [s Hh].
  destruct (run_c_op_outcome op (world c) p n s Hh) as (r & w' & -> & Ho & Hsame). eexists. split; [done|].
  unfold outcome_ok in Ho. destruct (meaning op s) as [e|[hop b]].
  - destruct Ho as [_ ->]. by destruct c.
  - assert (exists s', objects w' = objects (world c) \/ objects w' = <[n := Native s']> (objects (world c))) as [s' Hs'].
    { destruct (if b : bool then failure (world c) 0 else None); [exists s; left; apply Ho|].
      destruct (failure (world c) _); eexists; right; apply Ho. }
    by eapply (client_inv_server c natives n s'); [..|by eapply list_elem_of_lookup_2|].
Qed.

(** Freeing keeps the books. *)
Lemma deallocate_live q o w :
  objects w !! q = Some o ->
  deallocate q w = (Ok tt, mkWorld (delete q (objects w)) (next_object w) (budget w) (freed w ++ [(q, o)]) (out_server w)).
Proof. intros Hq. unfold deallocate. by rewrite Hq. Qed.

Lemma destroy_spec w p n s :
  handle_of w p n s -> p <> n ->
  bsrvcore_server_destroy (Some p) w =
    (Ok tt, mkWorld (delete p (delete n (objects w))) (next_object w) (budget w)
       (freed w ++ [(n, Native (set_base (Stop (base s)) s)); (p, Wrapper (Some n))]) (out_server w)).
Proof.
  intros [Hp Hn] Hne. unfold bsrvcore_server_destroy, destroy_wrapper, store, bind. rewrite Hp, Hn.
  rewrite (deallocate_live n (Native (set_base (Stop (base s)) s))) by (cbn; by rewrite lookup_insert_eq).
  cbn [objects set_objects next_object budget freed out_server].
  rewrite delete_insert_eq. rewrite (deallocate_live p (Wrapper (Some n))) by (cbn; by rewrite lookup_delete_ne).
  cbn. by rewrite <- app_assoc.
Qed.

Lemma client_inv_destroy c natives i :
  client_inv c natives -> exists c' natives', run_action c (ADestroy i) = Some c' /\ client_inv c' natives'.
Proof.
  intros Hi. pose proof Hi as [Hl Hnd Hlive Hon Hfr [Hfd Hfn] Hst]. cbn [run_action].
  destruct (handles c !! i) as [p|] eqn:Hp.
  2: { eexists _, natives. split; [done|]. cbn. rewrite delete_take_drop, take_ge, drop_ge, app_nil_r by (apply lookup_ge_None_1 in Hp; lia). by destruct c. }
  destruct (lookup_lt_is_Some_2 natives i) as [n Hn]; [rewrite Hl; by eapply lookup_lt_Some|].
  destruct (Hlive i p n Hp Hn) as [s Hh]. pose proof Hh as [Hop Hon'].
  assert (p <> n) as Hpn.
  { intros ->. apply NoDup_app in Hnd as (_ & Hd & _). eapply Hd; by eapply list_elem_of_lookup_2. }
  rewrite (destroy_spec _ p n s Hh Hpn). eexists _, (delete i natives). split; [reflexivity|].
  assert (handles c ++ natives ≡ₚ p :: n :: (delete i (handles c) ++ delete i natives)) as Hperm.
  { rewrite (delete_Permutation (handles c) i p Hp) at 1. rewrite (delete_Permutation natives i n Hn) at 1.
    cbn. constructor. by rewrite Permutation_middle. }
  rewrite Hperm in Hnd. apply NoDup_cons in Hnd as [Hp1 [Hn1 Hnd]%NoDup_cons].
  split; cbn [handles world objects freed next_object].
  - rewrite !length_delete by (by eexists). lia.
  - done.
  - intros j q m. rewrite !list_lookup_delete. intros Hq Hm.
    assert (q ∈ delete i (handles c) ++ delete i natives /\ m ∈ delete i (handles c) ++ delete i natives) as [Iq Im].
    { split; apply elem_of_app; [left|right]; apply list_elem_of_lookup; exists j; by rewrite list_lookup_delete. }
    assert (exists s', handle_of (world c) q m s') as (s' & H1 & H2) by (destruct (decide (j < i)); eauto).
    exists s'. unfold handle_of. cbn. rewrite !lookup_delete_ne by (intros ->; set_solver). done.
  - intros q [o [Hqp [Hqn Hq]%lookup_delete_Some]%lookup_delete_Some].
    assert (q ∈ handles c ++ natives) as Hin by (apply Hon; by eexists). rewrite Hperm in Hin. set_solver.
  - intros q Hq. apply Hfr. destruct Hq as [[o [Hqp [Hqn Hq]%lookup_delete_Some]%lookup_delete_Some]|Hq]; [left; by eexists|].
    rewrite fmap_app in Hq. apply elem_of_app in Hq as [Hq|Hq]; [by right|left].
    cbn in Hq. apply elem_of_cons in Hq as [->|Hq]; [by eexists|]. apply list_elem_of_singleton in Hq as ->. by eexists.
  - rewrite fmap_app. cbn. split.
    + apply NoDup_app. split_and!; [done| |].
      * intros q Hq Hin. apply Hfn in Hq. apply elem_of_cons in Hin as [-> | ->%list_elem_of_singleton]; congruence.
      * apply NoDup_cons. split; [by intros ->%list_elem_of_singleton|apply NoDup_singleton].
    + intros q Hq. apply elem_of_app in Hq as [Hq|Hq].
      * rewrite !lookup_delete_None. right. right. by apply Hfn.
      * apply elem_of_cons in Hq as [-> | ->%list_elem_of_singleton]; rewrite !lookup_delete_None; auto.
  - intros q x [Hx|Hx]%elem_of_app; [by eapply Hst|].
    apply elem_of_cons in Hx as [[= -> ->]|[=]%list_elem_of_singleton]. cbn. apply Stop_not_running.
Qed.

Lemma client_inv_fresh c natives w' :
  client_inv c natives -> objects w' = objects (world c) -> freed w' = freed (world c) -> next_object w' = next_object (world c) ->
  client_inv (mkClient (handles c) w') natives.
Proof. intros [] Ho Hf Hn. split; cbn [handles world]; rewrite ?Hf, ?Ho, ?Hn; try done. intros i p n Hp Hq. unfold handle_of. rewrite Ho. eauto. Qed.

(** Creating a server: refused or out of memory with nothing left behind, or two
    new objects. *)
Lemma create_cases t out w :
  objects w !! next_object w = None ->
  exists r w', bsrvcore_server_create t out w = (Some r, w') /\
  ((r <> RESULT_OK /\ objects w' = objects w /\ freed w' = freed w /\ next_object w' = next_object w) \/
   (r <> RESULT_OK /\ objects w' = objects w /\ freed w' = freed w ++ [(next_object w, Wrapper None)] /\ next_object w' = S (next_object w)) \/
   (r = RESULT_OK /\ out_server w' = Some (next_object w) /\ freed w' = freed w /\ next_object w' = S (S (next_object w)) /\
    exists s, objects w' = <[next_object w := Wrapper (Some (S (next_object w)))]> (<[S (next_object w) := Native s]> (objects w)))).
Proof.
  intros Hnew. unfold bsrvcore_server_create, guarded. destruct out; cbn [negb]; [|by eexists _, _; split; [reflexivity|left]].
  unfold release_on_throw, AllocateUnique, allocate, set_out, store, destroy_wrapper, deallocate, ret, bind. cbn [budget objects].
  destruct w as [objs k b f o]. cbn in *.
  assert (forall x : c_object, <[k:=x]> objs !! k = Some x) as Hk by (intros x; apply lookup_insert_eq).
  assert (forall x y : c_object, <[k := x]> (<[S k := y]> (<[k := Wrapper None]> objs)) = <[k := x]> (<[S k := y]> objs)) as Hins.
  { intros x y. apply map_eq. intros j. destruct (decide (j = k)) as [->|]; [by rewrite !lookup_insert_eq|].
    rewrite !(lookup_insert_ne _ k) by done. destruct (decide (j = S k)) as [->|]; [by rewrite !lookup_insert_eq|].
    by rewrite !lookup_insert_ne. }
  destruct b as [|[e|] b]; cbn.
  - eexists _, _. split; [reflexivity|]. right; right. cbn. split_and!; try done. eexists. apply Hins.
  - destruct e; eexists _, _; (split; [reflexivity|]); by left.
  - destruct b as [|[e|] b]; cbn.
    + eexists _, _. split; [reflexivity|]. right; right. cbn. split_and!; try done. eexists. apply Hins.
    + rewrite Hk. cbn. rewrite Hk. cbn. destruct e; eexists _, _; (split; [reflexivity|]); right; left; cbn;
        by rewrite delete_insert_id.
    + eexists _, _. split; [reflexivity|]. right; right. cbn. split_and!; try done. eexists. apply Hins.
Qed.

Lemma client_inv_new c natives q :
  client_inv c natives -> next_object (world c) <= q -> objects (world c) !! q = None /\ q ∉ (freed (world c)).*1.
Proof.
  intros [_ _ _ _ Hfr _ _] Hq. split; [destruct (objects (world c) !! q) eqn:E; [|done]|intros Hin]; exfalso;
    assert (q < next_object (world c)) by (apply Hfr; eauto); lia.
Qed.

Lemma client_inv_below c natives q : client_inv c natives -> q ∈ handles c ++ natives -> q < next_object (world c).
Proof.
  intros [Hl _ Hlive _ Hfr _ _] Hq. apply Hfr. left.
  apply elem_of_app in Hq as [Hq|Hq]; apply list_elem_of_lookup in Hq as [i Hq].
  - destruct (lookup_lt_is_Some_2 natives i) as [n Hn]; [rewrite Hl; by eapply lookup_lt_Some|].
    destruct (Hlive i q n Hq Hn) as [x [Hx _]]. by eexists.
  - destruct (lookup_lt_is_Some_2 (handles c) i) as [n Hn]; [rewrite <- Hl; by eapply lookup_lt_Some|].
    destruct (Hlive i n q Hn Hq) as [x [_ Hx]]. by eexists.
Qed.

(** The wrapper was made and released again. *)
Lemma client_inv_undone c natives w' :
  let k := next_object (world c) in
  client_inv c natives -> objects w' = objects (world c) -> freed w' = freed (world c) ++ [(k, Wrapper None)] ->
  next_object w' = S k -> client_inv (mkClient (handles c) w') natives.
Proof.
  intros k Hi Ho Hf Hn. pose proof (fun q => client_inv_new c natives q Hi) as Hnew. fold k in Hnew.
  destruct Hi as [Hl Hnd Hlive Hon Hfr [Hfd Hfn] Hst]. fold k in Hfr.
  split; cbn [handles world]; rewrite ?Hf, ?Ho, ?Hn, ?fmap_app; try done.
  - intros i p n Hp Hq. unfold handle_of. rewrite Ho. eauto.
  - intros p Hp. assert (p < k \/ p = k) as [?|?]; [|lia..].
    destruct Hp as [Hp|[Hp| ->%list_elem_of_singleton]%elem_of_app]; [left; apply Hfr; eauto..|by right].
  - split; [apply NoDup_app; split_and!; [done| |apply NoDup_singleton]|].
    + intros q Hq ->%list_elem_of_singleton. by destruct (Hnew k ltac:(lia)).
    + intros q [Hq| ->%list_elem_of_singleton]%elem_of_app; [by apply Hfn|by apply Hnew].
  - intros q x [Hx|[=]%list_elem_of_singleton]%elem_of_app. by eapply Hst.
Qed.

(** Wrapper and server were made. *)
Lemma client_inv_made c natives w' s :
  let k := next_object (world c) in
  client_inv c natives -> freed w' = freed (world c) -> next_object w' = S (S k) ->
  objects w' = <[k := Wrapper (Some (S k))]> (<[S k := Native s]> (objects (world c))) ->
  client_inv (mkClient (handles c ++ [k]) w') (natives ++ [S k]).
Proof.
  intros k Hi Hf Hn Ho. pose proof (fun q => client_inv_below c natives q Hi) as Hlt. fold k in Hlt.
  destruct Hi as [Hl Hnd Hlive Hon Hfr [Hfd Hfn] Hst]. fold k in Hfr.
  split; cbn [handles world]; rewrite ?Hf, ?Hn.
  - rewrite !length_app. cbn. lia.
  - rewrite <- app_assoc. assert (handles c ++ [k] ++ natives ++ [S k] ≡ₚ k :: S k :: handles c ++ natives) as ->.
    { cbn. rewrite <- Permutation_middle. constructor. rewrite app_assoc, Permutation_app_comm. done. }
    apply NoDup_cons. split; [|apply NoDup_cons; split; [|done]].
    + intros [E|Hin]%elem_of_cons; [lia|]. apply Hlt in Hin. lia.
    + intros Hin. apply Hlt in Hin. lia.
  - intros i p n Hp Hq. apply lookup_app_Some in Hp as [Hp|[Hge Hp]].
    + rewrite lookup_app_l in Hq by (rewrite Hl; by eapply lookup_lt_Some). destruct (Hlive i p n Hp Hq) as [x [H1 H2]].
      exists x. unfold handle_of. rewrite Ho.
      assert (p < k) by (apply Hfr; left; by eexists). assert (n < k) by (apply Hfr; left; by eexists).
      by rewrite !lookup_insert_ne by lia.
    + apply list_lookup_singleton_Some in Hp as [Hi0 <-]. assert (i = length natives) as -> by lia.
      rewrite list_lookup_middle in Hq by done. injection Hq as <-. exists s. unfold handle_of. rewrite Ho.
      split; [by rewrite lookup_insert_eq|]. rewrite lookup_insert_ne by lia. by rewrite lookup_insert_eq.
  - intros p. rewrite Ho. intros [o [[<- _]|[Hpk [[<- _]|[Hps Hp]]%lookup_insert_Some]]%lookup_insert_Some]; [set_solver..|].
    assert (p ∈ handles c ++ natives) by (apply Hon; by eexists). set_solver.
  - intros p [Hp|Hp]; [|assert (p < k) by (apply Hfr; eauto); lia]. rewrite Ho in Hp.
    destruct Hp as [o [[<- _]|[Hpk [[<- _]|[Hps Hp]]%lookup_insert_Some]]%lookup_insert_Some]; [lia..|].
    assert (p < k) by (apply Hfr; eauto). lia.
  - split; [done|]. intros p Hp. assert (p < k) by (apply Hfr; eauto). rewrite Ho, !lookup_insert_ne by lia. by apply Hfn.
  - done.
Qed.

Lemma client_inv_create c natives t out :
  client_inv c natives -> exists c' natives', run_action c (ACreate t out) = Some c' /\ client_inv c' natives'.
Proof.
  intros Hi. cbn [run_action].
  destruct (create_cases t out (world c)) as (r & w' & -> & Hc); [by apply (client_inv_new c natives)|].
  destruct Hc as [(Hr & Ho & Hf & Hn)|[(Hr & Ho & Hf & Hn)|(-> & Hout & Hf & Hn & s & Ho)]].
  - eexists (mkClient (handles c) w'), natives. split; [by destruct r|]. by apply (client_inv_fresh c).
  - eexists (mkClient (handles c) w'), natives. split; [by destruct r|]. by apply client_inv_undone.
  - rewrite Hout. cbn [option_list]. eexists _, (natives ++ [S _]). split; [done|]. by eapply client_inv_made.
Qed.

(** C39. Handles own what they stand for.  A C program that uses a handle only until
    it destroys it runs into no undefined behaviour, whatever it calls, in whatever
    order, whenever memory runs out and whichever calls of a server throw.  At any time exactly two objects are
    live for each handle it has, the wrapper and the server, and they belong to
    no other handle; nothing is freed twice; every server that was freed had been
    stopped; and when the last handle is destroyed nothing is left. *)
Theorem c_handles_owned (actions : list c_action) (b : list (option exn)) :
  exists c natives, run_actions (new_client b) actions = Some c /\
    NoDup (handles c ++ natives) /\ length natives = length (handles c) /\
    (forall i p n, handles c !! i = Some p -> natives !! i = Some n -> exists s, handle_of (world c) p n s) /\
    (forall p, is_Some (objects (world c) !! p) -> p ∈ handles c ++ natives) /\
    NoDup (freed (world c)).*1 /\
    (forall p s, (p, Native s) ∈ freed (world c) -> is_running_ (base s) = false) /\
    (handles c = [] -> objects (world c) = ∅).
Proof.
  assert (forall c natives, client_inv c natives ->
    exists c' natives', run_actions c actions = Some c' /\ client_inv c' natives') as Hrun.
  { induction actions as [|a l IH]; intros c natives Hc; [by eexists _, _|]. cbn [run_actions].
    assert (exists c' natives', run_action c a = Some c' /\ client_inv c' natives') as (c1 & n1 & -> & Hc1).
    { destruct a; [by eapply client_inv_create|by eapply client_inv_destroy|].
      destruct (client_inv_call c natives i op Hc) as (c' & ? & ?). by exists c', natives. }
    by eapply IH. }
  destruct (Hrun (new_client b) []) as (c & natives & Hc & [Hl Hnd Hlive Hon _ [Hfd _] Hst]).
  { split; cbn; try done; try (by split); try (by intros ? [? ?]); [apply NoDup_nil_2| |split; [apply NoDup_nil_2|by intros]|].
    - intros p [[x Hx]|Hin]; [by rewrite lookup_empty in Hx|by apply not_elem_of_nil in Hin].
    - intros p s Hin. by apply not_elem_of_nil in Hin. }
  exists c, natives. split_and!; try done. intros He. apply map_empty. intros p.
  destruct (objects (world c) !! p) eqn:E; [|done].
  assert (p ∈ handles c ++ natives) as Hin by (apply Hon; by eexists). rewrite He in Hin, Hl.
  destruct natives; [|done]. by apply not_elem_of_nil in Hin.
Qed.
End server.

(** ** Tasks *)

Section tasks.
Context {F : Type} {HF : HttpFields F} {W H A : Type}.
(** Whether [result] of a response takes a status. *)
Context (accept_status : Z -> bool).

(** A native task with the status of its response. *)
Record c_task := mkCTask {
  native_task : server_task (F := F) (W := W) (H := H) (A := A);
  status : Z;
}.

Definition on_life (f : HttpTaskSharedState (F := F) (W := W) -> HttpTaskSharedState) (t : c_task) : c_task :=
  mkCTask (set_life (f (life (native_task t))) (native_task t)) (status t).

(** The task's own calls. *)
Definition task_call (c : call (F := F)) (t : c_task) : c_task :=
  on_life (fun l => run_call (RouteTable.write_expiry (route_result (native_task t))) l c) t.

(** [GetResponse().result(static_cast<HttpStatus>(status_code))]: the enumeration is
    unsigned. *)
Definition set_result (status_code : Z) (t : c_task) : option c_task :=
  let v := (status_code mod 2 ^ 32)%Z in
  if accept_status v then Some (mkCTask (native_task t) v) else None.

Definition error_body : str := lit "Unhandled exception in bsrvcore C binding callback.".
Definition error_type : str := lit "text/plain; charset=utf-8".

Definition SetInternalErrorResponse (t : c_task) : c_task :=
  match set_result 500 t with
  | None => t
  | Some t => task_call (SetBody error_body) (task_call (SetField (lit "Content-Type") error_type) t)
  end.

(** A buffer: null or not, and a length; it holds at least that many bytes. *)
Definition ValidateBufferArg (data : option str) (len : nat) : bool :=
  match data with None => len =? 0 | Some _ => true end.
Definition CopyBuffer (data : option str) (len : nat) : str :=
  match data with None => [] | Some d => take len d end.

(** ** The functions of task.cc *)

(** [task]: whether the handle is not null.  Pointers for results: null or not. *)
Inductive c_call :=
  | get_request_header (task : bool) (key : option str) (out_value out_value_len : bool)
  | get_request_body (task : bool) (out_body out_body_len : bool)
  | set_status (task : bool) (status_code : Z)
  | set_response_header (task : bool) (key value : option str)
  | set_response_body (task : bool) (body : option str) (len : nat)
  | append_response_body (task : bool) (body : option str) (len : nat)
  | set_response (task : bool) (status_code : Z) (content_type body : option str) (len : nat).

Record c_reply := mkReply {
  code : bsrvcore_result_t;
  out_data : option str;
  out_len : option nat;
}.

Definition answer (r : bsrvcore_result_t) : c_reply := mkReply r None None.

Definition GetRequestHeaderImpl (key : option str) (out_value out_value_len : bool) (t : c_task) : c_reply :=
  match key with
  | None => answer RESULT_INVALID_ARGUMENT
  | Some key =>
      if negb out_value then answer RESULT_INVALID_ARGUMENT
      else
        match head (f_values key (req_fields (native_task t))) with
        | None => answer RESULT_NOT_FOUND
        | Some v => mkReply RESULT_OK (Some v) (if out_value_len then Some (length v) else None)
        end
  end.

Definition GetRequestBodyImpl (out_body out_body_len : bool) (t : c_task) : c_reply :=
  if negb out_body then answer RESULT_INVALID_ARGUMENT
  else
    let body := req_body (native_task t) in
    mkReply RESULT_OK (Some body) (if out_body_len then Some (length body) else None).

Definition SetStatusImpl (status_code : Z) (t : c_task) : cres bsrvcore_result_t * c_task :=
  match set_result status_code t with
  | None => (Throw other_exception, t)
  | Some t => (Ok RESULT_OK, t)
  end.

Definition SetResponseHeaderImpl (key value : option str) (t : c_task) : cres bsrvcore_result_t * c_task :=
  match key, value with
  | Some key, Some value => (Ok RESULT_OK, task_call (SetField key value) t)
  | _, _ => (Ok RESULT_INVALID_ARGUMENT, t)
  end.

Definition SetResponseBodyImpl (body : option str) (len : nat) (t : c_task) : cres bsrvcore_result_t * c_task :=
  if negb (ValidateBufferArg body len) then (Ok RESULT_INVALID_ARGUMENT, t)
  else (Ok RESULT_OK, task_call (SetBody (CopyBuffer body len)) t).

Definition AppendResponseBodyImpl (body : option str) (len : nat) (t : c_task) : cres bsrvcore_result_t * c_task :=
  if negb (ValidateBufferArg body len) then (Ok RESULT_INVALID_ARGUMENT, t)
  else (Ok RESULT_OK, task_call (AppendBody (CopyBuffer body len)) t).

Definition SetResponseImpl (status_code : Z) (content_type body : option str) (len : nat) (t : c_task) :
    cres bsrvcore_result_t * c_task :=
  if negb (ValidateBufferArg body len) then (Ok RESULT_INVALID_ARGUMENT, t)
  else
    match set_result status_code t with
    | None => (Throw other_exception, t)
    | Some t =>
        let t := match content_type with None => t | Some c => task_call (SetField (lit "Content-Type") c) t end in
        (Ok RESULT_OK, task_call (SetBody (CopyBuffer body len)) t)
    end.

(** [ValidateTask], then the function, under [Guard]; nothing here is undefined. *)
Definition for_wrapper (task : bool) (f : c_task -> cres bsrvcore_result_t * c_task) (t : c_task) : c_reply * c_task :=
  if negb task then (answer RESULT_INVALID_ARGUMENT, t)
  else let '(r, t) := f t in (answer (default RESULT_INTERNAL_ERROR (Guard r)), t).

Definition run_c_call (c : c_call) (t : c_task) : c_reply * c_task :=
  match c with
  | get_request_header task key v l =>
      (if negb task then answer RESULT_INVALID_ARGUMENT else GetRequestHeaderImpl key v l t, t)
  | get_request_body task v l => (if negb task then answer RESULT_INVALID_ARGUMENT else GetRequestBodyImpl v l t, t)
  | set_status task s => for_wrapper task (SetStatusImpl s) t
  | set_response_header task k v => for_wrapper task (SetResponseHeaderImpl k v) t
  | set_response_body task b n => for_wrapper task (SetResponseBodyImpl b n) t
  | append_response_body task b n => for_wrapper task (AppendResponseBodyImpl b n) t
  | set_response task s c b n => for_wrapper task (SetResponseImpl s c b n) t
  end.

(** Pre-aspects can also mark a failure. *)
Inductive c_pre_call := PreTask (c : c_call) | mark_aspect_failure (task : bool).

Definition MarkAspectFailureForWrapper (task : bool) (t : c_task) : c_reply * c_task :=
  if negb task then (answer RESULT_INVALID_ARGUMENT, t)
  else (answer RESULT_OK, on_life mark_failure t).

Definition run_c_pre_call (c : c_pre_call) (t : c_task) : c_reply * c_task :=
  match c with PreTask c => run_c_call c t | mark_aspect_failure task => MarkAspectFailureForWrapper task t end.

(** ** Callbacks *)

(** What a function does: return, throw (C++ code behind the C function), or call
    and go on with the answer. *)
Inductive c_prog (C : Type) := Return | ThrowException | Invoke (c : C) (k : c_reply -> c_prog C).
Arguments Return {_}.
Arguments ThrowException {_}.
Arguments Invoke {_} _ _.

(** Whether it threw. *)
Fixpoint run_prog {C} (run : C -> c_task -> c_reply * c_task) (p : c_prog C) (t : c_task) : bool * c_task :=
  match p with
  | Return => (false, t)
  | ThrowException => (true, t)
  | Invoke c k => let '(r, t) := run c t in run_prog run (k r) t
  end.

(** What is behind a function pointer, given its context. *)
Context (handler_fn : nat -> option nat -> c_prog c_call) (pre_fn : nat -> option nat -> c_prog c_pre_call)
        (post_fn : nat -> option nat -> c_prog c_call).

Definition guarded_callback {C} (run : C -> c_task -> c_reply * c_task) (p : c_prog C) (t : c_task) : c_task :=
  let '(threw, t) := run_prog run p t in if threw then SetInternalErrorResponse t else t.

(** The function with a context goes before the one without. *)
Definition chosen {C} (ctx_fn fn ctx : option nat) (behaviour : nat -> option nat -> c_prog C) : c_prog C :=
  match ctx_fn with
  | Some f => behaviour f ctx
  | None => match fn with Some f => behaviour f None | None => Return end
  end.

Definition AdapterService (a : RouteHandlerAdapter) : c_task -> c_task :=
  guarded_callback run_c_call (chosen (ctx_fn_ a) (fn_ a) (ctx_ a) handler_fn).
Definition AdapterPreService (a : AspectHandlerAdapter) : c_task -> c_task :=
  guarded_callback run_c_pre_call (chosen (pre_ctx_fn_ a) (pre_fn_ a) (aspect_ctx_ a) pre_fn).
Definition AdapterPostService (a : AspectHandlerAdapter) : c_task -> c_task :=
  guarded_callback run_c_call (chosen (post_ctx_fn_ a) (post_fn_ a) (aspect_ctx_ a) post_fn).

(** ** What callbacks can do *)

Definition response_call (c : call (F := F)) : Prop :=
  match c with SetBody _ | AppendBody _ | SetField _ _ => True | _ => False end.
Definition response_pre_call (c : pre_call (F := F)) : Prop :=
  match c with PreCall c => response_call c | MarkAspectFailure => True end.

(** [t'] is [t] after these calls of the lifecycle. *)
Definition after_calls (t t' : c_task) (cs : list (pre_call (F := F))) : Prop :=
  native_task t' = set_life
    (foldl (run_pre_call (RouteTable.write_expiry (route_result (native_task t)))) (life (native_task t)) cs) (native_task t).

Lemma after_calls_nil t z : after_calls t (mkCTask (native_task t) z) [].
Proof. unfold after_calls. by destruct (native_task t). Qed.

Lemma after_calls_refl t : after_calls t t [].
Proof. unfold after_calls. by destruct (native_task t). Qed.

Lemma after_calls_app t1 t2 t3 a b : after_calls t1 t2 a -> after_calls t2 t3 b -> after_calls t1 t3 (a ++ b).
Proof. unfold after_calls. intros H1 H2. rewrite H2, H1, foldl_app. done. Qed.

Lemma task_call_after c t : after_calls t (task_call c t) [PreCall c].
Proof. done. Qed.

Lemma set_result_after z t t' : set_result z t = Some t' -> after_calls t t' [].
Proof. unfold set_result. destruct (accept_status _); [|done]. intros [= <-]. apply after_calls_nil. Qed.

(** The calls that answer the error page. *)
Lemma error_after t : exists cs, Forall response_call cs /\ after_calls t (SetInternalErrorResponse t) (PreCall <$> cs).
Proof.
  unfold SetInternalErrorResponse. destruct (set_result 500 t) as [t'|] eqn:E.
  - exists [SetField (lit "Content-Type") error_type; SetBody error_body]. split; [by repeat constructor|].
    apply (after_calls_app t t' _ []); [by eapply set_result_after|].
    apply (after_calls_app t' (task_call (SetField (lit "Content-Type") error_type) t') _ [_] [_]); apply task_call_after.
  - exists []. split; [constructor|apply after_calls_refl].
Qed.

Lemma run_c_call_after c t :
  exists cs, Forall response_call cs /\ after_calls t (run_c_call c t).2 (PreCall <$> cs).
Proof.
  assert (forall t', t' = t -> exists cs, Forall response_call cs /\ after_calls t t' (PreCall <$> cs)) as Hno.
  { intros t' ->. exists []. split; [constructor|apply after_calls_refl]. }
  destruct c as [tk k v l|tk v l|tk z|tk k v|tk b n|tk b n|tk z ct b n]; cbn [run_c_call]; unfold for_wrapper; try by apply Hno.
  all: destruct tk; cbn [negb]; [|by apply Hno].
  - unfold SetStatusImpl. destruct (set_result z t) as [t'|] eqn:E; [|by apply Hno].
    exists []. split; [constructor|]. by eapply set_result_after.
  - unfold SetResponseHeaderImpl. destruct k as [k|], v as [v|]; try by apply Hno.
    exists [SetField k v]. split; [by repeat constructor|]. apply task_call_after.
  - unfold SetResponseBodyImpl. destruct (ValidateBufferArg b n); cbn [negb]; [|by apply Hno].
    exists [SetBody (CopyBuffer b n)]. split; [by repeat constructor|]. apply task_call_after.
  - unfold AppendResponseBodyImpl. destruct (ValidateBufferArg b n); cbn [negb]; [|by apply Hno].
    exists [AppendBody (CopyBuffer b n)]. split; [by repeat constructor|]. apply task_call_after.
  - unfold SetResponseImpl. destruct (ValidateBufferArg b n); cbn [negb]; [|by apply Hno].
    destruct (set_result z t) as [t'|] eqn:E; [|by apply Hno]. apply set_result_after in E.
    destruct ct as [ct|].
    + exists [SetField (lit "Content-Type") ct; SetBody (CopyBuffer b n)]. split; [by repeat constructor|].
      apply (after_calls_app t t' _ [] _ E).
      apply (after_calls_app t' (task_call (SetField (lit "Content-Type") ct) t') _ [_] [_]); apply task_call_after.
    + exists [SetBody (CopyBuffer b n)]. split; [by repeat constructor|].
      apply (after_calls_app t t' _ [] _ E). apply task_call_after.
Qed.

(** A property of single calls carries over to programs and their callbacks. *)
Lemma guarded_callback_after {C} (run : C -> c_task -> c_reply * c_task) (P : pre_call (F := F) -> Prop) p t :
  (forall c, response_call c -> P (PreCall c)) ->
  (forall c t, exists cs, Forall P cs /\ after_calls t (run c t).2 cs) ->
  exists cs, Forall P cs /\ after_calls t (guarded_callback run p t) cs.
Proof.
  intros HP Hrun.
  assert (forall p t, exists cs, Forall P cs /\ after_calls t (run_prog run p t).2 cs) as Hp.
  { clear p t. induction p as [| |c k IH]; intros t; cbn [run_prog].
    1, 2: exists []; split; [constructor|apply after_calls_refl].
    destruct (Hrun c t) as (cs & Hcs & Ha). destruct (run c t) as [r t1]. cbn in Ha.
    destruct (IH r t1) as (cs' & Hcs' & Ha'). exists (cs ++ cs'). split; [by apply Forall_app|]. by eapply after_calls_app. }
  unfold guarded_callback. destruct (Hp p t) as (cs & Hcs & Ha). destruct (run_prog run p t) as [threw t1]. cbn in Ha.
  destruct threw; [|by exists cs]. destruct (error_after t1) as (cs' & Hcs' & Ha'). exists (cs ++ (PreCall <$> cs')).
  split; [|by eapply after_calls_app]. apply Forall_app. split; [done|]. apply Forall_fmap. eapply Forall_impl; [exact Hcs'|]. apply HP.
Qed.

Lemma response_only cs :
  Forall (fun c => exists x, c = PreCall (F := F) x /\ response_call x) cs ->
  exists l, cs = PreCall <$> l /\ Forall response_call l.
Proof.
  induction 1 as [|c cs (x & -> & Hx) _ (l & -> & Hl)]; [by exists []|]. exists (x :: l). split; [done|by constructor].
Qed.

Lemma foldl_pre_calls we l cs :
  foldl (run_pre_call we) l (PreCall <$> cs) = foldl (run_call (F := F) (W := W) we) l cs.
Proof. revert l. induction cs as [|c cs IH]; intros l; [done|]. cbn. apply IH. Qed.

(** C callbacks stay within the request lifecycle, and never let an exception
    out.  Whatever a handler, pre-aspect or post-aspect written against the C
    interface does, its effect on the task is that of some calls a C++ one could
    have made, and only of those that write the response, or for a pre-aspect
    mark a failure: so what is proved of the lifecycle and of the connection holds
    for them too.  When the callback throws, the response is the fixed error page
    with status 500, with all other fields as the callback left them. *)
Theorem c_callbacks_contained (r : RouteHandlerAdapter) (a : AspectHandlerAdapter) (t : c_task) :
  let we := RouteTable.write_expiry (route_result (native_task t)) in
  (exists cs, Forall response_call cs /\
     native_task (AdapterService r t) = set_life (foldl (run_call we) (life (native_task t)) cs) (native_task t)) /\
  (exists cs, Forall response_call cs /\
     native_task (AdapterPostService a t) = set_life (foldl (run_call we) (life (native_task t)) cs) (native_task t)) /\
  (exists cs, Forall response_pre_call cs /\
     native_task (AdapterPreService a t) = set_life (foldl (run_pre_call we) (life (native_task t)) cs) (native_task t)) /\
  (forall C (run : C -> c_task -> c_reply * c_task) p, (run_prog run p t).1 = true -> accept_status 500 = true ->
     let t' := guarded_callback run p t in
     let before := resp_fields (resp (life (native_task (run_prog run p t).2))) in
     status t' = 500%Z /\ resp_body (resp (life (native_task t'))) = error_body /\
     forall k, f_values k (resp_fields (resp (life (native_task t')))) =
       if IEquals (lit "Content-Type") k then [error_type] else f_values k before).
Proof.
  cbn zeta.
  assert (forall p, exists cs, Forall response_call cs /\ native_task (guarded_callback run_c_call p t) =
    set_life (foldl (run_call (RouteTable.write_expiry (route_result (native_task t)))) (life (native_task t)) cs) (native_task t)) as Hplain.
  { intros p. destruct (guarded_callback_after run_c_call (fun c => exists x, c = PreCall x /\ response_call x) p t) as (cs & Hcs & Ha).
    - intros c Hc. by exists c.
    - intros c t'. destruct (run_c_call_after c t') as (cs & Hcs & Ha). exists (PreCall <$> cs). split; [|done].
      apply Forall_fmap. eapply Forall_impl; [exact Hcs|]. intros x Hx. by exists x.
    - apply response_only in Hcs as (l & -> & Hl). exists l. split; [done|]. unfold after_calls in Ha. by rewrite foldl_pre_calls in Ha. }
  split_and!; [apply Hplain|apply Hplain| |].
  - apply (guarded_callback_after run_c_pre_call response_pre_call); [done|]. intros c t'. destruct c as [c|tk]; cbn [run_c_pre_call].
    + destruct (run_c_call_after c t') as (cs & Hcs & Ha). exists (PreCall <$> cs). split; [|done].
      apply Forall_fmap. eapply Forall_impl; [exact Hcs|]. done.
    + unfold MarkAspectFailureForWrapper. destruct tk; cbn [negb].
      * exists [MarkAspectFailure]. split; [by repeat constructor|done].
      * exists []. split; [constructor|apply after_calls_refl].
  - intros C run p Hthrew Hacc. unfold guarded_callback. destruct (run_prog run p t) as [threw t1]. cbn in Hthrew. subst threw. cbn [snd].
    unfold SetInternalErrorResponse, set_result. change (500 mod 2 ^ 32)%Z with 500%Z. rewrite Hacc. cbn.
    split_and!; [done|done|]. intros k. apply f_values_set.
Qed.
End tasks.
Arguments Return {_}.
Arguments ThrowException {_}.
Arguments Invoke {_} _ _.

(** ** The interface at concrete inputs *)

Module CSample.
Definition all_good (_ : nat) (_ : syscall) (k : unit) : bool * unit := (true, k).
Definition address (_ : str) (port : Z) : option nat := if (port =? 0)%Z then None else Some (Z.to_nat port).
Definition program : list (c_action (K := unit)) :=
  [ACreate 2 true; ACreate 0 true; ACall 0 (CAddRoute 0 (Some (lit "/a")) (Some 7)); ACall 0 (CAddListen (Some (lit "::")) 80 1);
   ACall 0 (CStart tt); ACall 0 (CStart tt); ACall 1 (CAddRoute 9 (Some (lit "/a")) (Some 7)); ADestroy 0; ACall 5 CStop].
Definition one : c_world :=
  (bsrvcore_server_create 4 2 true (mkWorld ∅ 0 [] [] None)).2.
Definition the_server : c_server := new_c_server (MakeRuntimeOptionsFromThreadNum 4 2).
Definition unchanged (s s' : c_server) : c_server := s.
(** The adapter is made, the registration runs out of memory. *)
Definition short_of_memory : c_world := mkWorld (objects one) (next_object one) [None; Some bad_alloc] [] (Some 0).
Definition add_route : c_op (K := unit) := CAddRoute 0 (Some (lit "/a")) (Some 7).
End CSample.


(** A route registered while the server runs, or with a target that is not valid, is
    dropped; the answer is OK all the same. *)
Lemma dropped_route_is_ok {K} (sys : nat -> syscall -> K -> bool * K) reuse ep ab w p n (s : c_server) :
  handle_of w p n s -> budget w = [] -> is_running_ (base s) = true ->
  exists w', run_c_op sys reuse ep ab (Some p) (CAddRoute 0 (Some (lit "/a")) (Some 7)) w = (Some RESULT_OK, w') /\ objects w' = objects w.
Proof.
  intros Hh Hb Hr. cbn [run_c_op]. unfold bsrvcore_server_add_route. rewrite (with_server_live w p n s) by done.
  unfold with_route. cbn [TryConvertMethod Z.eqb]. unfold guarded, registered, native_call, native_result, allocate, bind, attempt. rewrite Hb. cbn. rewrite Hb.
  eexists. split; [reflexivity|]. unfold AddRouteEntry, on_table. rewrite Hr. cbn. apply insert_id. by destruct Hh.
Qed.

Module CallbackSample.
Definition three_digits (v : Z) : bool := (v <=? 999)%Z.
(** A handler that answers, looks at the answer code, and then throws. *)
Definition handler (_ : nat) (_ : option nat) : c_prog c_call :=
  Invoke (set_response true 200 (Some (lit "text/html")) (Some (lit "<p>hi</p>")) 9) (fun r =>
  if decide (code r = RESULT_OK) then Invoke (set_response_header true (Some (lit "X-A")) (Some (lit "1"))) (fun _ => ThrowException)
  else Return).
Definition task : c_task (F := list (str * str)) (W := unit) (H := unit) (A := unit) :=
  mkCTask (new_task [] [] (mkResult [] [] ∅ [] None 0 0 0) true false) 200.
End CallbackSample.

Lemma c_callbacks_contained_witness :
  let t' := guarded_callback CallbackSample.three_digits (run_c_call CallbackSample.three_digits) (CallbackSample.handler 0 None)
    CallbackSample.task in
  f_values (lit "X-A") (resp_fields (resp (life (native_task t')))) = [lit "1"] /\
  status t' = 500%Z /\ resp_body (resp (life (native_task t'))) = error_body /\
  forall k, f_values k (resp_fields (resp (life (native_task t')))) =
    if IEquals (lit "Content-Type") k then [error_type]
    else f_values k (resp_fields (resp (life (native_task
      (run_prog (run_c_call CallbackSample.three_digits) (CallbackSample.handler 0 None) CallbackSample.task).2)))).
Proof.
  cbn zeta. split; [reflexivity|].
  destruct (c_callbacks_contained CallbackSample.three_digits CallbackSample.handler (fun _ _ => Return) (fun _ _ => Return)
    (mkRouteAdapter None None None) (mkAspectAdapter None None None None None) CallbackSample.task) as (_ & _ & _ & Herr).
  apply (Herr c_call (run_c_call CallbackSample.three_digits) (CallbackSample.handler 0 None)); reflexivity.
Defined.

(** A run with two servers: one is started and destroyed, the other is left. *)
Example handles_sample :
  option_map handles (run_actions CSample.all_good true 4 CSample.address CSample.unchanged (new_client []) CSample.program) = Some [2].
Proof. vm_compute. reflexivity. Qed.
