(* ===== verification/ClientSession.v ===== *)
(** * A client session

    [src/src/connection/client/http_client_session.cc]: a session makes HTTP and
    WebSocket tasks that all use it as their assembler, and so share its cookie
    jar.  The tasks are those of [ClientTask] and [WebSocketClient], the jar that of
    [ClientCookie].  The jar is one object: a step of a task works on the jar as it
    is then, and leaves it to the others as it is afterwards ([session_step]);
    steps are atomic because the jar's own functions hold its mutex and a task
    calls at most one of them in a step, but for calls made inside callbacks.
    The jar's functions are public, and a session is an assembler that may be given
    to any task: the program may call them itself, for any host ([named]). *)

From S2P Require Import Prelude Text HttpFields ClientCookie CookieExchange MultipartGenerator StreamBuilder ClientPipeline ClientTask WebSocketClient.

Section session.
Context {F : Type} `{BeastMessage F}.
Context (get_time : str -> option tm) (sort : list (nat * nat) -> list (nat * nat)) (known_field : str -> bool).
Context (parse_uri : str -> option url_view).
(** [GetDefaultClientSslContextState] *)
Context (ssl_ctx_default : option nat) (ssl_error_default : option (error_code * str)).

#[local] Instance the_assembler : RequestAssembler (list Cookie) := session_assembler sort.
#[local] Instance the_sync : HeaderSync F (list Cookie) := session_sync F get_time.

Abbreviation http_task := (HttpClientTask F (list Cookie)).
Abbreviation ws_task := (WebSocketClientTask F (list Cookie)).

Record HttpClientSession := mkSession {
  cookies_ : list Cookie;
  http_tasks : list http_task;
  ws_tasks : list ws_task;
  named : list str;
}.

Definition CreateSession : HttpClientSession := mkSession [] [] [] [].

(** ** Factories *)

(** [HttpClientTask::CreateSessionTask] *)
Definition CreateSessionTask (s : HttpClientSession) (options : TaskOptions) (scheme host port target : str)
    (ssl_ctx : option nat) (create_ec : option error_code) : HttpClientSession :=
  mkSession (cookies_ s)
    (http_tasks s ++ [CreateAssembledTask (cookies_ s) options scheme host port target ssl_ctx create_ec]) (ws_tasks s) (named s).

Definition CreateHttp (options : TaskOptions) (host port target : str) (s : HttpClientSession) : HttpClientSession :=
  CreateSessionTask s options (lit "http") host port target None None.

Definition CreateHttps (options : TaskOptions) (host port target : str) (s : HttpClientSession) : HttpClientSession :=
  CreateSessionTask s options (lit "https") host port target ssl_ctx_default (fst <$> ssl_error_default).

Definition CreateHttpsWith (ssl_ctx : option nat) (options : TaskOptions) (host port target : str) (s : HttpClientSession) :
    HttpClientSession :=
  CreateSessionTask s options (lit "https") host port target ssl_ctx None.

Definition CreateFromUrl (url : str) (options : TaskOptions) (s : HttpClientSession) : HttpClientSession :=
  match ParseHttpUrl parse_uri url with
  | None => CreateSessionTask s options (lit "http") [] [] (lit "/") None (Some invalid_argument)
  | Some u =>
      if url_https u
      then CreateSessionTask s options (lit "https") (url_host u) (url_port u) (url_target u) ssl_ctx_default (fst <$> ssl_error_default)
      else CreateSessionTask s options (lit "http") (url_host u) (url_port u) (url_target u) None None
  end.

Definition CreateFromUrlWith (ssl_ctx : option nat) (url : str) (options : TaskOptions) (s : HttpClientSession) : HttpClientSession :=
  match ParseHttpUrl parse_uri url with
  | None => CreateSessionTask s options (lit "http") [] [] (lit "/") None (Some invalid_argument)
  | Some u =>
      CreateSessionTask s options (if url_https u then lit "https" else lit "http") (url_host u) (url_port u) (url_target u)
        (if url_https u then ssl_ctx else None) None
  end.

(** A WebSocket task gets the session in place of its assembler. *)
Definition add_ws (t : ws_task) (s : HttpClientSession) : HttpClientSession :=
  mkSession (cookies_ s) (http_tasks s) (ws_tasks s ++ [SetAssembler (cookies_ s) t]) (named s).

Definition CreateWebSocketHttp (host port target : str) (handler : bool) (options : WsOptions) (s : HttpClientSession) :=
  add_ws (WebSocketClient.CreateHttp [] host port target handler options) s.
Definition CreateWebSocketHttps (host port target : str) (handler : bool) (options : WsOptions) (s : HttpClientSession) :=
  add_ws (WebSocketClient.CreateHttps [] (ssl_ctx_default, ssl_error_default) host port target handler options) s.
Definition CreateWebSocketHttpsWith (ssl_ctx : option nat) (host port target : str) (handler : bool) (options : WsOptions)
    (s : HttpClientSession) :=
  add_ws (WebSocketClient.CreateHttps [] (ssl_ctx, None) host port target handler options) s.
Definition CreateWebSocketFromUrl (url : str) (handler : bool) (options : WsOptions) (s : HttpClientSession) :=
  match WebSocketClient.CreateFromUrl [] (ssl_ctx_default, ssl_error_default) url handler options with
  | Some t => add_ws t s
  | None => s
  end.
Definition CreateWebSocketFromUrlWith (ssl_ctx : option nat) (url : str) (handler : bool) (options : WsOptions) (s : HttpClientSession) :=
  match WebSocketClient.CreateFromUrlWith [] ssl_ctx url handler options with
  | Some t => add_ws t s
  | None => s
  end.

(** ** Steps *)

Definition load_http (c : list Cookie) (t : http_task) : http_task := ClientTask.set_assembler (Some c) t.
Definition load_ws (c : list Cookie) (t : ws_task) : ws_task := SetAssembler c t.

Inductive session_step : HttpClientSession -> HttpClientSession -> Prop :=
  | session_http options host port target s : session_step s (CreateHttp options host port target s)
  | session_https options host port target s : session_step s (CreateHttps options host port target s)
  | session_https_with ctx options host port target s : session_step s (CreateHttpsWith ctx options host port target s)
  | session_url url options s : session_step s (CreateFromUrl url options s)
  | session_url_with ctx url options s : session_step s (CreateFromUrlWith ctx url options s)
  | session_ws host port target h options s : session_step s (CreateWebSocketHttp host port target h options s)
  | session_wss host port target h options s : session_step s (CreateWebSocketHttps host port target h options s)
  | session_wss_with ctx host port target h options s : session_step s (CreateWebSocketHttpsWith ctx host port target h options s)
  | session_ws_url url h options s : session_step s (CreateWebSocketFromUrl url h options s)
  | session_ws_url_with ctx url h options s : session_step s (CreateWebSocketFromUrlWith ctx url h options s)
  | session_count now s : session_step s (mkSession (CookieCount now (cookies_ s)).2 (http_tasks s) (ws_tasks s) (named s))
  | session_clear s : session_step s (mkSession (ClearCookies (cookies_ s)) (http_tasks s) (ws_tasks s) (named s))
  | session_sync_cookie now host target value s :
      session_step s (mkSession (SyncSetCookie get_time now host target value (cookies_ s)) (http_tasks s) (ws_tasks s)
        (named s ++ [host]))
  | session_response now host target values s :
      session_step s (mkSession (ClientCookie.OnResponseHeader get_time now host target values (cookies_ s)) (http_tasks s)
        (ws_tasks s) (named s ++ [host]))
  | session_inject now has_cookie host target is_https s :
      session_step s (mkSession (MaybeInjectCookies sort now has_cookie host target is_https (cookies_ s)).2 (http_tasks s)
        (ws_tasks s) (named s))
  | session_assemble request options scheme host port ctx now s :
      session_step s (mkSession (Assemble (F := F) request options scheme host port ctx now (cookies_ s)).1 (http_tasks s)
        (ws_tasks s) (named s))
  | session_task i t t' s :
      http_tasks s !! i = Some t -> task_step (load_http (cookies_ s) t) t' ->
      session_step s (mkSession (default (cookies_ s) (assembler_ t')) (<[i := t']> (http_tasks s)) (ws_tasks s) (named s))
  | session_ws_task i t t' s :
      ws_tasks s !! i = Some t -> ws_step known_field (fun _ => True) (load_ws (cookies_ s) t) t' ->
      session_step s (mkSession (default (cookies_ s) (ws_assembler t')) (http_tasks s) (<[i := t']> (ws_tasks s)) (named s)).

(** ** How a step changes the jar *)

Abbreviation jar_run := (foldl (run_jar_op get_time sort)).

(** The host of a response among the operations. *)
Definition for_host (host : str) (o : jar_op) : Prop :=
  match o with OpResponse _ h _ _ => h = host | _ => True end.

(** From one jar to another by jar operations, with responses of this host only. *)
Definition moves (host : str) (a a' : option (list Cookie)) : Prop :=
  match a with
  | None => a' = None
  | Some j => exists ops, a' = Some (jar_run j ops) /\ Forall (for_host host) ops
  end.

Lemma moves_refl host a : moves host a a.
Proof. destruct a as [j|]; [|done]. exists []. split; [done|constructor]. Qed.

Lemma moves_trans host a b c : moves host a b -> moves host b c -> moves host a c.
Proof.
  destruct a as [j|]; cbn; [|by intros ->]. intros (o1 & -> & H1) (o2 & -> & H2).
  exists (o1 ++ o2). rewrite foldl_app. split; [done|by apply Forall_app].
Qed.

Lemma Assemble_moves r options scheme host port ctx now j :
  let '(j', (_, key)) := Assemble r options scheme host port ctx now j in
  moves host (Some j) (Some j') /\ StreamBuilder.host key = host.
Proof.
  cbn. unfold SessionAssemble. destruct (MaybeInjectCookies _ _ _ _ _ _ _) as [h j'] eqn:E. split; [|done].
  eexists [OpInject now _ host _ _]. cbn. rewrite E. split; [done|]. by repeat constructor.
Qed.

Definition http_moves (t t' : http_task) : Prop :=
  host_ (req t') = host_ (req t) /\ moves (host_ (req t)) (assembler_ t) (assembler_ t').

Lemma http_moves_frame t t' : req t' = req t -> assembler_ t' = assembler_ t -> http_moves t t'.
Proof. intros Hr Ha. unfold http_moves. rewrite Hr, Ha. split; [done|apply moves_refl]. Qed.

Lemma http_moves_trans t1 t2 t3 : http_moves t1 t2 -> http_moves t2 t3 -> http_moves t1 t3.
Proof. intros [H1 M1] [H2 M2]. split; [congruence|]. rewrite H1 in M2. by eapply moves_trans. Qed.

(** The functions that use neither the request nor the jar. *)
Definition untouched (f : http_task -> http_task) : Prop := forall t, req (f t) = req t /\ assembler_ (f t) = assembler_ t.

Lemma Fail_with_untouched c stage ec : untouched (ClientTask.Fail_with c stage ec).
Proof.
  intros t. unfold ClientTask.Fail_with, EmitStageByResult, EmitDone, call_done_hook.
  destruct (ClientTask.lifecycle_state_ (st t)); [| |done]; repeat case_match; done.
Qed.
Lemma Fail_untouched stage ec : untouched (ClientTask.Fail stage ec).
Proof. intros t. apply (Fail_with_untouched (ClientTask.fail_cancelled ec t) stage ec t). Qed.
Lemma Succeed_untouched r : untouched (Succeed r).
Proof.
  intros t. unfold Succeed, EmitDone, call_done_hook. destruct (ClientTask.lifecycle_state_ (st t)); [| |done]; repeat case_match; done.
Qed.
Lemma start_io_untouched o : untouched (start_io o).
Proof. intros t. unfold start_io. by repeat case_match. Qed.
Lemma DoReadBodyAll_untouched : untouched DoReadBodyAll.
Proof. intros t. apply (start_io_untouched _ t). Qed.
Lemma DoReadBodySome_untouched : untouched DoReadBodySome.
Proof. intros t. apply (start_io_untouched _ t). Qed.
Lemma DoWriteRequest_untouched : untouched DoWriteRequest.
Proof. intros t. apply (start_io_untouched _ t). Qed.
Lemma EmitConnected_untouched ec : untouched (EmitConnected ec).
Proof. intros t. unfold EmitConnected. by case_match. Qed.
Lemma EmitHeader_untouched h ec : untouched (EmitHeader h ec).
Proof. intros t. unfold EmitHeader. by case_match. Qed.
Lemma body_read_untouched p : untouched (body_read p).
Proof.
  intros t. unfold body_read. set (t1 := if _ <? _ then _ else _).
  assert (req t1 = req t /\ assembler_ t1 = assembler_ t) as [<- <-]
    by (subst t1; case_match; [|done]; unfold EmitChunk; by case_match).
  destruct (is_done p); [apply Succeed_untouched|apply DoReadBodySome_untouched].
Qed.

Lemma untouched_moves f t0 t : untouched f -> http_moves t0 t -> http_moves t0 (f t).
Proof. intros Hf Hm. eapply http_moves_trans; [exact Hm|]. destruct (Hf t). by apply http_moves_frame. Qed.

Lemma OnReadHeader_moves now ec p (t : http_task) : http_moves t (OnReadHeader now ec p t).
Proof.
  unfold OnReadHeader. assert (http_moves t (set_parser p t)) as H0' by by apply http_moves_frame.
  destruct ec as [ec|]; [by apply untouched_moves; [apply Fail_untouched|]|]. cbn zeta.
  set (t1 := match assembler_ (set_parser p t) with Some _ => _ | None => _ end).
  assert (http_moves t t1) as H1.
  { subst t1. cbn [assembler_ set_parser set_io]. destruct (assembler_ t) as [j|] eqn:Ea; [|by apply http_moves_frame].
    split; [done|]. rewrite Ea. eexists [OpResponse now _ _ _]. split; [reflexivity|]. by repeat constructor. }
  assert (http_moves t (EmitHeader (header_copy p) None t1)) as H2 by (apply untouched_moves; [apply EmitHeader_untouched|done]).
  case_match; [|by apply untouched_moves; [apply DoReadBodyAll_untouched|]].
  apply untouched_moves; [apply DoReadBodySome_untouched|]. eapply http_moves_trans; [exact H2|by apply http_moves_frame].
Qed.

Lemma DoStart_moves now (t : http_task) : http_moves t (ClientTask.DoStart now t).
Proof.
  unfold ClientTask.DoStart. destruct (ClientTask.lifecycle_state_ (st t)); [|by apply http_moves_frame..].
  set (t1 := set_lifecycle kRunning t). assert (http_moves t t1) as H1 by by apply http_moves_frame.
  destruct (create_error_ t1) as [[ec stage]|]; [by apply untouched_moves; [apply Fail_untouched|]|].
  destruct (assembler_ t1) as [j|] eqn:Ea.
  - eapply http_moves_trans; [exact H1|]. unfold ClientTask.DoAcquire. cbn zeta.
    set (scheme := if use_ssl_ (req t1) then _ else _).
    pose proof (Assemble_moves (request_ (req t1)) (request_options (options_ t1)) scheme
      (host_ (req t1)) (port_ (req t1)) (ssl_ctx_ (req t1)) now j) as Hm.
    destruct (Assemble _ _ _ _ _ _ now j) as [j' [request key]]. destruct Hm as [Hm Hk].
    split; [cbn; done|]. rewrite Ea. exact Hm.
  - case_match; [|by apply untouched_moves; [apply Fail_untouched|]].
    apply untouched_moves; [apply DoWriteRequest_untouched|]. by apply untouched_moves; [apply EmitConnected_untouched|].
Qed.

Lemma task_step_moves (t t' : http_task) : task_step t t' -> http_moves t t'.
Proof.
  intros Hs. destruct Hs as [t|t|cb t|cb t|cb t|cb t|now t l1 l2 Ho|t l1 l2 Ho|r t k l1 l2 Ho
    |o t l1 l2 Ho Ha|ec t d l1 l2 Ho|now ec p t d lim l1 l2 Ho Hb|ec p p' t d l1 l2 Ho Hpar Hg|ec p p' t d l1 l2 Ho Hpar Hg];
    try (by apply http_moves_frame);
    (eapply http_moves_trans; [by apply (http_moves_frame t (set_operations (l1 ++ l2) t))|]);
    set (t1 := set_operations (l1 ++ l2) t).
  - apply DoStart_moves.
  - unfold DoCancel. case_match; try (by apply http_moves_frame); unfold CloseTransports; case_match; by apply http_moves_frame.
  - unfold ClientTask.start_acquired. destruct r as [ec|slot]; cbn [ClientTask.begin_acquired]; [by apply http_moves_frame|].
    destruct (StreamBuilder.stream_ slot); by apply http_moves_frame.
  - destruct o; try done; cbn [ClientTask.end_acquired];
      [|apply untouched_moves; [apply Fail_with_untouched|by apply http_moves_frame]].
    apply untouched_moves; [apply DoWriteRequest_untouched|]. apply untouched_moves; [apply EmitConnected_untouched|by apply http_moves_frame].
  - unfold OnWriteRequest. destruct ec; (apply untouched_moves; [first [apply Fail_untouched|apply start_io_untouched]|by apply http_moves_frame]).
  - apply OnReadHeader_moves.
  - unfold OnReadBodyAll. assert (http_moves t1 (set_parser p' t1)) by by apply http_moves_frame.
    repeat case_match; (apply untouched_moves; [first [apply Fail_untouched|apply Succeed_untouched]|done]).
  - unfold OnReadBodySome. assert (http_moves t1 (set_parser p' t1)) by by apply http_moves_frame.
    repeat case_match; (apply untouched_moves; [first [apply Fail_untouched|apply body_read_untouched]|done]).
Qed.

(** ** WebSocket tasks *)

Definition ws_moves (t t' : ws_task) : Prop :=
  host_ (ws_req t') = host_ (ws_req t) /\ moves (host_ (ws_req t)) (ws_assembler t) (ws_assembler t').

Lemma ws_moves_frame t t' : ws_req t' = ws_req t -> ws_assembler t' = ws_assembler t -> ws_moves t t'.
Proof. intros Hr Ha. unfold ws_moves. rewrite Hr, Ha. split; [done|apply moves_refl]. Qed.

Lemma ws_moves_trans t1 t2 t3 : ws_moves t1 t2 -> ws_moves t2 t3 -> ws_moves t1 t3.
Proof. intros [H1 M1] [H2 M2]. split; [congruence|]. rewrite H1 in M2. by eapply moves_trans. Qed.

Definition ws_untouched (f : ws_task -> ws_task) : Prop := forall t, ws_req (f t) = ws_req t /\ ws_assembler (f t) = ws_assembler t.

Lemma ws_untouched_moves f t0 t : ws_untouched f -> ws_moves t0 t -> ws_moves t0 (f t).
Proof. intros Hf Hm. eapply ws_moves_trans; [exact Hm|]. destruct (Hf t). by apply ws_moves_frame. Qed.

Lemma tell_untouched e : ws_untouched (tell e).
Proof. intros t. unfold tell. by case_match. Qed.
Lemma NotifyCloseOnce_untouched ec : ws_untouched (NotifyCloseOnce ec).
Proof. intros t. unfold NotifyCloseOnce, NotifyClose, tell. by repeat case_match. Qed.
Lemma FailAndClose_untouched ec what : ws_untouched (FailAndClose ec what).
Proof.
  intros t. unfold FailAndClose. set (t1 := match close_reason_ (ws_st t) with NoReason => _ | _ => _ end).
  set (t2 := match lifecycle_state_ (ws_st t1) with kClosed => _ | _ => _ end).
  assert (ws_req t2 = ws_req t /\ ws_assembler t2 = ws_assembler t) as [<- <-] by (subst t2 t1; by repeat case_match).
  destruct (NotifyCloseOnce_untouched (Some ec) (NotifyError ec what t2)) as [-> ->]. apply tell_untouched.
Qed.
Lemma Cancel_untouched : ws_untouched WebSocketClient.Cancel.
Proof.
  intros t. unfold WebSocketClient.Cancel. destruct (IsClosingOrClosed t); [done|]. cbn zeta.
  destruct (IsOpen t); [case_match|]; try done; exact (NotifyCloseOnce_untouched None _).
Qed.
Lemma StartWebSocketHandshake_untouched : ws_untouched (StartWebSocketHandshake known_field).
Proof. intros t. unfold StartWebSocketHandshake. case_match; [done|]. exact (FailAndClose_untouched _ _ _). Qed.
Lemma BeginReadLoop_untouched : ws_untouched BeginReadLoop.
Proof. intros t. unfold BeginReadLoop. by repeat case_match. Qed.

Lemma ws_start_moves now (t : ws_task) : ws_moves t (WebSocketClient.Start known_field now t).
Proof.
  unfold WebSocketClient.Start. destruct (lifecycle_state_ (ws_st t)); try by apply ws_moves_frame.
  set (t1 := set_ws_life kStarting t). assert (ws_moves t t1) as H1 by by apply ws_moves_frame.
  destruct (ws_create_error t1) as [[ec what]|]; [by apply ws_untouched_moves; [apply FailAndClose_untouched|]|].
  unfold WebSocketClient.DoStart. destruct (ws_assembler t1) as [j|] eqn:Ea.
  - eapply ws_moves_trans; [exact H1|]. unfold WebSocketClient.DoAcquire. cbn zeta.
    set (t2 := set_ws_life kAcquiring t1). set (scheme := if use_ssl_ (ws_req t2) then _ else _).
    pose proof (Assemble_moves (request_ (ws_req t2)) (ws_request_options (ws_options t2)) scheme
      (host_ (ws_req t2)) (port_ (ws_req t2)) (ssl_ctx_ (ws_req t2)) now j) as Hm.
    destruct (Assemble _ _ _ _ _ _ now j) as [j' [request key]]. destruct Hm as [Hm Hk].
    split; [cbn; done|]. rewrite Ea. exact Hm.
  - case_match; [by apply ws_untouched_moves; [apply StartWebSocketHandshake_untouched|]|].
    by apply ws_untouched_moves; [apply FailAndClose_untouched|].
Qed.

Lemma run_call_moves (t : ws_task) c : ws_moves t (run_call known_field t c).
Proof.
  destruct c as [now| |payload binary|kind payload]; cbn [run_call].
  - apply ws_start_moves.
  - destruct (Cancel_untouched t). by apply ws_moves_frame.
  - unfold WriteMessage. repeat case_match; by apply ws_moves_frame.
  - unfold WriteControl, WritePingControl, WritePongControl, WriteCloseControl.
    destruct (Cancel_untouched t). repeat case_match; cbn; by apply ws_moves_frame.
Qed.

Lemma run_calls_moves l (t0 t : ws_task) : ws_moves t0 t -> ws_moves t0 (run_calls known_field l t).
Proof.
  revert t. induction l as [|c l IH]; intros t Hm; [done|]. cbn. apply IH. eapply ws_moves_trans; [exact Hm|apply run_call_moves].
Qed.

Lemma handshake_moves now ec response on_done on_open (t : ws_task) :
  ws_moves t (OnWebSocketHandshakeCompleted known_field now ec response on_done on_open t).
Proof.
  unfold OnWebSocketHandshakeCompleted. destruct (IsClosingOrClosed t).
  { apply ws_untouched_moves; [apply NotifyCloseOnce_untouched|by apply ws_moves_frame]. }
  cbn zeta. set (t1 := match ws_assembler t with Some _ => _ | None => _ end).
  assert (ws_moves t t1) as H1.
  { subst t1. destruct (ws_assembler t) as [j|] eqn:Ea; [|by apply ws_moves_frame].
    split; [done|]. rewrite Ea. eexists [OpResponse now _ _ _]. split; [reflexivity|]. by repeat constructor. }
  set (t2 := run_calls known_field on_done _).
  assert (ws_moves t t2) as H2.
  { apply run_calls_moves. eapply ws_moves_trans; [exact H1|]. unfold EmitHttpDone. case_match; by apply ws_moves_frame. }
  destruct ec as [ec|]; [by apply ws_untouched_moves; [apply FailAndClose_untouched|]|].
  apply ws_untouched_moves; [apply BeginReadLoop_untouched|]. apply run_calls_moves.
  apply ws_untouched_moves; [apply tell_untouched|]. eapply ws_moves_trans; [exact H2|by apply ws_moves_frame].
Qed.

Lemma ws_step_moves allowed (t t' : ws_task) : ws_step known_field allowed t t' -> ws_moves t t'.
Proof.
  intros Hs. destruct Hs as [c t|sni r k t l1 l2 Ho|ec d t l1 l2 Ho|now ec resp on_done on_open d f t l1 l2 Ho Hall
    |ec m on_message t l1 l2 Ho|what ec o t l1 l2 Ho Hw|ec t l1 l2 Ho]; [apply run_call_moves|..];
    (eapply ws_moves_trans; [by apply (ws_moves_frame t (set_ws_operations (l1 ++ l2) t))|]);
    set (t1 := set_ws_operations (l1 ++ l2) t); assert (ws_moves t1 t1) as Hr by by apply ws_moves_frame.
  - unfold OnAcquireComplete, DoDeferredTlsHandshake.
    repeat case_match; try (apply ws_untouched_moves; [first [apply NotifyCloseOnce_untouched|apply FailAndClose_untouched|apply StartWebSocketHandshake_untouched]|]);
      by apply ws_moves_frame.
  - unfold OnDeferredTlsHandshakeComplete.
    repeat case_match; try (apply ws_untouched_moves; [first [apply NotifyCloseOnce_untouched|apply FailAndClose_untouched|apply StartWebSocketHandshake_untouched]|]);
      by apply ws_moves_frame.
  - apply handshake_moves.
  - unfold OnWebSocketRead. destruct (IsClosingOrClosed t1); [by apply ws_untouched_moves; [apply NotifyCloseOnce_untouched|]|].
    destruct ec as [ec|].
    + case_match; [apply ws_untouched_moves; [apply NotifyCloseOnce_untouched|by apply ws_moves_frame]|].
      by apply ws_untouched_moves; [apply FailAndClose_untouched|].
    + apply ws_untouched_moves; [apply BeginReadLoop_untouched|]. apply run_calls_moves. unfold NotifyReadMessage.
      apply ws_untouched_moves; [apply tell_untouched|by apply ws_moves_frame].
  - unfold on_written. destruct ec; [|done]. apply ws_untouched_moves; [apply tell_untouched|done].
  - by apply ws_untouched_moves; [apply NotifyCloseOnce_untouched|].
Qed.

(** ** The session *)

Definition session_hosts (s : HttpClientSession) : list str :=
  ((fun t => host_ (req t)) <$> http_tasks s) ++ ((fun t => host_ (ws_req t)) <$> ws_tasks s).

(** The hosts that may set a cookie: those of the tasks, and those the program names. *)
Definition setters (s : HttpClientSession) : list str := session_hosts s ++ named s.

(** What holds in every session. *)
Record session_inv (s : HttpClientSession) : Prop := {
  si_jar : exists ops, cookies_ s = run_jar get_time sort ops /\ forall h, h ∈ response_hosts ops -> h ∈ setters s;
  si_http : Forall (task_inv false false) (http_tasks s);
}.

Lemma response_hosts_app a b : response_hosts (a ++ b) = response_hosts a ++ response_hosts b.
Proof. apply omap_app. Qed.

Lemma for_host_hosts host ops h : Forall (for_host host) ops -> h ∈ response_hosts ops -> h = host.
Proof.
  intros HF. unfold response_hosts. intros (o & Ho & Hh)%list_elem_of_omap. rewrite Forall_forall in HF.
  specialize (HF o Ho). destruct o; [|done..]. cbn in *. congruence.
Qed.

(** Tasks may come, the jar may move for the host of one of them. *)
Lemma session_inv_move s host j' hts wts ns :
  session_inv s -> moves host (Some (cookies_ s)) (Some j') ->
  host ∈ setters (mkSession j' hts wts ns) -> (forall h, h ∈ setters s -> h ∈ setters (mkSession j' hts wts ns)) ->
  Forall (task_inv false false) hts -> session_inv (mkSession j' hts wts ns).
Proof.
  intros [(ops & Hj & Hh) _] (more & Hm & HF) Hin Hsub Hts. split; [|done].
  exists (ops ++ more). injection Hm as ->. unfold run_jar in *. rewrite foldl_app, <- Hj. split; [done|].
  intros h. rewrite response_hosts_app. intros [Ho|Ho]%elem_of_app; [by apply Hsub, Hh|].
  by rewrite (for_host_hosts _ _ _ HF Ho).
Qed.

(** New tasks do not touch the jar. *)
Lemma session_inv_more s hts wts :
  session_inv s -> Forall (task_inv false false) hts ->
  session_inv (mkSession (cookies_ s) (http_tasks s ++ hts) (ws_tasks s ++ wts) (named s)).
Proof.
  intros [(ops & Hj & Hh) Hi] Hts. split; [|by apply Forall_app].
  exists ops. split; [done|]. intros h Ho. apply Hh in Ho. unfold setters, session_hosts in *. cbn. rewrite !fmap_app.
  rewrite !elem_of_app in *. tauto.
Qed.

Lemma session_task_inv s options scheme host port target ctx ec :
  session_inv s -> session_inv (CreateSessionTask s options scheme host port target ctx ec).
Proof.
  intros Hs. unfold CreateSessionTask. rewrite <- (app_nil_r (ws_tasks s)). apply session_inv_more; [done|].
  constructor; [|constructor].
  assert (fresh (CreateAssembledTask (cookies_ s) options scheme host port target ctx ec)) as Hf.
  { unfold CreateAssembledTask. destruct ec; split; try done; cbn; congruence. }
  by apply fresh_inv.
Qed.

Lemma add_ws_inv s t : session_inv s -> session_inv (add_ws t s).
Proof. intros Hs. unfold add_ws. rewrite <- (app_nil_r (http_tasks s)). by apply session_inv_more. Qed.

(** A task that moves keeps its host. *)
Lemma hosts_insert {T} (f : T -> str) (l : list T) i t t' : l !! i = Some t -> f t' = f t -> f <$> <[i := t']> l = f <$> l.
Proof. intros Hi Hf. rewrite list_fmap_insert, Hf. apply list_insert_id. by rewrite list_lookup_fmap, Hi. Qed.

Lemma session_http_inv s i t t' :
  session_inv s -> http_tasks s !! i = Some t -> task_step (load_http (cookies_ s) t) t' ->
  session_inv (mkSession (default (cookies_ s) (assembler_ t')) (<[i := t']> (http_tasks s)) (ws_tasks s) (named s)).
Proof.
  intros Hs Hi Hst. destruct (task_step_moves _ _ Hst) as [Hh Hm]. cbn in Hh.
  assert (session_hosts (mkSession (default (cookies_ s) (assembler_ t')) (<[i := t']> (http_tasks s)) (ws_tasks s) (named s)) = session_hosts s) as He.
  { unfold session_hosts. cbn. by rewrite (hosts_insert (fun t => host_ (req t)) _ i t t'). }
  pose proof Hm as (ops & Ha & _). rewrite Ha in *. eapply (session_inv_move s (host_ (req t))); unfold setters; rewrite ?He; try done.
  - apply elem_of_app. left. apply elem_of_app. left. apply list_elem_of_fmap. exists t. split; [done|by eapply list_elem_of_lookup_2].
  - destruct Hs as [_ HF]. apply Forall_insert; [done|]. eapply task_step_inv; [exact Hst|done|done|].
    rewrite Forall_lookup in HF. by apply (task_inv_frame _ _ t), (HF i).
Qed.

Lemma session_ws_inv s i t t' :
  session_inv s -> ws_tasks s !! i = Some t -> ws_step known_field (fun _ => True) (load_ws (cookies_ s) t) t' ->
  session_inv (mkSession (default (cookies_ s) (ws_assembler t')) (http_tasks s) (<[i := t']> (ws_tasks s)) (named s)).
Proof.
  intros Hs Hi Hst. destruct (ws_step_moves _ _ _ Hst) as [Hh Hm]. cbn in Hh.
  assert (session_hosts (mkSession (default (cookies_ s) (ws_assembler t')) (http_tasks s) (<[i := t']> (ws_tasks s)) (named s)) = session_hosts s) as He.
  { unfold session_hosts. cbn. by rewrite (hosts_insert (fun t => host_ (ws_req t)) _ i t t'). }
  pose proof Hm as (ops & Ha & _). rewrite Ha in *. eapply (session_inv_move s (host_ (ws_req t))); unfold setters; rewrite ?He; try done.
  - apply elem_of_app. left. apply elem_of_app. right. apply list_elem_of_fmap. exists t. split; [done|by eapply list_elem_of_lookup_2].
  - by destruct Hs.
Qed.

Lemma session_jar_inv s o :
  session_inv s -> response_hosts [o] = [] ->
  session_inv (mkSession (run_jar_op get_time sort (cookies_ s) o) (http_tasks s) (ws_tasks s) (named s)).
Proof.
  intros [(ops & Hj & Hh) Hi] Ho. split; [|done]. exists (ops ++ [o]).
  unfold run_jar in *. rewrite foldl_app, <- Hj. split; [done|]. intros h. rewrite response_hosts_app, Ho, app_nil_r. by apply Hh.
Qed.

(** The program processes Set-Cookie values for a host of its own. *)
Lemma session_named_inv s now host target values :
  session_inv s ->
  session_inv (mkSession (ClientCookie.OnResponseHeader get_time now host target values (cookies_ s)) (http_tasks s) (ws_tasks s)
    (named s ++ [host])).
Proof.
  intros Hs. apply (session_inv_move s host); [done| | | |apply Hs].
  - exists [OpResponse now host target values]. split; [done|by repeat constructor].
  - unfold setters. cbn. rewrite !elem_of_app. right. right. apply list_elem_of_here.
  - intros h. unfold setters, session_hosts. cbn. rewrite !elem_of_app. tauto.
Qed.

Lemma session_assemble_inv s request options scheme host port ctx now :
  session_inv s ->
  session_inv (mkSession (Assemble (F := F) request options scheme host port ctx now (cookies_ s)).1 (http_tasks s) (ws_tasks s) (named s)).
Proof.
  intros Hs. cbn [Assemble the_assembler session_assembler]. unfold SessionAssemble.
  destruct (MaybeInjectCookies _ _ _ _ _ _ _) as [h j'] eqn:E. cbn [fst].
  replace j' with (run_jar_op get_time sort (cookies_ s) (OpInject now
    (has_field (lit "Cookie") (set_defaults request options host)) host (target (set_defaults request options host))
    (scheme =s lit "https"))) by (cbn [run_jar_op]; by rewrite E).
  by apply session_jar_inv.
Qed.

Lemma session_step_inv s s' : session_step s s' -> session_inv s -> session_inv s'.
Proof.
  intros Hstep Hs. destruct Hstep; unfold CreateHttp, CreateHttps, CreateHttpsWith, CreateFromUrl, CreateFromUrlWith,
    CreateWebSocketHttp, CreateWebSocketHttps, CreateWebSocketHttpsWith, CreateWebSocketFromUrl, CreateWebSocketFromUrlWith;
    repeat case_match; try (by apply session_task_inv); try (by apply add_ws_inv); try done.
  - by apply (session_jar_inv s (OpCount now)).
  - by apply (session_jar_inv s OpClear).
  - by apply (session_named_inv s now host target [value]).
  - by apply session_named_inv.
  - by apply (session_jar_inv s (OpInject now has_cookie host target is_https)).
  - by apply session_assemble_inv.
  - by apply (session_http_inv s i t t').
  - by apply (session_ws_inv s i t t').
Qed.

(** The order in which a task calls back. *)
Lemma task_inv_order (t : http_task) : task_inv false false t -> exists n, run_order 0 (stages t) = Some n.
Proof.
  intros [_ Hi]. destruct (ClientTask.lifecycle_state_ (st t)).
  - destruct Hi as (_ & _ & [(n & Hn & _) _ _] & _). by exists n.
  - destruct Hi as (_ & o & _ & Hp). destruct o; cbn in Hp; try done; by destruct Hp as [[(n & Hn & _) _ _] _]; exists n.
  - destruct Hi as [_ (n & Hn & _) _ _ _]. by exists n.
Qed.

(** C26. One jar for all tasks.  However many HTTP and WebSocket tasks a session makes,
    however their steps, callbacks and completions interleave, and whatever the
    program does with the jar itself, the jar is always what some sequence of jar
    operations makes of an empty one, and the Set-Cookie values among them were
    processed for hosts that the session's own tasks talk to, or that the program
    named ([SyncSetCookie], [OnResponseHeader]).  So a cookie that a request may carry
    was set for such a host, whose domain rules allow it there; if the program names
    none, by a response to a task of this session.  And no task
    disturbs another: each calls back in the order connected, header, chunks, done. *)
Theorem session_shares_jar s :
  rtc session_step CreateSession s ->
  (exists ops, cookies_ s = run_jar get_time sort ops /\
     forall h, h ∈ response_hosts ops -> h ∈ session_hosts s \/ h ∈ named s) /\
  (forall c host path is_https, c ∈ cookies_ s -> eligible (NormalizeHost host) path is_https c = true ->
     (c_secure c = true -> is_https = true) /\
     exists setter, (setter ∈ session_hosts s \/ setter ∈ named s) /\ vouched setter c) /\
  (forall t, t ∈ http_tasks s -> exists n, run_order 0 (stages t) = Some n).
Proof.
  intros Hr. assert (session_inv s) as [(ops & Hj & Hh) Hi].
  { assert (session_inv CreateSession) as H0' by (split; [by exists []|constructor]).
    induction Hr; eauto using session_step_inv. }
  assert (forall h, h ∈ response_hosts ops -> h ∈ session_hosts s \/ h ∈ named s) as Hor
    by (intros h Ho%Hh; by apply elem_of_app in Ho).
  split_and!; [by exists ops| |].
  - intros c host path https Hc He. destruct (run_jar_inv get_time sort ops) as [_ HF]. rewrite <- Hj, Forall_forall in HF.
    destruct (HF c Hc) as (setter & Hs & _ & _ & Hv). split.
    + intros Hsec. unfold eligible in He. rewrite Hsec in He. by destruct https.
    + exists setter. split; [by apply Hor|done].
  - intros t Ht. rewrite Forall_forall in Hi. by apply task_inv_order, Hi.
Qed.
End session.

(** ** A session at work *)

Module SessionSample.
Abbreviation F := (list (str * str)).
#[local] Instance sample_assembler : RequestAssembler (list Cookie) := the_assembler stable_sort.
#[local] Instance sample_sync : HeaderSync F (list Cookie) := the_sync no_dates.

Abbreviation session := (HttpClientSession (F := F)).
Abbreviation step := (session_step (F := F) no_dates stable_sort (fun _ => true) (fun _ => None) None None).

Definition made : session :=
  ClientSession.CreateHttp TaskSample.options (lit "origin.example") (lit "80") (lit "/a")
    (ClientSession.CreateHttp TaskSample.options (lit "www.origin.example") (lit "80") (lit "/b") CreateSession).

(** A header with a cookie for the whole domain. *)
Definition header : response_parser F :=
  mkParser (mkResponse (mkHeader 11 200 [(lit "Set-Cookie", lit "sid=7; Domain=origin.example; Path=/")]) [] true) false.

Definition at_task (i : nat) (f : HttpClientTask F (list Cookie) -> HttpClientTask F (list Cookie)) (s : session) : session :=
  match http_tasks s !! i with
  | Some t => let t' := f (load_http (cookies_ s) t) in
              mkSession (default (cookies_ s) (assembler_ t')) (<[i := t']> (http_tasks s)) (ws_tasks s) (named s)
  | None => s
  end.

Definition s1 : session := at_task 0 ClientTask.Start made.
Definition s2 : session := at_task 0 (fun t => ClientTask.DoStart 0 (set_operations [] t)) s1.
Definition s2' : session := at_task 0 (fun t => ClientTask.start_acquired (inr sample_slot) (set_operations [] t)) s2.
Definition s3 : session := at_task 0 (fun t => ClientTask.end_acquired TakingStream (set_operations [] t)) s2'.
Definition s4 : session := at_task 0 (fun t => OnWriteRequest None (set_operations [] t)) s3.
Definition s5 : session := at_task 0 (fun t => OnReadHeader 0 None header (set_operations [] t)) s4.

Definition under_way (i : nat) (s : session) : option (list operation) := (fun t => operations (fx t)) <$> http_tasks s !! i.

Lemma at_task_step i f (s : session) ops :
  under_way i s = Some ops ->
  (forall t, operations (fx t) = ops -> task_step t (f t)) -> step s (at_task i f s).
Proof.
  unfold under_way. intros Hu Hs. apply fmap_Some in Hu as (t & Hi & ->). unfold at_task. rewrite Hi. apply session_task with t; [done|]. by apply Hs.
Qed.

Lemma sample_under_way :
  is_Some (under_way 0 made) /\ under_way 0 s1 = Some [PostedStart] /\ (exists k, under_way 0 s2 = Some [Acquiring k]) /\
  under_way 0 s2' = Some [TakingStream] /\
  (exists d, under_way 0 s3 = Some [WritingRequest d]) /\ (exists d n, under_way 0 s4 = Some [ReadingHeader d n]).
Proof. split_and!; [eexists| |eexists| |eexists|eexists _, _]; vm_compute; reflexivity. Qed.

Lemma s5_reachable : rtc step CreateSession s5.
Proof.
  destruct sample_under_way as ([o H0] & H1 & [k H2] & H2' & [d H3] & d' & n & H4).
  apply (rtc_l _ _ (ClientSession.CreateHttp TaskSample.options (lit "www.origin.example") (lit "80") (lit "/b") CreateSession)); [apply session_http|].
  apply (rtc_l _ _ made); [apply session_http|].
  apply (rtc_l _ _ s1); [apply (at_task_step 0 _ _ o H0); intros t _; apply step_call_start|].
  apply (rtc_l _ _ s2); [apply (at_task_step 0 _ _ _ H1); intros t Ht; exact (step_start 0 t [] [] Ht)|].
  apply (rtc_l _ _ s2'); [apply (at_task_step 0 _ _ _ H2); intros t Ht; exact (step_acquired _ t k [] [] Ht)|].
  apply (rtc_l _ _ s3); [apply (at_task_step 0 _ _ _ H2'); intros t Ht; exact (step_acquire_done TakingStream t [] [] Ht eq_refl)|].
  apply (rtc_l _ _ s4); [apply (at_task_step 0 _ _ _ H3); intros t Ht; exact (step_written _ t d [] [] Ht)|].
  apply rtc_once, (at_task_step 0 _ _ _ H4). intros t Ht. exact (step_header 0 None header t d' n [] [] Ht eq_refl).
Qed.

(** As the unit test does that seeds a session by hand. *)
Definition seeded : session :=
  mkSession (SyncSetCookie no_dates 0 (lit "127.0.0.1") (lit "/") (lit "sid=abc; Path=/") []) [] [] [lit "127.0.0.1"].

Lemma seeded_reachable : rtc step CreateSession seeded.
Proof. apply rtc_once. exact (session_sync_cookie no_dates stable_sort _ _ _ _ 0 (lit "127.0.0.1") (lit "/") (lit "sid=abc; Path=/") CreateSession). Qed.
End SessionSample.

(** The program puts a cookie in itself, before any response. *)
Lemma session_shares_jar_witness :
  (exists c, cookies_ SessionSample.s5 = [c] /\
    eligible (NormalizeHost (lit "www.origin.example")) (lit "/b") false c = true /\
    exists setter, (setter ∈ session_hosts SessionSample.s5 \/ setter ∈ named SessionSample.s5) /\ vouched setter c) /\
  named SessionSample.s5 = [] /\
  (length (cookies_ SessionSample.seeded) = 1 /\
   exists ops, cookies_ SessionSample.seeded = run_jar no_dates stable_sort ops /\
     forall h, h ∈ response_hosts ops -> h ∈ session_hosts SessionSample.seeded \/ h ∈ [lit "127.0.0.1"]).
Proof.
  destruct (session_shares_jar no_dates stable_sort (fun _ => true) (fun _ => None) None None SessionSample.s5 SessionSample.s5_reachable)
    as (_ & Hc & _).
  destruct (session_shares_jar no_dates stable_sort (fun _ => true) (fun _ => None) None None SessionSample.seeded SessionSample.seeded_reachable)
    as (Hops & _).
  split_and!; [|reflexivity|vm_compute; reflexivity|exact Hops].
  eexists. split; [vm_compute; reflexivity|]. split; [vm_compute; reflexivity|].
  eapply (Hc _ (lit "www.origin.example") (lit "/b") false); [|vm_compute; reflexivity].
  vm_compute. by left.
Defined.
