(* ===== verification/PluginString.v ===== *)
(** * The string type of the plugin interface

    [src/src/bsrvrun/string.cc]: [String] owns a NUL-terminated buffer that it
    gets from the library's allocator and gives back with the size it asked for.
    A heap is a map from addresses to blocks, whose bytes are indeterminate
    ([None]) until they are written.  A call returns, throws [std::bad_alloc] when
    the allocator does not grant a block, ends the process when it throws inside a
    [noexcept] function, or is undefined: reading outside a block or an
    indeterminate byte, writing outside a block, and giving back a block that is
    not there or has another size. *)

From S2P Require Import Prelude.

Record String := mkString { data_ : nat; size_ : nat }.

Abbreviation block := (list (option ascii)).

(** The heap, and the strings that exist by the names of their variables. *)
Record world := mkWorld { heap : gmap nat block; objects : gmap nat String }.

Inductive result (A : Type) :=
  | Ok (a : A) (w : world)
  | Threw (w : world)
  | Terminated
  | Undefined.
Arguments Ok {A} _ _.
Arguments Threw {A} _.
Arguments Terminated {A}.
Arguments Undefined {A}.

Definition M (A : Type) : Type := world -> result A.
Definition ret {A} (a : A) : M A := Ok a.
Definition bind {A B} (m : M A) (f : A -> M B) : M B := fun w =>
  match m w with Ok a w' => f a w' | Threw w' => Threw w' | Terminated => Terminated | Undefined => Undefined end.
Notation "x <-- m ;; k" := (bind m (fun x => k)) (at level 100, m at next level, right associativity) : bsrv_scope.
Definition undefined {A} : M A := fun _ => Undefined.
Definition noexcept {A} (m : M A) : M A := fun w => match m w with Threw _ => Terminated | r => r end.

Definition set_heap (h : gmap nat block) (w : world) : world := mkWorld h (objects w).
Definition set_objects (o : gmap nat String) (w : world) : world := mkWorld (heap w) o.

Definition NUL : ascii := Ascii.zero.

Section strings.
(** Whether the allocator grants a block of this size. *)
Context (grants : gmap nat block -> nat -> bool).

(** ** Memory *)

Definition Allocate (size : nat) : M nat := fun w =>
  if grants (heap w) size
  then let p := fresh (dom (heap w)) in Ok p (set_heap (<[p := replicate size None]> (heap w)) w)
  else Threw w.

Definition Deallocate (p size : nat) : M unit := fun w =>
  match heap w !! p with
  | Some b => if decide (length b = size) then Ok tt (set_heap (delete p (heap w)) w) else Undefined
  | None => Undefined
  end.

(** Where bytes are copied from: memory of the caller, or a block. *)
Inductive source := Extern (s : str) | Block (p : nat).

Definition read (src : source) (n : nat) : M str := fun w =>
  match src with
  | Extern s => if decide (n <= length s) then Ok (take n s) w else Undefined
  | Block p =>
      match heap w !! p with
      | Some b =>
          if decide (n <= length b)
          then match mapM id (take n b) with Some s => Ok s w | None => Undefined end
          else Undefined
      | None => Undefined
      end
  end.

Definition write (p off : nat) (s : str) : M unit := fun w =>
  match heap w !! p with
  | Some b =>
      if decide (off + length s <= length b)
      then Ok tt (set_heap (<[p := take off b ++ (Some <$> s) ++ drop (off + length s) b]> (heap w)) w)
      else Undefined
  | None => Undefined
  end.

Definition DuplicateBuffer (data : source) (size : nat) : M nat :=
  copied <-- Allocate (size + 1) ;;
  _ <-- (if 0 <? size then bytes <-- read data size ;; write copied 0 bytes else ret tt) ;;
  _ <-- write copied size [NUL] ;;
  ret copied.

(** [std::strlen] *)
Definition strlen (s : str) : nat :=
  match list_find (fun c => c = NUL) s with Some (i, _) => i | None => length s end.

(** ** The class *)

(** [String()] *)
Definition String_default : M String := noexcept (p <-- DuplicateBuffer (Extern []) 0 ;; ret (mkString p 0)).

(** [String(const char* str)]; [None] is a null pointer. *)
Definition String_cstr (s : option str) : M String :=
  match s with
  | None => p <-- DuplicateBuffer (Extern []) 0 ;; ret (mkString p 0)
  | Some s => p <-- DuplicateBuffer (Extern s) (strlen s) ;; ret (mkString p (strlen s))
  end.

(** [String(const char* data, std::size_t size)] *)
Definition String_data (data : option str) (size : nat) : M String :=
  match data with
  | None =>
      if negb (size =? 0) then p <-- DuplicateBuffer (Extern []) 0 ;; ret (mkString p 0)
      else p <-- DuplicateBuffer (Extern []) size ;; ret (mkString p size)
  | Some d => p <-- DuplicateBuffer (Extern d) size ;; ret (mkString p size)
  end.

(** [String(std::string_view view)] *)
Definition String_view (view : str) : M String :=
  p <-- DuplicateBuffer (Extern view) (length view) ;; ret (mkString p (length view)).

(** [String(const String& other)] *)
Definition String_copy (other : String) : M String :=
  p <-- DuplicateBuffer (Block (data_ other)) (size_ other) ;; ret (mkString p (size_ other)).

(** [String(String&& other)]: the new string and what is left of the other. *)
Definition String_move (other : String) : M (String * String) :=
  noexcept (p <-- DuplicateBuffer (Extern []) 0 ;; ret (mkString (data_ other) (size_ other), mkString p 0)).

(** [operator=(const String&)] of two different strings *)
Definition assign_copy (this other : String) : M String :=
  copied <-- DuplicateBuffer (Block (data_ other)) (size_ other) ;;
  _ <-- Deallocate (data_ this) (size_ this + 1) ;;
  ret (mkString copied (size_ other)).

(** [operator=(String&&)] of two different strings *)
Definition assign_move (this other : String) : M (String * String) :=
  noexcept (
    _ <-- Deallocate (data_ this) (size_ this + 1) ;;
    p <-- DuplicateBuffer (Extern []) 0 ;;
    ret (mkString (data_ other) (size_ other), mkString p 0)).

(** [~String()] *)
Definition String_destroy (this : String) : M unit := Deallocate (data_ this) (size_ this + 1).

Definition Empty (this : String) : bool := size_ this =? 0.
Definition ToStdString (this : String) : M str := read (Block (data_ this)) (size_ this).

(** What a reader of [CStr()] takes the string to be: the bytes up to the first
    NUL of the block. *)
Definition CStr (this : String) : M str := fun w =>
  match heap w !! data_ this with
  | Some b => match list_find (fun c => c = Some NUL) b with
              | Some (i, _) => read (Block (data_ this)) i w
              | None => Undefined
              end
  | None => Undefined
  end.

(** [operator==]; [memcmp] of two ranges of equal length is 0 when they are equal. *)
Definition String_eqb (lhs rhs : String) : M bool :=
  if negb (size_ lhs =? size_ rhs) then ret false else
  a <-- read (Block (data_ lhs)) (size_ lhs) ;;
  b <-- read (Block (data_ rhs)) (size_ lhs) ;;
  ret (a =s b).

(** ** Programs with strings *)

Definition object (x : nat) : M String := fun w =>
  match objects w !! x with Some s => Ok s w | None => Undefined end.
Definition store (x : nat) (s : String) : M unit := fun w => Ok tt (set_objects (<[x := s]> (objects w)) w).
Definition forget (x : nat) : M unit := fun w => Ok tt (set_objects (delete x (objects w)) w).

Inductive string_op :=
  | NewDefault (x : nat)
  | NewCStr (x : nat) (s : option str)
  | NewData (x : nat) (data : option str) (size : nat)
  | NewView (x : nat) (view : str)
  | NewCopy (x y : nat)
  | NewMove (x y : nat)
  | AssignCopy (x y : nat)
  | AssignMove (x y : nat)
  | Destroy (x : nat).

Definition run_string_op (o : string_op) : M unit :=
  match o with
  | NewDefault x => s <-- String_default ;; store x s
  | NewCStr x c => s <-- String_cstr c ;; store x s
  | NewData x d n => s <-- String_data d n ;; store x s
  | NewView x v => s <-- String_view v ;; store x s
  | NewCopy x y => t <-- object y ;; s <-- String_copy t ;; store x s
  | NewMove x y => t <-- object y ;; st <-- String_move t ;; _ <-- store x st.1 ;; store y st.2
  | AssignCopy x y =>
      s <-- object x ;; t <-- object y ;;
      if x =? y then ret tt else s' <-- assign_copy s t ;; store x s'
  | AssignMove x y =>
      s <-- object x ;; t <-- object y ;;
      if x =? y then ret tt else st <-- assign_move s t ;; _ <-- store x st.1 ;; store y st.2
  | Destroy x => s <-- object x ;; _ <-- String_destroy s ;; forget x
  end.

(** ** What strings are meant to be: values *)

Abbreviation values := (gmap nat str).

(** The calls C++ allows: a variable is made once, others exist, and the caller's
    memory has the bytes. *)
Definition op_ok (m : values) (o : string_op) : Prop :=
  match o with
  | NewDefault x | NewCStr x _ | NewView x _ => m !! x = None
  | NewData x d n => m !! x = None /\ forall s, d = Some s -> n <= length s
  | NewCopy x y | NewMove x y => m !! x = None /\ is_Some (m !! y)
  | AssignCopy x y | AssignMove x y => is_Some (m !! x) /\ is_Some (m !! y)
  | Destroy x => is_Some (m !! x)
  end.

Definition value_of (m : values) (x : nat) : str := default [] (m !! x).

Definition spec_op (o : string_op) (m : values) : values :=
  match o with
  | NewDefault x => <[x := []]> m
  | NewCStr x c => <[x := from_option (fun s => take (strlen s) s) [] c]> m
  | NewData x d n => <[x := from_option (take n) [] d]> m
  | NewView x v => <[x := v]> m
  | NewCopy x y => <[x := value_of m y]> m
  | NewMove x y => <[y := []]> (<[x := value_of m y]> m)
  | AssignCopy x y => <[x := value_of m y]> m
  | AssignMove x y => if x =? y then m else <[y := []]> (<[x := value_of m y]> m)
  | Destroy x => delete x m
  end.

(** The calls that may not throw. *)
Definition is_noexcept (o : string_op) : bool :=
  match o with NewDefault _ | NewMove _ _ | AssignMove _ _ => true | _ => false end.

(** A program runs calls that C++ allows; it may catch what they throw. *)
Inductive reached : world -> values -> Prop :=
  | reached_start : reached (mkWorld ∅ ∅) ∅
  | reached_ok o w w' m :
      reached w m -> op_ok m o -> run_string_op o w = Ok tt w' -> reached w' (spec_op o m)
  | reached_threw o w w' m :
      reached w m -> op_ok m o -> run_string_op o w = Threw w' -> reached w' m.

(** ** Who owns which block *)

Definition bytes_of (v : str) : block := Some <$> v ++ [NUL].

(** Each string owns one block, with its value and a NUL; no block is owned twice,
    and none is without an owner. *)
Record strings_inv (w : world) (m : values) : Prop := {
  inv_value x s : objects w !! x = Some s ->
    exists v, m !! x = Some v /\ size_ s = length v /\ heap w !! data_ s = Some (bytes_of v);
  inv_named x : is_Some (m !! x) -> is_Some (objects w !! x);
  inv_apart x y s t : objects w !! x = Some s -> objects w !! y = Some t -> data_ s = data_ t -> x = y;
  inv_owned p b : heap w !! p = Some b -> exists x s, objects w !! x = Some s /\ data_ s = p;
}.

Lemma inv_absent w m x : strings_inv w m -> m !! x = None -> objects w !! x = None.
Proof.
  intros Hi Hx. destruct (objects w !! x) as [s|] eqn:E; [|done].
  destruct (inv_value _ _ Hi _ _ E) as (v & Hv & _). congruence.
Qed.

Lemma inv_object w m x v :
  strings_inv w m -> m !! x = Some v ->
  exists s, objects w !! x = Some s /\ size_ s = length v /\ heap w !! data_ s = Some (bytes_of v).
Proof.
  intros Hi Hx. destruct (inv_named _ _ Hi x) as [s Hs]; [by eexists|].
  destruct (inv_value _ _ Hi _ _ Hs) as (v' & Hv & ?). simplify_eq. eauto.
Qed.

(** A new string with a new block. *)
Lemma inv_add w m x p v :
  strings_inv w m -> heap w !! p = None -> m !! x = None ->
  strings_inv (mkWorld (<[p := bytes_of v]> (heap w)) (<[x := mkString p (length v)]> (objects w))) (<[x := v]> m).
Proof.
  intros Hi Hp Hx. assert (forall y t, objects w !! y = Some t -> data_ t <> p) as Hne.
  { intros y t Ht. destruct (inv_value _ _ Hi _ _ Ht) as (u & _ & _ & Hu). congruence. }
  split; cbn.
  - intros y s. rewrite lookup_insert_Some. intros [[<- <-] | [Hxy Hs]].
    + exists v. by rewrite !lookup_insert_eq.
    + destruct (inv_value _ _ Hi _ _ Hs) as (u & Hu & Hz & Hb). exists u.
      rewrite !lookup_insert_ne by (done || by apply not_eq_sym, (Hne y)). done.
  - intros y. rewrite !lookup_insert_is_Some. intros [?|[? ?]]; [by left|right].
    split; [done|]. by apply (inv_named _ _ Hi).
  - intros y z s t. rewrite !lookup_insert_Some. intros [[<- <-] | [Hy Hs]] [[<- <-] | [Hz Ht]]; cbn; intros Hd.
    + done.
    + by destruct (Hne _ _ Ht).
    + by destruct (Hne _ _ Hs).
    + by eapply (inv_apart _ _ Hi).
  - intros q b. rewrite lookup_insert_Some. intros [[<- <-] | [Hq Hb]].
    + exists x, (mkString p (length v)). by rewrite lookup_insert_eq.
    + destruct (inv_owned _ _ Hi _ _ Hb) as (y & t & Ht & Hd). exists y, t. split; [|done].
      rewrite lookup_insert_ne; [done|]. intros ->. by rewrite (inv_absent _ _ _ Hi Hx) in Ht.
Qed.

(** The end of a string. *)
Lemma inv_remove w m x s :
  strings_inv w m -> objects w !! x = Some s ->
  strings_inv (mkWorld (delete (data_ s) (heap w)) (delete x (objects w))) (delete x m).
Proof.
  intros Hi Hx. split; cbn.
  - intros y t. rewrite lookup_delete_Some. intros [Hxy Ht].
    destruct (inv_value _ _ Hi _ _ Ht) as (u & Hu & Hz & Hb). exists u.
    rewrite !lookup_delete_ne; [done| |done]. intros Hd. apply Hxy. by eapply (inv_apart _ _ Hi).
  - intros y [v Hv]. apply lookup_delete_Some in Hv as [Hxy Hv]. rewrite lookup_delete_ne by done.
    apply (inv_named _ _ Hi). by eexists.
  - intros y z t t'. rewrite !lookup_delete_Some. intros [_ ?] [_ ?]. by eapply (inv_apart _ _ Hi).
  - intros q b. rewrite lookup_delete_Some. intros [Hq Hb].
    destruct (inv_owned _ _ Hi _ _ Hb) as (y & t & Ht & Hd). exists y, t. split; [|done].
    rewrite lookup_delete_ne; [done|]. intros ->. congruence.
Qed.

(** A block goes from one string to another. *)
Lemma inv_rename w m x y t v :
  strings_inv w m -> m !! x = None -> objects w !! y = Some t -> m !! y = Some v ->
  strings_inv (mkWorld (heap w) (<[x := t]> (delete y (objects w)))) (<[x := v]> (delete y m)).
Proof.
  intros Hi Hx Ht Hv. assert (x <> y) as Hne by congruence. split; cbn.
  - intros z s. rewrite lookup_insert_Some, lookup_delete_Some. intros [[<- <-] | (Hz & Hyz & Hs)].
    + rewrite lookup_insert_eq. destruct (inv_value _ _ Hi _ _ Ht) as (u & Hu & ? & ?). simplify_eq. eauto.
    + rewrite lookup_insert_ne, lookup_delete_ne by done. by apply (inv_value _ _ Hi).
  - intros z. rewrite !lookup_insert_is_Some, !lookup_delete_is_Some. intros [?|(? & ? & ?)]; [by left|right].
    split_and!; [done|done|]. by apply (inv_named _ _ Hi).
  - intros a b s s'. rewrite !lookup_insert_Some, !lookup_delete_Some.
    intros [[<- <-] | (Ha & Hya & Hs)] [[<- <-] | (Hb & Hyb & Hs')] Hd.
    + done.
    + destruct Hyb. by eapply (inv_apart _ _ Hi).
    + destruct Hya. symmetry. by eapply (inv_apart _ _ Hi).
    + by eapply (inv_apart _ _ Hi).
  - intros q b Hb. destruct (inv_owned _ _ Hi _ _ Hb) as (z & s & Hs & Hd).
    destruct (decide (z = y)) as [-> | Hzy].
    + exists x, t. rewrite lookup_insert_eq. split; [done|]. congruence.
    + exists z, s. split; [|done]. rewrite lookup_insert_ne, lookup_delete_ne; [done|done|].
      intros ->. by rewrite (inv_absent _ _ _ Hi Hx) in Hs.
Qed.

(** ** What the calls do *)

Lemma bytes_length v : length (bytes_of v) = length v + 1.
Proof. unfold bytes_of. by rewrite length_fmap, length_app. Qed.

Lemma read_block w p v : heap w !! p = Some (bytes_of v) -> read (Block p) (length v) w = Ok v w.
Proof.
  intros Hp. unfold read. rewrite Hp, decide_True by (rewrite bytes_length; lia).
  unfold bytes_of. rewrite fmap_app, take_app_length' by by rewrite length_fmap.
  assert (mapM id (Some <$> v) = Some v) as ->; [|done]. apply mapM_Some. rewrite Forall2_fmap_l.
  by apply Forall_Forall2_diag, Forall_true.
Qed.

Lemma fill_block v :
  take 0 (replicate (length v + 1) None) ++ (Some <$> v) ++ drop (0 + length v) (replicate (length v + 1) None)
  = (Some <$> v) ++ [@None ascii].
Proof. cbn. by rewrite drop_replicate, Nat.add_comm, Nat.add_sub. Qed.

Lemma end_block v (o : option ascii) :
  take (length v) ((Some <$> v) ++ [o]) ++ (Some <$> [NUL]) ++ drop (length v + 1) ((Some <$> v) ++ [o]) = bytes_of v.
Proof.
  rewrite take_app_length' by by rewrite length_fmap.
  rewrite drop_ge by (rewrite length_app, length_fmap; cbn; lia). unfold bytes_of. by rewrite fmap_app.
Qed.

(** The source has these bytes. *)
Definition has_bytes (w : world) (src : source) (v : str) : Prop :=
  match src with
  | Extern s => length v <= length s /\ v = take (length v) s
  | Block p => heap w !! p = Some (bytes_of v)
  end.

Lemma read_has_bytes w src v : has_bytes w src v -> read src (length v) w = Ok v w.
Proof.
  destruct src as [s|p]; cbn; [|apply read_block]. intros [Hl Hv]. rewrite decide_True by done. by rewrite <- Hv.
Qed.

Lemma DuplicateBuffer_spec w src v :
  has_bytes w src v ->
  DuplicateBuffer src (length v) w =
    if grants (heap w) (length v + 1)
    then Ok (fresh (dom (heap w))) (set_heap (<[fresh (dom (heap w)) := bytes_of v]> (heap w)) w)
    else Threw w.
Proof.
  intros Hv. unfold DuplicateBuffer, bind at 1, Allocate. destruct (grants _ _); [|done].
  set (p := fresh (dom (heap w))). assert (heap w !! p = None) as Hp by (apply not_elem_of_dom, is_fresh).
  set (w1 := set_heap _ w).
  assert (has_bytes w1 src v) as Hv1.
  { destruct src as [s|q]; [done|]. cbn in *. rewrite lookup_insert_ne; [done|]. intros ->. congruence. }
  assert (exists o, (if 0 <? length v then bytes <-- read src (length v) ;; write p 0 bytes else ret tt) w1
    = Ok tt (set_heap (<[p := (Some <$> v) ++ [o]]> (heap w)) w)) as [o Ho].
  { exists None. destruct v as [|c v]; [done|]. change (0 <? length (c :: v)) with true. cbn iota.
    unfold bind. rewrite (read_has_bytes w1 _ _ Hv1). unfold write, w1. cbn [heap set_heap].
    rewrite lookup_insert_eq, decide_True by (rewrite length_replicate; cbn; lia).
    by rewrite fill_block, insert_insert_eq. }
  unfold bind at 1. rewrite Ho. unfold bind, write. cbn [heap set_heap].
  rewrite lookup_insert_eq, decide_True by (rewrite length_app, length_fmap; cbn; lia).
  cbn [length]. by rewrite end_block, insert_insert_eq.
Qed.

Lemma DuplicateBuffer_empty w :
  DuplicateBuffer (Extern []) 0 w =
    if grants (heap w) 1
    then Ok (fresh (dom (heap w))) (set_heap (<[fresh (dom (heap w)) := bytes_of []]> (heap w)) w)
    else Threw w.
Proof. by apply (DuplicateBuffer_spec w (Extern []) []). Qed.

Lemma Deallocate_spec w p v :
  heap w !! p = Some (bytes_of v) -> Deallocate p (length v + 1) w = Ok tt (set_heap (delete p (heap w)) w).
Proof. intros Hp. unfold Deallocate. by rewrite Hp, decide_True by apply bytes_length. Qed.

Lemma strlen_le s : strlen s <= length s.
Proof.
  unfold strlen. destruct (list_find _ s) as [[i c]|] eqn:E; [|done].
  apply list_find_Some in E as (Hi & _). apply lookup_lt_Some in Hi. lia.
Qed.

Lemma extern_bytes w s n : n <= length s -> has_bytes w (Extern s) (take n s) /\ length (take n s) = n.
Proof. intros Hn. rewrite length_take_le by done. split; [|done]. cbn. by rewrite length_take_le. Qed.

(** The outcomes of a call that makes [m'] of [m], or throws without an effect. *)
Definition safe (may_throw : bool) (w : world) (m' : values) (r : result unit) : Prop :=
  match r with
  | Ok _ w' => strings_inv w' m'
  | Threw w' => may_throw = true /\ w' = w
  | Terminated => may_throw = false
  | Undefined => False
  end.

Lemma fresh_address w : heap w !! fresh (dom (heap w)) = None.
Proof. apply not_elem_of_dom, is_fresh. Qed.

Lemma construct_safe w m x src v :
  strings_inv w m -> m !! x = None -> has_bytes w src v ->
  safe true w (<[x := v]> m)
    ((s <-- (p <-- DuplicateBuffer src (length v) ;; ret (mkString p (length v))) ;; store x s) w).
Proof.
  intros Hi Hx Hv. unfold bind. rewrite DuplicateBuffer_spec by done. destruct (grants _ _); [|done].
  cbn. apply inv_add; [done|apply fresh_address|done].
Qed.

Lemma object_ok w x s : objects w !! x = Some s -> object x w = Ok s w.
Proof. intros Hx. unfold object. by rewrite Hx. Qed.

Lemma insert_delete_ne (m : values) x y u v : x <> y -> <[y := v]> (<[x := u]> (delete y m)) = <[y := v]> (<[x := u]> m).
Proof. intros Hne. by rewrite (insert_insert_ne _ y x), insert_delete_eq, insert_insert_ne by done. Qed.

(** The other string gives up its block and gets a new one. *)
Lemma take_over_inv w m x y t v :
  strings_inv w m -> m !! x = None -> objects w !! y = Some t -> m !! y = Some v ->
  strings_inv
    (mkWorld (<[fresh (dom (heap w)) := bytes_of []]> (heap w))
       (<[y := mkString (fresh (dom (heap w))) 0]> (<[x := mkString (data_ t) (size_ t)]> (objects w))))
    (<[y := []]> (<[x := v]> m)).
Proof.
  intros Hi Hx Ht Hv. assert (x <> y) as Hne by congruence.
  rewrite <- insert_delete_ne by done.
  pose proof (inv_add _ _ y (fresh (dom (heap w))) [] (inv_rename _ _ _ _ _ _ Hi Hx Ht Hv) (fresh_address w)
    ltac:(rewrite lookup_insert_ne, lookup_delete_eq; done)) as Ha.
  cbn in Ha. replace (<[y := _]> (<[x := mkString _ _]> (objects w)))
    with (<[y := mkString (fresh (dom (heap w))) 0]> (<[x := t]> (delete y (objects w)))); [done|].
  rewrite (insert_insert_ne _ y x), insert_delete_eq, insert_insert_ne by done. by destruct t.
Qed.

Lemma assign_copy_safe w m x y u v :
  strings_inv w m -> m !! x = Some u -> m !! y = Some v ->
  safe true w (<[x := value_of m y]> m) (run_string_op (AssignCopy x y) w).
Proof.
  intros Hi Hx Hy. destruct (inv_object _ _ _ _ Hi Hx) as (s & Hs & Hzs & Hbs).
  destruct (inv_object _ _ _ _ Hi Hy) as (t & Ht & Hz & Hb). unfold value_of. rewrite Hy. cbn [from_option id run_string_op].
  unfold bind at 1. rewrite (object_ok _ _ _ Hs). unfold bind at 1. rewrite (object_ok _ _ _ Ht).
  destruct (Nat.eqb_spec x y) as [-> | Hne]; [cbn; by rewrite insert_id by congruence|].
  unfold assign_copy, bind. rewrite Hz, (DuplicateBuffer_spec w (Block (data_ t)) v) by done.
  destruct (grants _ _); [|done]. set (p := fresh _). assert (p <> data_ s) as Hp
    by (intros E; pose proof (fresh_address w) as Hf; fold p in Hf; congruence).
  rewrite Hzs, (Deallocate_spec _ _ u) by (cbn; by rewrite lookup_insert_ne). cbn.
  rewrite delete_insert_ne by done.
  pose proof (inv_add _ _ x p v (inv_remove _ _ _ _ Hi Hs)) as Ha. cbn in Ha.
  rewrite !insert_delete_eq in Ha. apply Ha; [|apply lookup_delete_eq].
  rewrite lookup_delete_ne by done. apply fresh_address.
Qed.

Lemma assign_move_safe w m x y u v :
  strings_inv w m -> m !! x = Some u -> m !! y = Some v ->
  safe false w (spec_op (AssignMove x y) m) (run_string_op (AssignMove x y) w).
Proof.
  intros Hi Hx Hy. destruct (inv_object _ _ _ _ Hi Hx) as (s & Hs & Hzs & Hbs).
  destruct (inv_object _ _ _ _ Hi Hy) as (t & Ht & Hz & Hb). cbn [spec_op run_string_op].
  unfold value_of. rewrite Hy. cbn [from_option id].
  unfold bind at 1. rewrite (object_ok _ _ _ Hs). unfold bind at 1. rewrite (object_ok _ _ _ Ht).
  destruct (Nat.eqb_spec x y) as [-> | Hne]; [done|].
  unfold assign_move, noexcept, bind. rewrite Hzs, (Deallocate_spec _ _ u), DuplicateBuffer_empty by done.
  destruct (grants _ _); [|done]. cbn [safe store ret fst snd set_objects].
  pose proof (take_over_inv _ _ x y t v (inv_remove _ _ _ _ Hi Hs) (lookup_delete_eq _ _)) as Ha.
  cbn in Ha. rewrite !lookup_delete_ne, (insert_delete_eq (objects w)) in Ha by done.
  rewrite (insert_delete_eq m) in Ha. by apply Ha.
Qed.

Lemma run_string_op_safe o w m :
  strings_inv w m -> op_ok m o -> safe (negb (is_noexcept o)) w (spec_op o m) (run_string_op o w).
Proof.
  intros Hi Hok. destruct o as [x|x c|x d n|x v|x y|x y|x y|x y|x]; cbn [op_ok] in Hok; cbn [run_string_op spec_op is_noexcept negb].
  - pose proof (construct_safe w m x (Extern []) [] Hi Hok ltac:(done)) as Hc. unfold String_default.
    unfold noexcept, bind in *. cbn [length] in Hc. by destruct (DuplicateBuffer _ _ w).
  - destruct c as [s|]; [|by apply (construct_safe w m x (Extern []) [])].
    destruct (extern_bytes w s (strlen s) (strlen_le s)) as [Hb Hl].
    pose proof (construct_safe w m x (Extern s) _ Hi Hok Hb) as Hc. by rewrite Hl in Hc.
  - destruct Hok as [Hx Hd]. destruct d as [s|]; cbn [String_data from_option].
    + destruct (extern_bytes w s n (Hd s eq_refl)) as [Hb Hl].
      pose proof (construct_safe w m x (Extern s) _ Hi Hx Hb) as Hc. by rewrite Hl in Hc.
    + destruct (Nat.eqb_spec n 0) as [-> |]; by apply (construct_safe w m x (Extern []) []).
  - apply (construct_safe w m x (Extern v) v); [done|done|]. cbn. by rewrite firstn_all.
  - destruct Hok as [Hx [v Hy]]. destruct (inv_object _ _ _ _ Hi Hy) as (t & Ht & Hz & Hb).
    unfold bind at 1. rewrite (object_ok _ _ _ Ht). unfold String_copy. rewrite Hz.
    unfold value_of. rewrite Hy. by apply construct_safe.
  - destruct Hok as [Hx [v Hy]]. destruct (inv_object _ _ _ _ Hi Hy) as (t & Ht & Hz & Hb).
    unfold bind at 1. rewrite (object_ok _ _ _ Ht). unfold String_move, noexcept, bind.
    rewrite DuplicateBuffer_empty. destruct (grants _ _); [|done].
    cbn. unfold value_of. rewrite Hy. by apply take_over_inv.
  - destruct Hok as [[u Hx] [v Hy]]. by eapply assign_copy_safe.
  - destruct Hok as [[u Hx] [v Hy]]. by eapply assign_move_safe.
  - destruct Hok as [u Hx]. destruct (inv_object _ _ _ _ Hi Hx) as (s & Hs & Hzs & Hbs).
    unfold bind. rewrite (object_ok _ _ _ Hs). unfold String_destroy. rewrite Hzs, (Deallocate_spec _ _ u) by done.
    cbn. by apply inv_remove.
Qed.

Lemma reached_inv w m : reached w m -> strings_inv w m.
Proof.
  intros Hr. induction Hr as [|o w w' m Hr IH Hok Ho|o w w' m Hr IH Hok Ho].
  - split; cbn; [done|by intros x [v Hv]|done|done].
  - pose proof (run_string_op_safe o w m IH Hok) as Hs. by rewrite Ho in Hs.
  - pose proof (run_string_op_safe o w m IH Hok) as Hs. rewrite Ho in Hs. by destruct Hs as [_ ->].
Qed.

Lemma compare_strings w m x y s t u v :
  strings_inv w m -> m !! x = Some u -> m !! y = Some v -> objects w !! x = Some s -> objects w !! y = Some t ->
  String_eqb s t w = Ok (u =s v) w.
Proof.
  intros Hi Hx Hy Hs Ht.
  destruct (inv_object _ _ _ _ Hi Hx) as (s' & Hs' & Hzs & Hbs). destruct (inv_object _ _ _ _ Hi Hy) as (t' & Ht' & Hzt & Hbt).
  simplify_eq. unfold String_eqb. destruct (Nat.eqb_spec (size_ s) (size_ t)) as [E|E]; cbn [negb].
  - unfold bind. rewrite Hzs, (read_block _ _ u) by done. rewrite <- Hzs, E, Hzt. by rewrite (read_block _ _ v).
  - unfold ret. f_equal. symmetry. apply str_eqb_neq. intros ->. congruence.
Qed.

(** Strings are values, and memory is theirs one by one.  Whatever a program
    does with strings, whatever the allocator refuses, and even if the program
    goes on after what is thrown: every string reads as the value it was given
    and is followed by a NUL, a string that was moved from is empty, comparing
    strings compares values; every block of the heap belongs to exactly one
    string, so when all are gone nothing is left; no call reads or writes where
    it may not or gives a block back twice or with another size; a call that
    throws has changed nothing; and only a call that may not throw ends the
    process, as the two moves and the default constructor do when they are
    refused the byte they ask for. *)
Theorem strings_owned (w : world) (m : values) :
  reached w m ->
  (forall x v, m !! x = Some v ->
     exists s, objects w !! x = Some s /\ ToStdString s w = Ok v w /\ heap w !! data_ s = Some (bytes_of v)) /\
  (forall x y s t u v, m !! x = Some u -> m !! y = Some v -> objects w !! x = Some s -> objects w !! y = Some t ->
     String_eqb s t w = Ok (u =s v) w) /\
  (forall p b, heap w !! p = Some b -> exists! x, exists s, objects w !! x = Some s /\ data_ s = p) /\
  (m = ∅ -> heap w = ∅) /\
  (forall o, op_ok m o ->
     run_string_op o w <> Undefined /\ (run_string_op o w = Terminated -> is_noexcept o = true) /\
     (forall w', run_string_op o w = Threw w' -> w' = w)).
Proof.
  intros Hr. pose proof (reached_inv _ _ Hr) as Hi. split_and!.
  - intros x v Hx. destruct (inv_object _ _ _ _ Hi Hx) as (s & Hs & Hz & Hb). exists s.
    split_and!; [done| |done]. unfold ToStdString. rewrite Hz. by apply read_block.
  - intros x y s t u v. by apply compare_strings.
  - intros p b Hb. destruct (inv_owned _ _ Hi _ _ Hb) as (x & s & Hs & Hd). exists x. split; [eauto|].
    intros y (t & Ht & Hdt). eapply (inv_apart _ _ Hi); [done|done|congruence].
  - intros ->. apply map_empty. intros p. destruct (heap w !! p) as [b|] eqn:Hb; [|done].
    destruct (inv_owned _ _ Hi _ _ Hb) as (x & s & Hs & _). destruct (inv_value _ _ Hi _ _ Hs) as (v & Hv & _).
    by rewrite lookup_empty in Hv.
  - intros o Hok. pose proof (run_string_op_safe o w m Hi Hok) as Hs. unfold safe in Hs.
    destruct (run_string_op o w) as [a w'|w'| |] eqn:E; split_and!; try done.
    + intros w'' [= <-]. apply Hs.
    + intros _. by apply negb_false_iff.
Qed.
End strings.

(** ** A sample: two strings, a copy, a move, and a refused copy *)

Definition at_most (n : nat) (h : gmap nat block) (size : nat) : bool := size <? n.

Definition after (w : world) (o : string_op) : world :=
  match run_string_op (at_most 5) o w with Ok _ w' => w' | _ => w end.

Definition sample_ops : list string_op :=
  [NewView 1 (lit "key"); NewCopy 2 1; NewDefault 3; AssignMove 3 1].

Definition sample_world : world := foldl after (mkWorld ∅ ∅) sample_ops.
Definition sample_values : gmap nat str := foldl (fun m o => spec_op o m) ∅ sample_ops.

Lemma sample_step o w m w' :
  reached (at_most 5) w m -> op_ok m o -> run_string_op (at_most 5) o w = Ok tt w' ->
  reached (at_most 5) (after w o) (spec_op o m).
Proof. intros Hr Hok E. unfold after. rewrite E. by eapply reached_ok. Qed.

Lemma sample_reached : reached (at_most 5) sample_world sample_values.
Proof.
  unfold sample_world, sample_values, sample_ops. cbn [foldl].
  eapply sample_step; [eapply sample_step; [eapply sample_step; [eapply sample_step; [apply reached_start|done|done]
    |split; [done|by eexists]|reflexivity]|done|reflexivity]|split; by eexists|reflexivity].
Qed.

Lemma strings_owned_witness :
  sample_values !! 3 = Some (lit "key") /\ sample_values !! 1 = Some [] /\
  (exists s, objects sample_world !! 3 = Some s /\ ToStdString s sample_world = Ok (lit "key") sample_world /\
     heap sample_world !! data_ s = Some (bytes_of (lit "key"))) /\
  run_string_op (at_most 5) (NewView 4 (lit "value")) sample_world = Threw sample_world.
Proof.
  split_and!; [reflexivity|reflexivity| |reflexivity].
  apply (strings_owned (at_most 5) sample_world sample_values sample_reached). reflexivity.
Defined.

(** Moving a string needs memory: where it is refused, the process ends. *)
Example move_needs_memory :
  let w := after (mkWorld ∅ ∅) (NewView 1 (lit "key")) in
  run_string_op (fun _ _ => false) (NewMove 2 1) w = Terminated.
Proof. reflexivity. Qed.

(** A C caller sees a value only up to its first NUL. *)
Example c_view_is_cut :
  let w := after (mkWorld ∅ ∅) (NewView 1 (lit "a" ++ [NUL; "b"%char])) in
  (s <-- object 1 ;; CStr s) w = Ok (lit "a") w /\ (s <-- object 1 ;; ToStdString s) w = Ok (lit "a" ++ [NUL; "b"%char]) w.
Proof. split; reflexivity. Qed.
