(* ===== verification/ClientTls.v ===== *)
(** * The default TLS context of the client

    [src/src/connection/client/impl/default_client_ssl_context.cc]: one context for
    the process, with the certificates of every place where some are found.
    OpenSSL, the environment and the file system are parameters; a context is the
    list of places its certificates were loaded from.  The error queue of OpenSSL
    is part of the state: a failing call may leave errors in it, and
    [ERR_get_error] takes the oldest. *)

From S2P Require Import Prelude.

(** Where certificates come from. *)
Inductive anchor := DefaultPaths | File (path : str) | Directory (path : str).

#[global] Instance anchor_eq_dec : EqDecision anchor.
Proof. solve_decision. Defined.

(** The error codes the function reports. *)
Inductive tls_error := ssl_error (code : Z) | errc_io_error | no_such_file_or_directory.

Record DefaultClientSslContextState := mkState {
  ssl_ctx : option (list anchor);
  ec : option tls_error;
  error_message : str;
}.

(** The context, the error queue and the local variables of the function. *)
Record building := mkBuilding {
  loaded : list anchor;
  queue : list Z;
  first_error : option tls_error;
  loaded_any : bool;
}.

Section tls.
Context (getenv : str -> option str) (path_exists : str -> bool).
(** The outcome of loading a file or a directory: success, and the errors put
    into the queue. *)
Context (load_verify : anchor -> bool * list Z).
(** [set_default_verify_paths], which clears the queue. *)
Context (set_default_verify_paths : option tls_error).

(** [None] is an [error_code] that is not set. *)
Definition MakeSslError (q : list Z) : option tls_error * list Z :=
  match q with
  | [] => (None, [])
  | e :: q' => if (e =? 0)%Z then (None, q') else (Some (ssl_error e), q')
  end.

Definition PathExists (path : str) : bool :=
  match path with [] => false | _ => path_exists path end.

(** The common body of [TryLoadVerifyFile] and [TryLoadVerifyDir]. *)
Definition try_load (a : anchor) (path : str) (b : building) : bool * building :=
  if negb (PathExists path) then (false, b) else
  let '(ok, errors) := load_verify a in
  let q := queue b ++ errors in
  if ok then (true, mkBuilding (loaded b ++ [a]) q (first_error b) (loaded_any b)) else
  match first_error b with
  | Some _ => (false, mkBuilding (loaded b) q (first_error b) (loaded_any b))
  | None =>
      let '(e, q') := MakeSslError q in
      (false, mkBuilding (loaded b) q' (Some (default errc_io_error e)) (loaded_any b))
  end.

Definition TryLoadVerifyFile (path : str) : building -> bool * building := try_load (File path) path.
Definition TryLoadVerifyDir (path : str) : building -> bool * building := try_load (Directory path) path.

Definition from_env (name : str) : list str :=
  match getenv name with Some (c :: v) => [c :: v] | _ => [] end.

Definition CollectVerifyFiles : list str :=
  from_env (lit "SSL_CERT_FILE") ++
  [lit "/etc/ssl/cert.pem"; lit "/etc/ssl/certs/ca-certificates.crt"; lit "/etc/ssl/ca-bundle.pem";
   lit "/etc/pki/tls/cert.pem"; lit "/etc/pki/ca-trust/extracted/pem/tls-ca-bundle.pem"].

Definition CollectVerifyDirs : list str :=
  from_env (lit "SSL_CERT_DIR") ++
  [lit "/etc/ssl/certs"; lit "/etc/pki/tls/certs"; lit "/system/etc/security/cacerts"].

(** [loaded_any = TryLoad...(...) || loaded_any] *)
Definition load_next (try : building -> bool * building) (b : building) : building :=
  let '(ok, b) := try b in mkBuilding (loaded b) (queue b) (first_error b) (ok || loaded_any b).

Definition BuildDefaultClientSslContextState : DefaultClientSslContextState :=
  let b :=
    match set_default_verify_paths with
    | None => mkBuilding [DefaultPaths] [] None true
    | Some e => mkBuilding [] [] (Some e) false
    end in
  let b := foldl (fun b file => load_next (TryLoadVerifyFile file) b) b CollectVerifyFiles in
  let b := foldl (fun b dir => load_next (TryLoadVerifyDir dir) b) b CollectVerifyDirs in
  if negb (loaded_any b)
  then mkState None (Some (default no_such_file_or_directory (first_error b)))
         (lit "failed to load trusted CA certificates")
  else mkState (Some (loaded b)) None [].

(** [GetDefaultClientSslContextState] builds the state once. *)
Definition GetDefaultClientSslContextState (state : option DefaultClientSslContextState) :
    DefaultClientSslContextState :=
  match state with Some s => s | None => BuildDefaultClientSslContextState end.

(** ** What it comes to *)

(** A place that exists and loads. *)
Definition usable (a : anchor) : bool :=
  match a with
  | DefaultPaths => match set_default_verify_paths with None => true | Some _ => false end
  | File path | Directory path => PathExists path && (load_verify a).1
  end.

(** The places in the order they are tried. *)
Definition places : list anchor :=
  DefaultPaths :: (File <$> CollectVerifyFiles) ++ (Directory <$> CollectVerifyDirs).

Definition usable_places : list anchor := filter (fun a => usable a = true) places.

(** The state once [tried] are tried: what is in the context, whether anything is,
    and that an error of the default paths stays the first. *)
Definition tried_inv (tried : list anchor) (b : building) : Prop :=
  loaded b = filter (fun a => usable a = true) tried /\
  loaded_any b = bool_decide (loaded b <> []) /\
  (forall e, set_default_verify_paths = Some e -> first_error b = Some e).

Lemma filter_usable a l :
  filter (fun a => usable a = true) (a :: l) = (if usable a then [a] else []) ++ filter (fun a => usable a = true) l.
Proof. rewrite filter_cons. by destruct (usable a). Qed.

Lemma try_load_inv a path tried b :
  usable a = (PathExists path && (load_verify a).1) -> tried_inv tried b ->
  tried_inv (tried ++ [a]) (load_next (try_load a path) b).
Proof.
  intros Hu (Hl & Ha & He). unfold load_next, try_load, tried_inv. rewrite filter_app, <- Hl.
  rewrite filter_usable, app_nil_r.
  destruct (PathExists path) eqn:Hp; cbn [negb andb] in *.
  2: { rewrite Hu. cbn. by rewrite app_nil_r. }
  destruct (load_verify a) as [ok errors] eqn:E. cbn [fst] in Hu. rewrite Hu. destruct ok.
  - cbn. split_and!; [done|by rewrite bool_decide_eq_true_2 by by destruct (loaded b)|done].
  - destruct (first_error b) as [e|] eqn:Hf; [|destruct (MakeSslError _) as [e q] eqn:Em]; cbn; rewrite app_nil_r;
      (split_and!; [done|done|]); intros e' Hd; specialize (He _ Hd); congruence.
Qed.

Lemma try_all_inv (mk : str -> anchor) paths tried b :
  (forall p, usable (mk p) = (PathExists p && (load_verify (mk p)).1)) -> tried_inv tried b ->
  tried_inv (tried ++ (mk <$> paths)) (foldl (fun b p => load_next (try_load (mk p) p) b) b paths).
Proof.
  intros Hu. revert tried b. induction paths as [|p paths IH]; intros tried b Hb; cbn; [by rewrite app_nil_r|].
  specialize (IH (tried ++ [mk p])). rewrite <- app_assoc in IH. apply IH. by apply try_load_inv.
Qed.

(** The context has the certificates of every usable place, in order of
    precedence, and of no other; a client gets an error instead exactly when no
    place is usable, and then it is the error of the default paths: what fails
    later is never reported, and "no such file" never is. *)
Theorem default_tls_context :
  BuildDefaultClientSslContextState =
    match set_default_verify_paths, usable_places with
    | Some e, [] => mkState None (Some e) (lit "failed to load trusted CA certificates")
    | _, anchors => mkState (Some anchors) None []
    end.
Proof.
  unfold BuildDefaultClientSslContextState. cbn zeta. set (b0 := match set_default_verify_paths with None => _ | Some _ => _ end).
  assert (tried_inv [DefaultPaths] b0) as H0.
  { unfold tried_inv, b0. rewrite filter_usable. cbn. destruct set_default_verify_paths as [e|]; cbn; split_and!; by try intros e' [= <-]. }
  pose proof (try_all_inv Directory CollectVerifyDirs _ _ ltac:(done)
    (try_all_inv File CollectVerifyFiles _ _ ltac:(done) H0)) as Hb.
  unfold TryLoadVerifyDir, TryLoadVerifyFile. set (b := foldl _ _ CollectVerifyDirs) in *.
  destruct Hb as (Hl & -> & He). change (loaded b = usable_places) in Hl. rewrite Hl.
  destruct set_default_verify_paths as [e|] eqn:Hd.
  - rewrite (He e eq_refl). by destruct usable_places.
  - rewrite bool_decide_eq_true_2; [by destruct usable_places|].
    unfold usable_places, places. rewrite filter_usable. cbn. by rewrite Hd.
Qed.
End tls.

(** ** A sample: a host without the default paths, with a bundle and a bad file *)

Definition sample_env (name : str) : option str := if name =s lit "SSL_CERT_FILE" then Some (lit "/bad.pem") else None.
Definition sample_exists (path : str) : bool :=
  (path =s lit "/bad.pem") || (path =s lit "/etc/ssl/cert.pem") || (path =s lit "/etc/ssl/certs").
Definition sample_load (a : anchor) : bool * list Z :=
  match a with File p => if p =s lit "/bad.pem" then (false, [42%Z]) else (true, []) | _ => (true, []) end.

Example sample_context :
  BuildDefaultClientSslContextState sample_env sample_exists sample_load (Some (ssl_error 7)) =
    mkState (Some [File (lit "/etc/ssl/cert.pem"); Directory (lit "/etc/ssl/certs")]) None [].
Proof. reflexivity. Qed.

Example sample_failure :
  BuildDefaultClientSslContextState sample_env (fun p => p =s lit "/bad.pem") sample_load (Some (ssl_error 7)) =
    mkState None (Some (ssl_error 7)) (lit "failed to load trusted CA certificates").
Proof. reflexivity. Qed.
