(* ===== verification/SessionAttribute.v ===== *)
(** * Client sessions kept in a context

    [src/include/bsrvcore/connection/client/http_client_session_attribute.h]: a
    handler keeps a client session as an attribute of the server's context or of
    its visitor's, over the contexts of [ServerTask].  A call of
    [GetOrCreateHttpClientSession] holds the lock of the context for the look-up
    and again for the store, so calls of several threads interleave between the
    two; the calls are a transition system. *)

From S2P Require Import Prelude ServerTask.

(** A session by its identity; [None] is a null pointer. *)
Record HttpClientSessionAttribute := mkSessionAttribute { session_ : option nat }.

(** What a context may hold: this attribute, or one of another class. *)
Inductive Attribute := OfSession (a : HttpClientSessionAttribute) | OfOther (id : nat).

Definition Get (a : HttpClientSessionAttribute) : option nat := session_ a.
Definition Set_ (session : option nat) (a : HttpClientSessionAttribute) : HttpClientSessionAttribute :=
  mkSessionAttribute session.
Definition Clone (a : HttpClientSessionAttribute) : HttpClientSessionAttribute := mkSessionAttribute (session_ a).

Definition ToString (a : HttpClientSessionAttribute) : str :=
  match session_ a with
  | Some _ => lit "HttpClientSessionAttribute(shared)"
  | None => lit "HttpClientSessionAttribute(null)"
  end.

Definition Equals (a : HttpClientSessionAttribute) (another : Attribute) : bool :=
  match another with
  | OfOther _ => false
  | OfSession other => bool_decide (session_ a = session_ other)
  end.

Definition kHttpClientSessionAttributeKey : str := lit "bsrvcore.http_client.session".

Abbreviation context := (Context Attribute).

Definition GetHttpClientSession (ctx : option context) (key : str) : option nat :=
  match ctx with
  | None => None
  | Some c => match GetAttribute key c with Some (OfSession a) => Get a | _ => None end
  end.

(** The call without interruption; [created] is the session it would make. *)
Definition GetOrCreateHttpClientSession (created : nat) (ctx : option context) (key : str) :
    option nat * option context :=
  match ctx with
  | None => (None, None)
  | Some c =>
      match GetHttpClientSession ctx key with
      | Some existing => (Some existing, ctx)
      | None => (Some created, Some (SetAttribute key (Some (OfSession (mkSessionAttribute (Some created)))) c))
      end
  end.

(** A second call finds what the first has left, under its key only. *)
Theorem session_found_again (c1 c2 : nat) (c : context) (key key' : str) :
  let '(s, ctx) := GetOrCreateHttpClientSession c1 (Some c) key in
  is_Some s /\ GetOrCreateHttpClientSession c2 ctx key = (s, ctx) /\
  (key' <> key -> GetHttpClientSession ctx key' = GetHttpClientSession (Some c) key').
Proof.
  unfold GetOrCreateHttpClientSession. destruct (GetHttpClientSession (Some c) key) as [s|] eqn:E; [by rewrite E|].
  cbn. unfold GetAttribute, SetAttribute. cbn. rewrite lookup_insert_eq. cbn. split_and!; [done|done|].
  intros Hk. by rewrite lookup_insert_ne.
Qed.

(** ** Several threads *)

Inductive pc := Entered | Missed | Returned (s : nat).

Record threads := mkThreads { shared : context; callers : list pc; next_session : nat }.

Section threads.
Context (key : str).

(** A new caller; a look-up that finds a session or not; the creation and store. *)
Inductive thread_step : threads -> threads -> Prop :=
  | step_call t : thread_step t (mkThreads (shared t) (callers t ++ [Entered]) (next_session t))
  | step_found i s t :
      callers t !! i = Some Entered -> GetHttpClientSession (Some (shared t)) key = Some s ->
      thread_step t (mkThreads (shared t) (<[i := Returned s]> (callers t)) (next_session t))
  | step_missed i t :
      callers t !! i = Some Entered -> GetHttpClientSession (Some (shared t)) key = None ->
      thread_step t (mkThreads (shared t) (<[i := Missed]> (callers t)) (next_session t))
  | step_create i t :
      callers t !! i = Some Missed ->
      thread_step t (mkThreads (SetAttribute key (Some (OfSession (mkSessionAttribute (Some (next_session t))))) (shared t))
        (<[i := Returned (next_session t)]> (callers t)) (S (next_session t))).

Definition settled (t : threads) : Prop :=
  forall i s, callers t !! i = Some (Returned s) -> is_Some (GetHttpClientSession (Some (shared t)) key).

Lemma store_found s c : GetHttpClientSession (Some (SetAttribute key (Some (OfSession (mkSessionAttribute (Some s)))) c)) key = Some s.
Proof. cbn. unfold GetAttribute, SetAttribute. cbn. by rewrite lookup_insert_eq. Qed.

Lemma settled_step t t' : settled t -> thread_step t t' -> settled t'.
Proof.
  unfold settled. intros Hs Ht.
  destruct Ht as [t|i s t Hi Hg|i t Hi Hg|i t Hi]; intros j s'; cbn [callers shared]; [| | |by rewrite store_found; eauto].
  - intros Hj. apply lookup_app_Some in Hj as [Hj|[_ Hj]]; [by eapply Hs|]. apply list_lookup_singleton_Some in Hj as [_ ?]. done.
  - rewrite Hg. eauto.
  - intros Hj. apply list_lookup_insert_Some in Hj as [(_ & ? & _)|[_ Hj]]; [done|by eapply Hs].
Qed.

(** Once one call has returned, a look-up finds a session, so that no call that
    looks up after it makes another one. *)
Theorem later_callers_share c t i s :
  rtc thread_step (mkThreads c [] 0) t -> callers t !! i = Some (Returned s) ->
  exists s', GetHttpClientSession (Some (shared t)) key = Some s'.
Proof.
  intros Ht Hi. assert (settled t) as Hs; [|by apply (Hs i s)].
  eapply rtc_invariant; [apply settled_step|exact Ht|]. by intros j s'.
Qed.
End threads.

(** Two calls that both look up before either stores get different sessions, and
    only the second stays in the context. *)
Theorem callers_may_split :
  exists t, rtc (thread_step kHttpClientSessionAttributeKey) (mkThreads new_Context [] 0) t /\
    callers t = [Returned 0; Returned 1] /\ GetHttpClientSession (Some (shared t)) kHttpClientSessionAttributeKey = Some 1.
Proof.
  eexists. split.
  - eapply rtc_l; [apply step_call|]. eapply rtc_l; [apply step_call|].
    eapply rtc_l; [by apply (step_missed _ 0)|]. eapply rtc_l; [by apply (step_missed _ 1)|].
    eapply rtc_l; [by apply (step_create _ 0)|]. eapply rtc_l; [by apply (step_create _ 1)|]. apply rtc_refl.
  - split; reflexivity.
Qed.

(** A copy of an attribute shares the session of the original, and is equal to it. *)
Lemma clone_equal a : Equals a (OfSession (Clone a)) = true /\ Get (Clone a) = Get a.
Proof. split; [by apply bool_decide_eq_true|done]. Qed.
