(* ===== verification/FormUpload.v ===== *)
(** * Files that come with a form

    The files of a multipart form from the client's generator to the server's
    disk: [AsyncDumpToDisk] of [src/src/connection/server/multipart_parser.cc] over
    the writers of [FileTransfer], together with [FormExchange].  The parser makes
    a writer of every file part as it goes; [MultipartParser] keeps its payload. *)

From S2P Require Import Prelude Text ServerCookie CookieExchange MultipartParser MultipartGenerator FormExchange FileTransfer.

Section dump.
Context {D : Type} `{Disk D}.

(** [MultipartParser::AsyncDumpToDisk]; the executors are those of the parser. *)
Definition MultipartDumpToDisk (parts_ : list PartData) (work callback_executor : bool) (part_idx : nat) (path : str)
    (callback : option nat) (w : world D) : bool * world D :=
  match GetFileWriter parts_ part_idx, path with
  | None, _ | _, [] => (false, w)
  | Some payload, _ =>
      let writer := CreateWriter payload work callback_executor in
      match callback with
      | None => AsyncWriteToDisk writer path None None w
      | Some n => AsyncWriteToDisk writer path (Some new_writing) (Some (WriteDump n)) w
      end
  end.

(** Only files can be dumped. *)
Lemma text_not_dumped parts work ex i path cb w :
  (forall p, parts !! i = Some p -> writer p = None) -> MultipartDumpToDisk parts work ex i path cb w = (false, w).
Proof.
  intros Hp. unfold MultipartDumpToDisk, GetFileWriter. destruct (parts !! i) as [p|]; [|done]. by rewrite (Hp p).
Qed.

(** A handler asks for files to be stored: the part, the path, and the number of
    its callback. *)
Definition request : Type := nat * str * nat.

Definition dump_all (parts : list PartData) (reqs : list request) (w : world D) : world D :=
  foldl (fun w '(i, q, m) => (MultipartDumpToDisk parts true true i q (Some m) w).2) w reqs.

(** What is to be written: bytes, path, callback. *)
Abbreviation write := (str * str * nat)%type.

Definition write_job (x : write) : job :=
  let '(s, q, m) := x in JWrite (CreateWriter s true true) q new_writing (Some (WriteDump m)).

Definition asks (parts : list PartData) (x : write) (r : request) : Prop :=
  let '(i, q, m) := r in x.1.2 = q /\ x.2 = m /\ q <> [] /\ GetFileWriter parts i = Some x.1.1.

Lemma dump_all_jobs parts xs reqs w :
  Forall2 (asks parts) xs reqs ->
  dump_all parts reqs w = mkWorld (disk w) (jobs w ++ (write_job <$> xs)) (builds w) (told w).
Proof.
  intros HF. revert w. induction HF as [|[[s q] m] [[i q'] m'] xs reqs (Hq & Hm & Hne & Hw) HF IH]; intros w;
    cbn [dump_all foldl]; [destruct w; cbn; by rewrite app_nil_r|].
  cbn in Hq, Hm, Hw. subst q' m'. unfold dump_all in IH. rewrite IH. unfold MultipartDumpToDisk. rewrite Hw.
  destruct q as [|c q]; [done|]. unfold AsyncWriteToDisk. destruct (CreateWriter_bytes s true true) as [_ Hv]. rewrite Hv.
  cbn. by rewrite <- app_assoc.
Qed.

(** *** The jobs *)

Definition write_of (j : job) : option (str * str) :=
  match j with
  | JWrite wr q _ _ => Some (q, if size_ wr =? 0 then [] else bytes wr)
  | _ => None
  end.

(** A write that is waiting, or the news of one. *)
Definition dump_job (j : job) : Prop :=
  match j with
  | JWrite wr _ _ (Some (WriteDump _)) => w_callback_executor_ wr = true
  | JWriteDone _ (WriteDump _) => True
  | _ => False
  end.

Definition ins (x : str * str) (files : gmap str str) : gmap str str := <[x.1 := x.2]> files.

Lemma ins_later x P m : x.1 ∉ P.*1 -> foldr ins (ins x m) P = ins x (foldr ins m P).
Proof.
  induction P as [|y P IH]; [done|]. cbn. intros [Hne Hn]%not_elem_of_cons. rewrite IH by done.
  unfold ins. by rewrite insert_insert_ne.
Qed.

(** Some write has failed. *)
Definition bad_news (w : world D) : Prop :=
  (exists m, ToldDump m false ∈ told w) \/
  exists st m, JWriteDone st (WriteDump m) ∈ jobs w /\ ws_ec st <> None.
End dump.

Section stored.
Context {D : Type} `{DiskLaws D}.

(** What the files will be once the waiting writes are done, unless one fails. *)
Definition storing (final : gmap str str) (w : world D) : Prop :=
  let P := omap write_of (jobs w) in
  Forall dump_job (jobs w) /\ NoDup P.*1 /\ (bad_news w \/ foldr ins (content (disk w)) P = final).

Lemma RunWrite_law wr q st (d : D) :
  let '(st', d') := RunWrite wr q st d in
  ws_ec st' <> None \/ content d' = ins (q, if size_ wr =? 0 then [] else bytes wr) (content d).
Proof.
  unfold RunWrite. destruct (write_output _ _ _) as [o d'] eqn:E. destruct o; [by left..|].
  right. by apply write_output_law in E.
Qed.

(** Bad news stays. *)
Lemma bad_news_kept (w w' : world D) j :
  bad_news w -> (forall st m, j = JWriteDone st (WriteDump m) -> ws_ec st <> None -> ToldDump m false ∈ told w') ->
  (forall e, e ∈ told w -> e ∈ told w') -> (forall j', j' ∈ jobs w -> j' = j \/ j' ∈ jobs w') -> bad_news w'.
Proof.
  intros [(m & Hm)|(st & m & Hj & He)] Hdone Ht Hjs; [left; eauto|].
  destruct (Hjs _ Hj) as [<- | Hj']; [left; eauto|right; eauto].
Qed.

Lemma run_write_storing final wr q st m l1 l2 (w : world D) :
  jobs w = l1 ++ JWrite wr q st (Some (WriteDump m)) :: l2 -> storing final w ->
  storing final (run_job (JWrite wr q st (Some (WriteDump m))) (mkWorld (disk w) (l1 ++ l2) (builds w) (told w))).
Proof.
  intros Hj (Hd & Hn & Hf). rewrite Hj in Hd, Hn, Hf. apply Forall_app in Hd as [Hd1 [Hx Hd2]%Forall_cons]. cbn in Hx.
  rewrite omap_app in Hn, Hf. cbn [omap list_omap write_of] in Hn, Hf. fold (omap write_of l2) in Hn, Hf.
  rewrite fmap_app, fmap_cons in Hn. cbn [fst] in Hn. cbn [run_job disk].
  pose proof (RunWrite_law wr q st (disk w)) as Hlaw. destruct (RunWrite wr q st (disk w)) as [st' d'].
  rewrite Hx. unfold storing. cbn [DispatchWriteCallback post set_disk jobs disk builds told].
  rewrite omap_app, omap_app. cbn [omap list_omap write_of]. rewrite app_nil_r, fmap_app.
  apply NoDup_app in Hn as (N1 & N2 & [N3 N4]%NoDup_cons).
  split_and!.
  - repeat apply Forall_app_2; [done|done|by constructor].
  - apply NoDup_app. split_and!; [done| |done]. intros z Hz Hz2. by apply (N2 z Hz), list_elem_of_further.
  - destruct Hlaw as [He| ->]; [left; right; exists st', m; split; [apply elem_of_app; right; by apply list_elem_of_singleton|done]|].
    destruct Hf as [Hb|Hf].
    + left. apply (bad_news_kept w _ (JWrite wr q st (Some (WriteDump m)))); [done|done|done|].
      intros j' Hj'. rewrite Hj in Hj'. cbn [jobs]. set_solver.
    + right. rewrite <- Hf, !foldr_app. cbn [foldr]. by rewrite ins_later.
Qed.

Lemma run_done_storing final st m l1 l2 (w : world D) :
  jobs w = l1 ++ JWriteDone st (WriteDump m) :: l2 -> storing final w ->
  storing final (run_job (JWriteDone st (WriteDump m)) (mkWorld (disk w) (l1 ++ l2) (builds w) (told w))).
Proof.
  intros Hj (Hd & Hn & Hf). rewrite Hj in Hd, Hn, Hf. apply Forall_app in Hd as [Hd1 [_ Hd2]%Forall_cons].
  rewrite omap_app in Hn, Hf. cbn [omap list_omap write_of] in Hn, Hf. fold (omap write_of l2) in Hn, Hf.
  unfold storing. cbn [run_job call_write tell jobs disk builds told]. rewrite omap_app. split_and!; [by apply Forall_app|done|].
  destruct Hf as [Hb|Hf]; [left|by right].
  apply (bad_news_kept w _ (JWriteDone st (WriteDump m))); [done| | |].
  - intros st' m' [= <- <-] He. cbn. rewrite bool_decide_eq_false_2 by done. apply elem_of_app. right. by apply list_elem_of_singleton.
  - intros e He. cbn. apply elem_of_app. by left.
  - intros j' Hj'. rewrite Hj in Hj'. cbn [jobs]. set_solver.
Qed.

Lemma run_nth_storing final i (w : world D) : storing final w -> storing final (run_nth i w).
Proof.
  intros Hs. unfold run_nth. destruct (jobs w !! i) as [j|] eqn:Hi; [|done].
  pose proof (take_drop_middle _ _ _ Hi) as Hj. symmetry in Hj. rewrite delete_take_drop.
  assert (dump_job j) as Hdj by (destruct Hs as [Hd _]; rewrite Forall_forall in Hd; apply Hd; by eapply list_elem_of_lookup_2).
  destruct j as [| |wr q st [[]|]|st []| |]; try done; [by apply run_write_storing|by apply run_done_storing].
Qed.

Lemma run_schedule_storing final l : forall w : world D, storing final w -> storing final (run_schedule l w).
Proof. induction l as [|i l IH]; intros w Hw; [done|]. by apply IH, run_nth_storing. Qed.

(** *** From the form to the disk *)

Lemma dump_as_api parts i q cb (w : world D) :
  MultipartDumpToDisk parts true true i q cb w =
  run_api (ApiDump (mkProcessor ((fun s => CreateWriter s true true) <$> GetFileWriter parts i) true) q cb) w.
Proof. unfold MultipartDumpToDisk. cbn. unfold AsyncDumpToDisk. cbn. by destruct (GetFileWriter parts i). Qed.

Lemma dump_all_reach parts xs reqs asked (w : world D) :
  Forall2 (asks parts) xs reqs -> reach asked w -> reach (asked ++ ((fun r => TDump r.2) <$> reqs)) (dump_all parts reqs w).
Proof.
  intros HF. revert asked w. induction HF as [|[[s q] m] [[i q'] m'] xs reqs (Hq & Hm & Hne & Hw) HF IH]; intros asked w Hr.
  - by rewrite app_nil_r.
  - cbn in Hq, Hm, Hw. subst q' m'. cbn [dump_all foldl fmap list_fmap snd]. rewrite cons_middle, app_assoc. apply IH.
    destruct (MultipartDumpToDisk parts true true i q (Some m) w) as [ok w'] eqn:Hd. cbn [snd].
    assert (ok = true) as ->.
    { unfold MultipartDumpToDisk in Hd. rewrite Hw in Hd. destruct q as [|c q]; [done|]. unfold AsyncWriteToDisk in Hd.
      destruct (CreateWriter_bytes s true true) as [_ Hv]. rewrite Hv in Hd. by injection Hd. }
    rewrite dump_as_api in Hd. exact (reach_call _ _ _ _ _ Hr Hd).
Qed.

Lemma storing_start xs parts reqs (d : D) :
  Forall2 (asks parts) xs reqs -> NoDup ((fun x : str * str * nat => x.1.2) <$> xs) ->
  storing (foldr (fun x files => <[x.1.2 := x.1.1]> files) (content d) xs) (dump_all parts reqs (fresh d)).
Proof.
  intros HF Hn. rewrite (dump_all_jobs _ _ _ _ HF). unfold storing. cbn [fresh jobs disk told app].
  assert (omap write_of (write_job <$> xs) = (fun x => (x.1.2, x.1.1)) <$> xs) as ->.
  { clear. induction xs as [|[[s q] m] xs IH]; [done|]. cbn. rewrite IH.
    destruct (CreateWriter_bytes s true true) as [Hb _]. cbn in Hb. by rewrite Hb. }
  split_and!.
  - apply Forall_fmap, Forall_true. by intros [[s q] m].
  - by rewrite <- list_fmap_compose.
  - right. clear. induction xs as [|x xs IH]; [done|]. cbn. by rewrite IH.
Qed.

Context {E : Type} (io_error : E) {R : Type} (filename_of : R -> str).

Abbreviation states_t := (list (option (MultipartGenerator.FileReadingState (E := E)))).

(** The bytes of the file in a part of the form. *)
Definition file_bytes (g : MultipartGenerator (E := E) (R := R)) (states : states_t) (i : nat) : str :=
  default [] (MultipartGenerator.parts_ g !! i ≫= part_data states).

Definition is_file_part (g : MultipartGenerator (E := E) (R := R)) (i : nat) : Prop :=
  exists part, MultipartGenerator.parts_ g !! i = Some part /\ spec_is_file part = true.

Lemma asks_of_form g (states : states_t) (reqs : list request) :
  Forall (fun '(i, q, m) => q <> [] /\ is_file_part g i) reqs ->
  Forall2 (asks (part_view states <$> MultipartGenerator.parts_ g))
    ((fun '(i, q, m) => (file_bytes g states i, q, m)) <$> reqs) reqs.
Proof.
  intros HF. rewrite Forall2_fmap_l. apply Forall_Forall2_diag. eapply Forall_impl; [exact HF|].
  intros [[i q] m] [Hq (part & Hp & Hf)]. split_and!; [done|done|done|]. cbn.
  unfold GetFileWriter, file_bytes. rewrite list_lookup_fmap, Hp. cbn. unfold part_view. by rewrite Hf.
Qed.

(** C34. A form and its files arrive.  Of a form whose parts have well-formed names
    and types, whose content does not contain the boundary and whose files were
    read, the server's parser gives back exactly the parts in order: type, whether
    it is a file, every byte.  A handler has files of it stored under different
    paths: in whatever order the jobs run: once there are none left, every callback has
    been called once, and if each was told that it worked the server's files are
    as before but for those paths, which hold the bytes that the client read. *)
Theorem form_files_stored (g : MultipartGenerator (E := E) (R := R)) (states : states_t) c (reqs : list request) (ds : D) :
  Forall (part_ok filename_of (BuildBoundary c).1 states) (MultipartGenerator.parts_ g) ->
  Forall (fun '(i, q, m) => q <> [] /\ is_file_part g i) reqs ->
  NoDup ((fun r : request => r.1.2) <$> reqs) ->
  let parts := part_view states <$> MultipartGenerator.parts_ g in
  exists task,
    built io_error filename_of g (BuildBoundary c).1 states = inr task /\
    Parse (task_content_type task) (task_body task) = Returned parts /\
    let w := dump_all parts reqs (fresh ds) in
    (exists l, fair l w /\ jobs (run_schedule l w) = []) /\
    forall l, jobs (run_schedule l w) = [] ->
      told_token <$> told (run_schedule l w) ≡ₚ (fun r => TDump r.2) <$> reqs /\
      ((forall m, ToldDump m false ∉ told (run_schedule l w)) ->
       content (disk (run_schedule l w)) =
         foldr (fun '(i, q, m) files => <[q := file_bytes g states i]> files) (content ds) reqs).
Proof.
  intros Hok Hreqs Hn. cbn zeta. destruct (form_parsed io_error filename_of g states c Hok) as (task & Hb & Hp).
  exists task. split; [done|]. split; [exact Hp|].
  pose proof (asks_of_form g states reqs Hreqs) as Ha. set (w := dump_all _ reqs (fresh ds)).
  split; [by eapply runs_out|]. intros l Hl.
  pose proof (dump_all_reach _ _ _ [] (fresh ds) Ha (reach_start ds)) as Hr. fold w in Hr. split.
  - apply (reach_schedule _ l), reach_inv in Hr as [I1 _ _]. unfold pending in I1. rewrite Hl in I1. cbn in I1.
    rewrite app_nil_r in I1. by rewrite I1.
  - intros Hall.
    assert (storing _ (run_schedule l w)) as (_ & _ & Hf)
      by (apply run_schedule_storing, (storing_start _ _ _ _ Ha); by rewrite <- list_fmap_compose;
          erewrite list_fmap_ext; [exact Hn|by intros ? [[? ?] ?] _]).
    rewrite Hl in Hf. cbn in Hf. destruct Hf as [[(m & Hm)|(st & m & Hj & _)]|Hf].
    + by destruct (Hall m).
    + rewrite Hl in Hj. by apply not_elem_of_nil in Hj.
    + rewrite Hf. rewrite foldr_fmap. clear. induction reqs as [|[[i q] m] reqs IH]; [done|]. cbn. by rewrite IH.
Qed.
End stored.

(** ** A sample: a title and a document, which is stored *)

Module UploadSample.
#[local] Existing Instance TransferSample.plain_disk.
#[local] Existing Instance TransferSample.plain_disk_laws.

Definition store_doc : list request := [(1, lit "/srv/doc", 7)].
Definition server_disk : gmap str str := {[ lit "/srv/old" := lit "old" ]}.

Lemma sample_parts_ok : Forall (part_ok letters (BuildBoundary 7).1 sample_states) (MultipartGenerator.parts_ sample_generator).
Proof.
  repeat apply Forall_cons_2; [| |apply Forall_nil_2].
  - split; [by apply (bool_decide_unpack _)|]. split; [by apply (bool_decide_unpack _)|].
    split; [split; [done|]; by exists (lit "text/plai"), "n"%char|].
    split; [by apply (bool_decide_unpack _)|]. split; [by apply (bool_decide_unpack _)|].
    eexists. split; reflexivity.
  - split; [by apply (bool_decide_unpack _)|]. split; [by apply (bool_decide_unpack _)|].
    split; [done|].
    split; [by apply (bool_decide_unpack _)|]. split; [by apply (bool_decide_unpack _)|].
    eexists. split; reflexivity.
Qed.

Lemma form_files_stored_witness :
  exists task, built 5 letters sample_generator (BuildBoundary 7).1 sample_states = inr task /\
    let w := dump_all (part_view sample_states <$> MultipartGenerator.parts_ sample_generator) store_doc (fresh server_disk) in
    told (run_schedule [0; 0] w) = [ToldDump 7 true] /\
    content (disk (run_schedule [0; 0] w)) = <[lit "/srv/doc" := crlf ++ lit "--bsrv"]> server_disk.
Proof.
  destruct (form_files_stored 5 letters sample_generator sample_states 7 store_doc server_disk sample_parts_ok) as (task & Hb & _ & _ & Hl).
  - apply Forall_cons_2; [|apply Forall_nil_2]. split; [done|]. eexists. split; reflexivity.
  - apply NoDup_singleton.
  - exists task. split; [exact Hb|]. cbn zeta. split; [reflexivity|].
    apply (Hl [0; 0] eq_refl). intros m Hm. apply list_elem_of_singleton in Hm. discriminate.
Defined.
End UploadSample.
