(* ===== verification/Serving.v ===== *)
(** * A connection and the requests it serves

    [Connection] leaves open what a task does with the connection it was handed,
    [Lifecycle] what becomes of the action a task ends with.  Here they meet: when
    the body of a request is read the connection makes a task of the request and
    its route ([HttpPreServerTask::Create] and [Start] in [DoForwardRequest] of
    http_server_connection.cc), the task runs the lifecycle with the aspects and
    the handler of that route, and its final action is carried out on the
    connection.  The log has what was handled and what was written.

    What user code may run for a request is a parameter, a relation, since it may
    depend on anything; what happens around it meanwhile is part of it, as in
    [Lifecycle].  A task runs in one step; it starts in the state the connection is
    in then, and what became of server and stream while it ran holds afterwards.
    What a task streams goes to the connection's queue and not to the log; the log
    has what is handled and the responses that are written whole. *)

From S2P Require Import Prelude Text HttpFields RouteTarget RouteLayer RouteTable ServerCookie Lifecycle Connection.

Section serving.
Context {F : Type} {HF : HttpFields F} {W : Type}.
Context {H A : Type} (parse_segments : str -> option (list str)) (table : HttpRouteTable H A).
Context (header_read_expiry_ keep_alive_timeout_ : Z).

Abbreviation conn_t := (StreamServerConnection (H := H) (A := A)).
Abbreviation route_t := (HttpRouteResultInternal H A).
Abbreviation task_t := (HttpTaskSharedState (F := F) (W := W)).

(** The aspects and the handler of a route, as [Lifecycle] takes them. *)
Record user_code := mkCode {
  code_pre : nat -> task_t -> list (pre_call (F := F));
  code_pre_tail : task_t -> list (pre_call (F := F));
  code_service : task_t -> list (service_call (F := F) (W := W));
  code_post : nat -> task_t -> list (call (F := F));
  code_post_tail : task_t -> list (call (F := F));
}.

(** [websocket::is_upgrade] of a request. *)
Context (asks_upgrade : request_head -> bool).
Context (user : request_head -> route_t -> user_code -> Prop).

(** The task of a request, to its end. *)
Definition run_task (req : request_head) (r : route_t) (code : user_code) (running is_closed : bool) : task_t :=
  run_request (length (aspects r)) (match handler r with Some _ => true | None => false end)
    (RouteTable.write_expiry r) (asks_upgrade req)
    (code_pre code) (code_pre_tail code) (code_service code) (code_post code) (code_post_tail code)
    (CreateTaskState running is_closed).

Abbreviation action_t := (action (F := F) (W := W)).

Inductive event :=
  | Handled (req : request_head) (r : route_t) (acts : list action_t)
  | Sent (resp : HttpResponse (F := F)).

Record serving := mkServing {
  wire : conn_t;
  task : option (request_head * route_t);
  answering : option (HttpResponse (F := F));
  log : list event;
}.

Definition set_wire (c : conn_t) (s : serving) : serving := mkServing c (task s) (answering s) (log s).

(** What the parser and the router left for the task. *)
Definition task_of (c : conn_t) : option (request_head * route_t) :=
  match parsed c, route_result_ c with Some req, Some r => Some (req, r) | _, _ => None end.

(** The body is there: [DoForwardRequest]. *)
Definition forward (ec : bool) (c : conn_t) (s : serving) : serving :=
  mkServing (on_body ec c) (task_of c) (answering s) (log s).

(** Server and stream as the task leaves them. *)
Definition sync (t : task_t) (c : conn_t) : conn_t :=
  let c := if Lifecycle.closed t then Connection.DoClose c else c in
  set_environment (running c && srv_running t) (timer c) (expired c) c.

(** What the task flushed is on its way to the queue. *)
Definition flushes (a : action_t) : bool :=
  match a with DoFlushResponseBody _ _ | DoFlushResponseHeader _ _ => true | _ => false end.

Definition flush_count (acts : list action_t) : nat := length (List.filter flushes acts).

Definition flush (n : nat) (c : conn_t) : conn_t := set_queue (n + dispatched c) (queue c) c.

Definition final_of (t : task_t) : option action_t := List.find terminal (actions t).

(** The flushes and the final action of a task on the connection.  A WebSocket
    keeps it. *)
Definition conclude (req : request_head) (r : route_t) (t : task_t) (c c' : conn_t) (s : serving) : serving :=
  let done_log := log s ++ [Handled req r (actions t)] in
  let n := flush_count (actions t) in
  let c' := sync t (flush n c') in
  match final_of t with
  | Some (Lifecycle.DoWriteResponse resp ka e) => mkServing (Connection.DoWriteResponse ka e c') None (Some resp) done_log
  | Some ConnDoCycle => mkServing (Connection.DoCycle c') None None done_log
  | Some (StartWebSocket _ _) => mkServing (sync t (flush n c)) None None done_log
  | Some _ => mkServing (Connection.DoClose c') None None done_log
  | None => mkServing c' None None done_log
  end.

Definition sent (ec : bool) (s : serving) : list event :=
  if ec then log s else log s ++ (Sent <$> option_list (answering s)).

Inductive serve_step : serving -> serving -> Prop :=
  | serve_run s c : finish PostedRun (wire s) = Some c -> serve_step s (set_wire (on_run header_read_expiry_ c) s)
  | serve_header r rest s c :
      finish ReadHeader (wire s) = Some c ->
      serve_step s (set_wire (on_header parse_segments table r (received rest c)) s)
  | serve_body ec rest s c : finish ReadBody (wire s) = Some c -> serve_step s (forward ec (received rest c) s)
  | serve_task code req r s c :
      finish Handling (wire s) = Some c -> task s = Some (req, r) -> user req r code ->
      serve_step s (conclude req r (run_task req r code (running c) (closed_ c)) (wire s) c s)
  | serve_dispatched ka e s c :
      finish (DispatchedWrite ka e) (wire s) = Some c -> serve_step s (set_wire (on_dispatched_write ka e c) s)
  | serve_written ec ka e s c :
      finish (WriteResponse ka e) (wire s) = Some c ->
      serve_step s (mkServing (on_written ec ka c) (task s) None (sent ec s))
  | serve_expires t s :
      timer (wire s) = Some t ->
      serve_step s (set_wire (set_environment (running (wire s)) None (S (expired (wire s))) (wire s)) s)
  | serve_timeout n s :
      expired (wire s) = S n ->
      serve_step s (set_wire (on_timeout (set_environment (running (wire s)) (timer (wire s)) n (wire s))) s)
  | serve_stop s :
      serve_step s (set_wire (set_environment false (timer (wire s)) (expired (wire s)) (wire s)) s)
  | serve_drained s c :
      finish Draining (wire s) = Some c -> drained (queue (wire s)) = true ->
      serve_step s (set_wire (cycle_on header_read_expiry_ keep_alive_timeout_ c) s)
  | serve_enqueued n e s :
      dispatched (wire s) = S n ->
      serve_step s (set_wire (on_enqueued e (set_queue n (queue (wire s)) (wire s))) s)
  | serve_queue_written ec rest e more s :
      queue (wire s) = QueueWriting more -> rest <= more ->
      serve_step s (set_wire (on_queue_written ec rest e (wire s)) s).

Definition start_serving : serving := mkServing (Run (accepted (H := H) (A := A))) None None [].
Definition serve_reachable (s : serving) : Prop := rtc serve_step start_serving s.

(** ** A served connection is a connection *)

Abbreviation conn_step := (Connection.step parse_segments table header_read_expiry_ keep_alive_timeout_).

Lemma run_task_concluded req r code running cl : concluded (run_task req r code running cl).
Proof. by apply run_request_concluded. Qed.

Lemma final_of_Some t a : final_of t = Some a -> a ∈ actions t /\ terminal a = true.
Proof. intros Hf. apply List.find_some in Hf. by rewrite <- list_elem_of_In in Hf. Qed.

Lemma final_of_None t : concluded t -> final_of t = None -> Lifecycle.closed t = true.
Proof.
  intros (_ & [Hc|(a & Ha & Hta)] & _) Hf; [done|]. apply list_elem_of_In in Ha.
  pose proof (List.find_none _ _ Hf a Ha). congruence.
Qed.

Lemma finish_flush o n (c c' : conn_t) : finish o c = Some c' -> finish o (flush n c) = Some (flush n c').
Proof. unfold finish. cbn [pending flush set_queue]. case_match; [|done]. case_match. by intros [= <-]. Qed.

Lemma finish_pending o (c c' : conn_t) : finish o c = Some c' -> o ∈ pending c /\ running c' = running c.
Proof.
  unfold finish. destruct (list_find _ _) as [[i o']|] eqn:Hl; [|done]. intros [= <-].
  apply list_find_Some in Hl as (Hi & -> & _). split; [by eapply list_elem_of_lookup_2|done].
Qed.

(** What was flushed meanwhile. *)
Lemma flush_steps n (c : conn_t) : Handling ∈ pending c -> rtc conn_step c (flush n c).
Proof.
  intros Hin. induction n as [|n IH]; [destruct c; apply rtc_refl|]. eapply rtc_r; [exact IH|]. by apply (step_flush _ _ _ _ (flush n c)).
Qed.

(** The server may have stopped meanwhile. *)
Lemma stop_steps b (c : conn_t) : rtc conn_step c (set_environment (running c && b) (timer c) (expired c) c).
Proof.
  destruct b; [rewrite andb_true_r; by destruct c|]. rewrite andb_false_r. apply rtc_once, step_stop.
Qed.

(** The final action as the connection knows it. *)
Definition final_action_of (t : task_t) : final_action :=
  match final_of t with
  | Some (Lifecycle.DoWriteResponse _ ka e) => Respond ka e
  | Some ConnDoCycle => Cycle
  | _ => Close
  end.

(** The connection when the task ends. *)
Definition left_by (t : task_t) (c : conn_t) : conn_t := sync t (flush (flush_count (actions t)) c).

Lemma conclude_wire req r t w c s :
  concluded t -> (forall hdr h, final_of t <> Some (StartWebSocket hdr h)) ->
  wire (conclude req r t w c s) = on_final (final_action_of t) (left_by t c).
Proof.
  intros Ht Hws. unfold conclude, final_action_of. fold (left_by t c). pose proof (final_of_None t Ht) as Hnone.
  destruct (final_of t) as [[resp ka e| | |hdr h| |]|]; try done; [by destruct (Hws hdr h)|].
  cbn [wire on_final]. unfold left_by, sync. by rewrite Hnone.
Qed.

Lemma left_by_steps t (c : conn_t) : Handling ∈ pending c -> rtc conn_step c (left_by t c).
Proof.
  intros Hin. etrans; [by apply (flush_steps (flush_count (actions t)))|]. unfold left_by, sync.
  set (d := flush _ c). assert (Handling ∈ pending d) as Hd by done. clearbody d.
  destruct (Lifecycle.closed t); [|apply stop_steps].
  eapply rtc_l; [by apply step_close|]. apply stop_steps.
Qed.

Lemma left_by_finish o t (c c' : conn_t) : finish o c = Some c' -> finish o (left_by t c) = Some (left_by t c').
Proof.
  intros Hf%(finish_flush _ (flush_count (actions t))). unfold left_by, sync. revert Hf. generalize (flush (flush_count (actions t)) c'), (flush (flush_count (actions t)) c).
  intros d' d Hf. apply finish_pending in Hf as Hr. destruct Hr as [_ Hr]. revert Hf. unfold finish.
  destruct (Lifecycle.closed t); cbn [pending set_environment Connection.DoClose];
    case_match; (done || (case_match; intros [= <-]; done)).
Qed.

Lemma serve_step_wire s s' : serve_step s s' -> rtc conn_step (wire s) (wire s').
Proof.
  intros Hs. destruct Hs as [s c Hf|r rest s c Hf|ec rest s c Hf|code req r s c Hf Ht Hu|ka e s c Hf|ec ka e s c Hf
                            |t s Ht|n s Hn|s|s c Hf Hd|n e s Hn|ec rest e more s Hq Hm]; try (apply rtc_once; by econstructor).
  set (t := run_task _ _ _ _ _). pose proof (run_task_concluded req r code (running c) (closed_ c)) as Hc. fold t in Hc.
  pose proof (left_by_steps t (wire s) (proj1 (finish_pending _ _ _ Hf))) as Hst.
  destruct (final_of t) as [[resp ka e| | |hdr h| |]|] eqn:Hfin.
  4:{ unfold conclude. rewrite Hfin. exact Hst. }
  all: rewrite conclude_wire by (done || by rewrite Hfin);
    (eapply rtc_r; [exact Hst|]); apply step_final; by apply left_by_finish.
Qed.

(** Whatever holds of all reachable connections holds of the one that is served. *)
Lemma serve_reachable_wire s :
  serve_reachable s -> reachable parse_segments table header_read_expiry_ keep_alive_timeout_ (wire s).
Proof.
  intros Hs. unfold reachable. refine (rtc_invariant serve_step (fun s => rtc conn_step (Run accepted) (wire s)) _ _ _ Hs _); [|done].
  intros x y Hx Hxy. etrans; [exact Hx|]. by apply serve_step_wire.
Qed.
(** ** The exchange as the client sees it *)

(** A request, its answer, the next request, until the connection is not kept. *)
Inductive phase := Ready | Owes (resp : HttpResponse (F := F)) (keep_alive : bool) | Over.

Definition route_of (req : request_head) : route_t :=
  RouteInternal parse_segments (BeastHttpVerbToHttpRequestMethod (verb req)) (req_target req) table.

(** The route is the one of the request, has a handler, and allows the length. *)
Definition acceptable (req : request_head) (r : route_t) : Prop :=
  r = route_of req /\ is_Some (handler r) /\
  (max_body_size r <> 0%Z -> forall n, content_length req = Some n -> (n <= max_body_size r)%Z).

Definition phase_after (acts : list action_t) : phase :=
  match List.find terminal acts with
  | Some (Lifecycle.DoWriteResponse resp ka _) => Owes resp ka
  | Some ConnDoCycle => Ready
  | _ => Over
  end.

Inductive transcript : list event -> phase -> Prop :=
  | transcript_start : transcript [] Ready
  | transcript_handled l req r code running cl :
      transcript l Ready -> acceptable req r -> user req r code ->
      let acts := actions (run_task req r code running cl) in
      transcript (l ++ [Handled req r acts]) (phase_after acts)
  | transcript_sent l resp ka :
      transcript l (Owes resp ka) -> transcript (l ++ [Sent resp]) (if ka then Ready else Over).

(** What the connection does in each phase. *)
Definition coupled (s : serving) (p : phase) : Prop :=
  match pending (wire s) with
  | [PostedRun] | [ReadHeader] | [ReadBody] | [Draining] => p = Ready
  | [Handling] =>
      match task s with
      | Some (req, r) => p = Ready /\ acceptable req r
      | None => p = Over
      end
  | [DispatchedWrite ka _] | [WriteResponse ka _] => exists resp, answering s = Some resp /\ p = Owes resp ka
  | _ => True
  end.

Definition serve_inv (s : serving) : Prop :=
  cycle_inv parse_segments table (wire s) /\ exists p, transcript (log s) p /\ coupled s p.

(** Where the operations leave a connection that has nothing under way. *)
Definition waits (os : list operation) (c : conn_t) : Prop := pending c = [] \/ exists o, o ∈ os /\ pending c = [o].

Lemma start_waits o (c : conn_t) :
  pending c = [] -> waits [o] (if usable c then start o c else Connection.DoClose c).
Proof.
  intros Hp. case_match; [right|by left]. exists o. split; [by apply list_elem_of_singleton|]. cbn. by rewrite Hp.
Qed.

Lemma DoRoute_waits (c : conn_t) : pending c = [] -> waits [ReadBody] (DoRoute parse_segments table c).
Proof.
  intros Hp. unfold DoRoute. case_match; [|by left]. case_match; [by left|]. case_match; [|by left].
  apply start_waits. repeat case_match; cbn [pending set_body_limit Connection.DoClose];
    try rewrite ReserveRequestBodyBuffer_only, ReserveReadBuffer_only; cbn [pending set_buffer]; by rewrite pending_arm.
Qed.

Lemma DoCycle_waits (c : conn_t) : pending c = [] -> waits [Draining] (Connection.DoCycle c).
Proof. intros Hp. right. exists Draining. split; [apply list_elem_of_here|]. cbn. by rewrite Hp. Qed.

Lemma cycle_on_waits (c : conn_t) :
  pending c = [] -> waits [PostedRun] (cycle_on header_read_expiry_ keep_alive_timeout_ c).
Proof.
  intros Hp. unfold cycle_on. case_match; [|by left]. apply start_waits.
  by rewrite pending_arm, ReserveReadBuffer_only, ClearReadBuffer_only.
Qed.

Lemma waits_coupled os s p :
  waits os (wire s) -> (forall o, o ∈ os -> pending (wire s) = [o] -> coupled s p) -> coupled s p.
Proof. intros [Hp|(o & Ho & Hp)] Hos; [unfold coupled; by rewrite Hp|by eapply Hos]. Qed.

Lemma waits_ready o s :
  waits [o] (wire s) -> o ∈ [PostedRun; ReadHeader; ReadBody; Draining] -> coupled s Ready.
Proof.
  intros Hw Ho. apply (waits_coupled _ _ _ Hw). intros o' ->%list_elem_of_singleton Hp. unfold coupled. rewrite Hp.
  repeat (apply elem_of_cons in Ho as [-> | Ho]; [done|]). by apply not_elem_of_nil in Ho.
Qed.

Lemma sync_pending t c : pending (sync t c) = pending c.
Proof. unfold sync. by case_match. Qed.

Lemma conclude_coupled req r t w c s :
  pending w = [Handling] -> pending c = [] -> coupled (conclude req r t w c s) (phase_after (actions t)).
Proof.
  intros Hw Hc. unfold conclude, phase_after. change (List.find terminal (actions t)) with (final_of t).
  change (pending w) with (pending (flush (flush_count (actions t)) w)) in Hw.
  change (pending c) with (pending (flush (flush_count (actions t)) c)) in Hc.
  rewrite <- (sync_pending t) in Hc, Hw.
  destruct (final_of t) as [[resp ka e| | |hdr h| |]|];
    try (unfold coupled; cbn [wire task pending Connection.DoClose]; (by rewrite Hc) || by rewrite Hw).
  - apply (waits_coupled [DispatchedWrite ka e]); [by apply start_waits|].
    intros o ->%list_elem_of_singleton Hp. unfold coupled. rewrite Hp. by exists resp.
  - apply (waits_ready Draining); [by apply DoCycle_waits|set_solver].
Qed.

(** The body of an accepted request is read, and the request handed over. *)
Lemma forward_coupled ec rest s c p :
  cycle_inv parse_segments table (wire s) -> finish ReadBody (wire s) = Some c ->
  coupled s p -> coupled (forward ec (received rest c) s) p.
Proof.
  intros [Hl Hg] Hf Hp. destruct (finish_spec _ _ _ Hl Hf) as [Hpend ->]. set (c := received rest _).
  unfold coupled in Hp. rewrite Hpend in Hp. subst p. unfold coupled, forward, on_body, DoForwardRequest. cbn [wire task].
  destruct ec; [done|]. destruct (usable c) eqn:Hu; [|done]. cbn.
  unfold usable, IsStreamAvailable in Hu. cbn in Hu. apply andb_true_iff in Hu as [Hr Hcl%negb_true_iff].
  destruct (Hg Hr Hcl) as (o & Ho & Hgo). rewrite Hpend in Ho. injection Ho as <-.
  destruct Hgo as (req & Hq & Hrt & Hh & Hlim). unfold task_of. cbn. rewrite Hq, Hrt.
  split; [done|]. split_and!; [done|done|]. intros H0. by apply Hlim.
Qed.

Lemma serve_step_inv s s' : serve_inv s -> serve_step s s' -> serve_inv s'.
Proof.
  intros (Hcyc & p & Ht & Hp) Hs. split.
  { refine (rtc_invariant conn_step _ _ _ _ (serve_step_wire _ _ Hs) Hcyc). intros a b. apply cycle_step_inv. }
  destruct Hs as [s c Hf|r rest s c Hf|ec rest s c Hf|code req r s c Hf Htk Hu|ka e s c Hf|ec ka e s c Hf
                 |t s Htm|n s Hn|s|s c Hf Hd|n e s Hn|ec rest e more s Hq Hm]; try (by exists p);
    try (pose proof (finish_spec _ _ _ (proj1 Hcyc) Hf) as [Hpend Hc]).
  - exists p. split; [done|]. unfold coupled in Hp. rewrite Hpend in Hp. subst p.
    apply (waits_ready ReadHeader); [|set_solver]. subst c. apply start_waits. by rewrite pending_arm.
  - exists p. split; [done|]. unfold coupled in Hp. rewrite Hpend in Hp. subst p.
    apply (waits_ready ReadBody); [|set_solver]. subst c. destruct r; [by apply DoRoute_waits|by left].
  - exists p. split; [done|]. by apply forward_coupled.
  - exists (phase_after (actions (run_task req r code (running c) (closed_ c)))). split.
    + unfold coupled in Hp. rewrite Hpend, Htk in Hp. destruct Hp as [-> Ha].
      replace (log (conclude _ _ _ _ _ _)) with (log s ++ [Handled req r (actions (run_task req r code (running c) (closed_ c)))])
        by (unfold conclude; by repeat case_match).
      by apply transcript_handled.
    + apply conclude_coupled; [done|by subst c].
  - exists p. split; [done|]. unfold coupled in Hp. rewrite Hpend in Hp. destruct Hp as (resp & Ha & ->).
    unfold coupled, on_dispatched_write. subst c. cbn [wire set_wire].
    destruct (usable _); [|done]. cbn. rewrite pending_arm. by exists resp.
  - unfold coupled in Hp. rewrite Hpend in Hp. destruct Hp as (resp & Ha & ->).
    subst c. unfold sent, on_written. rewrite Ha. destruct ec; [by exists (Owes resp ka)|].
    exists (if ka then Ready else Over). split; [by apply transcript_sent|].
    destruct ka; [|done]. apply (waits_ready Draining); [by apply DoCycle_waits|set_solver].
  - exists p. split; [done|]. unfold coupled in Hp. rewrite Hpend in Hp. subst p.
    apply (waits_ready PostedRun); [subst c; by apply cycle_on_waits|set_solver].
  - exists p. split; [done|]. unfold coupled. cbn [wire set_wire task answering].
    by destruct (on_enqueued_same e (set_queue n (queue (wire s)) (wire s))) as [-> _].
  - exists p. split; [done|]. unfold coupled. cbn [wire set_wire task answering].
    by destruct (on_queue_written_same ec rest e (wire s)) as [-> _].
Qed.

Lemma serve_reachable_inv s : serve_reachable s -> serve_inv s.
Proof.
  intros Hs. refine (rtc_invariant serve_step serve_inv _ _ serve_step_inv Hs _).
  split; [by apply start_inv|]. exists Ready. split; [constructor|done].
Qed.

Lemma phase_after_owes acts resp ka :
  phase_after acts = Owes resp ka -> exists e, Lifecycle.DoWriteResponse resp ka e ∈ acts.
Proof.
  unfold phase_after. destruct (List.find terminal acts) as [[? ? e| | | | |]|] eqn:Hf; try done. intros [= -> ->].
  exists e. apply list_elem_of_In. by apply List.find_some in Hf as [? _].
Qed.

(** A response is owed to the request handled last. *)
Definition owed (l : list event) (resp : HttpResponse (F := F)) (ka : bool) : Prop :=
  exists l0 req r acts e, l = l0 ++ [Handled req r acts] /\ acceptable req r /\
    Lifecycle.DoWriteResponse resp ka e ∈ acts.

Lemma transcript_owes l resp ka : transcript l (Owes resp ka) -> owed l resp ka.
Proof.
  inversion 1 as [|l0 req r code run cl Hl Ha Hu acts Heq Hp|l0 resp' ka' Hl Heq Hp]; [|by destruct ka'].
  apply phase_after_owes in Hp as [e He]. unfold owed. by eauto 10.
Qed.

Lemma transcript_answers l p :
  transcript l p -> forall l1 l2 resp, l = l1 ++ Sent resp :: l2 ->
  exists ka, owed l1 resp ka /\ (l2 <> [] \/ p <> Over -> ka = true).
Proof.
  induction 1 as [|l req r code run cl Hl IH Ha Hu acts|l resp0 ka0 Hl IH]; intros l1 l2 resp Heq.
  - by destruct l1.
  - destruct l2 as [|x l2 _] using rev_ind.
    { apply app_inj_tail in Heq as [_ ?]. done. }
    rewrite app_comm_cons, app_assoc in Heq. apply app_inj_tail in Heq as [Heq _].
    destruct (IH _ _ _ Heq) as (ka & Ho & Hka). exists ka. split; [done|]. intros _. apply Hka. by right.
  - destruct l2 as [|x l2 _] using rev_ind.
    { apply app_inj_tail in Heq as [<- [= <-]]. exists ka0. split; [by apply transcript_owes|].
      by destruct ka0; intros [?|?]. }
    rewrite app_comm_cons, app_assoc in Heq. apply app_inj_tail in Heq as [Heq _].
    destruct (IH _ _ _ Heq) as (ka & Ho & Hka). exists ka. split; [done|]. intros _. apply Hka. by right.
Qed.

(** C17. Connection and tasks compose.  Whatever the requests, their code, the
    errors and the timeouts: the connection only does what [Connection] allows;
    what was handled and written so far is a transcript, each request handled with
    the route its target selects, which has a handler and allows its length, only
    after the one before it was answered or passed over by its own code, and none
    after an exchange that does not keep the connection; the phase of the transcript
    is what the connection is doing; and every response that was written is the one
    that the task of the request just before it ended with. *)
Theorem responses_match_requests (s : serving) :
  serve_reachable s ->
  reachable parse_segments table header_read_expiry_ keep_alive_timeout_ (wire s) /\
  (exists p, transcript (log s) p /\ coupled s p) /\
  (forall l1 l2 resp, log s = l1 ++ Sent resp :: l2 ->
     exists ka, owed l1 resp ka /\ (l2 <> [] -> ka = true)).
Proof.
  intros Hs. destruct (serve_reachable_inv s Hs) as (_ & p & Ht & Hp).
  split_and!; [by apply serve_reachable_wire|by exists p|]. intros l1 l2 resp Hl.
  destruct (transcript_answers _ _ Ht _ _ _ Hl) as (ka & Ho & Hka). exists ka. auto.
Qed.

(** ** Requests are answered *)

(** The connection is open, the server runs, and [o] is under way. *)
Definition doing (o : operation) (c : conn_t) : Prop := pending c = [o] /\ usable c = true.

Lemma finish_doing o c :
  doing o c -> exists c', finish o c = Some c' /\ pending c' = [] /\ usable c' = true /\
    running c' = true /\ closed_ c' = false /\ parsed c' = parsed c /\ route_result_ c' = route_result_ c.
Proof.
  intros [Hp Hu]. unfold finish. rewrite Hp. cbn. destruct (decide (o = o)); [|done]. cbn.
  eexists. split; [reflexivity|]. unfold usable, IsStreamAvailable in *. cbn in *.
  apply andb_true_iff in Hu as [Hr Hc]. rewrite negb_true_iff in Hc. by rewrite Hr, Hc.
Qed.

Lemma start_doing o c : pending c = [] -> usable c = true -> doing o (if usable c then start o c else Connection.DoClose c).
Proof. intros Hp Hu. rewrite Hu. split; [cbn; by rewrite Hp|done]. Qed.

Lemma DoRoute_doing c req :
  parsed c = Some req -> pending c = [] -> usable c = true -> acceptable req (route_of req) ->
  let c' := DoRoute parse_segments table c in
  doing ReadBody c' /\ parsed c' = Some req /\ route_result_ c' = Some (route_of req).
Proof.
  intros Hq Hp Hu (_ & [h Hh] & Hlim). unfold DoRoute. cbn [parsed CancelTimeout set_timer]. rewrite Hq.
  change (usable (CancelTimeout c)) with (usable c). rewrite Hu. cbn [negb].
  change (RouteInternal _ _ _ _) with (route_of req). set (r := route_of req) in *. rewrite Hh.
  set (c1 := ArmTimeout (read_expiry r) (set_route r (CancelTimeout c))).
  assert (pending c1 = [] /\ usable c1 = true /\ parsed c1 = Some req /\ route_result_ c1 = Some r) as (H1 & H2 & H3 & H4).
  { unfold c1. rewrite pending_arm, usable_arm. split_and!; [done|done|unfold ArmTimeout; by case_match..]. }
  assert (forall c2, pending c2 = [] -> usable c2 = true -> parsed c2 = Some req -> route_result_ c2 = Some r ->
    doing ReadBody (DoReadBody c2) /\ parsed (DoReadBody c2) = Some req /\ route_result_ (DoReadBody c2) = Some r) as Hread.
  { intros c2 P1 P2 P3 P4. split; [by apply start_doing|]. unfold DoReadBody. by rewrite P2. }
  destruct (Z.eqb_spec (max_body_size r) 0) as [|H0]; [by apply Hread|]. specialize (Hlim H0).
  destruct (content_length req) as [n|]; [|by apply Hread]. specialize (Hlim n eq_refl).
  destruct (Z.ltb_spec (max_body_size r) n); [lia|].
  rewrite ReserveRequestBodyBuffer_only, ReserveReadBuffer_only. by apply Hread.
Qed.

Lemma cycle_on_doing c :
  pending c = [] -> usable c = true -> doing PostedRun (cycle_on header_read_expiry_ keep_alive_timeout_ c).
Proof.
  intros Hp Hu. unfold cycle_on. rewrite Hu.
  apply start_doing; rewrite ?pending_arm, ?usable_arm, ReserveReadBuffer_only, ClearReadBuffer_only; done.
Qed.

(** A request the table accepts, and code that leaves the answer to the framework. *)
Definition servable (q : request_head * user_code) : Prop :=
  let r := route_of q.1 in
  acceptable q.1 r /\ user q.1 r q.2 /\
  belongs (code_pre q.2) (code_pre_tail q.2) (code_service q.2) (code_post q.2) (code_post_tail q.2)
    (mkClass plain_pre (plain_service (asks_upgrade q.1)) plain).

(** The request and its answer, in the log. *)
Definition answered (q : request_head * user_code) (l : list event) : Prop :=
  let r := route_of q.1 in
  exists resp, l = [Handled q.1 r [Lifecycle.DoWriteResponse resp true (RouteTable.write_expiry r)]; Sent resp].

Lemma servable_task req code :
  servable (req, code) ->
  let r := route_of req in
  let t := run_task req r code true false in
  Lifecycle.closed t = false /\ srv_running t = true /\
  exists resp, actions t = [Lifecycle.DoWriteResponse resp true (RouteTable.write_expiry r)].
Proof.
  intros ((_ & [h Hh] & _) & _ & Hc). cbn in Hh. cbn zeta. unfold run_task. rewrite Hh.
  destruct (plain_answered (length (aspects (route_of req))) true (RouteTable.write_expiry (route_of req)) (asks_upgrade req)
    _ _ _ _ _ (CreateTaskState true false) Hc eq_refl) as (? & ? & resp & ?).
  { split; [|done]. split; [done|]. unfold conn_inv, terminals. cbn. lia. }
  split_and!; [done|done|by exists resp].
Qed.

(** The request is read, routed and handed over. *)
Lemma request_taken s req :
  doing ReadHeader (wire s) -> acceptable req (route_of req) ->
  exists s', rtc serve_step s s' /\ doing Handling (wire s') /\ task s' = Some (req, route_of req) /\ log s' = log s.
Proof.
  intros Hd Ha. destruct (finish_doing _ _ Hd) as (c & Hf & Hp & Hu & _).
  set (s1 := set_wire (on_header parse_segments table (Some req) (received [] c)) s).
  destruct (DoRoute_doing (set_parsed req (received [] c)) req eq_refl Hp Hu Ha) as (Hd1 & Hq & Hr).
  change (DoRoute _ _ _) with (wire s1) in Hd1, Hq, Hr.
  destruct (finish_doing _ _ Hd1) as (c1 & Hf1 & Hp1 & Hu1 & _ & _ & Hq1 & Hr1).
  exists (forward false (received [] c1) s1). split_and!.
  - eapply rtc_l; [by apply serve_header|]. apply rtc_once. by apply serve_body.
  - cbn. unfold DoForwardRequest. change (usable (received [] c1)) with (usable c1). rewrite Hu1.
    split; [cbn; by rewrite Hp1|done].
  - unfold forward, task_of. cbn. by rewrite Hq1, Hr1, Hq, Hr.
  - done.
Qed.

(** The queue, if it writes, gets everything written. *)
Lemma queue_drained s o :
  doing o (wire s) ->
  exists s', rtc serve_step s s' /\ doing o (wire s') /\ drained (queue (wire s')) = true /\ log s' = log s.
Proof.
  intros Hd. destruct (queue (wire s)) as [|more|] eqn:Hq; [exists s; split_and!; [done|done|by rewrite Hq|done]| |exists s; split_and!; [done|done|by rewrite Hq|done]].
  exists (set_wire (on_queue_written false 0 0 (wire s)) s). split_and!; [|done..].
  apply rtc_once. eapply serve_queue_written; [exact Hq|lia].
Qed.

(** The response is written and the next header is read. *)
Lemma response_written s resp e :
  doing (DispatchedWrite true e) (wire s) -> answering s = Some resp ->
  exists s', rtc serve_step s s' /\ doing ReadHeader (wire s') /\ log s' = log s ++ [Sent resp].
Proof.
  intros Hd Ha. destruct (finish_doing _ _ Hd) as (c & Hf & Hp & Hu & _).
  set (s1 := set_wire (on_dispatched_write true e c) s).
  assert (doing (WriteResponse true e) (wire s1)) as Hd1.
  { cbn. unfold on_dispatched_write. rewrite Hu. split; [cbn; by rewrite pending_arm, Hp|].
    rewrite <- Hu. exact (usable_arm e c). }
  destruct (finish_doing _ _ Hd1) as (c1 & Hf1 & Hp1 & Hu1 & _).
  set (s2 := mkServing (on_written false true c1) (task s1) None (sent false s1)).
  assert (doing Draining (wire s2)) as Hd2 by (split; [cbn; by rewrite Hp1|done]).
  destruct (queue_drained _ _ Hd2) as (s3 & Hs3 & Hd3 & Hq3 & Hl3).
  destruct (finish_doing _ _ Hd3) as (c3 & Hf3 & Hp3 & Hu3 & _).
  set (s4 := set_wire (cycle_on header_read_expiry_ keep_alive_timeout_ c3) s3).
  assert (doing PostedRun (wire s4)) as Hd4 by by apply cycle_on_doing.
  destruct (finish_doing _ _ Hd4) as (c4 & Hf4 & Hp4 & Hu4 & _).
  exists (set_wire (on_run header_read_expiry_ c4) s4). split_and!.
  - eapply rtc_l; [by apply serve_dispatched|]. eapply rtc_l; [by eapply serve_written|]. etrans; [exact Hs3|].
    eapply rtc_l; [by apply serve_drained|]. apply rtc_once. by apply serve_run.
  - apply start_doing; [by rewrite pending_arm|by rewrite usable_arm].
  - cbn. rewrite Hl3. cbn. unfold sent. cbn. by rewrite Ha.
Qed.

Lemma request_answered s req code :
  doing ReadHeader (wire s) -> servable (req, code) ->
  exists s' l, rtc serve_step s s' /\ doing ReadHeader (wire s') /\ answered (req, code) l /\ log s' = log s ++ l.
Proof.
  intros Hd Hs. pose proof (servable_task _ _ Hs) as (Hcl & Hrun & resp & Hacts).
  destruct Hs as (Ha & Hu & _). destruct (request_taken s req Hd Ha) as (s1 & Hs1 & Hd1 & Ht1 & Hl1).
  destruct (finish_doing _ _ Hd1) as (c & Hf & Hp & Huc & Hr & Hc & _). cbn in Ha, Hu.
  set (r := route_of req) in *. set (t := run_task req r code true false) in *.
  assert (final_of t = Some (Lifecycle.DoWriteResponse resp true (RouteTable.write_expiry r))) as Hfin.
  { unfold final_of. by rewrite Hacts. }
  assert (serve_step s1 (conclude req r t (wire s1) c s1)) as Hst.
  { unfold t. rewrite <- Hr, <- Hc. by apply serve_task. }
  destruct (response_written (conclude req r t (wire s1) c s1) resp (RouteTable.write_expiry r)) as (s' & Hs' & Hd' & Hl').
  - unfold conclude. rewrite Hfin. apply start_doing; [by rewrite sync_pending|]. unfold sync. rewrite Hcl.
    unfold usable, IsStreamAvailable in *. cbn. by rewrite Hr, Hc, Hrun.
  - unfold conclude. by rewrite Hfin.
  - exists s', [Handled req r (actions t); Sent resp]. split_and!; [|done| |].
    + etrans; [exact Hs1|]. by eapply rtc_l.
    + exists resp. by rewrite Hacts.
    + rewrite Hl'. unfold conclude. rewrite Hfin. cbn. by rewrite Hl1, <- app_assoc.
Qed.

(** C18. Requests are answered, one after the other.  From any state in which the
    connection is open and reads a header while the server runs, and for any
    sequence of requests that the table accepts and whose code leaves the answer to
    the framework (no streaming; aspects that refuse included), there is a run in
    which they are all handled, in order, each with the route it selects, each
    answered with the response its task ended with before the next is handled; and
    at the end the connection reads the next header. *)
Theorem requests_answered (s : serving) (qs : list (request_head * user_code)) :
  doing ReadHeader (wire s) -> Forall servable qs ->
  exists s' ls, rtc serve_step s s' /\ doing ReadHeader (wire s') /\ Forall2 answered qs ls /\ log s' = log s ++ concat ls.
Proof.
  intros Hd Hqs. revert s Hd. induction Hqs as [|[req code] qs Hq Hqs IH]; intros s Hd.
  { exists s, []. split_and!; [done|done|constructor|by rewrite app_nil_r]. }
  destruct (request_answered s req code Hd Hq) as (s1 & l & Hs1 & Hd1 & Hl & Hlog).
  destruct (IH s1 Hd1) as (s' & ls & Hs' & Hd' & Hls & Hlog').
  exists s', (l :: ls). split_and!; [by etrans|done|by constructor|]. rewrite Hlog', Hlog. cbn. by rewrite <- app_assoc.
Qed.
End serving.

(** ** A sample: an upload is answered *)

Module Sample.
Abbreviation fields := (list (str * str)).
Abbreviation served := (serving (F := fields) (W := nat) (H := nat) (A := nat)).

Definition hello : user_code (F := fields) (W := nat) :=
  mkCode (fun _ _ => []) (fun _ => []) (fun _ => [ServiceCall (SetBody (lit "ok")); UpgradeToWebSocket (Some 7)])
    (fun _ _ => [AppendBody (lit "!")]) (fun _ => []).

Definition says_hello (_ : request_head) (_ : HttpRouteResultInternal nat nat) (code : user_code (F := fields) (W := nat)) : Prop :=
  code = hello.

Definition no_upgrade (_ : request_head) : bool := false.

Abbreviation sample_serves := (serve_step plain_segments upload_table 3000 15000 no_upgrade says_hello).

Definition on (o : operation) (f : StreamServerConnection (H := nat) (A := nat) -> served -> served) (s : served) : served :=
  from_option (fun c => f c s) s (finish o (wire s)).

Lemma on_step o f (s : served) :
  (match finish o (wire s) with Some _ => true | None => false end) = true ->
  (forall c, finish o (wire s) = Some c -> sample_serves s (f c s)) -> sample_serves s (on o f s).
Proof. unfold on. destruct (finish o (wire s)) as [c|]; [|done]. intros _ Hs. by apply Hs. Qed.

Definition listening : served := on PostedRun (fun c => set_wire (on_run 3000 c)) start_serving.
Definition routed : served :=
  on ReadHeader (fun c => set_wire (on_header plain_segments upload_table (Some upload) (received [] c))) listening.
Definition taken : served := on ReadBody (fun c => forward false (received [] c)) routed.
Definition upload_route : HttpRouteResultInternal nat nat := RouteInternal plain_segments 1 (lit "/up") upload_table.
Definition handled : served :=
  on Handling (fun c s => conclude upload upload_route
    (run_task no_upgrade upload upload_route hello (running c) (closed_ c)) (wire s) c s) taken.
Definition sending : served := on (DispatchedWrite true 4000) (fun c => set_wire (on_dispatched_write true 4000 c)) handled.
Definition answered_upload : served :=
  on (WriteResponse true 4000) (fun c s => mkServing (on_written false true c) (task s) None (sent false s)) sending.

Lemma listening_reachable : serve_reachable plain_segments upload_table 3000 15000 no_upgrade says_hello listening.
Proof. apply rtc_once, on_step; [vm_compute; reflexivity|]. intros c Hf. by apply serve_run. Qed.

Lemma answered_upload_reachable :
  serve_reachable plain_segments upload_table 3000 15000 no_upgrade says_hello answered_upload.
Proof.
  unfold serve_reachable. etrans; [exact listening_reachable|].
  apply (rtc_l _ _ routed); [|apply (rtc_l _ _ taken); [|apply (rtc_l _ _ handled); [|apply (rtc_l _ _ sending); [|apply rtc_once]]]].
  - apply on_step; [vm_compute; reflexivity|]. intros c Hf. by apply serve_header.
  - apply on_step; [vm_compute; reflexivity|]. intros c Hf. by apply serve_body.
  - apply on_step; [vm_compute; reflexivity|]. intros c Hf. by apply serve_task.
  - apply on_step; [vm_compute; reflexivity|]. intros c Hf. by apply serve_dispatched.
  - apply on_step; [vm_compute; reflexivity|]. intros c Hf. by eapply serve_written.
Qed.

Definition hello_response : HttpResponse (F := fields) := mkResponse (lit "ok") [].
Definition upload_handled : event :=
  Handled upload upload_route [Lifecycle.DoWriteResponse hello_response true 4000 : action (F := fields) (W := nat)].

Lemma responses_match_requests_witness :
  log answered_upload = [upload_handled; Sent hello_response] /\
  exists ka, owed plain_segments upload_table [upload_handled] hello_response ka.
Proof.
  assert (log answered_upload = [upload_handled; Sent hello_response]) as Hl by (vm_compute; reflexivity).
  split; [exact Hl|].
  destruct (responses_match_requests plain_segments upload_table 3000 15000 no_upgrade says_hello answered_upload
    answered_upload_reachable) as (_ & _ & Ho).
  destruct (Ho [upload_handled] [] hello_response Hl) as (ka & Hka & _). exists ka. exact Hka.
Defined.

Lemma hello_servable : servable plain_segments upload_table no_upgrade says_hello (upload, hello).
Proof.
  split; [|split; [done|]].
  - split_and!; [done|exists 5; vm_compute; reflexivity|]. intros _ n [= <-]. vm_compute. discriminate.
  - split; repeat constructor.
Qed.

Lemma requests_answered_witness :
  pending (wire listening) = [ReadHeader] /\
  exists s' ls, rtc sample_serves listening s' /\ doing ReadHeader (wire s') /\
    Forall2 (answered plain_segments upload_table) [(upload, hello); (upload, hello); (upload, hello)] ls /\
    log s' = log listening ++ concat ls.
Proof.
  split; [vm_compute; reflexivity|].
  apply (requests_answered plain_segments upload_table 3000 15000 no_upgrade says_hello listening).
  - split; vm_compute; reflexivity.
  - repeat (apply Forall_cons; split; [exact hello_servable|]). apply Forall_nil, I.
Defined.
End Sample.
