(* ===== verification/Streaming.v ===== *)
(** * Streamed responses and the threads that send them

    [DoCycle] of a connection first waits for the message queue to drain
    ([ClearMessage] and [MessageQueue::Wait]).  [MessageQueue] says when the wait is
    over; here are the threads.  The handlers of a connection run on the threads of
    its [io_context], one with SO_REUSEPORT, several on the fallback (http_server_accept.cc);
    a thread that waits runs no handlers.  What a task does on its connection
    ([Lifecycle]) is done on such a thread when its handler returns there, or on
    another one, of the worker pool or of the user. *)

From S2P Require Import Prelude HttpFields ServerCookie MessageQueue Lifecycle.

Section streaming.
Context {F : Type} {HF : HttpFields F} {W : Type}.

(** The threads of the [io_context] that run handlers, and those that wait: on it,
    or elsewhere. *)
Record io := mkIo {
  queue : MessageQueue F;
  free : nat;
  waiting_here : nat;
  waiting_elsewhere : nat;
}.

Definition set_queue (q : MessageQueue F) (w : io) : io := mkIo q (free w) (waiting_here w) (waiting_elsewhere w).

(** [Wait], called in a handler or elsewhere. *)
Definition WaitHere (w : io) : io :=
  if Wait_ready (queue w) then w else mkIo (queue w) (free w - 1) (S (waiting_here w)) (waiting_elsewhere w).
Definition WaitElsewhere (w : io) : io :=
  if Wait_ready (queue w) then w else mkIo (queue w) (free w) (waiting_here w) (S (waiting_elsewhere w)).

(** Who waits in [DoCycle] holds the connection, so [AddBody] and [AddHeader] find
    it ([conn_wp_.lock()] succeeds). *)
Inductive io_step : io -> io -> Prop :=
  | io_enqueue m w : 0 < free w -> io_step w (set_queue (EnqueueOnStrand m (queue w)) w)
  | io_complete ec op w :
      0 < free w -> outstanding (queue w) = Some op -> io_step w (set_queue (complete ec op (queue w)) w)
  | io_cycle_here w : 0 < free w -> io_step w (WaitHere w)
  | io_cycle_elsewhere w : io_step w (WaitElsewhere w)
  | io_wake_here n w :
      waiting_here w = S n -> Wait_ready (queue w) = true ->
      io_step w (mkIo (queue w) (S (free w)) n (waiting_elsewhere w))
  | io_wake_elsewhere n w :
      waiting_elsewhere w = S n -> Wait_ready (queue w) = true ->
      io_step w (mkIo (queue w) (free w) (waiting_here w) n)
  | io_close w : io_step w (set_queue (MessageQueue.DoClose (queue w)) w)
  | io_server b w : io_step w (set_queue (set_running b (queue w)) w).

Definition started (threads : nat) : io := mkIo new_queue threads 0 0.

(** Threads are not lost, and the queue does what [MessageQueue] says. *)
Definition io_inv (threads : nat) (w : io) : Prop := free w + waiting_here w = threads /\ queue_inv (queue w).

Lemma io_step_queue w w' : io_step w w' -> queue w' = queue w \/ MessageQueue.step (queue w) (queue w').
Proof.
  destruct 1 as [m w|ec op w _ Ho|w|w|n w|n w|w|b w]; unfold WaitHere, WaitElsewhere; try (left; by repeat case_match).
  - right. apply step_enqueue.
  - right. by apply MessageQueue.step_complete.
  - right. apply MessageQueue.step_close.
  - right. apply MessageQueue.step_server.
Qed.

Lemma io_step_inv threads w w' : io_inv threads w -> io_step w w' -> io_inv threads w'.
Proof.
  intros [Hf Hq] Hs. split.
  - destruct Hs; unfold WaitHere, WaitElsewhere; repeat case_match; cbn; lia.
  - destruct (io_step_queue _ _ Hs) as [-> |Hq']; [done|by eapply MessageQueue.step_inv].
Qed.

Lemma new_queue_inv : queue_inv (new_queue (Hd := F)).
Proof. apply MessageQueue.reachable_inv, rtc_refl. Qed.

Lemma io_reachable_inv threads w : rtc io_step (started threads) w -> io_inv threads w.
Proof.
  intros Hw. refine (rtc_invariant io_step (io_inv threads) _ _ (io_step_inv threads) Hw _).
  split; [cbn; lia|apply new_queue_inv].
Qed.

(** ** A wait that ends *)

Lemma drain_steps fuel w : 0 < free w -> rtc io_step w (set_queue (drain fuel (queue w)) w).
Proof.
  intros Hf. destruct w as [q f h e]. unfold set_queue. cbn [queue free waiting_here waiting_elsewhere] in *.
  revert q. induction fuel as [|fuel IH]; intros q; [apply rtc_refl|].
  cbn [drain]. destruct (outstanding q) as [op|] eqn:Ho; [|apply rtc_refl].
  eapply rtc_l; [exact (io_complete false op (mkIo q f h e) Hf Ho)|]. apply IH.
Qed.

(** As long as one thread runs handlers every wait ends: on a live connection the
    queue can be drained, everything is sent, and then all who wait go on. *)
Theorem waits_end threads w :
  rtc io_step (started threads) w -> 0 < free w -> alive (queue w) ->
  exists w', rtc io_step w w' /\ queue_ (queue w') = [] /\ Wait_ready (queue w') = true /\
    history (queue w') = history (queue w) /\ waiting_here w' = 0 /\ waiting_elsewhere w' = 0.
Proof.
  intros Hw Hf Hal. destruct (io_reachable_inv threads w Hw) as [_ Hq].
  destruct (queue_drain_spec (length (queue_ (queue w))) (queue w) Hq Hal) as (Hq' & He & Hh); [lia|].
  set (q := drain _ _) in *. assert (Wait_ready q = true) as Hr.
  { destruct Hq' as [(done & n & Hacc & _) _ _]. unfold Wait_ready. rewrite (acc_size _ _ _ Hacc), He. apply orb_true_r. }
  exists (mkIo q (free w + waiting_here w) 0 0). split_and!; [|done..].
  etrans; [by apply (drain_steps (length (queue_ (queue w))))|]. fold q. unfold set_queue. clearbody q.
  destruct w as [q0 f h e]. cbn [free waiting_here waiting_elsewhere]. clear - Hr.
  revert f. induction h as [|h IH]; intros f.
  - rewrite Nat.add_0_r. induction e as [|e IHe]; [apply rtc_refl|].
    eapply rtc_l; [exact (io_wake_elsewhere e (mkIo q f 0 (S e)) eq_refl Hr)|]. exact IHe.
  - eapply rtc_l; [exact (io_wake_here h (mkIo q f (S h) e) eq_refl Hr)|]. cbn.
    replace (f + S h) with (S f + h) by lia. apply IH.
Qed.

(** ** A wait that does not *)

(** All threads of the [io_context] wait for what only they could do. *)
Definition stuck (w : io) : Prop := free w = 0 /\ 0 < waiting_here w /\ Wait_ready (queue w) = false.

Lemma stuck_step w w' : stuck w -> io_step w w' -> stuck w'.
Proof.
  intros (Hf & Hh & Hr) Hs.
  destruct Hs as [m w H0|ec op w H0|w H0|w|n w _ Hr'|n w _ Hr'|w|b w]; try lia; try congruence; try done.
  unfold WaitElsewhere. by rewrite Hr.
Qed.

Theorem stuck_forever w w' : stuck w -> rtc io_step w w' -> stuck w'.
Proof. intros Hs Hr. by apply (rtc_invariant io_step stuck w w' stuck_step Hr). Qed.

(** ** Tasks that stream *)

(** What a task does on its connection, on a thread of the [io_context]: there
    [dispatch] runs at once. *)
Definition message_of (a : action (F := F) (W := W)) : option (message F) :=
  match a with
  | DoFlushResponseBody body e => Some (BodyMessage body e)
  | DoFlushResponseHeader header e => Some (HeaderMessage header e)
  | _ => None
  end.

Definition do_here (w : io) (a : action (F := F) (W := W)) : io :=
  match message_of a with
  | Some m => set_queue (EnqueueOnStrand m (queue w)) w
  | None => match a with ConnDoCycle => WaitHere w | _ => w end
  end.

Lemma enqueue_alive m (q : MessageQueue F) :
  alive q -> alive (EnqueueOnStrand m q) /\ queue_ (EnqueueOnStrand m q) = queue_ q ++ [m].
Proof.
  intros Ha. unfold EnqueueOnStrand. set (q1 := mkQueue _ _ _ _ _ _ _ _ _ _).
  destruct (StartWrite_alive q1 Ha) as (H1 & H2 & _). by rewrite H2.
Qed.

Lemma flushes_here acts w :
  Forall (fun a => is_Some (message_of a)) acts -> alive (queue w) -> queue_inv (queue w) ->
  let w' := foldl do_here w acts in
  alive (queue w') /\ queue_inv (queue w') /\ free w' = free w /\ waiting_here w' = waiting_here w /\
  length (queue_ (queue w')) = length (queue_ (queue w)) + length acts.
Proof.
  intros Hf. revert w. induction Hf as [|a acts [m Hm] Hf IH]; intros w Ha Hq; [cbn; split_and!; (done || lia)|].
  cbn [foldl]. assert (do_here w a = set_queue (EnqueueOnStrand m (queue w)) w) as -> by (unfold do_here; by rewrite Hm).
  destruct (enqueue_alive m (queue w) Ha) as [Ha' Hl].
  destruct (IH (set_queue (EnqueueOnStrand m (queue w)) w) Ha' (enqueue_inv m _ Hq)) as (H1 & H2 & H3 & H4 & H5).
  split_and!; try done. rewrite H5. cbn. rewrite Hl, length_app. cbn. lia.
Qed.

(** A handler that streams in manual mode and returns on the only thread of its
    [io_context], as the framework runs it: the cycle that follows waits for writes
    whose completions that thread would have to run, nothing else wakes it, and the
    thread is lost for all its connections.  (A time-out, the end of the server and
    other waits change nothing: they need the thread, or set flags that [Wait] does
    not look at.) *)
Theorem streamed_cycle_blocks acts w' :
  Forall (fun a => is_Some (message_of a)) acts -> acts <> [] -> (Z.of_nat (length acts) < size_t_mod)%Z ->
  rtc io_step (foldl do_here (started 1) (acts ++ [ConnDoCycle])) w' -> stuck w'.
Proof.
  intros Hf Hne Hlen. apply stuck_forever. rewrite foldl_app. cbn [foldl].
  destruct (flushes_here acts (started 1) Hf) as ([Hav Hd] & Hq & Hfree & Hwait & Hl); [done|apply new_queue_inv|].
  set (w := foldl do_here (started 1) acts) in *.
  assert (Wait_ready (queue w) = false) as Hr.
  { destruct Hq as [(done & n & Hacc & _) _ _]. unfold Wait_ready. rewrite Hd, (acc_size _ _ _ Hacc), Hl. cbn [orb].
    rewrite to_size_t_small by (unfold is_size_t; cbn; lia). apply Z.eqb_neq. destruct acts; [done|cbn; lia]. }
  unfold do_here. cbn [message_of]. unfold WaitHere. rewrite Hr. unfold stuck. cbn. rewrite Hfree. cbn. split_and!; [lia|lia|done].
Qed.

(** ** Where such actions come from *)

Definition stream_calls (header : F) (bodies : list str) : list (service_call (F := F) (W := W)) :=
  ServiceCall (SetManualConnectionManagement true) :: ServiceCall (Lifecycle.WriteHeader header)
    :: ((fun b => ServiceCall (Lifecycle.WriteBody b)) <$> bodies).

Lemma write_bodies e up bodies (s : HttpTaskSharedState (F := F) (W := W)) :
  conn s = true ->
  foldl (run_service_call e up) s ((fun b => ServiceCall (Lifecycle.WriteBody b)) <$> bodies) =
    mkState (resp s) (Lifecycle.set_cookies s) (conn s) (keep_alive s) (connection_mode s)
      (aspect_failure_marked s) (aspect_unwind_start_index s) (websocket_upgrade_state s)
      (websocket_upgrade_handler s) (srv_running s) (closed s)
      (actions s ++ ((fun b => DoFlushResponseBody b e) <$> bodies)) (trace s).
Proof.
  intros Hc. revert s Hc. induction bodies as [|b bodies IH]; intros s Hc; [rewrite app_nil_r; by destruct s|].
  rewrite !fmap_cons. cbn [foldl run_service_call run_call]. rewrite Hc, IH by done. cbn. by rewrite <- app_assoc, Hc.
Qed.

(** The documented way to stream (SetManualConnectionManagement, WriteHeader,
    WriteBody) ends in exactly these actions. *)
Lemma streaming_actions e up header bodies :
  actions (run_request 0 true e up (fun _ _ => []) (fun _ => []) (fun _ => stream_calls header bodies)
    (fun _ _ => []) (fun _ => []) (CreateTaskState true false)) =
  (DoFlushResponseHeader header e :: ((fun b => DoFlushResponseBody b e) <$> bodies)) ++ [ConnDoCycle].
Proof.
  unfold run_request, pre_released. cbn -[run_service stream_calls]. unfold service_phase. cbn -[run_service stream_calls].
  unfold run_service, stream_calls. cbn [foldl]. rewrite write_bodies by done. cbn. done.
Qed.

(** Put together: the handler is run, and its thread is gone. *)
Corollary streaming_handler_blocks e up header bodies w' :
  (Z.of_nat (S (length bodies)) < size_t_mod)%Z ->
  rtc io_step (foldl do_here (started 1)
    (actions (run_request 0 true e up (fun _ _ => []) (fun _ => []) (fun _ => stream_calls header bodies)
       (fun _ _ => []) (fun _ => []) (CreateTaskState true false)))) w' -> stuck w'.
Proof.
  intros Hlen. rewrite streaming_actions. apply streamed_cycle_blocks; [|done|cbn [length]; by rewrite length_fmap].
  constructor; [by eexists|]. apply Forall_fmap, Forall_true. intros b. by eexists.
Qed.

(** Nothing keeps a task from flushing without manual mode; then the final response
    is written while the flushed body still is. *)
Lemma automatic_flush_overlaps e up body :
  let t := run_request 0 true e up (fun _ _ => []) (fun _ => []) (fun _ => [ServiceCall (Lifecycle.WriteBody body)])
    (fun _ _ => []) (fun _ => []) (CreateTaskState true false) in
  actions t = [DoFlushResponseBody body e; DoWriteResponse (Lifecycle.mkResponse [] f_empty) true e] /\
  outstanding (queue (foldl do_here (started 1) (take 1 (actions t)))) = Some (MessageQueue.WriteBody 1).
Proof.
  cbn zeta. split; [reflexivity|]. cbn. unfold MessageQueue.ArmTimeout. by destruct (if (e <? e)%Z then e else e).
Qed.
End streaming.
